(* ===== verification/_CoqProject ===== *)
-Q . S2P
Prelude.v
Uthash.v
UthashBuckets.v
RecordFile.v
Lz4Format.v
Lz4Decode.v
Lz4Encode.v
Compress.v
CFormat.v
Buffer.v
ZlibDriver.v
StringUtils.v
Revision.v
ObjectStore.v
DocStore.v
BdbStore.v
SqliteStore.v
Codec.v
BsonCodec.v
CouchRevgen.v
Api.v
DbCache.v
NgxHandler.v
FcgiFormat.v
FcgiStream.v
FcgiWriter.v
FcgiReader.v
FcgiRequest.v
FcgiAnswer.v
FcgiEnds.v
FcgiManagement.v
AsyncIo.v
FcgiPrintf.v
FcgiPrintfRun.v
FcgiAccept.v
FcgiSockets.v
FcgiProcess.v
Pull.v
