(* ===== verification/Prelude.v ===== *)
(** * LoungeAct: verification development (root file)

    LoungeAct is a document store in C in the manner of CouchDB: JSON documents under string
    keys, each with a revision and a history of revisions, optimistic concurrency on update,
    and pull replication from a CouchDB server.  This development models the library and its
    web server module and proves what the operations do to the stored documents.

    ** The program and its model

    The layers, from the bottom, with the file that models each:

    - C memory, machine integers, effects: this file.  A block is the list of its bytes, and
      [mem_read], [mem_write], [mem_move] are undefined outside of it.  A computation is
      [M X A]: a function from a [world] to an outcome, which is a value with the world it
      leaves or a kind of undefined behaviour ([ub]).  The world holds the answers [malloc]
      will give ([w_alloc]), the contents fresh blocks have ([w_junk]), the number of blocks
      and references held ([w_live]), [errno] and the state [X] of what lies outside (a
      database, a server).  [wp m w Q] says that [m] runs from [w] without undefined
      behaviour and ends in [Q]; the theorems are proved with its rules.
    - utils/buffer.c: Buffer.  utils/stringutils.c, utils/hexdump.c: StringUtils.  printf and
      scanf conversions: CFormat.  utils/uthash.h: Uthash, as lists, for
      the components that use tables; UthashBuckets, with the buckets, for which Uthash stands.
    - revgen/revgen.c (revision identifiers as text): Revision.
    - Storage/ObjectStore.c (objects with their packed header, the registry of drivers, the
      calls through a store handle): ObjectStore.
    - The contract of a driver: DocStore, the class the upper layers are verified against.
      A document is a record of the deleted flag, the two sequence numbers, the revision, the
      old revisions and the data; [put_doc] says when a put is accepted and what it stores.
    - bdb-storage/ObjectStore-BDB.c: BdbStore, the driver over Berkeley DB, which is a class
      of operations with the laws of its documentation; [bdb_docstore] discharges the
      contract.
    - sqlite-storage/ObjectStore-sqlite.c: SqliteStore, the driver over SQLite, a class of
      operations on statements whose laws give the meaning of the driver's SQL texts.
    - compress-lz4/lz4/lz4.c: Lz4Format says what a block is and what it stands for, Lz4Decode
      and Lz4Encode hold the decoders and the compressors, over checked reads and writes.
      compress/compress.h and compress-lz4/compress-lz4.c: Compress.
    - compress-zlib/compress-zlib.c: ZlibDriver, over a class for zlib streams.
    - bptree/file.c (a file of records that nothing else uses): RecordFile.
    - codec-json/codec-json.c and Codec/Codec.h: Codec, renamed Jansson calls over a class
      that ties each value to a tree.  codec-bson/codec-bson.c, the codec that is not built:
      BsonCodec, whose state is a heap of values with counts of references.
    - revgen-couch/couch-revgen.c (the revision of a document: MD5 of an Erlang term):
      CouchRevgen.
    - api/api.c (hosts, databases, get, put, delete, replace, views): Api.
    - pull/pull.c (the change feed, fetching and merging revisions): Pull, over a class for
      libcurl and a server that is a function from URLs to answers.
    - ngx_http_loungeact/db_cache.c and ngx_http_loungeact.c: DbCache and NgxHandler.
    - loungeact_fastcgi/fcgiapp.c over os_unix.c, the other way to serve: FcgiFormat holds
      headers and records, FcgiStream the system below (connections, [read], [write],
      [accept]) and the structures, FcgiWriter and FcgiReader the two kinds of streams,
      FcgiRequest accepting and finishing, FcgiAnswer a request from end to end, FcgiEnds
      reading from any connection, FcgiManagement the records that ask for variables.  FcgiPrintf
      holds formatted output with a reference reading of formats, FcgiPrintfRun its runs over a
      stream.  AsyncIo
      holds the asynchronous calls of os_unix.c over [select], with procedures that are any
      function from what has happened to the operations they start.  FcgiAccept has the loops of
      [OS_Accept] with signals and the list of web servers, for which FcgiStream has one loop;
      FcgiSockets listening, connecting and starting servers, over a system that answers every
      call as any function of the calls before it; FcgiProcess the request of the process, the
      initialisation, the signals, and a server that uses them.  The pointers
      of a stream are offsets into its buffer; a connection is the pieces its reads will
      return, the sizes its writes will take, and what was written.

    A request goes down this list: NgxHandler opens a database through DbCache, calls Api,
    which serializes with Codec into a Buffer, deflates with Compress, names the revision with CouchRevgen
    and puts an object through ObjectStore's dispatch into a driver.  Pull calls Api for the
    local side.  An operation of a file has the name of the C function.  Return codes are
    kept as the integers or enumerations of the source; an out parameter is a component of
    the result; a structure that is modified through a pointer is returned in its new state.

    ** What the theorems show

    - The storage core (BdbStore): a put is the specification's put, or fails and changes
      nothing, and never leaves a transaction open; what is put is read back with its
      history; an iteration gives every document once in the order that the
      driver's own comparison gives the index its driver's callback fills.
    - The SQLite driver (SqliteStore): a put against a specification that has the driver's
      treatment of sequence numbers and full histories in it; a new document is read back;
      an updated one is not.
    - Compression: the compressor writes a well formed block of its input, every well formed
      block is expanded, the decoder stays in bounds and ends on any input (Lz4Encode,
      Lz4Decode); what each driver compresses it decompresses (Compress, ZlibDriver).
    - The database API (Api), for any driver that meets the contract: put, get, delete and
      replace against the map of documents, on every answer of the layers below, a success that
      stores nothing among them, with the blocks each leaves allocated.
    - Revisions: what is digested is the Erlang term of the update, for the numbers the code
      encodes as Erlang does, and determines the update (CouchRevgen); texts and bytes of
      revisions, identifiers and URLs round trip (Revision, StringUtils, Pull).
    - Replication (Pull): a run over a feed treats every entry as the history test that the code
      makes says, and, where no entry depends on the revision the test leaves out, as the test
      its comment describes; a repeated change does nothing, an unusable feed changes nothing.
    - The other codec (BsonCodec): after any calls, with memory or without, every value holds what
      its type says, the calls that are not defined are exactly the listed ones, and among them
      are the release of any last reference, which frees a value twice, and the use of an object
      whose table could not be made.
    - Data structures: buffers refine byte strings under every sequence of operations, but for
      the listed cases in which they do something else, which are stated too (Buffer); hash tables with their buckets behave as lists (UthashBuckets); objects hold what they are made from, and
      histories overlap when a revision but the last of the one is in the other (ObjectStore).
    - FastCGI: however a connection cuts up what a web server sends, a request is accepted
      with its parameters and its input can be read; whatever is put and flushed, the server
      gets records that carry the bytes of either stream and one end of the request, and no
      memory is lost (FcgiAnswer); reading ends on any bytes (FcgiEnds); three variables can
      be asked for in one record, four overrun a block (FcgiManagement).  Formatted output
      is that of the reference as long as fields are narrower than a hundred characters, and
      runs over its buffer beyond (FcgiPrintfRun).  Asynchronous calls
      keep the table, the sets and the counts in step, and a step completes every operation
      whose file is ready (AsyncIo).  The loops of [OS_Accept] accept what one loop accepts, and
      hang when the signal to end follows a refused client (FcgiAccept); a listening socket is
      bound to the address its text stands for (FcgiSockets); a process that serves any number
      of requests answers each with what its application makes of it (FcgiProcess).
    - The web server module (NgxHandler): what is sent for every request that names a database,
      headers first.
    - Behaviour of the code that is not what it means to do, stated as theorems where it can
      be: an object without history put over one with history is read out of bounds; drivers
      and cached databases are filed under pointers and not found by name; the default
      resolver refuses every first update; a request for a document writes through NULL; the
      root request is not answered; after a procedure closes a file that was found ready no
      file is ever waited for again; a compressed document that is damaged is decoded again and
      again.

    ** Bounds and fuel

    [size_t] and [uint64_t] are [Z] with [u64], [uint32_t] with [u32]; the bit field
    [rev_count] is reduced modulo [2 ^ 15]; theorems carry the bounds under which no
    operation wraps, and the wrap-around itself is in the definitions.  [hash_value] recurses
    on documents with fuel: [fuel_for] of the tree is enough ([la_revgen_digest]).  The loops
    of StringUtils, CFormat and ObjectStore count down a bound computed from their argument.
    Loops that C leaves open have a fuel argument whose sufficiency is proved where it is
    used:
    [drain] in BdbStore needs one step more than there are documents, the growing loop of
    Compress [grow_fuel] turns for the size of the text, those of ZlibDriver [z_fuel].  The loops of LZ4 have [steps] turns,
    the distance to the end of what they read or write: [Undef Diverges] is what running out
    gives, and the theorems exclude it.  The FastCGI readers have one fuel, more than the bytes
    that are still to come; [write_fuel] is one more than the answers a connection has for
    writes, [put_fuel] two turns for a byte.  Lengths in LZ4 are [int]s: the decoder is safe on any
    input up to [SAFE_INPUT] bytes and on well formed blocks of any size an [int] can hold,
    the driver up to [LZ4_TEXT].

    ** Assumptions

    The FastCGI sockets deliver what they are given to deliver; the streams (FcgiStream) leave
    out what [OS_Close] does for the asynchronous calls, which they do not use, and what it reads
    and throws away; AsyncIo has both.  What [sprintf] makes of floating point numbers and
    pointers, [frexp] and the conversion of a long double to a double are arguments, bounded as the
    C standard bounds them; its other conversions are defined.  [vsnprintf] answers -1 for what is
    longer than an [int] can say.  The tables of the BSON codec are a class that may refuse memory.  Procedures do not call [OS_DoIo] themselves.  Berkeley DB, SQLite, Jansson, zlib, libcurl, MD5 and nginx are not part of the sources.  Each is
    a class of operations or an argument, with laws only where a theorem relies on documented
    behaviour; every class of laws has an instance built here, on which the theorems'
    witnesses run.  The code is modelled for a 64 bit little endian machine; pointers into a
    block are offsets.  Signals arrive by the end of a call of
    [accept] (FcgiAccept) and nowhere else; threads and the locks around
    them are not modelled: calls are atomic and do not interleave.

    ** Not modelled

    Of FastCGI the locks, which the configuration leaves out, and the main program, which does
    not compile; of the BSON codec, which does not compile either (a case label occurs twice, and
    the header of its hash tables is missing), what is only declared or has no end; of the JSON
    codec the renamed calls that nothing here uses; the hash functions and operations of uthash the
    program does not use, the test programs, the sources that are stubs (push.c, js-mapreduce.c, btree.c, the top
    ngx_http_loungeact.c), debug output, and the build files. *)

From Stdlib Require Export ZArith Lia.
From Stdlib Require Import Init.Byte Strings.Byte Strings.String.
From stdpp Require Export base list gmap option numbers.
Export Strings.String.StringSyntax.

#[global] Open Scope Z_scope.

Declare Scope c_scope.
Delimit Scope c_scope with c.

(** ** Bytes *)

(** [unsigned char]: the eight bit bytes of the standard library. *)
Abbreviation byte := Byte.byte.

(** The value of a byte, in [0, 256). *)
Definition b2z (b : byte) : Z := Z.of_N (Byte.to_N b).

(** Conversion to [unsigned char]: reduction modulo 256. *)
Definition z2b (z : Z) : byte :=
  match Byte.of_N (Z.to_N (z mod 256)) with Some b => b | None => x00 end.

(** A C string literal as the bytes before its terminator. *)
Definition lit (s : string) : list byte := String.list_byte_of_string s.
Arguments lit s%_string.

Definition NUL : byte := x00.

#[export] Instance byte_eq_dec : EqDecision byte := Byte.byte_eq_dec.

#[export] Instance byte_countable : Countable byte :=
  inj_countable Byte.to_N Byte.of_N Byte.of_to_N.

(** ** Machine integers: values in Z with the wrap-around written out *)

Definition SIZE_MAX : Z := 2 ^ 64 - 1.
Definition PTRDIFF_MAX : Z := 2 ^ 63 - 1.

Definition u8 (z : Z) : Z := z mod 2 ^ 8.
Definition u16 (z : Z) : Z := z mod 2 ^ 16.
Definition u32 (z : Z) : Z := z mod 2 ^ 32.
Definition u64 (z : Z) : Z := z mod 2 ^ 64.
Definition s16 (z : Z) : Z := (z + 2 ^ 15) mod 2 ^ 16 - 2 ^ 15.
Definition s32 (z : Z) : Z := (z + 2 ^ 31) mod 2 ^ 32 - 2 ^ 31.
Definition s64 (z : Z) : Z := (z + 2 ^ 63) mod 2 ^ 64 - 2 ^ 63.

Lemma u64_small z : 0 <= z <= SIZE_MAX -> u64 z = z.
Proof. unfold SIZE_MAX, u64. intros. apply Z.mod_small. lia. Qed.

Lemma s64_small z : 0 <= z < 2 ^ 63 -> s64 z = z.
Proof. unfold s64. intros. rewrite Z.mod_small; lia. Qed.

Lemma s32_small z : 0 <= z < 2 ^ 31 -> s32 z = z.
Proof. unfold s32. intros. rewrite Z.mod_small; lia. Qed.

(** C truth values. *)
Definition c_bool (b : bool) : Z := if b then 1 else 0.

(** [errno] values the code stores. *)
Definition EINVAL : Z := 22.
Definition ENOMEM : Z := 12.
Definition EEXIST : Z := 17.
Definition ENOENT : Z := 2.

(** What [stat] says of a path. *)
Inductive path_status := IsDirectory | NotDirectory | NoEntry | StatFails.

(** ** Outcomes: a C computation returns, or its behaviour is undefined *)

(** [Diverges] is the outcome of a modelled loop that has not ended within its fuel: a theorem
    that a run returns shows the fuel to be enough.  [AssertFails] ends the program,
    as [Exits] does, a call of [exit]. *)
Inductive ub :=
| OutOfBounds | NullDeref | UseAfterFree | DoubleFree | Uninitialised
| SignedOverflow | WrongType | AssertFails | Exits | Diverges.

Inductive outcome (A : Type) :=
| Ret (a : A)
| Undef (u : ub).
Arguments Ret {A} a.
Arguments Undef {A} u.

(** Sequencing of computations that only read and write blocks. *)
Definition obind {A B} (o : outcome A) (k : A -> outcome B) : outcome B :=
  match o with Ret a => k a | Undef u => Undef u end.

Notation "'let+' x := o 'in' k" := (obind o (fun x => k))
  (at level 10, x binder, o at level 100, k at level 200,
   format "'[hv' 'let+'  x  :=  o  'in'  '//' k ']'") : c_scope.

(** A sum of [int]s. *)
Definition INT_MAX : Z := 2 ^ 31 - 1.

Definition add_int (a b : Z) : outcome Z :=
  if (- 2 ^ 31 <=? a + b) && (a + b <=? INT_MAX) then Ret (a + b) else Undef SignedOverflow.

(** The part of the machine the code observes through the C library: which of the next
    [malloc]/[realloc] calls succeed (all of them once the list is used up), what fresh
    memory contains, the number of live heap blocks, [errno], and [ext], the state of the
    component the code runs against (a database, a file). *)
Record world (X : Type) := World {
  w_alloc : list bool;
  w_junk : nat -> byte;
  w_live : Z;
  w_errno : Z;
  w_ext : X;
}.
Arguments World {X}.
Arguments w_alloc {X}.
Arguments w_junk {X}.
Arguments w_live {X}.
Arguments w_errno {X}.
Arguments w_ext {X}.

(** Effectful C functions. *)
Definition M (X A : Type) : Type := world X -> outcome (A * world X).

Section monad.
Context {X : Type}.

Definition ret {A} (a : A) : M X A := fun w => Ret (a, w).

Definition bind {A B} (m : M X A) (k : A -> M X B) : M X B := fun w =>
    match m w with
    | Ret (a, w') => k a w'
    | Undef u => Undef u
    end.

Definition undef {A} (u : ub) : M X A := fun _ => Undef u.

Definition lift {A} (o : outcome A) : M X A := fun w =>
    match o with Ret a => Ret (a, w) | Undef u => Undef u end.

Definition set_errno (e : Z) : M X unit := fun w =>
    Ret (tt, World (w_alloc w) (w_junk w) (w_live w) e (w_ext w)).

Definition get_ext : M X X := fun w => Ret (w_ext w, w).

Definition put_ext (x : X) : M X unit := fun w =>
    Ret (tt, World (w_alloc w) (w_junk w) (w_live w) (w_errno w) x).

(** A call of the outside. *)
Definition call {A} (f : X -> A * X) : M X A := fun w =>
    let '(a, x) := f (w_ext w) in
    Ret (a, World (w_alloc w) (w_junk w) (w_live w) (w_errno w) x).

Definition call_ (f : X -> X) : M X unit := call (fun x => (tt, f x)).
End monad.

Notation "'let*' x := m 'in' k" := (bind m (fun x => k))
  (at level 10, x binder, m at level 100, k at level 200,
   format "'[hv' 'let*'  x  :=  m  'in'  '//' k ']'") : c_scope.
Notation "m1 ;;; m2" := (bind m1 (fun _ => m2))
  (at level 60, right associativity) : c_scope.

(** ** Memory blocks *)

(** [len] bytes of a block from [off]. *)
Definition mem_read (blk : list byte) (off len : Z) : outcome (list byte) :=
  if (0 <=? off) && (0 <=? len) && (off + len <=? Z.of_nat (length blk))
  then Ret (take (Z.to_nat len) (drop (Z.to_nat off) blk))
  else Undef OutOfBounds.

(** [memcpy] of [data] into a block at [off]. *)
Definition mem_write (blk : list byte) (off : Z) (data : list byte) : outcome (list byte) :=
  if (0 <=? off) && (off + Z.of_nat (length data) <=? Z.of_nat (length blk))
  then Ret (take (Z.to_nat off) blk ++ data ++ drop (Z.to_nat off + length data) blk)
  else Undef OutOfBounds.

(** [memmove] inside one block. *)
Definition mem_move (blk : list byte) (dst src len : Z) : outcome (list byte) :=
  match mem_read blk src len with
  | Ret data => mem_write blk dst data
  | Undef u => Undef u
  end.

(** The C string that starts a block: the bytes before the first NUL; reading on past the
    end of a block without one is undefined. *)
Fixpoint cstr (blk : list byte) : outcome (list byte) :=
  match blk with
  | [] => Undef OutOfBounds
  | b :: blk' =>
      if Byte.eqb b NUL then Ret []
      else match cstr blk' with Ret s => Ret (b :: s) | Undef u => Undef u end
  end.

(** ** The allocator *)

Definition junk_block {X} (w : world X) (n : nat) : list byte := map (w_junk w) (seq 0 n).

Definition alloc_result {X} (n : Z) (w : world X) : bool :=
  (0 <=? n) && (n <=? PTRDIFF_MAX) && match w_alloc w with [] => true | b :: _ => b end.

Definition after_alloc {X} (n : Z) (dlive : Z) (w : world X) : world X :=
  World (tail (w_alloc w)) (w_junk w)
        (if alloc_result n w then w_live w + dlive else w_live w)
        (if alloc_result n w then w_errno w else ENOMEM) (w_ext w).

Definition malloc {X} (n : Z) : M X (option (list byte)) := fun w =>
  Ret (if alloc_result n w then Some (junk_block w (Z.to_nat n)) else None, after_alloc n 1 w).

(** [realloc] keeps the common prefix; the old block stays valid when it fails. *)
Definition realloc {X} (blk : list byte) (n : Z) : M X (option (list byte)) := fun w =>
  Ret (if alloc_result n w
       then Some (take (Z.to_nat n) (blk ++ junk_block w (Z.to_nat n)))
       else None, after_alloc n 0 w).

Definition free {X} : M X unit := fun w =>
  Ret (tt, World (w_alloc w) (w_junk w) (w_live w - 1) (w_errno w) (w_ext w)).

(** A block a library allocates and its caller has to free. *)
Definition lib_alloc {X} : M X unit := fun w =>
  Ret (tt, World (w_alloc w) (w_junk w) (w_live w + 1) (w_errno w) (w_ext w)).

(** ** Weakest preconditions: a run from [w] is defined and its result satisfies [Q] *)

Definition wp {X A} (m : M X A) (w : world X) (Q : A -> world X -> Prop) : Prop :=
  match m w with Ret (a, w') => Q a w' | Undef _ => False end.

(** [frame d w w'] says what a step that only uses the heap does to the world: it leaves the
    component's state alone, the number of live blocks changes by [d], and an allocator
    that never fails stays one that never fails. *)
Definition mem_ok {X} (w : world X) : Prop := w_alloc w = [].

Definition frame {X} (d : Z) (w w' : world X) : Prop :=
  w_ext w' = w_ext w /\ w_live w' = w_live w + d /\ (mem_ok w -> mem_ok w').

Section wp.
Context {X : Type}.
Implicit Types w : world X.

Lemma wp_ret {A} (a : A) w Q : Q a w -> wp (ret a) w Q.
  Proof. done. Qed.

Lemma wp_bind {A B} (m : M X A) (k : A -> M X B) w Q :
    wp m w (fun a w' => wp (k a) w' Q) -> wp (bind m k) w Q.
  Proof. unfold wp, bind. destruct (m w) as [[a w']|u]; done. Qed.

Lemma wp_mono {A} (m : M X A) w (Q Q' : A -> world X -> Prop) :
    wp m w Q -> (forall a w', Q a w' -> Q' a w') -> wp m w Q'.
  Proof. unfold wp. destruct (m w) as [[a w']|u]; naive_solver. Qed.

Lemma wp_run {A} (m : M X A) w Q :
    wp m w Q <-> exists a w', m w = Ret (a, w') /\ Q a w'.
  Proof.
    unfold wp. destruct (m w) as [[a w']|u]; split.
    - eauto.
    - by intros (? & ? & [= -> ->] & ?).
    - done.
    - by intros (? & ? & ? & ?).
  Qed.

Lemma wp_ext {A} (m m' : M X A) w Q : m w = m' w -> wp m' w Q -> wp m w Q.
  Proof. unfold wp. by intros ->. Qed.

Lemma wp_eq {A} (m : M X A) w a w' Q : m w = Ret (a, w') -> Q a w' -> wp m w Q.
  Proof. unfold wp. by intros ->. Qed.

Lemma wp_lift {A} (a : A) w Q : Q a w -> wp (lift (Ret a)) w Q.
  Proof. done. Qed.

Lemma frame_refl w : frame 0 w w.
  Proof. split; [done | split; [lia | done]]. Qed.

Lemma frame_trans d1 d2 w1 w2 w3 :
    frame d1 w1 w2 -> frame d2 w2 w3 -> frame (d1 + d2) w1 w3.
  Proof.
    intros (E1 & L1 & O1) (E2 & L2 & O2).
    split; [congruence | split; [lia | auto]].
  Qed.

Lemma frame_eq d d' w w' : frame d w w' -> d = d' -> frame d' w w'.
  Proof. by intros ? <-. Qed.

Lemma frame_ext d w w' : frame d w w' -> w_ext w' = w_ext w.
  Proof. by intros (? & _). Qed.

Lemma frame_mem_ok d w w' : frame d w w' -> mem_ok w -> mem_ok w'.
  Proof. by intros (_ & _ & ?). Qed.

Lemma wp_set_errno e w Q :
    (forall w', frame 0 w w' -> w_errno w' = e -> Q tt w') -> wp (set_errno e) w Q.
  Proof. intros H. apply H; [|done]. repeat split; [simpl; lia | done]. Qed.

Lemma alloc_result_false n w :
    0 <= n -> alloc_result n w = false -> ~ (mem_ok w /\ n <= PTRDIFF_MAX).
  Proof.
    unfold alloc_result, mem_ok. intros Hn H [Ho Hm]. rewrite Ho in H. lia.
  Qed.

Lemma alloc_result_true n w : alloc_result n w = true -> 0 <= n <= PTRDIFF_MAX.
  Proof. unfold alloc_result. lia. Qed.

Lemma after_alloc_frame n d w :
    frame (if alloc_result n w then d else 0) w (after_alloc n d w).
  Proof.
    unfold frame, after_alloc, mem_ok; simpl. split; [done|].
    split; [destruct (alloc_result n w); lia | intros ->; done].
  Qed.

  (** The two outcomes of an allocation; the second needs a failing allocator or a request
      no object can have. *)
Lemma wp_malloc n w Q :
    0 <= n ->
    (forall blk w', length blk = Z.to_nat n -> n <= PTRDIFF_MAX -> frame 1 w w' ->
       w_errno w' = w_errno w -> Q (Some blk) w') ->
    (forall w', ~ (mem_ok w /\ n <= PTRDIFF_MAX) -> frame 0 w w' ->
       w_errno w' = ENOMEM -> Q None w') ->
    wp (malloc n) w Q.
  Proof.
    intros Hn Hs Hf. unfold wp, malloc.
    pose proof (after_alloc_frame n 1 w) as Hfr.
    destruct (alloc_result n w) eqn:E.
    - apply Hs; [| apply alloc_result_true in E; lia | done | by simpl; rewrite E].
      unfold junk_block. by rewrite length_map, length_seq.
    - apply Hf; [by apply alloc_result_false | done | by simpl; rewrite E].
  Qed.

Lemma wp_realloc blk n w Q :
    0 <= n ->
    (forall blk' w', length blk' = Z.to_nat n ->
       take (Nat.min (length blk) (Z.to_nat n)) blk' = take (Z.to_nat n) blk ->
       n <= PTRDIFF_MAX -> frame 0 w w' -> w_errno w' = w_errno w -> Q (Some blk') w') ->
    (forall w', ~ (mem_ok w /\ n <= PTRDIFF_MAX) -> frame 0 w w' ->
       w_errno w' = ENOMEM -> Q None w') ->
    wp (realloc blk n) w Q.
  Proof.
    intros Hn Hs Hf. unfold wp, realloc.
    pose proof (after_alloc_frame n 0 w) as Hfr.
    destruct (alloc_result n w) eqn:E.
    - apply Hs; [| | apply alloc_result_true in E; lia | done | by simpl; rewrite E].
      + rewrite length_take, length_app. unfold junk_block.
        rewrite length_map, length_seq. lia.
      + rewrite take_take.
        destruct (decide (length blk <= Z.to_nat n)%nat).
        * rewrite (take_ge blk) by lia.
          replace (Nat.min (Nat.min _ _) _) with (length blk) by lia.
          apply take_app_length.
        * replace (Nat.min (Nat.min _ _) _) with (Z.to_nat n) by lia.
          apply take_app_le. lia.
    - apply Hf; [by apply alloc_result_false | done | by simpl; rewrite E].
  Qed.

Lemma wp_free w Q : (forall w', frame (-1) w w' -> w_errno w' = w_errno w -> Q tt w') ->
    wp free w Q.
  Proof. intros H. apply H; [|done]. by repeat split. Qed.

Lemma wp_lib_alloc w Q : (forall w', frame 1 w w' -> Q tt w') -> wp lib_alloc w Q.
  Proof. intros H. apply H. by repeat split. Qed.

Lemma wp_get_ext w Q : Q (w_ext w) w -> wp get_ext w Q.
  Proof. done. Qed.

Lemma wp_put_ext x w Q :
    (forall w', w_ext w' = x -> w_live w' = w_live w -> w_alloc w' = w_alloc w ->
       w_errno w' = w_errno w -> Q tt w') -> wp (put_ext x) w Q.
  Proof. intros H. by apply H. Qed.
End wp.

(** ** Lists, bytes and integers *)

Lemma add_int_small a b : 0 <= a -> 0 <= b -> a + b <= INT_MAX -> add_int a b = Ret (a + b).
Proof.
  intros Ha Hb Hs. unfold add_int. rewrite (proj2 (Z.leb_le _ _)) by lia.
  by rewrite (proj2 (Z.leb_le _ _)).
Qed.

Lemma b2z_range b : 0 <= b2z b < 256.
Proof.
  unfold b2z. pose proof (Byte.to_N_bounded b). lia.
Qed.

Lemma z2b_b2z b : z2b (b2z b) = b.
Proof.
  unfold z2b. rewrite Z.mod_small by apply b2z_range. unfold b2z.
  by rewrite N2Z.id, Byte.of_to_N.
Qed.

Lemma b2z_z2b z : b2z (z2b z) = z mod 256.
Proof.
  unfold z2b. pose proof (Z.mod_pos_bound z 256 ltac:(lia)) as Hb.
  destruct (Byte.of_N (Z.to_N (z mod 256))) eqn:E.
  - apply Byte.to_of_N in E. unfold b2z. rewrite E. lia.
  - apply Byte.of_N_None_iff in E. lia.
Qed.

Lemma b2z_inj b1 b2 : b2z b1 = b2z b2 -> b1 = b2.
Proof. intros H. by rewrite <- (z2b_b2z b1), H, z2b_b2z. Qed.

Lemma byte_eqb_spec (x y : byte) : reflect (x = y) (Byte.eqb x y).
Proof.
  destruct (Byte.eqb x y) eqn:E; constructor.
  - by apply Byte.byte_dec_bl.
  - intros H. apply Byte.byte_dec_lb in H. congruence.
Qed.

Lemma mem_read_ok blk off len :
  0 <= off -> 0 <= len -> off + len <= Z.of_nat (length blk) ->
  mem_read blk off len = Ret (take (Z.to_nat len) (drop (Z.to_nat off) blk)).
Proof. intros. unfold mem_read. by rewrite !(proj2 (Z.leb_le _ _)) by lia. Qed.

Lemma mem_read_oob blk off len :
  Z.of_nat (length blk) < off + len -> mem_read blk off len = Undef OutOfBounds.
Proof.
  intros. unfold mem_read. rewrite (proj2 (Z.leb_gt (off + len) _)) by lia.
  by rewrite !andb_false_r.
Qed.

Lemma mem_read_inv blk off len d :
  mem_read blk off len = Ret d ->
  0 <= off /\ 0 <= len /\ off + len <= Z.of_nat (length blk) /\
  d = take (Z.to_nat len) (drop (Z.to_nat off) blk).
Proof.
  unfold mem_read. destruct (_ && _) eqn:E; [|done]. intros [= <-].
  apply andb_true_iff in E as [E ?]. apply andb_true_iff in E as [? ?].
  repeat split; lia.
Qed.

Lemma mem_write_ok blk off data :
  0 <= off -> off + Z.of_nat (length data) <= Z.of_nat (length blk) ->
  mem_write blk off data =
    Ret (take (Z.to_nat off) blk ++ data ++ drop (Z.to_nat off + length data) blk).
Proof. intros. unfold mem_write. by rewrite !(proj2 (Z.leb_le _ _)) by lia. Qed.

Lemma mem_write_oob blk off data :
  Z.of_nat (length blk) < off + Z.of_nat (length data) ->
  mem_write blk off data = Undef OutOfBounds.
Proof.
  intros. unfold mem_write. rewrite (proj2 (Z.leb_gt (off + _) _)) by lia.
  by rewrite !andb_false_r.
Qed.

Lemma length_splice (blk data : list byte) (o : nat) :
  (o + length data <= length blk)%nat ->
  length (take o blk ++ data ++ drop (o + length data) blk) = length blk.
Proof. intros. rewrite !length_app, length_take, length_drop. lia. Qed.

Lemma take_splice_le (blk data : list byte) (o n : nat) :
  (n <= o)%nat -> (o <= length blk)%nat ->
  take n (take o blk ++ data ++ drop (o + length data) blk) = take n blk.
Proof.
  intros. rewrite take_app_le by (rewrite length_take; lia).
  by rewrite take_take, Nat.min_l by lia.
Qed.

Lemma take_splice_end (blk data : list byte) (o : nat) :
  (o <= length blk)%nat ->
  take (o + length data) (take o blk ++ data ++ drop (o + length data) blk) =
    take o blk ++ data.
Proof.
  intros. rewrite app_assoc, take_app_le, take_ge; try done;
    rewrite !length_app, !length_take; lia.
Qed.

Lemma take_take_drop {A} (l : list A) (n m : nat) :
  take n l ++ take m (drop n l) = take (n + m) l.
Proof.
  revert l. induction n as [|n IH]; intros [|x l]; simpl; try done.
  - by rewrite take_nil.
  - by rewrite IH.
Qed.

(** ** Tactics *)

(** Composes the [frame] hypotheses of a run. *)
Ltac solve_frame :=
  solve [ eapply frame_eq;
    [ repeat first [ eassumption | apply frame_refl | eapply frame_trans; [eassumption|] ]
    | lia ] ].

Create HintDb cmem.
Create Rewrite HintDb clen.
#[export] Hint Resolve frame_refl b2z_range : cmem.
#[export] Hint Rewrite @length_app @length_take @length_drop @length_replicate @length_map
  @length_seq : clen.

(** Length side conditions: normalise the lengths of list expressions, then arithmetic. *)
Ltac len := autorewrite with clen in *; simpl in *; lia.

(** One step of a run: sequencing, returning and pure memory accesses. *)
Ltac wp_step :=
  lazymatch goal with
  | |- wp (bind _ _) _ _ => apply wp_bind
  | |- wp (ret _) _ _ => apply wp_ret
  | |- wp (set_errno _) _ _ => apply wp_set_errno; intros ? ? ?
  | |- wp free _ _ => apply wp_free; intros ? ? ?
  | |- wp get_ext _ _ => apply wp_get_ext
  | |- wp (lift (Ret _)) _ _ => apply wp_lift
  | |- wp (lift (mem_read _ _ _)) _ _ => rewrite mem_read_ok by len; apply wp_lift
  | |- wp (lift (mem_write _ _ _)) _ _ => rewrite mem_write_ok by len; apply wp_lift
  end.

Ltac wp_steps := repeat (wp_step; cbv beta iota).

(** ** Calls of the outside *)

(** What a step does to the heap, whatever it does to the database. *)
Definition heap {X} (d : Z) (w w' : world X) : Prop :=
  w_live w' = w_live w + d /\ (mem_ok w -> mem_ok w').

Lemma frame_heap {X} d (w w' : world X) : frame d w w' -> heap d w w'.
Proof. intros (_ & ? & ?). done. Qed.

Lemma heap_refl {X} (w : world X) : heap 0 w w.
Proof. split; [lia|done]. Qed.

Lemma heap_trans {X} d1 d2 (w1 w2 w3 : world X) :
  heap d1 w1 w2 -> heap d2 w2 w3 -> heap (d1 + d2) w1 w3.
Proof. intros (? & ?) (? & ?). split; [lia|auto]. Qed.

Lemma heap_mem_ok {X} d (w w' : world X) : heap d w w' -> mem_ok w -> mem_ok w'.
Proof. by intros (_ & ?). Qed.

Lemma heap_eq {X} d d' (w w' : world X) : heap d w w' -> d = d' -> heap d' w w'.
Proof. by intros ? <-. Qed.

Ltac solve_heap :=
  solve [ eapply heap_eq;
    [ repeat first [ eassumption | apply heap_refl | apply frame_heap; eassumption
        | eapply heap_trans; [first [eassumption | apply frame_heap; eassumption]|] ]
    | lia ] ].

Lemma wp_call {X A} (f : X -> A * X) w (Q : A -> world X -> Prop) :
  (forall a d w', f (w_ext w) = (a, d) -> w_ext w' = d -> heap 0 w w' -> Q a w') ->
  wp (call f) w Q.
Proof.
  intros HQ. unfold wp, call. destruct (f (w_ext w)) as [a d] eqn:E.
  apply (HQ _ d); [done..|]. split; simpl; [lia|done].
Qed.

(** ** Runs into undefined behaviour *)

Lemma undef_bind {X A B} (m : M X A) (k : A -> M X B) w u :
  wp m w (fun a w' => k a w' = Undef u) -> bind m k w = Undef u.
Proof. unfold wp, bind. by destruct (m w) as [[a w']|]. Qed.

Lemma undef_head {X A B} (m : M X A) (k : A -> M X B) w u :
  m w = Undef u -> bind m k w = Undef u.
Proof. unfold bind. by intros ->. Qed.

(** A world with no failing allocation, for concrete runs. *)
Definition world0 {X} (x : X) : world X := World [] (fun _ => x00) 0 0 x.

(** ** C strings *)

(** The bytes of a C string: no terminator inside. *)
Definition cstring (s : list byte) : Prop := NUL ∉ s.

Lemma cstr_app s rest : cstring s -> cstr (s ++ NUL :: rest) = Ret s.
Proof.
  unfold cstring. induction s as [|b s IH]; intros Hs; simpl.
  - done.
  - apply not_elem_of_cons in Hs as [Hb Hs].
    destruct (byte_eqb_spec b NUL); [congruence|]. by rewrite IH.
Qed.

Lemma cstring_app s t : cstring (s ++ t) <-> cstring s /\ cstring t.
Proof. unfold cstring. rewrite elem_of_app. tauto. Qed.

(** [strcat]: the string is written over the terminator of the one in the block. *)
Definition strcat (blk s : list byte) : outcome (list byte) :=
  match cstr blk with
  | Ret d => mem_write blk (Z.of_nat (length d)) (s ++ [NUL])
  | Undef u => Undef u
  end.

Lemma strcat_ok d s rest :
  cstring d -> (length s <= length rest)%nat ->
  strcat (d ++ NUL :: rest) s = Ret (d ++ s ++ NUL :: drop (length s) rest).
Proof.
  intros Hd Hl. unfold strcat. rewrite cstr_app by done.
  rewrite mem_write_ok by len. f_equal.
  rewrite Nat2Z.id, take_app_length. f_equal. rewrite <- app_assoc. f_equal.
  rewrite length_app, drop_app_ge by (simpl; lia).
  replace (_ + _ - _)%nat with (S (length s)) by (simpl; lia). done.
Qed.

Lemma strcat_oob d s rest :
  cstring d -> (length rest < length s)%nat ->
  strcat (d ++ NUL :: rest) s = Undef OutOfBounds.
Proof.
  intros Hd Hl. unfold strcat. rewrite cstr_app by done.
  apply mem_write_oob. len.
Qed.

Lemma cstring_nil : cstring [].
Proof. unfold cstring. set_solver. Qed.
#[export] Hint Resolve cstring_nil : cmem core.

(** ** Little endian integers *)

Fixpoint le_bytes (n : nat) (z : Z) : list byte :=
  match n with
  | O => []
  | S n => z2b z :: le_bytes n (z / 256)
  end.

Fixpoint le_value (bs : list byte) : Z :=
  match bs with
  | [] => 0
  | b :: bs => b2z b + 256 * le_value bs
  end.

Lemma length_le_bytes n z : length (le_bytes n z) = n.
Proof. revert z. induction n as [|n IH]; intros z; simpl; [done|]. by rewrite IH. Qed.
#[export] Hint Rewrite length_le_bytes : clen.

Lemma le_value_bytes n : forall z, le_value (le_bytes n z) = z mod 256 ^ Z.of_nat n.
Proof.
  induction n as [|n IH]; intros z; cbn [le_bytes le_value].
  - by rewrite Z.mod_1_r.
  - rewrite IH, b2z_z2b, Nat2Z.inj_succ, Z.pow_succ_r by lia.
    rewrite Z.rem_mul_r by lia. lia.
Qed.

Lemma le_value_bytes_small n z : 0 <= z < 256 ^ Z.of_nat n -> le_value (le_bytes n z) = z.
Proof. intros. rewrite le_value_bytes. by apply Z.mod_small. Qed.

Lemma le_value_bound bs : 0 <= le_value bs < 256 ^ Z.of_nat (length bs).
Proof.
  induction bs as [|b bs IH]; cbn [le_value length].
  - simpl. lia.
  - rewrite Nat2Z.inj_succ, Z.pow_succ_r by lia. pose proof (b2z_range b). lia.
Qed.

(** Taking the first of two concatenated parts apart. *)
Lemma take_app_exact {A} (l k : list A) n : n = length l -> take n (l ++ k) = l.
Proof. intros ->. apply take_app_length. Qed.

Lemma drop_app_exact {A} (l k : list A) n : n = length l -> drop n (l ++ k) = k.
Proof. intros ->. apply drop_app_length. Qed.

(** Reads and writes at positions counted in [nat]. *)
Lemma mem_read_nat b s n m :
  m = Z.of_nat n -> (s + n <= length b)%nat ->
  mem_read b (Z.of_nat s) m = Ret (take n (drop s b)).
Proof. intros -> ?. rewrite mem_read_ok by lia. by rewrite !Nat2Z.id. Qed.

Lemma mem_write_mid a b x s :
  s = length a -> (length x <= length b)%nat ->
  mem_write (a ++ b) (Z.of_nat s) x = Ret (a ++ x ++ drop (length x) b).
Proof.
  intros -> ?. rewrite mem_write_ok by (rewrite ?length_app; lia). rewrite Nat2Z.id.
  rewrite take_app_length, drop_app_ge by lia. do 4 f_equal. lia.
Qed.

(** What holds of the result of a computation that returns. *)
Definition returns {A} (o : outcome A) (Q : A -> Prop) : Prop :=
  match o with Ret a => Q a | Undef _ => False end.

Lemma returns_bind {A B} (o : outcome A) (k : A -> outcome B) Q :
  returns o (fun a => returns (k a) Q) -> returns (obind o k) Q.
Proof. by destruct o. Qed.

Lemma returns_mono {A} (o : outcome A) (Q Q' : A -> Prop) :
  returns o Q -> (forall a, Q a -> Q' a) -> returns o Q'.
Proof. destruct o; naive_solver. Qed.

Lemma returns_run {A} (o : outcome A) Q : returns o Q -> exists a, o = Ret a /\ Q a.
Proof. destruct o; naive_solver. Qed.
