(* ===== verification/Uthash.v ===== *)
(** * Hash tables (utils/uthash.h)

    The macros the program uses, on tables as lists of elements with their key bytes in
    insertion order.  An element is in the bucket of the hash of its key, so looking through
    a bucket finds an element exactly when one with an equal key is in the table.  The
    buckets themselves are in UthashBuckets, with the proof that tables of different keys
    behave as these lists; of equal keys the lists give the newest, as the macros do until
    they double the buckets.

    A key is a number of bytes at an address: [HASH_ADD_STR] takes the bytes that start at
    the key field itself, which is right for a field that is an array of characters.  For a
    field that is a pointer they are the bytes of the pointer and of the fields behind. *)

From S2P Require Import Prelude.
From Stdlib Require Import Init.Byte.

#[local] Open Scope c_scope.

Section uthash.
Context {X A : Type}.

Definition UT_hash_table : Type := list (list byte * A).

(** [HASH_FIND_IN_BKT] compares lengths and bytes; the newest element comes first. *)
Fixpoint HASH_FIND_IN_BKT (bucket : UT_hash_table) (key : list byte) : option A :=
  match bucket with
  | [] => None
  | (k, a) :: bucket => if decide (k = key) then Some a else HASH_FIND_IN_BKT bucket key
  end.

Definition HASH_FIND (head : UT_hash_table) (key : list byte) : option A :=
  HASH_FIND_IN_BKT (reverse head) key.

Definition HASH_FIND_STR (head : UT_hash_table) (findstr : list byte) : option A :=
  HASH_FIND head findstr.

(** Two blocks for the first element: the table and its buckets; the program exits when
    there is no memory for them. *)
Definition HASH_MAKE_TABLE (head : UT_hash_table) : M X unit :=
  match head with [] => lib_alloc ;;; lib_alloc | _ => ret tt end.

Definition HASH_ADD_KEYPTR (head : UT_hash_table) (key : list byte) (add : A)
  : M X UT_hash_table :=
  HASH_MAKE_TABLE head ;;; ret (head ++ [(key, add)]).

(** [memory] is the memory of the element from the key field on, [str] the string whose
    length is taken. *)
Definition HASH_ADD_STR (head : UT_hash_table) (memory str : list byte) (add : A)
  : M X UT_hash_table :=
  let* key := lift (mem_read memory 0 (u32 (Z.of_nat (length str)))) in
  HASH_ADD_KEYPTR head key add.

(** [HASH_DELETE] of the [i]th element; the last one takes the table with it. *)
Definition HASH_DELETE (head : UT_hash_table) (i : nat) : M X UT_hash_table :=
  match head with
  | [_] => free ;;; free ;;; ret []
  | _ => ret (delete i head)
  end.

Definition HASH_COUNT (head : UT_hash_table) : Z := u32 (Z.of_nat (length head)).

Lemma find_add head k a key :
  HASH_FIND (head ++ [(k, a)]) key = if decide (k = key) then Some a else HASH_FIND head key.
Proof. unfold HASH_FIND. by rewrite reverse_app. Qed.

Lemma HASH_ADD_STR_spec head memory str a (w : world X) (Q : UT_hash_table -> world X -> Prop) :
  (length str <= length memory)%nat -> Z.of_nat (length memory) < 2 ^ 32 ->
  (forall w', frame (match head with [] => 2 | _ => 0 end) w w' ->
     Q (head ++ [(take (length str) memory, a)]) w') ->
  wp (HASH_ADD_STR head memory str a) w Q.
Proof.
  intros Hl Hm HQ. unfold HASH_ADD_STR.
  assert (u32 (Z.of_nat (length str)) = Z.of_nat (length str)) as ->
    by (unfold u32; rewrite Z.mod_small; lia).
  wp_step. rewrite mem_read_ok by lia. wp_step. rewrite drop_0, Nat2Z.id.
  unfold HASH_ADD_KEYPTR. wp_step. destruct head; cbn [HASH_MAKE_TABLE].
  - wp_step. apply wp_lib_alloc. intros w1 Hf1. apply wp_lib_alloc. intros w2 Hf2.
    wp_step. apply HQ. solve_frame.
  - wp_step. wp_step. apply HQ, frame_refl.
Qed.
End uthash.
Arguments UT_hash_table : clear implicits.

(** A pointer in memory. *)
Definition pointer_bytes (addr : Z) : list byte := le_bytes 8 addr.

(** The addresses of a user process have two zero bytes on top, so that no string of seven
    characters or more is spelled by a pointer. *)
Lemma pointer_spells_nothing addr rest (name : list byte) :
  0 <= addr < 2 ^ 47 -> cstring name -> (7 <= length name)%nat ->
  take (length name) (pointer_bytes addr ++ rest) <> name.
Proof.
  intros Ha Hn Hl E. apply Hn. rewrite <- E. unfold NUL.
  assert (pointer_bytes addr !! 6%nat = Some x00) as H6.
  { unfold pointer_bytes. cbn [le_bytes]. cbn [lookup list_lookup]. f_equal.
    do 6 rewrite ?Zdiv.Zdiv_Zdiv by lia. unfold z2b.
    rewrite Z.div_small by lia. done. }
  apply list_elem_of_lookup. exists 6%nat. rewrite lookup_take_Some. split; [|lia].
  by apply lookup_app_l_Some.
Qed.
