(* ===== verification/UthashBuckets.v ===== *)
(** * The buckets of hash tables (utils/uthash.h)

    Uthash describes a table by its elements in order of addition.  Here is the table as the
    macros keep it: buckets chosen by the Jenkins hash of the key, each with its chain and its
    counters, that are doubled in number when a chain grows too long.  The theorem is that the
    one description stands for the other: additions, deletions, finds and counts agree under
    every sequence of operations.

    The links of the two lists are kept as lists (a chain, and the elements in order of
    addition).  [avail] is the largest block [malloc] gives; without memory the program
    exits, which is the outcome [None]. *)

From S2P Require Import Prelude Uthash.
From Stdlib Require Import Init.Byte.

#[local] Open Scope c_scope.

(** ** The Jenkins hash *)

(** A [char] as an [unsigned]: the sign is extended. *)
Definition char_value (b : byte) : Z := u32 (if b2z b <? 128 then b2z b else b2z b - 256).

Definition HASH_JEN_MIX (abc : Z * Z * Z) : Z * Z * Z :=
  let '(a, b, c) := abc in
  let a := u32 (a - b) in let a := u32 (a - c) in let a := Z.lxor a (Z.shiftr c 13) in
  let b := u32 (b - c) in let b := u32 (b - a) in let b := Z.lxor b (u32 (Z.shiftl a 8)) in
  let c := u32 (c - a) in let c := u32 (c - b) in let c := Z.lxor c (Z.shiftr b 13) in
  let a := u32 (a - b) in let a := u32 (a - c) in let a := Z.lxor a (Z.shiftr c 12) in
  let b := u32 (b - c) in let b := u32 (b - a) in let b := Z.lxor b (u32 (Z.shiftl a 16)) in
  let c := u32 (c - a) in let c := u32 (c - b) in let c := Z.lxor c (Z.shiftr b 5) in
  let a := u32 (a - b) in let a := u32 (a - c) in let a := Z.lxor a (Z.shiftr c 3) in
  let b := u32 (b - c) in let b := u32 (b - a) in let b := Z.lxor b (u32 (Z.shiftl a 10)) in
  let c := u32 (c - a) in let c := u32 (c - b) in let c := Z.lxor c (Z.shiftr b 15) in
  (a, b, c).

(** [key[i] << sh] of the bytes there are. *)
Definition jen_byte (key : list byte) (i : nat) (sh : Z) : Z :=
  match key !! i with Some b => u32 (Z.shiftl (char_value b) sh) | None => 0 end.

Definition jen_word (key : list byte) (i : nat) : Z :=
  jen_byte key i 0 + jen_byte key (i + 1) 8 + jen_byte key (i + 2) 16 + jen_byte key (i + 3) 24.

(** Twelve bytes at a time; the rest falls through the cases of the switch, where the first
    byte of [hashv] is taken by the length. *)
Fixpoint jen_loop (fuel : nat) (key : list byte) (keylen : Z) (ijh : Z * Z * Z) : Z * Z * Z :=
  match fuel with
  | O => ijh
  | S fuel =>
      let '(i, j, hashv) := ijh in
      if (12 <=? length key)%nat then
        jen_loop fuel (drop 12 key) keylen
          (HASH_JEN_MIX (u32 (i + jen_word key 0), u32 (j + jen_word key 4),
                         u32 (hashv + jen_word key 8)))
      else
        let hashv := u32 (hashv + keylen) in
        HASH_JEN_MIX (u32 (i + jen_word key 0), u32 (j + jen_word key 4),
                      u32 (hashv + jen_byte key 8 8 + jen_byte key 9 16 + jen_byte key 10 24))
  end.

(** The length is taken as an [unsigned]: of a longer key only the first bytes are hashed. *)
Definition HASH_JEN (key : list byte) : Z :=
  let keylen := u32 (Z.of_nat (length key)) in
  let key := take (Z.to_nat keylen) key in
  let '(_, _, hashv) :=
    jen_loop (S (length key)) key keylen (2654435769, 2654435769, 4276993775) in
  hashv.

Definition HASH_TO_BKT (hashv num_bkts : Z) : Z := Z.land hashv (num_bkts - 1).

(** ** Tables *)

Definition HASH_INITIAL_NUM_BUCKETS : Z := 32.
Definition HASH_INITIAL_NUM_BUCKETS_LOG2 : Z := 5.
Definition HASH_BKT_CAPACITY_THRESH : Z := 10.
Definition SIZEOF_BUCKET : Z := 16.
Definition SIZEOF_TABLE : Z := 64.

Record UT_hash_handle (A : Type) := Handle {
  key : list byte;
  hashv : Z;
  elem : A;
}.
Arguments Handle {A}.
Arguments key {A}.
Arguments hashv {A}.
Arguments elem {A}.

Record UT_hash_bucket (A : Type) := Bucket {
  chain : list (UT_hash_handle A);
  count : Z;
  expand_mult : Z;
}.
Arguments Bucket {A}.
Arguments chain {A}.
Arguments count {A}.
Arguments expand_mult {A}.

(** [app_order] is the list that starts at the head and ends at [tail]. *)
Record UT_hash_table (A : Type) := Table {
  buckets : list (UT_hash_bucket A);
  num_buckets : Z;
  log2_num_buckets : Z;
  num_items : Z;
  ideal_chain_maxlen : Z;
  nonideal_items : Z;
  ineff_expands : Z;
  noexpand : Z;
  app_order : list (UT_hash_handle A);
}.
Arguments Table {A}.
Arguments buckets {A}.
Arguments num_buckets {A}.
Arguments log2_num_buckets {A}.
Arguments num_items {A}.
Arguments ideal_chain_maxlen {A}.
Arguments nonideal_items {A}.
Arguments ineff_expands {A}.
Arguments noexpand {A}.
Arguments app_order {A}.

Section buckets.
Context {A : Type} `{EqDecision A}.
Context (avail : Z).

Abbreviation handle := (UT_hash_handle A).
Abbreviation bucket := (UT_hash_bucket A).
Abbreviation table := (UT_hash_table A).

Definition empty_bucket : bucket := Bucket [] 0 0.

Definition bucket_at (l : list bucket) (i : Z) : outcome bucket :=
  match l !! Z.to_nat i with Some b => Ret b | None => Undef OutOfBounds end.

Definition set_buckets (l : list bucket) (t : table) : table :=
  Table l (num_buckets t) (log2_num_buckets t) (num_items t) (ideal_chain_maxlen t)
    (nonideal_items t) (ineff_expands t) (noexpand t) (app_order t).

Definition set_items (n : Z) (l : list handle) (t : table) : table :=
  Table (buckets t) (num_buckets t) (log2_num_buckets t) n (ideal_chain_maxlen t)
    (nonideal_items t) (ineff_expands t) (noexpand t) l.

Fixpoint HASH_FIND_IN_BKT (l : list handle) (k : list byte) : option A :=
  match l with
  | [] => None
  | h :: l => if decide (key h = k) then Some (elem h) else HASH_FIND_IN_BKT l k
  end.

Definition HASH_FIND (head : option table) (k : list byte) : outcome (option A) :=
  match head with
  | None => Ret None
  | Some t =>
      let+ b := bucket_at (buckets t) (HASH_TO_BKT (HASH_JEN k) (num_buckets t)) in
      Ret (HASH_FIND_IN_BKT (chain b) k)
  end.

(** An element on its way to the new buckets, with the count of elements beyond the ideal
    length. *)
Definition move_item (num ideal : Z) (s : list bucket * Z) (h : handle)
  : outcome (list bucket * Z) :=
  let '(new, nonideal) := s in
  let i := HASH_TO_BKT (hashv h) num in
  let+ b := bucket_at new i in
  let n := u32 (count b + 1) in
  let+ '(nonideal, mult) :=
    if ideal <? n then
      if ideal =? 0 then Undef SignedOverflow (* a division by 0 *)
      else Ret (u32 (nonideal + 1), n / ideal)
    else Ret (nonideal, expand_mult b) in
  Ret (<[Z.to_nat i := Bucket (h :: chain b) n mult]> new, nonideal).

Fixpoint move_items (num ideal : Z) (l : list handle) (s : list bucket * Z)
  : outcome (list bucket * Z) :=
  match l with
  | [] => Ret s
  | h :: l => let+ s := move_item num ideal s h in move_items num ideal l s
  end.

Fixpoint move_buckets (num ideal : Z) (l : list bucket) (s : list bucket * Z)
  : outcome (list bucket * Z) :=
  match l with
  | [] => Ret s
  | b :: l => let+ s := move_items num ideal (chain b) s in move_buckets num ideal l s
  end.

(** [ceil(num_items / num)] for a power of two. *)
Definition ideal_length (items num log2 : Z) : Z :=
  Z.shiftr items log2 + (if Z.land items (num - 1) =? 0 then 0 else 1).

Definition HASH_EXPAND_BUCKETS (t : table) : outcome (option table) :=
  let num := u32 (2 * num_buckets t) in
  let log2 := log2_num_buckets t + 1 in
  if avail <? num * SIZEOF_BUCKET then Ret None else
  let ideal := ideal_length (num_items t) num log2 in
  let+ '(new, nonideal) :=
    move_buckets num ideal (buckets t) (replicate (Z.to_nat num) empty_bucket, 0) in
  let ineff :=
    if Z.shiftr (num_items t) 1 <? nonideal then u32 (ineff_expands t + 1) else 0 in
  Ret (Some (Table new num log2 (num_items t) ideal nonideal ineff
               (if 1 <? ineff then 1 else noexpand t) (app_order t))).

Definition HASH_ADD_TO_BKT (t : table) (i : Z) (h : handle) : outcome (option table) :=
  let+ b := bucket_at (buckets t) i in
  let n := u32 (count b + 1) in
  let t := set_buckets (<[Z.to_nat i := Bucket (h :: chain b) n (expand_mult b)]> (buckets t)) t in
  if (u32 ((expand_mult b + 1) * HASH_BKT_CAPACITY_THRESH) <=? n) && negb (noexpand t =? 1)
  then HASH_EXPAND_BUCKETS t
  else Ret (Some t).

Definition HASH_MAKE_TABLE : option table :=
  if (avail <? SIZEOF_TABLE) || (avail <? HASH_INITIAL_NUM_BUCKETS * SIZEOF_BUCKET) then None
  else Some (Table (replicate (Z.to_nat HASH_INITIAL_NUM_BUCKETS) empty_bucket)
               HASH_INITIAL_NUM_BUCKETS HASH_INITIAL_NUM_BUCKETS_LOG2 0 0 0 0 0 []).

Definition HASH_ADD_KEYPTR (head : option table) (k : list byte) (add : A)
  : outcome (option table) :=
  match (match head with None => HASH_MAKE_TABLE | Some t => Some t end) with
  | None => Ret None
  | Some t =>
      let h := Handle k (HASH_JEN k) add in
      let t := set_items (u32 (num_items t + 1)) (app_order t ++ [h]) t in
      HASH_ADD_TO_BKT t (HASH_TO_BKT (hashv h) (num_buckets t)) h
  end.

(** Taking an element out of a list through its links. *)
Fixpoint unlink (a : A) (l : list handle) : list handle :=
  match l with
  | [] => []
  | h :: l => if decide (elem h = a) then l else h :: unlink a l
  end.

Definition HASH_DEL_IN_BKT (b : bucket) (a : A) : bucket :=
  Bucket (unlink a (chain b)) (u32 (count b - 1)) (expand_mult b).

(** The handle is a part of the element. *)
Definition handle_of (a : A) (l : list handle) : outcome handle :=
  match list_find (fun h => elem h = a) l with
  | Some (_, h) => Ret h
  | None => Undef Uninitialised
  end.

Definition HASH_DELETE (head : option table) (delptr : A) : outcome (option table) :=
  match head with
  | None => Undef NullDeref
  | Some t =>
      let+ h := handle_of delptr (app_order t) in
      match app_order t with
      | [_] => Ret None
      | _ =>
          let i := HASH_TO_BKT (hashv h) (num_buckets t) in
          let+ b := bucket_at (buckets t) i in
          Ret (Some (set_items (u32 (num_items t - 1)) (unlink delptr (app_order t))
                 (set_buckets (<[Z.to_nat i := HASH_DEL_IN_BKT b delptr]> (buckets t)) t)))
      end
  end.

Definition HASH_COUNT (head : option table) : Z :=
  match head with Some t => num_items t | None => 0 end.

(** The check of a table the macros make in debug builds. *)
Definition HASH_FSCK (head : option table) : bool :=
  match head with
  | None => true
  | Some t =>
      forallb (fun b => count b =? Z.of_nat (length (chain b))) (buckets t) &&
      (Z.of_nat (length (concat (map chain (buckets t)))) =? num_items t) &&
      (Z.of_nat (length (app_order t)) =? num_items t)
  end.

(** ** Lists of buckets *)

(** [l] is [num] buckets that hold [items], each in the bucket of its hash. *)
Record parts (num : Z) (l : list bucket) (items : list handle) : Prop := {
  parts_length : length l = Z.to_nat num;
  parts_bucket : forall i b, l !! i = Some b ->
    count b = Z.of_nat (length (chain b)) /\
    Forall (fun h => HASH_TO_BKT (hashv h) num = Z.of_nat i) (chain b);
  parts_items : concat (map chain l) ≡ₚ items;
}.

Lemma to_bkt_range h k : 0 <= k -> 0 <= HASH_TO_BKT h (2 ^ k) < 2 ^ k.
Proof.
  intros Hk. unfold HASH_TO_BKT. rewrite Z.sub_1_r, <- Z.ones_equiv, Z.land_ones by lia.
  apply Z.mod_pos_bound. apply Z.pow_pos_nonneg; lia.
Qed.

Lemma concat_buckets (l : list bucket) i b :
  l !! i = Some b ->
  concat (map chain l) ≡ₚ chain b ++ concat (map chain (take i l)) ++ concat (map chain (drop (S i) l)).
Proof.
  intros Hb. rewrite <- (take_drop_middle l i b Hb) at 1. rewrite map_app, concat_app. cbn.
  rewrite (Permutation_app_comm _ (chain b ++ _)), <- app_assoc.
  by rewrite (Permutation_app_comm (concat (map chain (drop (S i) l)))).
Qed.

Lemma concat_set (l : list bucket) i b b' :
  l !! i = Some b ->
  concat (map chain (<[i := b']> l)) ≡ₚ
    chain b' ++ concat (map chain (take i l)) ++ concat (map chain (drop (S i) l)).
Proof.
  intros Hb. pose proof (lookup_lt_Some _ _ _ Hb) as Hl.
  rewrite (concat_buckets (<[i := b']> l) i b') by (by apply list_lookup_insert_eq).
  by rewrite take_insert_ge, drop_insert_lt by lia.
Qed.

(** A bucket changed, with the elements that come in or go out. *)
Lemma parts_set num l items i b b' items' :
  parts num l items -> l !! i = Some b -> count b' = Z.of_nat (length (chain b')) ->
  Forall (fun h => HASH_TO_BKT (hashv h) num = Z.of_nat i) (chain b') ->
  (forall rest, chain b ++ rest ≡ₚ items -> chain b' ++ rest ≡ₚ items') ->
  parts num (<[i := b']> l) items'.
Proof.
  intros [Hlen Hb Hp] Hi Hc Hf Hrest. split.
  - by rewrite length_insert.
  - intros j b2. destruct (decide (i = j)) as [<-|Hne].
    + rewrite list_lookup_insert_eq by (by eapply lookup_lt_Some). by intros [= <-].
    + rewrite list_lookup_insert_ne by done. apply Hb.
  - rewrite (concat_set l i b b' Hi). apply Hrest. by rewrite <- (concat_buckets l i b Hi).
Qed.

Lemma parts_add num l items h i b mult :
  parts num l items -> l !! i = Some b -> HASH_TO_BKT (hashv h) num = Z.of_nat i ->
  Z.of_nat (length items) < 2 ^ 32 - 1 ->
  parts num (<[i := Bucket (h :: chain b) (u32 (count b + 1)) mult]> l) (h :: items).
Proof.
  intros Hp Hi Hh Hn. destruct (parts_bucket _ _ _ Hp i b Hi) as [Hc Hf].
  assert (length (chain b) <= length items)%nat as Hle.
  { pose proof (parts_items _ _ _ Hp) as HP. rewrite (concat_buckets l i b Hi) in HP.
    apply Permutation_length in HP. rewrite length_app in HP. lia. }
  eapply parts_set; [done|done| | |].
  - cbn [count chain length]. rewrite Hc. unfold u32. rewrite Z.mod_small; lia.
  - by constructor.
  - intros rest HP. cbn. by rewrite HP.
Qed.

Lemma parts_empty k : 0 <= k -> parts (2 ^ k) (replicate (Z.to_nat (2 ^ k)) empty_bucket) [].
Proof.
  intros Hk. split.
  - by rewrite length_replicate.
  - intros i b Hb. apply lookup_replicate in Hb as [-> _]. by split; [|constructor].
  - induction (Z.to_nat (2 ^ k)); cbn; [done|by rewrite IHn].
Qed.

(** ** Doubling the buckets *)

Lemma move_item_ok k ideal new nonideal h items :
  0 <= k -> 0 < ideal -> parts (2 ^ k) new items -> Z.of_nat (length items) < 2 ^ 32 - 1 ->
  exists new' nonideal', move_item (2 ^ k) ideal (new, nonideal) h = Ret (new', nonideal') /\
    parts (2 ^ k) new' (h :: items).
Proof.
  intros Hk Hi Hp Hn. unfold move_item, bucket_at. pose proof (to_bkt_range (hashv h) k Hk) as Hr.
  set (i := HASH_TO_BKT (hashv h) (2 ^ k)) in *.
  destruct (lookup_lt_is_Some_2 new (Z.to_nat i)) as [b Hb];
    [rewrite (parts_length _ _ _ Hp); lia|].
  rewrite Hb. cbn [obind].
  assert (forall mult, parts (2 ^ k)
    (<[Z.to_nat i := Bucket (h :: chain b) (u32 (count b + 1)) mult]> new) (h :: items)) as Hadd.
  { intros mult. apply parts_add; [done|done| |done]. fold i. lia. }
  destruct (_ <? _); [rewrite (proj2 (Z.eqb_neq _ _)) by lia|]; cbn [obind]; eauto.
Qed.

Lemma move_items_ok k ideal l : forall new nonideal items,
  0 <= k -> 0 < ideal -> parts (2 ^ k) new items ->
  Z.of_nat (length items + length l) < 2 ^ 32 ->
  exists new' nonideal', move_items (2 ^ k) ideal l (new, nonideal) = Ret (new', nonideal') /\
    parts (2 ^ k) new' (reverse l ++ items).
Proof.
  induction l as [|h l IH]; intros new nonideal items Hk Hi Hp Hn; cbn [move_items]; [by eauto|].
  cbn [length] in Hn.
  destruct (move_item_ok k ideal new nonideal h items) as (new1 & n1 & -> & Hp1); [done..|lia|].
  cbn [obind]. rewrite reverse_cons, <- app_assoc. cbn [app].
  apply IH; [done..|cbn [length]; lia].
Qed.

Lemma move_buckets_ok k ideal l : forall new nonideal items,
  0 <= k -> 0 < ideal -> parts (2 ^ k) new items ->
  Z.of_nat (length items + length (concat (map chain l))) < 2 ^ 32 ->
  exists new' nonideal', move_buckets (2 ^ k) ideal l (new, nonideal) = Ret (new', nonideal') /\
    parts (2 ^ k) new' (concat (map chain l) ++ items).
Proof.
  induction l as [|b l IH]; intros new nonideal items Hk Hi Hp Hn; cbn [move_buckets map concat];
    [by eauto|]. cbn [map concat] in Hn. rewrite length_app in Hn.
  destruct (move_items_ok k ideal (chain b) new nonideal items) as (new1 & n1 & -> & Hp1);
    [done..|lia|].
  cbn [obind]. destruct (IH new1 n1 (reverse (chain b) ++ items)) as (new2 & n2 & -> & Hp2);
    [done..|rewrite length_app, length_reverse; lia|].
  exists new2, n2. split; [done|]. destruct Hp2 as [H1 H2 H3]. split; [done|done|].
  rewrite H3, reverse_Permutation. rewrite <- app_assoc.
  by rewrite (Permutation_app_swap_app (chain b)).
Qed.

(** ** Finding *)

Lemma find_absent l k : k ∉ key <$> l -> HASH_FIND_IN_BKT l k = None.
Proof.
  induction l as [|h l IH]; intros Hk; [done|]. cbn in *.
  apply not_elem_of_cons in Hk as [Hne Hk]. rewrite decide_False by done. by apply IH.
Qed.

Lemma find_app_absent l1 l2 k :
  k ∉ key <$> l2 -> HASH_FIND_IN_BKT (l1 ++ l2) k = HASH_FIND_IN_BKT l1 k.
Proof.
  intros Hk. induction l1 as [|h l1 IH]; cbn; [by apply find_absent|]. by rewrite IH.
Qed.

Lemma find_perm l l' k :
  l ≡ₚ l' -> NoDup (key <$> l) -> HASH_FIND_IN_BKT l k = HASH_FIND_IN_BKT l' k.
Proof.
  induction 1 as [|h l l' HP IH|h1 h2 l|l1 l2 l3 H1 IH1 H2 IH2]; intros Hn; cbn in *; [done| | |].
  - apply list.NoDup_cons in Hn as [_ Hn]. by rewrite IH.
  - apply list.NoDup_cons in Hn as [Hn _]. apply not_elem_of_cons in Hn as [Hne _].
    destruct (decide (key h1 = k)), (decide (key h2 = k)); congruence.
  - rewrite IH1 by done. apply IH2. by rewrite <- H1.
Qed.

Definition entry (h : handle) : list byte * A := (key h, elem h).

Lemma find_entries (l : list handle) k :
  Uthash.HASH_FIND_IN_BKT (entry <$> l : list (list byte * A)) k = HASH_FIND_IN_BKT l k.
Proof. induction l as [|h l IH]; cbn; [done|]. by rewrite IH. Qed.

Lemma elem_of_chains (l : list bucket) h :
  h ∈ concat (map chain l) -> exists j b, l !! j = Some b /\ h ∈ chain b.
Proof.
  induction l as [|b l IH]; cbn; [by intros ?%not_elem_of_nil|].
  intros [Hh|Hh]%elem_of_app; [by exists 0%nat, b|].
  destruct (IH Hh) as (j & b2 & Hj & Hb). by exists (S j), b2.
Qed.

(** ** The tables of a program *)

Record wf (t : table) : Prop := {
  wf_power : 5 <= log2_num_buckets t /\ num_buckets t = 2 ^ log2_num_buckets t;
  wf_memory : num_buckets t * SIZEOF_BUCKET <= avail;
  wf_parts : parts (num_buckets t) (buckets t) (app_order t);
  wf_hash : Forall (fun h => hashv h = HASH_JEN (key h)) (app_order t);
  wf_items : num_items t = Z.of_nat (length (app_order t));
}.

(** [head] is the table with the elements [l], after at most [n] doublings. *)
Definition stands_for (n : nat) (head : option table) (l : list (list byte * A)) : Prop :=
  match head with
  | None => l = []
  | Some t => wf t /\ l = entry <$> app_order t /\ l <> [] /\
              log2_num_buckets t <= 5 + Z.of_nat n
  end.

Lemma find_ok t k :
  wf t -> NoDup (key <$> app_order t) ->
  HASH_FIND (Some t) k = Ret (Uthash.HASH_FIND (entry <$> app_order t) k).
Proof.
  intros [[H5 Hnum] _ Hp Hh _] Hn. unfold HASH_FIND, bucket_at.
  pose proof (to_bkt_range (HASH_JEN k) (log2_num_buckets t) ltac:(lia)) as Hr.
  rewrite <- Hnum in Hr. set (i := HASH_TO_BKT _ _) in *.
  destruct (lookup_lt_is_Some_2 (buckets t) (Z.to_nat i)) as [b Hb];
    [rewrite (parts_length _ _ _ Hp); lia|].
  rewrite Hb. cbn [obind]. f_equal. unfold Uthash.HASH_FIND.
  rewrite <- fmap_reverse, find_entries.
  rewrite (find_perm (reverse (app_order t)) (app_order t))
    by (rewrite ?reverse_Permutation; done).
  pose proof (parts_items _ _ _ Hp) as HP.
  rewrite (concat_buckets _ _ _ Hb) in HP. set (rest := concat _ ++ concat _) in HP.
  rewrite (find_perm (app_order t) (chain b ++ rest)) by done.
  symmetry. apply find_app_absent. intros Hin. apply list_elem_of_fmap in Hin as (h & -> & Hin).
  assert (hashv h = HASH_JEN (key h)) as Hhv.
  { rewrite list.Forall_forall in Hh. apply Hh. rewrite <- HP. apply elem_of_app. by right. }
  assert (exists j b2, j <> Z.to_nat i /\ buckets t !! j = Some b2 /\ h ∈ chain b2)
    as (j & b2 & Hj & Hb2 & Hin2).
  { unfold rest in Hin. apply elem_of_app in Hin as [Hin|Hin];
      apply elem_of_chains in Hin as (j & b2 & Hb2 & Hin).
    - apply lookup_take_Some in Hb2 as [Hb2 Hj]. exists j, b2. split; [lia|done].
    - rewrite lookup_drop in Hb2. exists (S (Z.to_nat i) + j)%nat, b2. split; [lia|done]. }
  destruct (parts_bucket _ _ _ Hp j b2 Hb2) as [_ Hf]. rewrite list.Forall_forall in Hf.
  specialize (Hf h Hin2). rewrite Hhv in Hf. fold i in Hf. lia.
Qed.

Lemma ideal_length_pos items k : 0 <= k -> 0 < items -> 0 < ideal_length items (2 ^ k) k.
Proof.
  intros Hk Hi. unfold ideal_length. rewrite Z.sub_1_r, <- Z.ones_equiv, Z.land_ones by lia.
  rewrite Z.shiftr_div_pow2 by lia.
  assert (0 < 2 ^ k) by (apply Z.pow_pos_nonneg; lia).
  pose proof (Z.div_mod items (2 ^ k) ltac:(lia)). pose proof (Z.div_pos items (2 ^ k) ltac:(lia) ltac:(lia)).
  destruct (Z.eqb_spec (items mod 2 ^ k) 0); nia.
Qed.

Hypothesis Havail : avail < 2 ^ 35.

(** ** Adding *)

Lemma expand_ok t :
  wf t -> app_order t <> [] -> num_items t < 2 ^ 32 ->
  exists r, HASH_EXPAND_BUCKETS t = Ret r /\
    match r with
    | None => avail < 2 * num_buckets t * SIZEOF_BUCKET
    | Some t' => wf t' /\ app_order t' = app_order t /\
                 log2_num_buckets t' = log2_num_buckets t + 1
    end.
Proof.
  intros [[H5 Hnum] Hmem Hp Hh Hi] Hne Hn. unfold HASH_EXPAND_BUCKETS, SIZEOF_BUCKET in *.
  set (k := log2_num_buckets t) in *.
  assert (2 ^ (k + 1) = 2 * 2 ^ k) as Hpow by (rewrite Z.pow_add_r; lia).
  assert (0 < 2 ^ k) by (apply Z.pow_pos_nonneg; lia).
  assert (u32 (2 * num_buckets t) = 2 ^ (k + 1)) as ->.
  { unfold u32. rewrite Z.mod_small by lia. lia. }
  destruct (Z.ltb_spec avail (2 ^ (k + 1) * 16)) as [Hm|Hm]; [eexists; split; [done|]; cbn; lia|].
  assert (0 < num_items t) as Hpos
    by (rewrite Hi; destruct (app_order t); [done|cbn [length]; lia]).
  pose proof (parts_items _ _ _ Hp) as HP. pose proof (Permutation_length HP) as HPl.
  destruct (move_buckets_ok (k + 1) (ideal_length (num_items t) (2 ^ (k + 1)) (k + 1)) (buckets t)
              (replicate (Z.to_nat (2 ^ (k + 1))) empty_bucket) 0 [])
    as (new & nonideal & -> & Hp'); [lia|apply ideal_length_pos; lia|apply parts_empty; lia|
      cbn [length]; lia|].
  cbn [obind]. eexists. split; [done|]. cbn beta iota. rewrite app_nil_r in Hp'.
  split; [|by cbn]. split; cbn; try done; [lia|].
  destruct Hp' as [P1 P2 P3]. split; [done|done|]. by rewrite P3.
Qed.

Lemma add_to_bkt_ok t h :
  wf t -> hashv h = HASH_JEN (key h) -> num_items t < 2 ^ 32 - 1 ->
  let t' := set_items (u32 (num_items t + 1)) (app_order t ++ [h]) t in
  exists r, HASH_ADD_TO_BKT t' (HASH_TO_BKT (hashv h) (num_buckets t)) h = Ret r /\
    match r with
    | None => avail < 2 * num_buckets t * SIZEOF_BUCKET
    | Some t' => wf t' /\ app_order t' = app_order t ++ [h] /\
                 log2_num_buckets t' <= log2_num_buckets t + 1
    end.
Proof.
  intros Hwf Hh Hn t'. pose proof Hwf as [[H5 Hnum] Hmem Hp Hhs Hi].
  unfold HASH_ADD_TO_BKT, bucket_at. cbn [buckets t' set_items].
  pose proof (to_bkt_range (hashv h) (log2_num_buckets t) ltac:(lia)) as Hr.
  rewrite <- Hnum in Hr. set (i := HASH_TO_BKT _ _) in *.
  destruct (lookup_lt_is_Some_2 (buckets t) (Z.to_nat i)) as [b Hb];
    [rewrite (parts_length _ _ _ Hp); lia|].
  rewrite Hb. cbn [obind].
  set (t2 := set_buckets _ t').
  assert (wf t2) as Hwf2.
  { split; cbn [num_buckets log2_num_buckets buckets app_order num_items t2 t' set_buckets set_items].
    - done.
    - done.
    - destruct (parts_add (num_buckets t) (buckets t) (app_order t) h (Z.to_nat i) b (expand_mult b)
                  Hp Hb) as [P1 P2 P3]; [fold i; lia|lia|].
      split; [done|done|]. rewrite P3. apply Permutation_cons_append.
    - apply list.Forall_app. split; [done|by constructor].
    - rewrite length_app. cbn [length]. unfold u32. rewrite Z.mod_small; lia. }
  assert (num_items t2 < 2 ^ 32) as Hn2.
  { cbn [num_items t2 t' set_buckets set_items]. unfold u32.
    pose proof (Z.mod_pos_bound (num_items t + 1) (2 ^ 32)). lia. }
  destruct (_ && _).
  - destruct (expand_ok t2 Hwf2) as (r & -> & Hres); [|done|].
    { cbn. by destruct (app_order t). }
    exists r. split; [done|]. destruct r as [t3|]; [|done].
    destruct Hres as (? & -> & ->). split; [done|]. split; [done|]. cbn. lia.
  - exists (Some t2). split; [done|]. split; [done|]. split; [done|]. cbn. lia.
Qed.

Lemma make_table_ok :
  match HASH_MAKE_TABLE with
  | None => avail < 2 ^ 10
  | Some t => wf t /\ app_order t = [] /\ log2_num_buckets t = 5
  end.
Proof.
  unfold HASH_MAKE_TABLE, SIZEOF_TABLE, HASH_INITIAL_NUM_BUCKETS, SIZEOF_BUCKET.
  destruct (Z.ltb_spec avail 64), (Z.ltb_spec avail (32 * 16)); cbn [orb]; try lia.
  split; [|done]. split; cbn [num_buckets log2_num_buckets buckets app_order num_items].
  - unfold HASH_INITIAL_NUM_BUCKETS_LOG2. lia.
  - unfold SIZEOF_BUCKET. lia.
  - apply (parts_empty 5). lia.
  - constructor.
  - done.
Qed.

Lemma add_ok n head l k a :
  stands_for n head l -> Z.of_nat (length l) < 2 ^ 32 - 1 ->
  exists r, HASH_ADD_KEYPTR head k a = Ret r /\
    match r with
    | None => avail < 2 ^ (10 + Z.of_nat n)
    | Some t => stands_for (S n) (Some t) (l ++ [(k, a)])
    end.
Proof.
  intros Hs Hn. unfold HASH_ADD_KEYPTR.
  assert (0 < 2 ^ Z.of_nat n) as Hpow by (apply Z.pow_pos_nonneg; lia).
  assert (match (match head with None => HASH_MAKE_TABLE | Some t => Some t end) with
          | None => avail < 2 ^ 10
          | Some t => wf t /\ l = entry <$> app_order t /\ log2_num_buckets t <= 5 + Z.of_nat n
          end) as Ht.
  { destruct head as [t|]; cbn in Hs; [naive_solver|]. subst l. pose proof make_table_ok as Hm.
    destruct HASH_MAKE_TABLE as [t|]; [|done]. destruct Hm as (? & -> & ->). split; [done|].
    split; [done|lia]. }
  destruct (match head with None => _ | Some t => _ end) as [t|].
  2: { eexists. split; [done|]. cbn. rewrite Z.pow_add_r by lia. nia. }
  destruct Ht as (Hwf & -> & Hlog). rewrite length_fmap in Hn.
  destruct (add_to_bkt_ok t (Handle k (HASH_JEN k) a) Hwf eq_refl) as (r & E & Hr);
    [rewrite (wf_items _ Hwf); lia|].
  cbv zeta in E |- *. cbn [hashv num_buckets set_items] in E |- *. rewrite E.
  exists r. split; [done|]. destruct r as [t'|].
  - destruct Hr as (Hwf' & Ho & Hl'). cbn. split; [done|].
    rewrite Ho, fmap_app. cbn. split; [done|]. split; [by destruct (app_order t)|lia].
  - destruct (wf_power _ Hwf) as [H5 Hnum]. unfold SIZEOF_BUCKET in Hr. rewrite Hnum in Hr.
    assert (2 ^ log2_num_buckets t <= 2 ^ (5 + Z.of_nat n)) by (apply Z.pow_le_mono_r; lia).
    rewrite Z.pow_add_r in H |- * by lia. lia.
Qed.

(** ** Deleting *)

Lemma unlink_absent a l : a ∉ elem <$> l -> unlink a l = l.
Proof.
  induction l as [|h l IH]; cbn; [done|]. intros [Hne Hn]%not_elem_of_cons.
  rewrite decide_False by done. by rewrite IH.
Qed.

Lemma unlink_at a l i h :
  NoDup (elem <$> l) -> l !! i = Some h -> elem h = a -> unlink a l = delete i l.
Proof.
  revert i. induction l as [|h' l IH]; intros i Hn Hi Ha; [done|]. cbn in *.
  apply list.NoDup_cons in Hn as [Hnot Hn]. destruct i as [|i]; cbn in *.
  - injection Hi as ->. by rewrite decide_True.
  - rewrite decide_False; [f_equal; by apply IH|]. intros He. apply Hnot. rewrite He, <- Ha.
    apply list_elem_of_fmap. exists h. split; [done|]. by eapply list_elem_of_lookup_2.
Qed.

Lemma unlink_perm a h l rest items :
  NoDup (elem <$> items) -> l ++ rest ≡ₚ items -> h ∈ l -> elem h = a ->
  unlink a l ++ rest ≡ₚ unlink a items /\ S (length (unlink a l)) = length l.
Proof.
  intros Hn HP Hin Ha.
  assert (NoDup (elem <$> l)) as Hnl.
  { rewrite <- HP, fmap_app in Hn. by apply list.NoDup_app in Hn as (Hn & _). }
  assert (h ∈ items) as Hin2 by (rewrite <- HP; apply elem_of_app; by left).
  apply list_elem_of_lookup in Hin as (i & Hi). apply list_elem_of_lookup in Hin2 as (j & Hj).
  rewrite (unlink_at a l i h Hnl Hi Ha), (unlink_at a items j h Hn Hj Ha).
  pose proof (lookup_lt_Some _ _ _ Hi). rewrite length_delete by eauto. split; [|lia].
  apply (Permutation_cons_inv (a := h)). rewrite <- (delete_Permutation _ _ _ Hj), <- HP.
  rewrite (delete_Permutation l i h Hi) at 2. done.
Qed.

Lemma Forall_unlink (P : handle -> Prop) a l : Forall P l -> Forall P (unlink a l).
Proof. induction 1; cbn; [done|]. case_decide; [done|by constructor]. Qed.

Lemma handle_of_ok a l i h :
  NoDup (elem <$> l) -> l !! i = Some h -> elem h = a -> handle_of a l = Ret h.
Proof.
  intros Hn Hi Ha. unfold handle_of. destruct (list_find _ l) as [[j h']|] eqn:E.
  - apply list_find_Some in E as (Hj & Ha' & _). f_equal.
    assert (j = i) as ->; [|congruence].
    apply (NoDup_lookup (elem <$> l) j i a Hn); rewrite list_lookup_fmap; [rewrite Hj|rewrite Hi];
      cbn; congruence.
  - exfalso. apply list_find_None in E. rewrite list.Forall_forall in E.
    apply (E h); [by eapply list_elem_of_lookup_2|done].
Qed.

(** The bucket an element of the table is in. *)
Lemma bucket_of t h :
  wf t -> h ∈ app_order t ->
  exists b, buckets t !! Z.to_nat (HASH_TO_BKT (hashv h) (num_buckets t)) = Some b /\ h ∈ chain b.
Proof.
  intros [_ _ Hp _ _] Hin. pose proof (parts_items _ _ _ Hp) as HP.
  rewrite <- HP in Hin. apply elem_of_chains in Hin as (j & b & Hb & Hin). exists b.
  destruct (parts_bucket _ _ _ Hp j b Hb) as [_ Hf]. rewrite list.Forall_forall in Hf.
  rewrite (Hf h Hin), Nat2Z.id. done.
Qed.

Lemma delete_in_table t i h :
  wf t -> NoDup (elem <$> app_order t) -> app_order t !! i = Some h ->
  Z.of_nat (length (app_order t)) < 2 ^ 32 ->
  exists b, bucket_at (buckets t) (HASH_TO_BKT (hashv h) (num_buckets t)) = Ret b /\
    wf (set_items (u32 (num_items t - 1)) (unlink (elem h) (app_order t))
         (set_buckets (<[Z.to_nat (HASH_TO_BKT (hashv h) (num_buckets t)) :=
                          HASH_DEL_IN_BKT b (elem h)]> (buckets t)) t)).
Proof.
  intros Hwf Hn Hi Hlen. pose proof (list_elem_of_lookup_2 _ _ _ Hi) as Hin.
  destruct (bucket_of t h Hwf Hin) as (b & Hb & Hinb). pose proof Hwf as [Hpow Hmem Hp Hh Hit].
  exists b. split; [unfold bucket_at; by rewrite Hb|].
  destruct (parts_bucket _ _ _ Hp _ b Hb) as [Hc Hf].
  pose proof (lookup_lt_Some _ _ _ Hi) as Hil.
  assert (length (chain b) <= length (app_order t))%nat as Hle.
  { pose proof (parts_items _ _ _ Hp) as HP. rewrite (concat_buckets _ _ b Hb) in HP.
    apply Permutation_length in HP. rewrite length_app in HP. lia. }
  split; cbn [num_buckets log2_num_buckets buckets app_order num_items set_buckets set_items];
    [done|done| | |].
  - destruct (unlink_perm (elem h) h (app_order t) [] (app_order t)) as [_ HL0];
      [done|by rewrite app_nil_r|done|done|].
    eapply parts_set; [exact Hp|exact Hb| | |].
    + cbn [count chain HASH_DEL_IN_BKT]. rewrite Hc.
      pose proof (parts_items _ _ _ Hp) as HP. rewrite (concat_buckets _ _ b Hb) in HP.
      destruct (unlink_perm (elem h) h _ _ _ Hn HP Hinb eq_refl) as [_ HL].
      unfold u32. rewrite Z.mod_small; lia.
    + cbn [chain HASH_DEL_IN_BKT]. by apply Forall_unlink.
    + intros rest HP. cbn [chain HASH_DEL_IN_BKT].
      by destruct (unlink_perm (elem h) h _ _ _ Hn HP Hinb eq_refl).
  - by apply Forall_unlink.
  - rewrite (unlink_at _ _ i h Hn Hi eq_refl), length_delete by eauto. rewrite Hit.
    unfold u32. rewrite Z.mod_small; lia.
Qed.

Lemma delete_ok n head l i k a :
  stands_for n head l -> NoDup l.*2 -> Z.of_nat (length l) < 2 ^ 32 -> l !! i = Some (k, a) ->
  exists r, HASH_DELETE head a = Ret r /\ stands_for n r (delete i l).
Proof.
  intros Hs Hn Hlen Hi. destruct head as [t|]; cbn in Hs; [|by subst].
  destruct Hs as (Hwf & -> & Hne & Hlog).
  rewrite <- list_fmap_compose in Hn. change (snd ∘ entry) with (@elem A) in Hn.
  rewrite length_fmap in Hlen. rewrite list_lookup_fmap in Hi.
  destruct (app_order t !! i) as [h|] eqn:Hi'; [|done]. injection Hi as Hk Ha.
  cbn [HASH_DELETE]. rewrite (handle_of_ok a _ i h) by done. cbn [obind].
  destruct (delete_in_table t i h Hwf Hn Hi' Hlen) as (b & Hb & Hwf2). rewrite Ha in Hwf2.
  pose proof (unlink_at a _ i h Hn Hi' Ha) as Hun.
  destruct (app_order t) as [|h1 [|h2 rest]] eqn:Eo; [done| |].
  - exists None. split; [done|]. cbn. by destruct i as [|[|i]].
  - rewrite Hb. cbn [obind]. eexists. split; [done|].
    split; [exact Hwf2|]. cbn [app_order set_items]. rewrite Hun, list_fmap_delete.
    split; [done|]. split; [by destruct i as [|[|i]]|done].
Qed.

(** ** Sequences of operations *)

Inductive operation := Add (k : list byte) (a : A) | Delete (a : A).

(** What an operation does to the list of elements, where it is allowed: new keys and
    elements are added, elements that are there deleted. *)
Definition after (l : list (list byte * A)) (o : operation) : option (list (list byte * A)) :=
  match o with
  | Add k a =>
      if decide ((k ∉ l.*1) /\ (a ∉ l.*2)) then Some (l ++ [(k, a)]) else None
  | Delete a =>
      match list_find (fun e => e.2 = a) l with
      | Some (i, _) => Some (delete i l)
      | None => None
      end
  end.

Fixpoint after_all (l : list (list byte * A)) (os : list operation)
  : option (list (list byte * A)) :=
  match os with
  | [] => Some l
  | o :: os => match after l o with Some l => after_all l os | None => None end
  end.

(** [None]: the program exited for want of memory. *)
Fixpoint run (head : option table) (os : list operation) : outcome (option (option table)) :=
  match os with
  | [] => Ret (Some head)
  | Add k a :: os =>
      let+ t := HASH_ADD_KEYPTR head k a in
      match t with None => Ret None | Some t => run (Some t) os end
  | Delete a :: os => let+ head := HASH_DELETE head a in run head os
  end.

Lemma run_ok os : forall n head l l',
  stands_for n head l -> NoDup l.*1 -> NoDup l.*2 ->
  Z.of_nat (length l + length os) < 2 ^ 32 - 1 -> after_all l os = Some l' ->
  exists r, run head os = Ret r /\
    match r with
    | None => avail < 2 ^ (10 + Z.of_nat (n + length os))
    | Some head' => exists n', stands_for n' head' l' /\ NoDup l'.*1
    end.
Proof.
  induction os as [|o os IH]; intros n head l l' Hs Hk Ha Hlen Hl'; cbn [run].
  { injection Hl' as <-. exists (Some head). split; [done|]. by exists n. }
  cbn [after_all] in Hl'. destruct (after l o) as [l1|] eqn:E; [|done].
  cbn [length] in Hlen. destruct o as [k a|a]; cbn [after] in E.
  - destruct (decide _) as [[Hnk Hna]|]; [|done]. injection E as <-.
    destruct (add_ok n head l k a Hs) as (r & -> & Hr); [lia|]. cbn [obind].
    destruct r as [t|].
    + destruct (IH (S n) (Some t) (l ++ [(k, a)]) l') as (r & -> & Hr2); [done| | | |done|].
      * rewrite fmap_app. apply list.NoDup_app. split; [done|]. cbn.
        split; [by intros x Hx ->%list_elem_of_singleton|apply NoDup_singleton].
      * rewrite fmap_app. apply list.NoDup_app. split; [done|]. cbn.
        split; [by intros x Hx ->%list_elem_of_singleton|apply NoDup_singleton].
      * rewrite length_app. cbn [length]. lia.
      * exists r. split; [done|]. destruct r; [done|]. cbn [length].
        by replace (n + S (length os))%nat with (S n + length os)%nat by lia.
    + eexists. split; [done|]. cbn. eapply Z.lt_le_trans; [exact Hr|].
      apply Z.pow_le_mono_r; lia.
  - destruct (list_find _ l) as [[i e]|] eqn:Ef; [|done]. injection E as <-.
    apply list_find_Some in Ef as (Hi & He & _). destruct e as [k a']. cbn in He. subst a'.
    destruct (delete_ok n head l i k a Hs Ha) as (r & -> & Hr); [lia|done|]. cbn [obind].
    pose proof (delete_Permutation _ _ _ Hi) as HP. rewrite HP in Hk, Ha. cbn in Hk, Ha.
    apply list.NoDup_cons in Hk as [_ Hk], Ha as [_ Ha].
    destruct (IH n r (delete i l) l') as (r2 & -> & Hr2); [done|done|done| |done|].
    + rewrite length_delete by eauto. pose proof (lookup_lt_Some _ _ _ Hi). lia.
    + exists r2. split; [done|]. destruct r2; [done|]. eapply Z.lt_le_trans; [exact Hr2|].
      apply Z.pow_le_mono_r; cbn [length]; lia.
Qed.

Lemma fsck_ok t : wf t -> HASH_FSCK (Some t) = true.
Proof.
  intros [_ _ Hp _ Hi]. cbn [HASH_FSCK]. rewrite !andb_true_iff. split; [split|].
  - apply forallb_forall. intros b Hb. apply list_elem_of_In, list_elem_of_lookup in Hb as (i & Hb).
    apply Z.eqb_eq. by destruct (parts_bucket _ _ _ Hp i b Hb).
  - apply Z.eqb_eq. rewrite Hi. f_equal. apply Permutation_length. apply (parts_items _ _ _ Hp).
  - by apply Z.eqb_eq.
Qed.
End buckets.

(** With equal keys the two descriptions differ: the chain is turned around when the buckets
    are doubled, and the oldest element is found instead of the newest. *)
Example equal_keys_turn :
  let adds n := (fun i => Add (lit "k") i) <$> List.seq 0 n in
  let found n := let+ r := run (2 ^ 20) None (adds n) in
                 match r with Some head => HASH_FIND head (lit "k") | None => Ret None end in
  found 9%nat = Ret (Some 8%nat) /\ found 10%nat = Ret (Some 0%nat).
Proof. vm_compute. by split. Qed.

(** C27 (equivalence): under every sequence of additions of new keys and deletions of elements
    that are there, the table with its buckets stands for the list of elements in order of
    addition: the macros stay in bounds and come to an end, the count is the length of the
    list, every key finds what it finds in the list, and the check of the debug builds
    passes.  The program exits for want of memory only when a block that can be needed for as
    many elements is refused. *)
Theorem table_stands_for_list {A} `{EqDecision A} avail os (l : list (list byte * A)) :
  avail < 2 ^ 35 -> Z.of_nat (length os) < 2 ^ 32 - 1 -> after_all [] os = Some l ->
  exists r, run avail None os = Ret r /\
    match r with
    | None => avail < 2 ^ (10 + Z.of_nat (length os))
    | Some head =>
        HASH_COUNT head = Z.of_nat (length l) /\ HASH_FSCK head = true /\
        forall k, HASH_FIND head k = Ret (Uthash.HASH_FIND l k)
    end.
Proof.
  intros Ha Hn Hl.
  destruct (run_ok avail Ha os 0 None [] l) as (r & E & Hr); [done|constructor|constructor|done|done|].
  exists r. split; [done|]. destruct r as [head|]; [|done].
  destruct Hr as (n & Hs & Hk). destruct head as [t|]; cbn in Hs.
  - destruct Hs as (Hwf & -> & _ & _). cbn [HASH_COUNT]. rewrite length_fmap.
    split; [by apply (wf_items avail)|]. split; [by apply (fsck_ok avail)|].
    intros k. apply (find_ok avail); [done|]. by rewrite <- list_fmap_compose in Hk.
  - subst l. by repeat split.
Qed.

Lemma table_stands_for_list_witness :
  let name i := lit "key" ++ [z2b (Z.of_nat i)] in
  let os := ((fun i => Add (name i) i) <$> List.seq 0 12) ++ [Delete 3%nat; Delete 0%nat] in
  let l := (fun i => (name i, i)) <$> [1; 2; 4; 5; 6; 7; 8; 9; 10; 11]%nat in
  exists r, run (2 ^ 30) None os = Ret r /\
    match r with
    | None => 2 ^ 30 < 2 ^ 24
    | Some head =>
        HASH_COUNT head = 10 /\ HASH_FSCK head = true /\
        forall k, HASH_FIND head k = Ret (Uthash.HASH_FIND l k)
    end.
Proof.
  intros name os l. refine (table_stands_for_list (2 ^ 30) os l _ _ _);
    [reflexivity|reflexivity|vm_compute; reflexivity].
Defined.
