(* ===== verification/RecordFile.v ===== *)
(** * Record files (bptree/file.c, bptree/file.h)

    A file of records, each a header of four bytes (a flag for a digest, a length of 31 bits),
    the digest if there is one and the data.  The file is its bytes, the position of its
    descriptor and the answers of the next calls of the C library ([io]): with [false] a call
    fails.  [MD5] is an argument. *)

From S2P Require Import Prelude.
From Stdlib Require Import Init.Byte.

#[local] Open Scope c_scope.

Definition FILE_SUCCESS : Z := 0.
Definition FILE_SHORT_READ : Z := 1.
Definition FILE_SEEK_ERROR : Z := 2.
Definition FILE_READ_ERROR : Z := 3.
Definition FILE_WRITE_ERROR : Z := 4.
Definition FILE_CORRUPTION : Z := 5.
Definition FILE_MEMORY_ERROR : Z := 6.

Definition MD5_DIGEST_LENGTH : Z := 16.
Definition SIZEOF_FILE_HANDLE : Z := 8.
Definition SIZEOF_RECORD_HEADER : Z := 4.

(** ** The file and the C library *)

Record file := File {
  contents : list byte;
  position : Z;
  io : list bool;
}.

Definition seek (p : Z) (f : file) : file := File (contents f) p (tail (io f)).

Definition answer (f : file) : bool := match io f with [] => true | b :: _ => b end.

Definition fopen (f : file) : bool * file := (answer f, seek 0 f).

Definition fseek_end (f : file) : Z * file :=
  if answer f then (0, seek (Z.of_nat (length (contents f))) f) else (-1, seek (position f) f).

Definition fseeko (offset : Z) (f : file) : Z * file :=
  if answer f && (0 <=? offset) then (0, seek offset f) else (-1, seek (position f) f).

(** One item of [n] bytes; an item of no bytes is not read. *)
Definition fread (n : Z) (f : file) : option (list byte) * file :=
  let data := take (Z.to_nat n) (drop (Z.to_nat (position f)) (contents f)) in
  let f' := seek (position f + Z.of_nat (length data)) f in
  if answer f && (0 <? n) && (Z.of_nat (length data) =? n) then (Some data, f') else (None, f').

Definition writev (data : list byte) (f : file) : Z * file :=
  if answer f then
    let p := Z.to_nat (position f) in
    (Z.of_nat (length data),
     File (take p (contents f) ++ data ++ drop (p + length data) (contents f))
       (position f + Z.of_nat (length data)) (tail (io f)))
  else (-1, seek (position f) f).

Definition fflush (f : file) : Z * file := (if answer f then 0 else -1, seek (position f) f).

Definition fclose (f : file) : file := seek (position f) f.

(** ** Records *)

Record RecordHeader := Header {
  has_md5 : bool;
  len : Z;
}.

(** Two bit fields in one word, the flag in the lowest bit. *)
Definition header_bytes (h : RecordHeader) : list byte :=
  le_bytes 4 ((if has_md5 h then 1 else 0) + 2 * (len h mod 2 ^ 31)).

Definition header_of (b : list byte) : RecordHeader :=
  Header (negb (le_value b mod 2 =? 0)) (le_value b / 2).

(** [data] of a [FileTerm]: NULL, a block, or a block that was freed. *)
Inductive pointer := Null | Block (b : list byte) | Freed.

Record FileTerm := Term {
  data : pointer;
  tlength : Z;
}.

Section file.
Context (MD5 : list byte -> list byte).

Definition deref (p : pointer) : outcome (list byte) :=
  match p with Block b => Ret b | Null => Undef NullDeref | Freed => Undef UseAfterFree end.

Definition file_open : M file bool :=
  let* h := malloc SIZEOF_FILE_HANDLE in
  match h with
  | None => ret false
  | Some _ =>
      let* ok := call fopen in
      if ok : bool then ret true else free ;;; ret false
  end.

Definition file_append (term : FileTerm) : M file Z :=
  let* rc := call fseek_end in
  if negb (rc =? 0) then ret FILE_SEEK_ERROR else
  let header := header_bytes (Header false (u32 (tlength term))) in
  let* b := lift (deref (data term)) in
  let* d := lift (mem_read b 0 (tlength term)) in
  let* n := call (writev (header ++ d)) in
  if negb (n =? 0) then ret FILE_WRITE_ERROR else ret FILE_SUCCESS.

Definition file_append_md5 (term : FileTerm) (md5 : list byte) : M file Z :=
  let* rc := call fseek_end in
  if negb (rc =? 0) then ret FILE_SEEK_ERROR else
  let header := header_bytes (Header true (u32 (tlength term))) in
  let* digest := lift (mem_read md5 0 MD5_DIGEST_LENGTH) in
  let* b := lift (deref (data term)) in
  let* d := lift (mem_read b 0 (tlength term)) in
  let* n := call (writev (header ++ digest ++ d)) in
  if negb (n =? 0) then ret FILE_WRITE_ERROR else ret FILE_SUCCESS.

(** Header and digest of the record at [offset], or the error. *)
Definition read_header (offset : Z) : M file (Z * RecordHeader * list byte) :=
  let none := Header false 0 in
  let* rc := call (fseeko offset) in
  if negb (rc =? 0) then ret (FILE_SEEK_ERROR, none, []) else
  let* b := call (fread SIZEOF_RECORD_HEADER) in
  match b with
  | None => ret (FILE_READ_ERROR, none, [])
  | Some b =>
      let header := header_of b in
      if has_md5 header then
        let* d := call (fread MD5_DIGEST_LENGTH) in
        match d with
        | None => ret (FILE_READ_ERROR, header, [])
        | Some d => ret (FILE_SUCCESS, header, d)
        end
      else ret (FILE_SUCCESS, header, [])
  end.

(** The error code and the term; a failed read of the data is -1, which is no [FileError]. *)
Definition file_read (offset : Z) (term : FileTerm) : M file (Z * FileTerm) :=
  let* '(rc, header, file_md5) := read_header offset in
  if negb (rc =? FILE_SUCCESS) then ret (rc, term) else
  let* '(block, owned, n) :=
    match data term with
    | Null => let* b := malloc (len header) in ret (b, true, len header)
    | p => let* b := lift (deref p) in
           ret (Some b, false, if len header <? tlength term then len header else tlength term)
    end in
  match block with
  | None => ret (FILE_MEMORY_ERROR, Term Null n)
  | Some b =>
      let drop_owned b := if owned : bool then free ;;; ret (Term Freed n) else ret (Term (Block b) n) in
      let* d := call (fread n) in
      match d with
      | None => let* t := drop_owned b in ret (-1, t)
      | Some d =>
          let* b := lift (mem_write b 0 d) in
          let* same :=
            if has_md5 header then
              let* text := lift (mem_read b 0 (len header)) in
              ret (bool_decide (file_md5 = MD5 text))
            else ret true in
          if negb same then let* t := drop_owned b in ret (FILE_CORRUPTION, t)
          else if n <? len header then ret (FILE_SHORT_READ, Term (Block b) (len header))
          else ret (FILE_SUCCESS, Term (Block b) n)
      end
  end.

(** The error the callback is given, if it is called. *)
Definition file_read_cb (offset : Z) : M file (option Z) :=
  let* '(rc, header, file_md5) := read_header offset in
  if negb (rc =? FILE_SUCCESS) then ret (Some rc) else
  let* b := malloc (len header) in
  match b with
  | None => ret (Some FILE_MEMORY_ERROR)
  | Some b =>
      let* d := call (fread (len header)) in
      match d with
      | None => free ;;; ret (Some FILE_READ_ERROR)
      | Some d => ret None
      end
  end.

Definition file_flush : M file Z := call fflush.

Definition file_close : M file Z := call_ fclose ;;; free ;;; ret 0.
End file.

(** ** Headers *)

Lemma header_of_bytes h :
  0 <= len h < 2 ^ 31 -> header_of (header_bytes h) = h.
Proof.
  intros Hl. destruct h as [m l]. cbn [len has_md5] in *. unfold header_of, header_bytes.
  cbn [len has_md5]. rewrite (Z.mod_small l) by lia.
  set (b := if m then 1 else 0). assert (0 <= b < 2) as Hb by (unfold b; destruct m; lia).
  rewrite le_value_bytes_small by (change (256 ^ Z.of_nat 4) with (2 * 2 ^ 31); lia).
  rewrite (Z.mul_comm 2), Z.mod_add, Z.div_add, Z.mod_small, Z.div_small by lia.
  unfold b. by destruct m.
Qed.

Lemma length_header_bytes h : length (header_bytes h) = 4%nat.
Proof. apply length_le_bytes. Qed.

(** ** Runs without failures *)

Section correct.
Context (MD5 : list byte -> list byte).
Implicit Types (w : world file) (Q : Z -> world file -> Prop).

(** The bytes of a record, with or without the digest. *)
Definition record (sum : bool) (d : list byte) : list byte :=
  header_bytes (Header sum (Z.of_nat (length d))) ++ (if sum then MD5 d else []) ++ d.

Definition append (sum : bool) (d : list byte) : M file Z :=
  let term := Term (Block d) (Z.of_nat (length d)) in
  if sum then file_append_md5 term (MD5 d) else file_append term.

Lemma wp_seek_end w (Q : Z -> world file -> Prop) :
  io (w_ext w) = [] ->
  (forall w', heap 0 w w' ->
     w_ext w' = File (contents (w_ext w)) (Z.of_nat (length (contents (w_ext w)))) [] -> Q 0 w') ->
  wp (call fseek_end) w Q.
Proof.
  intros Hio HQ. apply wp_call. intros a f w'. unfold fseek_end, answer, seek. rewrite Hio.
  intros [= <- <-] Hw' Hh. by apply HQ.
Qed.

Lemma wp_writev_end d w (Q : Z -> world file -> Prop) c :
  w_ext w = File c (Z.of_nat (length c)) [] ->
  (forall w', heap 0 w w' -> w_ext w' = File (c ++ d) (Z.of_nat (length (c ++ d))) [] ->
     Q (Z.of_nat (length d)) w') ->
  wp (call (writev d)) w Q.
Proof.
  intros Hw HQ. apply wp_call. intros a f w'. unfold writev, answer. rewrite Hw. cbn [io contents position tail].
  rewrite Nat2Z.id, take_ge, drop_ge, app_nil_r by lia. intros [= <- <-] Hw' Hh.
  apply HQ; [done|]. rewrite Hw', length_app. f_equal. lia.
Qed.

(** Reading [n] bytes that are there. *)
Lemma wp_fread n d pre post w (Q : option (list byte) -> world file -> Prop) :
  w_ext w = File (pre ++ d ++ post) (Z.of_nat (length pre)) [] ->
  n = Z.of_nat (length d) -> (0 < length d)%nat ->
  (forall w', heap 0 w w' ->
     w_ext w' = File (pre ++ d ++ post) (Z.of_nat (length (pre ++ d))) [] -> Q (Some d) w') ->
  wp (call (fread n)) w Q.
Proof.
  intros Hw -> Hd HQ. apply wp_call. intros a f w'. unfold fread, answer, seek. rewrite Hw.
  cbn [io contents position tail]. rewrite !Nat2Z.id, drop_app_length, take_app_length.
  rewrite (proj2 (Z.ltb_lt _ _)), Z.eqb_refl by lia. cbn [andb]. intros [= <- <-] Hw' Hh.
  apply HQ; [done|]. rewrite Hw', length_app. f_equal. lia.
Qed.

Lemma wp_append sum d w Q :
  io (w_ext w) = [] -> Z.of_nat (length d) < 2 ^ 31 -> (forall s, length (MD5 s) = 16%nat) ->
  (forall w', heap 0 w w' ->
     w_ext w' = File (contents (w_ext w) ++ record sum d)
                  (Z.of_nat (length (contents (w_ext w) ++ record sum d))) [] ->
     Q FILE_WRITE_ERROR w') ->
  wp (append sum d) w Q.
Proof.
  intros Hio Hl Hmd HQ. unfold append, file_append, file_append_md5. cbn [data tlength deref].
  assert (forall b, header_bytes (Header b (u32 (Z.of_nat (length d)))) =
                    header_bytes (Header b (Z.of_nat (length d)))) as Hu
    by (intros b; unfold u32; by rewrite Z.mod_small by lia).
  destruct sum.
  all: apply wp_bind, wp_seek_end; [done|]; intros w1 Hh1 He1; cbn [negb Z.eqb].
  all: rewrite Hu.
  - apply wp_bind. rewrite (mem_read_nat _ 0 16) by (try done; rewrite Hmd; lia). apply wp_lift.
    rewrite drop_0, (take_ge (MD5 d)) by (rewrite Hmd; lia).
    apply wp_bind, wp_lift, wp_bind.
    rewrite (mem_read_nat _ 0 (length d)) by (done || lia). apply wp_lift.
    rewrite drop_0, (take_ge d) by lia.
    apply wp_bind. eapply wp_writev_end; [exact He1|]. intros w2 Hh2 He2.
    rewrite (proj2 (Z.eqb_neq _ 0)) by (rewrite length_app, length_header_bytes; lia).
    cbn [negb]. apply wp_ret, HQ; [by eapply heap_eq; [eapply heap_trans|]|done].
  - apply wp_bind, wp_lift, wp_bind.
    rewrite (mem_read_nat _ 0 (length d)) by (done || lia). apply wp_lift.
    rewrite drop_0, (take_ge d) by lia.
    apply wp_bind. eapply wp_writev_end; [exact He1|]. intros w2 Hh2 He2.
    rewrite (proj2 (Z.eqb_neq _ 0)) by (rewrite length_app, length_header_bytes; lia).
    cbn [negb]. apply wp_ret, HQ; [by eapply heap_eq; [eapply heap_trans|]|done].
Qed.

(** Where the data of the record at [pre] starts. *)
Definition before_data (pre : list byte) (sum : bool) (d : list byte) : list byte :=
  pre ++ header_bytes (Header sum (Z.of_nat (length d))) ++ (if sum then MD5 d else []).

Lemma wp_read_header pre sum d post w (Q : Z * RecordHeader * list byte -> world file -> Prop) :
  contents (w_ext w) = pre ++ record sum d ++ post -> io (w_ext w) = [] ->
  Z.of_nat (length d) < 2 ^ 31 -> (forall s, length (MD5 s) = 16%nat) ->
  (forall w', heap 0 w w' ->
     w_ext w' = File (pre ++ record sum d ++ post) (Z.of_nat (length (before_data pre sum d))) [] ->
     Q (FILE_SUCCESS, Header sum (Z.of_nat (length d)), if sum then MD5 d else []) w') ->
  wp (read_header (Z.of_nat (length pre))) w Q.
Proof.
  intros Hc Hio Hl Hmd HQ. set (h := Header sum (Z.of_nat (length d))).
  set (sumb := if sum then MD5 d else []) in *.
  assert (pre ++ record sum d ++ post = pre ++ header_bytes h ++ (sumb ++ d ++ post)) as E1
    by (unfold record; by rewrite <- !app_assoc).
  unfold read_header. apply wp_bind, wp_call. intros a f w1. unfold fseeko, answer.
  rewrite Hio, (proj2 (Z.leb_le _ _)) by lia. intros [= <- <-] He1 Hh1. cbn [negb Z.eqb].
  unfold seek in He1. rewrite Hc, Hio, E1 in He1. cbn [tail] in He1.
  apply wp_bind. eapply wp_fread; [exact He1|by rewrite length_header_bytes|
    rewrite length_header_bytes; lia|].
  intros w2 Hh2 He2. rewrite header_of_bytes by (cbn [len h]; lia).
  assert (w_ext w2 = File ((pre ++ header_bytes h) ++ sumb ++ (d ++ post))
                       (Z.of_nat (length (pre ++ header_bytes h))) []) as He2'
    by (rewrite He2; f_equal; by rewrite <- !app_assoc).
  cbn [has_md5 h]. unfold sumb in *. destruct sum.
  - apply wp_bind. eapply wp_fread; [exact He2'|by rewrite Hmd|rewrite Hmd; lia|].
    intros w3 Hh3 He3. apply wp_ret, HQ; [solve_heap|]. rewrite He3, E1. unfold before_data.
    f_equal; [by rewrite <- !app_assoc|]. by rewrite <- app_assoc.
  - apply wp_ret, HQ; [solve_heap|]. rewrite He2', E1. unfold before_data.
    f_equal; by rewrite ?app_nil_r, <- ?app_assoc.
Qed.

Lemma wp_file_read pre sum d post n w (Q : Z * FileTerm -> world file -> Prop) :
  contents (w_ext w) = pre ++ record sum d ++ post -> io (w_ext w) = [] -> mem_ok w ->
  0 < Z.of_nat (length d) < 2 ^ 31 -> (forall s, length (MD5 s) = 16%nat) ->
  (forall w', heap 1 w w' -> contents (w_ext w') = contents (w_ext w) ->
     Q (FILE_SUCCESS, Term (Block d) (Z.of_nat (length d))) w') ->
  wp (file_read MD5 (Z.of_nat (length pre)) (Term Null n)) w Q.
Proof.
  intros Hc Hio Hm Hl Hmd HQ. unfold file_read. apply wp_bind.
  eapply wp_read_header; [exact Hc|done|lia|done|]. intros w1 Hh1 He1.
  cbn [Z.eqb negb data len]. unfold FILE_SUCCESS at 1. cbn [Z.eqb negb].
  apply wp_bind, wp_bind, wp_malloc; [lia| |].
  2: { intros w' Hn. exfalso. apply Hn. split; [by eapply heap_mem_ok|].
       unfold PTRDIFF_MAX. lia. }
  intros blk w2 Hblk _ Hf2 _. apply wp_ret. cbn [Z.eqb negb].
  apply wp_bind. eapply (wp_fread _ d (before_data pre sum d) post); [|done|lia|].
  { rewrite (frame_ext _ _ _ Hf2), He1. f_equal. unfold record, before_data.
    by rewrite <- !app_assoc. }
  intros w3 Hh3 He3. rewrite Nat2Z.id in Hblk.
  apply wp_bind. rewrite mem_write_ok by lia. apply wp_lift.
  rewrite take_0, drop_ge, app_nil_r by (change (Z.to_nat 0) with 0%nat; lia). cbn [app].
  apply wp_bind. cbn [has_md5]. apply wp_mono with (Q := fun (same : bool) w' => same = true /\ w' = w3).
  - destruct sum; [|by apply wp_ret]. apply wp_bind.
    rewrite (mem_read_nat _ 0 (length d)) by (done || lia). apply wp_lift.
    rewrite drop_0, (take_ge d) by lia. apply wp_ret. by rewrite bool_decide_true.
  - intros same w' [-> ->]. cbn [negb]. rewrite (proj2 (Z.ltb_ge _ _)) by lia.
    apply wp_ret, HQ; [solve_heap|]. rewrite He3, Hc. unfold before_data, record. cbn [contents].
    by rewrite <- !app_assoc.
Qed.
End correct.

(** ** Properties *)

(** What is appended to a file, with or without a digest, is read back from
    the place where the file ended, as a block of its size; data of no bytes apart, and as
    long as no call fails.  The append itself always reports an error, as the number of
    bytes [writev] wrote is taken for an error code. *)
Theorem file_append_read MD5 sum d n w :
  (forall s, length (MD5 s) = 16%nat) -> 0 < Z.of_nat (length d) < 2 ^ 31 ->
  io (w_ext w) = [] -> mem_ok w ->
  let size := Z.of_nat (length (contents (w_ext w))) in
  exists w1 w2, append MD5 sum d w = Ret (FILE_WRITE_ERROR, w1) /\ heap 0 w w1 /\
    file_read MD5 size (Term Null n) w1 =
      Ret ((FILE_SUCCESS, Term (Block d) (Z.of_nat (length d))), w2) /\ heap 1 w1 w2 /\
    contents (w_ext w2) = contents (w_ext w) ++ record MD5 sum d.
Proof.
  intros Hmd Hl Hio Hm size.
  pose proof (wp_append MD5 sum d w (fun rc w' => rc = FILE_WRITE_ERROR /\ heap 0 w w' /\
    contents (w_ext w') = contents (w_ext w) ++ record MD5 sum d /\ io (w_ext w') = [])) as HA.
  apply wp_run in HA as (rc & w1 & E1 & -> & Hh1 & Hc1 & Hio1); [|done|lia|done|].
  2: { intros w' Hh ->. done. }
  pose proof (wp_file_read MD5 (contents (w_ext w)) sum d [] n w1 (fun r w' =>
    r = (FILE_SUCCESS, Term (Block d) (Z.of_nat (length d))) /\ heap 1 w1 w' /\
    contents (w_ext w') = contents (w_ext w1))) as HR.
  apply wp_run in HR as (r & w2 & E2 & -> & Hh2 & Hc2);
    [|by rewrite app_nil_r|done|by eapply heap_mem_ok|done|done|done].
  exists w1, w2. rewrite Hc2. done.
Qed.

Lemma file_append_read_witness :
  let md5 (s : list byte) := take 16 (s ++ replicate 16 x00) in
  let w := World [] (fun _ => x2a) 0 0 (File (lit "older records") 3 []) in
  exists w1 w2, append md5 true (lit "some data") w = Ret (FILE_WRITE_ERROR, w1) /\ heap 0 w w1 /\
    file_read md5 13 (Term Null 0) w1 =
      Ret ((FILE_SUCCESS, Term (Block (lit "some data")) 9), w2) /\ heap 1 w1 w2 /\
    contents (w_ext w2) = lit "older records" ++ record md5 true (lit "some data").
Proof.
  intros md5 w. refine (file_append_read md5 true (lit "some data") 0 w _ _ _ _);
    [|vm_compute; by split|reflexivity|reflexivity].
  intros s. unfold md5. rewrite length_take, length_app, length_replicate. lia.
Defined.

(** A buffer of the caller's that is shorter than a record with a digest is read behind its
    end. *)
Example short_read_overruns :
  let md5 (s : list byte) := take 16 (s ++ replicate 16 x00) in
  let w := World [] (fun _ => x2a) 0 0 (File (record md5 true (lit "some data")) 0 []) in
  file_read md5 0 (Term (Block (lit "abcd")) 4) w = Undef OutOfBounds /\
  exists w', file_read md5 0 (Term (Block (lit "abcd")) 4)
    (World [] (fun _ => x2a) 0 0 (File (record md5 false (lit "some data")) 0 [])) =
    Ret ((FILE_SHORT_READ, Term (Block (lit "some")) 9), w').
Proof. split; [reflexivity|]. eexists. vm_compute. reflexivity. Qed.

(** A record that is read in order is not given to the callback, and its block is lost. *)
Example callback_not_called :
  let w := World [] (fun _ => x2a) 0 0 (File (record id false (lit "some data")) 0 []) in
  exists w', file_read_cb 0 w = Ret (None, w') /\ w_live w' = 1.
Proof. eexists. split; vm_compute; reflexivity. Qed.
