(* ===== verification/Lz4Format.v ===== *)
(** * LZ4 blocks

    What a compressed block is, independently of the code that writes and reads it: sequences
    of literals followed by a copy of earlier output, and literals at the end.  The file
    gives their bytes, what they stand for, and the lemmas on repeated output that the
    compressor (Lz4Encode) and the decoder (Lz4Decode) share. *)

From S2P Require Import Prelude.
From Stdlib Require Import Init.Byte.

#[local] Open Scope nat_scope.

(** [extra] is the length of the match less the four bytes every match has. *)
Record sequence := Sequence {
  literals : list byte;
  offset : nat;
  extra : nat;
}.

Record block := Block {
  sequences : list sequence;
  last_literals : list byte;
}.

(** ** Bytes *)

(** The bytes of a length after the four bits in the token. *)
Definition length_tail (n : nat) : list byte :=
  if n <? 15 then []
  else replicate ((n - 15) / 255) xff ++ [z2b (Z.of_nat ((n - 15) mod 255))].

Definition token (lits matched : nat) : byte :=
  z2b (16 * Z.of_nat (Nat.min lits 15) + Z.of_nat (Nat.min matched 15)).

Definition encode_sequence (s : sequence) : list byte :=
  token (length (literals s)) (extra s) :: length_tail (length (literals s)) ++ literals s ++
  le_bytes 2 (Z.of_nat (offset s)) ++ length_tail (extra s).

Definition encode_last (l : list byte) : list byte :=
  token (length l) 0 :: length_tail (length l) ++ l.

Definition encode_block (b : block) : list byte :=
  concat (map encode_sequence (sequences b)) ++ encode_last (last_literals b).

(** ** Meaning *)

(** The [n] bytes that continue [out] with period [off]. *)
Definition repeat_from (out : list byte) (off n : nat) : list byte :=
  (fun j => nth (length out - off + j mod off) out NUL) <$> List.seq 0 n.

Definition expand_sequence (out : list byte) (s : sequence) : list byte :=
  let out := out ++ literals s in
  out ++ repeat_from out (offset s) (4 + extra s).

Definition expand_block (b : block) : list byte :=
  foldl expand_sequence [] (sequences b) ++ last_literals b.

(** A match copies from what is there, starts twelve bytes and ends five before the end of
    the [n] bytes; [pos] is where the next sequence starts. *)
Fixpoint sequences_ok (pos n : nat) (l : list sequence) : Prop :=
  match l with
  | [] => True
  | s :: l =>
      let start := pos + length (literals s) in
      1 <= offset s <= start /\ (Z.of_nat (offset s) < 65536)%Z /\ start + 12 <= n /\
      start + 4 + extra s + 5 <= n /\ sequences_ok (start + 4 + extra s) n l
  end.

Definition block_ok (b : block) : Prop :=
  sequences_ok 0 (length (expand_block b)) (sequences b).

(** ** Repeated output *)

Lemma length_repeat_from out off n : length (repeat_from out off n) = n.
Proof. unfold repeat_from. by rewrite length_fmap, length_seq. Qed.

Lemma lookup_repeat_from out off n j :
  1 <= off <= length out -> j < n ->
  repeat_from out off n !! j = out !! (length out - off + j mod off).
Proof.
  intros Ho Hj. unfold repeat_from. rewrite list_lookup_fmap, lookup_seq_lt by done. cbn.
  pose proof (Nat.mod_upper_bound j off ltac:(lia)).
  destruct (lookup_lt_is_Some_2 out (length out - off + j mod off)) as [x Hx]; [lia|].
  rewrite Hx. by rewrite (nth_lookup_Some _ _ _ _ Hx).
Qed.

(** Reading a multiple [d] of the period back, no further than the period before the
    repeated part, gives the bytes that follow. *)
Lemma repeat_back out off n c d k :
  1 <= off <= length out -> d = k * off -> 1 <= k -> d <= off + n -> c <= d ->
  out ++ repeat_from out off (n + c) =
    (out ++ repeat_from out off n) ++
      take c (drop (length out + n - d) (out ++ repeat_from out off n)).
Proof.
  intros Ho -> Hk Hd Hc. rewrite <- app_assoc. f_equal.
  set (q := out ++ repeat_from out off n).
  assert (length q = length out + n) as Hq by (unfold q; by rewrite length_app, length_repeat_from).
  apply list_eq. intros i. destruct (decide (i < n + c)) as [Hi|Hi].
  2: { rewrite !lookup_ge_None_2; [done| |].
       - rewrite length_app, length_repeat_from, length_take, length_drop. lia.
       - rewrite length_repeat_from. lia. }
  rewrite lookup_repeat_from by done.
  destruct (decide (i < n)) as [Hin|Hin].
  - rewrite lookup_app_l by (by rewrite length_repeat_from). by rewrite lookup_repeat_from.
  - rewrite lookup_app_r by (rewrite length_repeat_from; lia). rewrite length_repeat_from.
    rewrite lookup_take_lt by lia. rewrite lookup_drop. unfold q.
    destruct (decide (length out + n - k * off + (i - n) < length out)) as [Hl|Hl].
    + rewrite lookup_app_l by done. f_equal.
      assert (i mod off = i - (k - 1) * off) as ->; [|nia].
      symmetry. apply Nat.mod_unique with (k - 1); nia.
    + rewrite lookup_app_r by lia. rewrite lookup_repeat_from by lia. do 2 f_equal.
      replace i with (length out + n - k * off + (i - n) - length out + k * off) at 1 by lia.
      by rewrite Nat.Div0.mod_add.
Qed.

(** The first bytes of a longer repetition are the shorter one. *)
Lemma repeat_from_app out off n c :
  exists more, repeat_from out off (n + c) = repeat_from out off n ++ more /\ length more = c.
Proof.
  unfold repeat_from. rewrite List.seq_app, fmap_app. eexists. split; [done|].
  by rewrite length_fmap, length_seq.
Qed.

(** A match in a text: the text continues its prefix with the distance as its period. *)
Lemma repeat_from_text text p off n :
  1 <= off <= p -> p + n <= length text ->
  (forall j, j < n -> text !! (p + j) = text !! (p + j - off)) ->
  take p text ++ repeat_from (take p text) off n = take (p + n) text.
Proof.
  intros Ho Hn Hm. assert (length (take p text) = p) as Hl by (rewrite length_take; lia).
  apply list_eq. intros i. destruct (decide (i < p)) as [Hi|Hi].
  { rewrite lookup_app_l by lia. rewrite !lookup_take_lt by lia. done. }
  rewrite lookup_app_r by lia. rewrite Hl.
  destruct (decide (i < p + n)) as [Hin|Hin].
  2: { rewrite !lookup_ge_None_2; [done| |]; rewrite ?length_take, ?length_repeat_from; lia. }
  rewrite lookup_repeat_from by lia. rewrite Hl, !lookup_take_lt;
    [|lia|pose proof (Nat.mod_upper_bound (i - p) off ltac:(lia)); lia].
  assert (forall q j, j < n -> j = q * off + j mod off ->
            text !! (p - off + j mod off) = text !! (p + j)) as Hper.
  { intros q. induction q as [|q IH]; intros j Hj Hq.
    - rewrite Hm by done. f_equal. lia.
    - rewrite Hm by done. replace (p + j - off) with (p + (j - off)) by lia.
      assert ((j - off) mod off = j mod off) as Hmod.
      { replace j with (j - off + 1 * off) at 2 by lia. by rewrite Nat.Div0.mod_add. }
      rewrite <- Hmod. apply IH; [lia|]. rewrite Hmod. lia. }
  rewrite (Hper ((i - p) / off)) by (try lia; rewrite Nat.mul_comm; apply Nat.div_mod; lia).
  f_equal. lia.
Qed.

(** ** Sizes *)

Lemma length_expand_sequence out s :
  length (expand_sequence out s) = length out + length (literals s) + 4 + extra s.
Proof.
  unfold expand_sequence. cbv zeta. rewrite !length_app, length_repeat_from. lia.
Qed.

Lemma length_expand_sequences l : forall out, length out <= length (foldl expand_sequence out l).
Proof.
  induction l as [|s l IH]; intros out; cbn [foldl]; [done|].
  pose proof (IH (expand_sequence out s)) as H. rewrite length_expand_sequence in H. lia.
Qed.

(** A block with a match ends in at least five literals. *)
Lemma last_literals_long l : forall out last,
  sequences_ok (length out) (length (foldl expand_sequence out l ++ last)) l -> l <> [] ->
  5 <= length last.
Proof.
  induction l as [|s l IH]; intros out last Hok Hne; [done|]. cbn [sequences_ok] in Hok.
  destruct Hok as (_ & _ & _ & Hend & Hok). destruct l as [|s' l].
  - cbn [foldl] in Hend. rewrite length_app, length_expand_sequence in Hend. lia.
  - apply (IH (expand_sequence out s)); [|done]. by rewrite length_expand_sequence.
Qed.

Lemma length_length_tail n : length (length_tail n) = if n <? 15 then 0 else (n - 15) / 255 + 1.
Proof.
  unfold length_tail. destruct (n <? 15); [done|]. by rewrite length_app, length_replicate.
Qed.

(** The tail of a length adds at most a byte per 255. *)
Lemma length_tail_bound n : length (length_tail n) <= n / 255 + 1 /\
  (n < 15 -> length (length_tail n) = 0).
Proof.
  rewrite length_length_tail. destruct (Nat.ltb_spec n 15); [split; lia|]. split; [|lia].
  pose proof (Nat.Div0.div_le_mono (n - 15) n 255 ltac:(lia)). lia.
Qed.

Lemma div255_add a b : a / 255 + b / 255 <= (a + b) / 255.
Proof.
  pose proof (Nat.div_mod a 255 ltac:(lia)). pose proof (Nat.div_mod b 255 ltac:(lia)).
  apply Nat.div_le_lower_bound; lia.
Qed.

(** One more sequence at the end of a block. *)
Lemma sequences_ok_snoc n s l : forall out,
  sequences_ok (length out) n l ->
  sequences_ok (length (foldl expand_sequence out l)) n [s] ->
  sequences_ok (length out) n (l ++ [s]).
Proof.
  induction l as [|s' l IH]; intros out Hl Hs; [done|]. cbn [app foldl sequences_ok] in *.
  destruct Hl as (H1 & H2 & H3 & H4 & H5). do 4 (split; [done|]).
  rewrite <- length_expand_sequence in H5 |- *. by apply IH.
Qed.
