(* ===== verification/Lz4Decode.v ===== *)
(** * LZ4 decompression (compress-lz4/lz4/lz4.c, the decoders)

    Both decoders as they are written for a 64 bit little endian machine, with the input and
    the output as blocks and every read and write of them checked: the copies in steps of
    eight bytes, which write past what they copy, and the table that spreads short periods.
    The decoder the program uses stays inside its blocks on any input that is not longer
    than eight megabytes, and expands every well formed block. *)

From S2P Require Import Prelude Lz4Format.
From Stdlib Require Import Init.Byte.

#[local] Open Scope c_scope.

Definition COPYLENGTH : Z := 8.
Definition STEPSIZE : Z := 8.
Definition ML_BITS : Z := 4.
Definition ML_MASK : Z := 15.
Definition RUN_MASK : Z := 15.

(** ** Reads and copies *)

Definition read_byte (b : list byte) (p : Z) : outcome Z :=
  let+ d := mem_read b p 1 in Ret (le_value d).

Definition A16 (b : list byte) (p : Z) : outcome Z :=
  let+ d := mem_read b p 2 in Ret (le_value d).

(** [LZ4_WILDCOPY]: eight bytes at a time, at least once, until [e] is reached.  First
    between two blocks, then inside one. *)
Fixpoint wild_copy (fuel : nat) (src : list byte) (s : Z) (dst : list byte) (d e : Z)
  : outcome (list byte * Z * Z) :=
  match fuel with
  | O => Undef Diverges
  | S fuel =>
      let+ x := mem_read src s 8 in
      let+ dst := mem_write dst d x in
      if d + 8 <? e then wild_copy fuel src (s + 8) dst (d + 8) e
      else Ret (dst, s + 8, d + 8)
  end.

Fixpoint wild_copy_in (fuel : nat) (dst : list byte) (s d e : Z) : outcome (list byte * Z * Z) :=
  match fuel with
  | O => Undef Diverges
  | S fuel =>
      let+ x := mem_read dst s 8 in
      let+ dst := mem_write dst d x in
      if d + 8 <? e then wild_copy_in fuel dst (s + 8) (d + 8) e
      else Ret (dst, s + 8, d + 8)
  end.

Definition steps (d e : Z) : nat := S (Z.to_nat (e - d)).

Definition LZ4_WILDCOPY (src : list byte) (s : Z) (dst : list byte) (d e : Z)
  : outcome (list byte * Z * Z) := wild_copy (steps d e) src s dst d e.

Definition LZ4_SECURECOPY (dst : list byte) (s d e : Z) : outcome (list byte * Z * Z) :=
  if d <? e then wild_copy_in (steps d e) dst s d e else Ret (dst, s, d).

(** [*op++ = *ref++]. *)
Definition copy_byte (dst : list byte) (ref op : Z) : outcome (list byte) :=
  let+ x := mem_read dst ref 1 in mem_write dst op x.

Fixpoint copy_bytes (n : nat) (dst : list byte) (ref op : Z) : outcome (list byte) :=
  match n with
  | O => Ret dst
  | S n => let+ dst := copy_byte dst ref op in copy_bytes n dst (ref + 1) (op + 1)
  end.

(** ** The copy of a match *)

(** Where the next four bytes and the bytes after the first eight are read; the -1 is a [size_t],
    which moves the pointer up by one. *)
Definition dec (z : Z) : Z := nth (Z.to_nat z) [0; 3; 2; 3; 0; 0; 0; 0] 0.
Definition dec2table (z : Z) : Z := nth (Z.to_nat z) [0; 0; 0; -1; 0; 1; 2; 3] 0.

(** The first eight bytes; periods below eight are spread. *)
Definition copy_first (dst : list byte) (ref op : Z) : outcome (list byte * Z * Z) :=
  if op - ref <? STEPSIZE then
    let dec2 := dec2table (op - ref) in
    let+ dst := copy_bytes 4 dst ref op in
    let ref := ref + 4 in
    let op := op + 4 in
    let ref := ref - dec (op - ref) in
    let+ x := mem_read dst ref 4 in
    let+ dst := mem_write dst op x in
    Ret (dst, ref - dec2, op + (STEPSIZE - 4))
  else
    let+ x := mem_read dst ref 8 in
    let+ dst := mem_write dst op x in
    Ret (dst, ref + 8, op + 8).

(** How the copy of a match ends: the output is full, the match does not fit, or decoding
    goes on at [op]. *)
Inductive match_end := MatchEof | MatchError | MatchNext.

Definition copy_match (dst : list byte) (ref op length oend : Z)
  : outcome (match_end * list byte * Z) :=
  let+ '(dst, ref, op) := copy_first dst ref op in
  let cpy := op + length - (STEPSIZE - 4) in
  if oend - COPYLENGTH <? cpy then
    if oend <? cpy then Ret (MatchError, dst, op)
    else
      let+ '(dst, ref, op) := LZ4_SECURECOPY dst ref op (oend - COPYLENGTH) in
      let+ dst := copy_bytes (Z.to_nat (cpy - op)) dst ref op in
      Ret (if cpy =? oend then MatchEof else MatchNext, dst, cpy)
  else
    let+ '(dst, _, _) := LZ4_SECURECOPY dst ref op cpy in
    Ret (MatchNext, dst, cpy).

(** ** The decoder that knows the size of its input *)

(** The rest of a run length, read while the bytes are 255. *)
Fixpoint run_length (fuel : nat) (src : list byte) (iend ip length s : Z) : outcome (Z * Z) :=
  match fuel with
  | O => Undef Diverges
  | S fuel =>
      if (ip <? iend) && (s =? 255) then
        let+ s := read_byte src ip in
        let+ length := add_int length s in
        run_length fuel src iend (ip + 1) length s
      else Ret (ip, length)
  end.

Fixpoint match_length (fuel : nat) (src : list byte) (iend ip length : Z) : outcome (Z * Z) :=
  match fuel with
  | O => Undef Diverges
  | S fuel =>
      if ip <? iend then
        let+ s := read_byte src ip in
        let+ length := add_int length s in
        if s =? 255 then match_length fuel src iend (ip + 1) length else Ret (ip + 1, length)
      else Ret (ip, length)
  end.

(** The value returned and the output. *)
Fixpoint uncompress_loop (fuel : nat) (src : list byte) (iend oend ip op : Z) (dst : list byte)
  : outcome (Z * list byte) :=
  match fuel with
  | O => Undef Diverges
  | S fuel =>
      if negb (ip <? iend) then Ret (s32 op, dst) else
      let+ token := read_byte src ip in
      let ip := ip + 1 in
      let length := Z.shiftr token ML_BITS in
      let+ '(ip, length) :=
        if length =? RUN_MASK then run_length (steps ip iend) src iend ip length 255
        else Ret (ip, length) in
      let cpy := op + length in
      if (oend - COPYLENGTH <? cpy) || (iend - COPYLENGTH <? ip + length) then
        if oend <? cpy then Ret (s32 (- ip), dst)
        else if iend <? ip + length then Ret (s32 (- ip), dst)
        else
          let+ x := mem_read src ip length in
          let+ dst := mem_write dst op x in
          let op := op + length in
          let ip := ip + length in
          if ip <? iend then Ret (s32 (- ip), dst) else Ret (s32 op, dst)
      else
        let+ '(dst, ip, op) := LZ4_WILDCOPY src ip dst op cpy in
        let ip := ip - (op - cpy) in
        let op := cpy in
        let+ v := A16 src ip in
        let ref := cpy - v in
        let ip := ip + 2 in
        if ref <? 0 then Ret (s32 (- ip), dst)
        else
          let length := Z.land token ML_MASK in
          let+ '(ip, length) :=
            if length =? ML_MASK then match_length (steps ip iend) src iend ip length
            else Ret (ip, length) in
          let+ '(res, dst, op) := copy_match dst ref op length oend in
          match res with
          | MatchError => Ret (s32 (- ip), dst)
          | MatchEof => Ret (s32 op, dst)
          | MatchNext => uncompress_loop fuel src iend oend ip op dst
          end
  end.

Definition LZ4_uncompress_unknownOutputSize (src dst : list byte) (isize maxOutputSize : Z)
  : outcome (Z * list byte) :=
  uncompress_loop (steps 0 isize) src isize maxOutputSize 0 0 dst.

(** ** The decoder that knows the size of its output *)

(** [for (;(len=*ip++)==255;length+=255){} length += len], bounded by the input. *)
Fixpoint run_length_known (fuel : nat) (src : list byte) (ip length : Z) : outcome (Z * Z) :=
  match fuel with
  | O => Undef Diverges
  | S fuel =>
      let+ len := read_byte src ip in
      let+ length := add_int length len in
      if len =? 255 then run_length_known fuel src (ip + 1) length else Ret (ip + 1, length)
  end.

Fixpoint uncompress_known_loop (fuel : nat) (src : list byte) (oend ip op : Z)
  (dst : list byte) : outcome (Z * list byte) :=
  match fuel with
  | O => Undef Diverges
  | S fuel =>
      let+ token := read_byte src ip in
      let ip := ip + 1 in
      let length := Z.shiftr token ML_BITS in
      let+ '(ip, length) :=
        if length =? RUN_MASK then run_length_known (S (List.length src)) src ip length
        else Ret (ip, length) in
      let cpy := op + length in
      if oend - COPYLENGTH <? cpy then
        if oend <? cpy then Ret (s32 (- ip), dst)
        else
          let+ x := mem_read src ip length in
          let+ dst := mem_write dst op x in
          Ret (s32 (ip + length), dst)
      else
        let+ '(dst, ip, op) := LZ4_WILDCOPY src ip dst op cpy in
        let ip := ip - (op - cpy) in
        let op := cpy in
        let+ v := A16 src ip in
        let ref := cpy - v in
        let ip := ip + 2 in
        if ref <? 0 then Ret (s32 (- ip), dst)
        else
          let length := Z.land token ML_MASK in
          let+ '(ip, length) :=
            if length =? ML_MASK then run_length_known (S (List.length src)) src ip length
            else Ret (ip, length) in
          let+ '(res, dst, op) := copy_match dst ref op length oend in
          match res with
          | MatchError => Ret (s32 (- ip), dst)
          | MatchEof => Ret (s32 ip, dst)
          | MatchNext => uncompress_known_loop fuel src oend ip op dst
          end
  end.

Definition LZ4_uncompress (src dst : list byte) (osize : Z) : outcome (Z * list byte) :=
  uncompress_known_loop (S (List.length src)) src osize 0 0 dst.

Definition sample_block : block :=
  Block [Sequence (lit "abc") 3 11; Sequence (lit "xy") 1 15; Sequence [] 8 0] (lit "0123456789abcdef").

Example sample_decodes :
  let b := encode_block sample_block in
  let x := expand_block sample_block in
  LZ4_uncompress_unknownOutputSize b (replicate (length x) x00) (Z.of_nat (length b))
    (Z.of_nat (length x)) = Ret (Z.of_nat (length x), x) /\
  LZ4_uncompress b (replicate (length x) x00) (Z.of_nat (length x)) = Ret (Z.of_nat (length b), x).
Proof. vm_compute. by split. Qed.

(** ** Copies into the output *)

(** A wild copy between blocks appends the [n] bytes it is for; what it writes behind them
    is part of the [rest]. *)
Lemma wild_copy_ok fuel : forall src s out rest n,
  (s + n + 8 <= length src)%nat -> (n + 8 <= length rest)%nat -> (n < fuel)%nat ->
  exists rest' m,
    wild_copy fuel src (Z.of_nat s) (out ++ rest) (Z.of_nat (length out))
      (Z.of_nat (length out + n)) =
      Ret (out ++ take n (drop s src) ++ rest', Z.of_nat (s + m), Z.of_nat (length out + m)) /\
    length rest' = (length rest - n)%nat.
Proof.
  induction fuel as [|fuel IH]; intros src s out rest n Hs Hr Hf; [lia|]. cbn [wild_copy].
  rewrite (mem_read_nat src s 8) by (try done; lia). cbn [obind].
  set (x := take 8 (drop s src)).
  assert (length x = 8%nat) as Hx by (unfold x; rewrite length_take, length_drop; lia).
  rewrite mem_write_mid by lia. cbn [obind]. rewrite Hx.
  destruct (Z.ltb_spec (Z.of_nat (length out) + 8) (Z.of_nat (length out + n))) as [Hlt|Hge].
  - destruct (IH src (s + 8)%nat (out ++ x) (drop 8 rest) (n - 8)%nat) as (rest' & m & E & HL);
      [lia|rewrite length_drop; lia|lia|].
    exists rest', (8 + m)%nat. rewrite length_drop in HL. split; [|lia].
    rewrite length_app, Hx in E. rewrite <- app_assoc in E.
    replace (Z.of_nat s + 8) with (Z.of_nat (s + 8)) by lia.
    replace (Z.of_nat (length out) + 8) with (Z.of_nat (length out + 8)) by lia.
    replace (length out + n)%nat with (length out + 8 + (n - 8))%nat by lia.
    assert ((out ++ x) ++ take (n - 8) (drop (s + 8) src) ++ rest' =
            out ++ take n (drop s src) ++ rest') as HA.
    { rewrite <- app_assoc. f_equal. rewrite app_assoc. f_equal. unfold x.
      rewrite <- (drop_drop _ 8 s), take_take_drop. f_equal. lia. }
    by rewrite E, HA, !Nat.add_assoc.
  - exists (drop n (x ++ drop 8 rest)), 8%nat.
    split; [|rewrite length_drop, length_app, length_drop; lia].
    assert (take n (drop s src) = take n (x ++ drop 8 rest)) as ->.
    { rewrite take_app_le by lia. unfold x. rewrite take_take. f_equal. lia. }
    rewrite take_drop. do 2 f_equal; [f_equal|]; lia.
Qed.

(** A match being copied: the output before it, and [n] of its bytes. *)
Definition rep (out : list byte) (off n : nat) : list byte := out ++ repeat_from out off n.

Lemma length_rep out off n : length (rep out off n) = (length out + n)%nat.
Proof. unfold rep. by rewrite length_app, length_repeat_from. Qed.

Lemma rep_split out off n m :
  (n <= m)%nat -> exists more, rep out off m = rep out off n ++ more.
Proof.
  intros Hn. destruct (repeat_from_app out off n (m - n)) as (more & Hm & _).
  exists more. unfold rep. replace m with (n + (m - n))%nat by lia. by rewrite Hm, app_assoc.
Qed.

(** Copying [c] bytes from a multiple of the period back. *)
Lemma copy_back out off n rest c d k :
  (1 <= off <= length out)%nat -> d = (k * off)%nat -> (1 <= k)%nat -> (d <= off + n)%nat ->
  (c <= d)%nat -> (c <= length rest)%nat ->
  exists x, mem_read (rep out off n ++ rest) (Z.of_nat (length out + n - d)) (Z.of_nat c) = Ret x /\
    mem_write (rep out off n ++ rest) (Z.of_nat (length out + n)) x =
      Ret (rep out off (n + c) ++ drop c rest).
Proof.
  intros Ho Hd Hk Hdn Hc Hr. pose proof (length_rep out off n) as HL.
  eexists. rewrite (mem_read_nat _ _ c) by (rewrite ?length_app; lia).
  rewrite drop_app_le by lia. rewrite take_app_le by (rewrite length_drop; lia).
  split; [done|].
  rewrite mem_write_mid by (rewrite ?length_take, ?length_drop; lia).
  rewrite length_take, length_drop. unfold rep at 4. rewrite (repeat_back out off n c d k) by done.
  rewrite <- app_assoc. do 4 f_equal. lia.
Qed.

Lemma copy_bytes_ok m : forall out off n rest d k,
  (1 <= off <= length out)%nat -> d = (k * off)%nat -> (1 <= k)%nat -> (d <= off + n)%nat ->
  (m <= length rest)%nat ->
  copy_bytes m (rep out off n ++ rest) (Z.of_nat (length out + n - d))
    (Z.of_nat (length out + n)) = Ret (rep out off (n + m) ++ drop m rest).
Proof.
  induction m as [|m IH]; intros out off n rest d k Ho Hd Hk Hdn Hm; cbn [copy_bytes].
  - by rewrite Nat.add_0_r, drop_0.
  - destruct (copy_back out off n rest 1 d k) as (x & Hx & Hw); [done..|nia|lia|].
    unfold copy_byte. change 1 with (Z.of_nat 1). rewrite Hx. cbn [obind]. rewrite Hw.
    cbn [obind]. change (Z.of_nat 1) with 1.
    replace (Z.of_nat (length out + n - d) + 1) with (Z.of_nat (length out + (n + 1) - d)) by lia.
    replace (Z.of_nat (length out + n) + 1) with (Z.of_nat (length out + (n + 1))) by lia.
    rewrite (IH out off (n + 1)%nat (drop 1 rest) d k);
      [|done..|lia|rewrite length_drop; lia].
    rewrite drop_drop. replace (n + 1 + m)%nat with (n + S m)%nat by lia. done.
Qed.

Lemma wild_copy_in_ok fuel : forall out off n rest d k e,
  (1 <= off <= length out)%nat -> d = (k * off)%nat -> (1 <= k)%nat -> (d <= off + n)%nat ->
  (8 <= d)%nat -> (length out + n <= e)%nat -> (e + 8 <= length out + n + length rest)%nat ->
  (e - (length out + n) < fuel)%nat ->
  exists m, wild_copy_in fuel (rep out off n ++ rest) (Z.of_nat (length out + n - d))
      (Z.of_nat (length out + n)) (Z.of_nat e) =
    Ret (rep out off (n + m) ++ drop m rest, Z.of_nat (length out + (n + m) - d),
         Z.of_nat (length out + (n + m))) /\
    (e <= length out + (n + m) <= e + 8)%nat.
Proof.
  induction fuel as [|fuel IH]; intros out off n rest d k e Ho Hd Hk Hdn H8 He Hr Hf; [lia|].
  cbn [wild_copy_in].
  destruct (copy_back out off n rest 8 d k) as (x & Hx & Hw); [done..|lia|].
  change 8 with (Z.of_nat 8) at 1. rewrite Hx. cbn [obind]. rewrite Hw. cbn [obind].
  destruct (Z.ltb_spec (Z.of_nat (length out + n) + 8) (Z.of_nat e)) as [Hlt|Hge].
  - destruct (IH out off (n + 8)%nat (drop 8 rest) d k e) as (m & E & Hm);
      [done..|lia|lia|lia|rewrite length_drop; lia|lia|].
    exists (8 + m)%nat. split; [|lia]. rewrite drop_drop in E.
    replace (n + (8 + m))%nat with (n + 8 + m)%nat by lia. rewrite <- E.
    f_equal; lia.
  - exists 8%nat. split; [|lia]. do 2 f_equal; [f_equal|]; lia.
Qed.

Lemma secure_copy_ok out off n rest d k e :
  (1 <= off <= length out)%nat -> d = (k * off)%nat -> (1 <= k)%nat -> (d <= off + n)%nat ->
  (8 <= d)%nat -> (e + 8 <= length out + n + length rest)%nat ->
  exists m, LZ4_SECURECOPY (rep out off n ++ rest) (Z.of_nat (length out + n - d))
      (Z.of_nat (length out + n)) (Z.of_nat e) =
    Ret (rep out off (n + m) ++ drop m rest, Z.of_nat (length out + (n + m) - d),
         Z.of_nat (length out + (n + m))) /\
    (e <= length out + (n + m) /\ (length out + (n + m) <= e + 8 \/ m = 0))%nat.
Proof.
  intros Ho Hd Hk Hdn H8 Hr. unfold LZ4_SECURECOPY.
  destruct (Z.ltb_spec (Z.of_nat (length out + n)) (Z.of_nat e)) as [Hlt|Hge].
  - destruct (wild_copy_in_ok (steps (Z.of_nat (length out + n)) (Z.of_nat e)) out off n rest d k e)
      as (m & E & Hm); [done..|lia|lia|unfold steps; lia|].
    exists m. split; [done|]. lia.
  - exists 0%nat. rewrite Nat.add_0_r, drop_0. split; [done|]. lia.
Qed.

(** The first eight bytes leave a distance of at least eight to the place read next. *)
Lemma copy_first_ok out off rest :
  (1 <= off <= length out)%nat -> (8 <= length rest)%nat ->
  exists d k, d = (k * off)%nat /\ (1 <= k)%nat /\ (8 <= d <= off + 8)%nat /\
    copy_first (out ++ rest) (Z.of_nat (length out - off)) (Z.of_nat (length out)) =
      Ret (rep out off 8 ++ drop 8 rest, Z.of_nat (length out + 8 - d),
           Z.of_nat (length out + 8)).
Proof.
  intros Ho Hr. assert (out ++ rest = rep out off 0 ++ rest) as E0
    by (unfold rep; cbn; by rewrite app_nil_r).
  unfold copy_first. rewrite E0.
  destruct (Z.ltb_spec (Z.of_nat (length out) - Z.of_nat (length out - off)) STEPSIZE) as [Hlt|Hge].
  - unfold STEPSIZE in Hlt.
    replace (Z.of_nat (length out) - Z.of_nat (length out - off)) with (Z.of_nat off) by lia.
    pose proof (copy_bytes_ok 4 out off 0 rest off 1) as Hc. rewrite !Nat.add_0_r in Hc.
    rewrite Hc by lia. cbn [obind].
    assert (forall d1 k1, d1 = (k1 * off)%nat -> (1 <= k1)%nat -> (4 <= d1 <= off + 4)%nat ->
      exists x, mem_read (rep out off 4 ++ drop 4 rest) (Z.of_nat (length out + 4 - d1)) 4 = Ret x /\
        mem_write (rep out off 4 ++ drop 4 rest) (Z.of_nat (length out + 4)) x =
          Ret (rep out off 8 ++ drop 8 rest)) as Hcopy.
    { intros d1 k1 Hd1 Hk1 Hd2.
      destruct (copy_back out off 4 (drop 4 rest) 4 d1 k1) as (x & Hx & Hw);
        [done..|lia|lia|rewrite length_drop; lia|].
      exists x. split; [exact Hx|]. rewrite Hw, drop_drop. done. }
    replace (Z.of_nat (length out) + 4 - (Z.of_nat (length out - off) + 4))
      with (Z.of_nat off) by lia.
    assert (forall d1 k1 d2 k2, d1 = (k1 * off)%nat -> (1 <= k1)%nat ->
      (4 <= d1 <= off + 4)%nat -> d2 = (k2 * off)%nat -> (1 <= k2)%nat ->
      (8 <= d2 <= off + 8)%nat ->
      Z.of_nat d1 = Z.of_nat off + dec (Z.of_nat off) ->
      Z.of_nat d2 = Z.of_nat d1 + 4 + dec2table (Z.of_nat off) ->
      exists d k, d = (k * off)%nat /\ (1 <= k)%nat /\ (8 <= d <= off + 8)%nat /\
        (let+ x := mem_read (rep out off 4 ++ drop 4 rest)
                     (Z.of_nat (length out - off) + 4 - dec (Z.of_nat off)) 4 in
         let+ dst := mem_write (rep out off 4 ++ drop 4 rest) (Z.of_nat (length out) + 4) x in
         Ret (dst, Z.of_nat (length out - off) + 4 - dec (Z.of_nat off) - dec2table (Z.of_nat off),
              Z.of_nat (length out) + 4 + (STEPSIZE - 4))) =
          Ret (rep out off 8 ++ drop 8 rest, Z.of_nat (length out + 8 - d),
               Z.of_nat (length out + 8))) as Hcase.
    { intros d1 k1 d2 k2 Hd1 Hk1 Hb1 Hd2 Hk2 Hb2 Hv1 Hv2. exists d2, k2.
      do 3 (split; [done|]). destruct (Hcopy d1 k1) as (x & Hx & Hw); [done..|].
      replace (Z.of_nat (length out - off) + 4 - dec (Z.of_nat off))
        with (Z.of_nat (length out + 4 - d1)) by lia. rewrite Hx. cbn [obind].
      replace (Z.of_nat (length out) + 4) with (Z.of_nat (length out + 4)) by lia.
      rewrite Hw. cbn [obind]. unfold STEPSIZE. do 2 f_equal; [f_equal|]; lia. }
    assert (off = 1 \/ off = 2 \/ off = 3 \/ off = 4 \/ off = 5 \/ off = 6 \/ off = 7)%nat
      as [Hk|[Hk|[Hk|[Hk|[Hk|[Hk|Hk]]]]]] by lia; subst off;
      [ apply (Hcase 4 4 8 8)%nat | apply (Hcase 4 2 8 4)%nat | apply (Hcase 6 2 9 3)%nat
      | apply (Hcase 4 1 8 2)%nat | apply (Hcase 5 1 10 2)%nat | apply (Hcase 6 1 12 2)%nat
      | apply (Hcase 7 1 14 2)%nat ]; (reflexivity || lia).
  - unfold STEPSIZE in Hge.
    destruct (copy_back out off 0 rest 8 off 1) as (x & Hx & Hw); [lia..|].
    rewrite Nat.add_0_r in Hx, Hw. change 8 with (Z.of_nat 8) at 1. rewrite Hx. cbn [obind].
    rewrite Hw. exists off, 1%nat. split; [lia|]. split; [lia|]. split; [lia|].
    cbn [obind]. do 2 f_equal; [f_equal|]; lia.
Qed.

(** The copy of a match of [4 + m] bytes, when the output before it ends eight bytes or more
    before its limit. *)
Lemma copy_match_ok out off rest m oend :
  (1 <= off <= length out)%nat -> (length out + 8 <= oend)%nat ->
  (oend <= length out + length rest)%nat ->
  if decide (oend < length out + (4 + m))%nat then
    exists dst op, copy_match (out ++ rest) (Z.of_nat (length out - off)) (Z.of_nat (length out))
      (Z.of_nat m) (Z.of_nat oend) = Ret (MatchError, dst, op) /\
      length dst = length (out ++ rest)
  else
    exists rest', copy_match (out ++ rest) (Z.of_nat (length out - off)) (Z.of_nat (length out))
      (Z.of_nat m) (Z.of_nat oend) =
      Ret (if decide (oend = length out + (4 + m))%nat then MatchEof else MatchNext,
           rep out off (4 + m) ++ rest', Z.of_nat (length out + (4 + m))) /\
      (4 + m + length rest' = length rest)%nat.
Proof.
  intros Ho H8 Hoend. unfold copy_match, COPYLENGTH, STEPSIZE.
  destruct (copy_first_ok out off rest) as (d & k & Hd & Hk & Hdn & E); [done|lia|].
  rewrite E. cbn [obind].
  assert (length (rep out off 8 ++ drop 8 rest) = length (out ++ rest)) as HL8
    by (rewrite !length_app, length_rep, length_drop; lia).
  assert (forall n', (4 + m <= n')%nat -> (length out + n' <= length (out ++ rest))%nat ->
    exists rest', rep out off n' ++ drop n' rest = rep out off (4 + m) ++ rest' /\
      (4 + m + length rest' = length rest)%nat) as Hsplit.
  { intros n' Hn' Hl. destruct (rep_split out off (4 + m) n' Hn') as (more & Hm).
    exists (more ++ drop n' rest). rewrite Hm, <- app_assoc. split; [done|].
    pose proof (length_rep out off n'). pose proof (length_rep out off (4 + m)).
    apply (f_equal length) in Hm. rewrite length_app in Hm, Hl |- *. rewrite length_drop. lia. }
  destruct (Z.ltb_spec (Z.of_nat oend - 8) (Z.of_nat (length out + 8) + Z.of_nat m - (8 - 4)))
    as [Hnear|Hfar].
  - destruct (Z.ltb_spec (Z.of_nat oend) (Z.of_nat (length out + 8) + Z.of_nat m - (8 - 4)))
      as [Hover|Hin].
    + rewrite decide_True by lia. eauto.
    + rewrite decide_False by lia.
      destruct (secure_copy_ok out off 8 (drop 8 rest) d k (oend - 8)) as (m1 & E1 & Hm1);
        [done..|lia|lia|rewrite length_drop; lia|].
      replace (Z.of_nat oend - 8) with (Z.of_nat (oend - 8)) by lia. rewrite E1. cbn [obind].
      rewrite drop_drop.
      set (c := (4 + m - (8 + m1))%nat).
      replace (Z.to_nat (Z.of_nat (length out + 8) + Z.of_nat m - (8 - 4) -
                         Z.of_nat (length out + (8 + m1)))) with c by lia.
      rewrite (copy_bytes_ok c out off (8 + m1) (drop (8 + m1) rest) d k)
        by (rewrite ?length_drop; lia). cbn [obind]. rewrite drop_drop.
      destruct (Hsplit (8 + m1 + c)%nat) as (rest' & Hs & HL); [lia|rewrite length_app; lia|].
      exists rest'. split; [|done]. rewrite Hs.
      replace (Z.of_nat (length out + 8) + Z.of_nat m - (8 - 4))
        with (Z.of_nat (length out + (4 + m))) by lia.
      destruct (Z.eqb_spec (Z.of_nat (length out + (4 + m))) (Z.of_nat oend));
        [rewrite decide_True by lia|rewrite decide_False by lia]; done.
  - rewrite !decide_False by lia.
    replace (Z.of_nat (length out + 8) + Z.of_nat m - (8 - 4))
      with (Z.of_nat (length out + (4 + m))) by lia.
    destruct (secure_copy_ok out off 8 (drop 8 rest) d k (length out + (4 + m)))
      as (m1 & E1 & Hm1); [done..|lia|lia|rewrite length_drop; lia|].
    rewrite E1. cbn [obind]. rewrite drop_drop.
    destruct (Hsplit (8 + m1)%nat) as (rest' & Hs & HL); [lia|rewrite length_app; lia|].
    exists rest'. by rewrite Hs.
Qed.

(** ** Lengths *)

Lemma read_byte_mid a c b s : s = length a -> read_byte (a ++ c :: b) (Z.of_nat s) = Ret (b2z c).
Proof.
  intros ->. unfold read_byte. rewrite (mem_read_nat _ _ 1) by (rewrite ?length_app; simpl; lia).
  rewrite drop_app_length. simpl. f_equal. lia.
Qed.

(** A length of [a + 255 q + r] given by [q] bytes 255 and one that is less. *)
Lemma run_length_ok q : forall fuel pre post a r,
  (q + 2 <= fuel)%nat -> 0 <= a -> 0 <= r < 255 -> a + 255 * Z.of_nat q + r <= INT_MAX ->
  run_length fuel (pre ++ replicate q xff ++ z2b r :: post)
    (Z.of_nat (length (pre ++ replicate q xff ++ z2b r :: post))) (Z.of_nat (length pre)) a 255 =
    Ret (Z.of_nat (length pre + q + 1), a + 255 * Z.of_nat q + r).
Proof.
  induction q as [|q IH]; intros fuel pre post a r Hf Ha Hr Hs;
    (destruct fuel as [|fuel]; [lia|]); cbn [run_length];
    (rewrite (proj2 (Z.ltb_lt _ _)) by (rewrite ?length_app; cbn [length]; lia)).
  - cbn [replicate app]. rewrite read_byte_mid by done. cbn [andb Z.eqb Pos.eqb obind].
    rewrite b2z_z2b, (Z.mod_small r) by lia. rewrite add_int_small by lia. cbn [obind].
    destruct fuel as [|fuel]; [lia|]. cbn [run_length].
    rewrite (proj2 (Z.eqb_neq r 255)) by lia. rewrite andb_false_r. do 2 f_equal; lia.
  - cbn [replicate app]. rewrite read_byte_mid by done. cbn [andb Z.eqb Pos.eqb obind].
    change (b2z xff) with 255. rewrite add_int_small by lia. cbn [obind].
    specialize (IH fuel (pre ++ [xff]) post (a + 255) r). rewrite <- !app_assoc in IH.
    cbn [app] in IH.
    assert (length (pre ++ [xff]) = length pre + 1)%nat as HL by (by rewrite length_app).
    rewrite HL in IH. replace (Z.of_nat (length pre) + 1) with (Z.of_nat (length pre + 1)) by lia.
    etransitivity; [apply IH; lia|]. do 2 f_equal; lia.
Qed.

Lemma match_length_ok q : forall fuel pre post a r,
  (q + 1 <= fuel)%nat -> 0 <= a -> 0 <= r < 255 -> a + 255 * Z.of_nat q + r <= INT_MAX ->
  match_length fuel (pre ++ replicate q xff ++ z2b r :: post)
    (Z.of_nat (length (pre ++ replicate q xff ++ z2b r :: post))) (Z.of_nat (length pre)) a =
    Ret (Z.of_nat (length pre + q + 1), a + 255 * Z.of_nat q + r).
Proof.
  induction q as [|q IH]; intros fuel pre post a r Hf Ha Hr Hs;
    (destruct fuel as [|fuel]; [lia|]); cbn [match_length];
    (rewrite (proj2 (Z.ltb_lt _ _)) by (rewrite ?length_app; cbn [length]; lia)).
  - cbn [replicate app]. rewrite read_byte_mid by done. cbn [obind].
    rewrite b2z_z2b, (Z.mod_small r) by lia. rewrite add_int_small by lia. cbn [obind].
    rewrite (proj2 (Z.eqb_neq r 255)) by lia. do 2 f_equal; lia.
  - cbn [replicate app]. rewrite read_byte_mid by done. cbn [obind].
    change (b2z xff) with 255. rewrite add_int_small by lia. cbn [obind Z.eqb Pos.eqb].
    specialize (IH fuel (pre ++ [xff]) post (a + 255) r). rewrite <- !app_assoc in IH.
    cbn [app] in IH.
    assert (length (pre ++ [xff]) = length pre + 1)%nat as HL by (by rewrite length_app).
    rewrite HL in IH. replace (Z.of_nat (length pre) + 1) with (Z.of_nat (length pre + 1)) by lia.
    etransitivity; [apply IH; lia|]. do 2 f_equal; lia.
Qed.

(** Both lengths of a sequence, from their four bits in the token and their tails. *)
Definition nibble (l : nat) : Z := Z.of_nat (Nat.min l 15).

Lemma token_nibbles l m :
  Z.shiftr (b2z (token l m)) ML_BITS = nibble l /\ Z.land (b2z (token l m)) ML_MASK = nibble m.
Proof.
  unfold token, ML_BITS, ML_MASK, nibble. rewrite b2z_z2b, Z.mod_small by lia.
  rewrite Z.shiftr_div_pow2 by lia. change 15 with (Z.ones 4). rewrite Z.land_ones by lia.
  change (2 ^ 4) with 16. split.
  - rewrite (Z.mul_comm 16), Z.div_add_l, Z.div_small by lia. lia.
  - rewrite Z.add_comm, (Z.mul_comm 16), Z.mod_add, Z.mod_small by lia. lia.
Qed.

Lemma length_tail_long l :
  (15 <= l)%nat ->
  length_tail l = replicate ((l - 15) / 255) xff ++ [z2b (Z.of_nat ((l - 15) mod 255))] /\
  15 + 255 * Z.of_nat ((l - 15) / 255) + Z.of_nat ((l - 15) mod 255) = Z.of_nat l /\
  0 <= Z.of_nat ((l - 15) mod 255) < 255.
Proof.
  intros Hl. unfold length_tail. rewrite (proj2 (Nat.ltb_ge _ _)) by done. split; [done|].
  pose proof (Nat.div_mod (l - 15) 255 ltac:(lia)).
  pose proof (Nat.mod_upper_bound (l - 15) 255 ltac:(lia)). lia.
Qed.

Lemma literal_length_ok l pre post src :
  src = pre ++ length_tail l ++ post -> Z.of_nat l <= INT_MAX ->
  (if nibble l =? RUN_MASK
   then run_length (steps (Z.of_nat (length pre)) (Z.of_nat (length src))) src
          (Z.of_nat (length src)) (Z.of_nat (length pre)) (nibble l) 255
   else Ret (Z.of_nat (length pre), nibble l)) =
    Ret (Z.of_nat (length pre + length (length_tail l)), Z.of_nat l).
Proof.
  intros -> Hl. unfold nibble, RUN_MASK. destruct (Z.eqb_spec (Z.of_nat (Nat.min l 15)) 15) as [E|E].
  - destruct (length_tail_long l) as (-> & Hv & Hr); [lia|].
    rewrite <- app_assoc. cbn [app]. rewrite run_length_ok; [|unfold steps|lia|lia|lia].
    + rewrite length_app, length_replicate. cbn [length]. do 2 f_equal; lia.
    + rewrite !length_app, length_replicate. cbn [length]. lia.
  - unfold length_tail. rewrite (proj2 (Nat.ltb_lt _ _)) by lia. cbn [length].
    do 2 f_equal; lia.
Qed.

Lemma match_length_tail_ok m pre post src :
  src = pre ++ length_tail m ++ post -> Z.of_nat m <= INT_MAX ->
  (if nibble m =? ML_MASK
   then match_length (steps (Z.of_nat (length pre)) (Z.of_nat (length src))) src
          (Z.of_nat (length src)) (Z.of_nat (length pre)) (nibble m)
   else Ret (Z.of_nat (length pre), nibble m)) =
    Ret (Z.of_nat (length pre + length (length_tail m)), Z.of_nat m).
Proof.
  intros -> Hl. unfold nibble, ML_MASK. destruct (Z.eqb_spec (Z.of_nat (Nat.min m 15)) 15) as [E|E].
  - destruct (length_tail_long m) as (-> & Hv & Hr); [lia|].
    rewrite <- app_assoc. cbn [app]. rewrite match_length_ok; [|unfold steps|lia|lia|lia].
    + rewrite length_app, length_replicate. cbn [length]. do 2 f_equal; lia.
    + rewrite !length_app, length_replicate. cbn [length]. lia.
  - unfold length_tail. rewrite (proj2 (Nat.ltb_lt _ _)) by lia. cbn [length].
    do 2 f_equal; lia.
Qed.

(** ** Well formed blocks *)

Lemma s32_neg z : 0 <= z <= INT_MAX -> s32 (- z) = - z.
Proof. unfold s32, INT_MAX. intros. rewrite Z.mod_small; lia. Qed.

Lemma uncompress_last fuel pre l out rest oend src :
  src = pre ++ encode_last l -> (0 < fuel)%nat ->
  Z.of_nat (length src) <= INT_MAX -> Z.of_nat oend <= INT_MAX ->
  (oend <= length out + length rest)%nat ->
  exists r dst, uncompress_loop fuel src (Z.of_nat (length src)) (Z.of_nat oend)
      (Z.of_nat (length pre)) (Z.of_nat (length out)) (out ++ rest) = Ret (r, dst) /\
    length dst = length (out ++ rest) /\
    if decide (oend < length out + length l)%nat then r < 0
    else r = Z.of_nat (length out + length l) /\ take (length out + length l) dst = out ++ l.
Proof.
  intros Hsrc Hf Hsm Hom Hroom. destruct fuel as [|fuel]; [lia|]. cbn [uncompress_loop].
  assert (length src = length pre + 1 + length (length_tail (length l)) + length l)%nat as HL
    by (rewrite Hsrc; unfold encode_last; rewrite length_app; cbn [length]; rewrite length_app; lia).
  rewrite (proj2 (Z.ltb_lt _ _)) by lia. cbn [negb].
  destruct (token_nibbles (length l) 0) as [Hhi _].
  assert (read_byte src (Z.of_nat (length pre)) = Ret (b2z (token (length l) 0))) as ->
    by (rewrite Hsrc; by apply read_byte_mid).
  cbn [obind]. rewrite Hhi.
  replace (Z.of_nat (length pre) + 1) with (Z.of_nat (length (pre ++ [token (length l) 0])))
    by (rewrite length_app; cbn [length]; lia).
  rewrite (literal_length_ok (length l) _ l src)
    by (try lia; rewrite Hsrc; unfold encode_last; by rewrite <- app_assoc).
  cbn [obind]. rewrite !length_app. cbn [length].
  rewrite (proj2 (Z.ltb_lt (Z.of_nat (length src) - COPYLENGTH) _)) by (unfold COPYLENGTH; lia).
  rewrite orb_true_r.
  destruct (Z.ltb_spec (Z.of_nat oend) (Z.of_nat (length out) + Z.of_nat (length l))) as [Ho|Ho].
  { do 2 eexists. split; [done|]. split; [by rewrite length_app|].
    rewrite decide_True by lia. rewrite s32_neg by lia. lia. }
  rewrite (proj2 (Z.ltb_ge (Z.of_nat (length src)) _)) by lia.
  rewrite (mem_read_nat src _ (length l)) by lia. cbn [obind].
  assert (take (length l) (drop (length pre + 1 + length (length_tail (length l))) src) = l) as ->.
  { rewrite Hsrc. unfold encode_last.
    rewrite (cons_middle (token (length l) 0) pre), !app_assoc.
    rewrite drop_app_exact by (rewrite !length_app; done). by apply take_ge. }
  rewrite mem_write_mid by lia. cbn [obind].
  rewrite (proj2 (Z.ltb_ge _ (Z.of_nat (length src)))) by lia.
  do 2 eexists. split; [done|]. rewrite decide_False by lia.
  split; [rewrite !length_app, length_drop; lia|].
  split; [rewrite s32_small by (unfold INT_MAX in *; lia); lia|].
  rewrite app_assoc. apply take_app_exact. by rewrite length_app.
Qed.

Lemma A16_mid a b z s :
  s = length a -> 0 <= z < 65536 -> A16 (a ++ le_bytes 2 z ++ b) (Z.of_nat s) = Ret z.
Proof.
  intros -> Hz. unfold A16.
  rewrite (mem_read_nat _ _ 2) by (rewrite ?length_app, ?length_le_bytes; lia).
  rewrite drop_app_length, take_app_exact by (by rewrite length_le_bytes).
  cbn [obind]. by rewrite le_value_bytes_small.
Qed.

Lemma length_encode_sequence s :
  length (encode_sequence s) =
    (1 + length (length_tail (length (literals s))) + length (literals s) + 2 +
     length (length_tail (extra s)))%nat.
Proof.
  unfold encode_sequence. cbn [length]. rewrite !length_app, length_le_bytes. lia.
Qed.

(** What the lemmas on a sequence share: the input around it and the room for its output. *)
Section OneSequence.
Context (src pre post : list byte) (s : sequence) (oend : nat).
Hypothesis Hsrc : src = pre ++ encode_sequence s ++ post.
Hypothesis Hpost : (6 <= length post)%nat.
Hypothesis Hsm : Z.of_nat (length src) <= INT_MAX.
Hypothesis Hom : Z.of_nat oend <= INT_MAX.
Hypothesis H16 : Z.of_nat (offset s) < 65536.

Let L := length (literals s).
Let p := (length pre + 1 + length (length_tail L))%nat.

Lemma sequence_sizes :
    length src = (p + L + 2 + length (length_tail (extra s)) + length post)%nat.
  Proof. subst p. rewrite Hsrc, !length_app, length_encode_sequence. unfold L. lia. Qed.

Lemma sequence_literals :
    let tok := token L (extra s) in
    read_byte src (Z.of_nat (length pre)) = Ret (b2z tok) /\
    (if nibble L =? RUN_MASK
     then run_length (steps (Z.of_nat (length pre) + 1) (Z.of_nat (length src))) src
            (Z.of_nat (length src)) (Z.of_nat (length pre) + 1) (nibble L) 255
     else Ret (Z.of_nat (length pre) + 1, nibble L)) = Ret (Z.of_nat p, Z.of_nat L) /\
    take L (drop p src) = literals s.
  Proof.
    intros tok. pose proof sequence_sizes.
    assert (src = (pre ++ [tok]) ++ length_tail L ++ literals s ++
              le_bytes 2 (Z.of_nat (offset s)) ++ length_tail (extra s) ++ post) as E
      by (rewrite Hsrc; unfold encode_sequence; cbn [app]; by rewrite <- !app_assoc).
    split; [rewrite Hsrc; unfold encode_sequence; by apply read_byte_mid|]. split.
    - pose proof (literal_length_ok L (pre ++ [tok]) _ src E ltac:(lia)) as Hl.
      rewrite length_app in Hl. cbn [length] in Hl.
      by replace (Z.of_nat (length pre) + 1) with (Z.of_nat (length pre + 1)) by lia.
    - rewrite E, app_assoc, drop_app_exact; [by apply take_app_exact|].
      rewrite !length_app. subst p. cbn [length]. lia.
  Qed.

Lemma sequence_match :
    let ip := Z.of_nat (p + L) + 2 in
    A16 src (Z.of_nat (p + L)) = Ret (Z.of_nat (offset s)) /\
    (if nibble (extra s) =? ML_MASK
     then match_length (steps ip (Z.of_nat (length src))) src (Z.of_nat (length src)) ip
            (nibble (extra s))
     else Ret (ip, nibble (extra s))) =
      Ret (Z.of_nat (length (pre ++ encode_sequence s)), Z.of_nat (extra s)) \/
    INT_MAX < Z.of_nat (extra s).
  Proof.
    intros ip. destruct (Z.le_gt_cases (Z.of_nat (extra s)) INT_MAX) as [Hx|]; [left|by right].
    pose proof sequence_sizes as HL.
    set (head := pre ++ token L (extra s) :: length_tail L ++ literals s).
    assert (length head = p + L)%nat as Hhead
      by (unfold head; rewrite length_app; cbn [length]; rewrite length_app; unfold p, L; lia).
    assert (src = head ++ le_bytes 2 (Z.of_nat (offset s)) ++ length_tail (extra s) ++ post) as E
      by (rewrite Hsrc; unfold head, encode_sequence;
          repeat (rewrite <- app_assoc; cbn [app]); done).
    split; [rewrite E; apply A16_mid; lia|].
    pose proof (match_length_tail_ok (extra s) (head ++ le_bytes 2 (Z.of_nat (offset s))) post src)
      as Hm.
    rewrite length_app, length_le_bytes, Hhead in Hm.
    unfold ip. replace (Z.of_nat (p + L) + 2) with (Z.of_nat (p + L + 2)) by lia.
    rewrite Hm by (try lia; by rewrite E, <- app_assoc). do 2 f_equal.
    rewrite length_app, length_encode_sequence. subst p. unfold L. lia.
  Qed.

  (** The output ends in the literals or in the eight bytes behind them. *)
Lemma sequence_near fuel out rest :
    (oend < length out + L + 8)%nat -> (oend <= length out + length rest)%nat ->
    exists r dst, uncompress_loop (S fuel) src (Z.of_nat (length src)) (Z.of_nat oend)
        (Z.of_nat (length pre)) (Z.of_nat (length out)) (out ++ rest) = Ret (r, dst) /\
      length dst = length (out ++ rest) /\ r < 0.
  Proof.
    intros Hnear Hroom. pose proof sequence_sizes as HL.
    destruct sequence_literals as (Htok & Hrun & Hlit). cbv zeta in Htok, Hrun.
    cbn [uncompress_loop]. rewrite (proj2 (Z.ltb_lt (Z.of_nat (length pre)) _)) by lia.
    cbn [negb]. rewrite Htok. cbn [obind]. rewrite (proj1 (token_nibbles L (extra s))), Hrun.
    cbn [obind]. unfold COPYLENGTH.
    rewrite (proj2 (Z.ltb_lt (Z.of_nat oend - 8) _)) by lia. cbn [orb].
    destruct (Z.ltb_spec (Z.of_nat oend) (Z.of_nat (length out) + Z.of_nat L)) as [Ho|Ho].
    { do 2 eexists. split; [done|]. split; [done|]. rewrite s32_neg by lia. lia. }
    rewrite (proj2 (Z.ltb_ge (Z.of_nat (length src)) _)) by lia.
    rewrite (mem_read_nat src p L) by lia. cbn [obind]. rewrite Hlit.
    rewrite mem_write_mid by (subst L; lia). cbn [obind].
    rewrite (proj2 (Z.ltb_lt _ (Z.of_nat (length src)))) by lia.
    do 2 eexists. split; [done|].
    split; [rewrite !length_app, length_drop; subst L; lia|].
    rewrite s32_neg by lia. lia.
  Qed.

  (** Otherwise the loop comes to the copy of the match. *)
Lemma sequence_far fuel out rest :
    (length out + L + 8 <= oend)%nat -> (oend <= length out + length rest)%nat ->
    (1 <= offset s <= length out + L)%nat -> Z.of_nat (extra s) <= INT_MAX ->
    exists rest', length rest' = (length rest - L)%nat /\
      uncompress_loop (S fuel) src (Z.of_nat (length src)) (Z.of_nat oend)
        (Z.of_nat (length pre)) (Z.of_nat (length out)) (out ++ rest) =
      (let ip := Z.of_nat (length (pre ++ encode_sequence s)) in
       let+ '(res, dst, op) :=
         copy_match ((out ++ literals s) ++ rest')
           (Z.of_nat (length (out ++ literals s) - offset s))
           (Z.of_nat (length (out ++ literals s))) (Z.of_nat (extra s)) (Z.of_nat oend) in
       match res with
       | MatchError => Ret (s32 (- ip), dst)
       | MatchEof => Ret (s32 op, dst)
       | MatchNext =>
           uncompress_loop fuel src (Z.of_nat (length src)) (Z.of_nat oend) ip op dst
       end).
  Proof.
    intros Hfar Hroom Hoff Hex. pose proof sequence_sizes as HL.
    destruct sequence_literals as (Htok & Hrun & Hlit). cbv zeta in Htok, Hrun.
    destruct sequence_match as [[HA Hml]|]; [|lia].
    cbn [uncompress_loop]. rewrite (proj2 (Z.ltb_lt (Z.of_nat (length pre)) _)) by lia.
    cbn [negb]. rewrite Htok. cbn [obind].
    rewrite (proj1 (token_nibbles L (extra s))), (proj2 (token_nibbles L (extra s))), Hrun.
    cbn [obind]. unfold COPYLENGTH.
    rewrite (proj2 (Z.ltb_ge (Z.of_nat oend - 8) _)) by lia.
    rewrite (proj2 (Z.ltb_ge (Z.of_nat (length src) - 8) _)) by lia. cbn [orb].
    destruct (wild_copy_ok (steps (Z.of_nat (length out)) (Z.of_nat (length out + L)))
                src p out rest L) as (rest' & m & E & Hr); [lia|lia|unfold steps; lia|].
    exists rest'. split; [done|]. unfold LZ4_WILDCOPY.
    replace (Z.of_nat (length out) + Z.of_nat L) with (Z.of_nat (length out + L)) by lia.
    rewrite E. cbn [obind]. rewrite Hlit.
    replace (Z.of_nat (p + m) - (Z.of_nat (length out + m) - Z.of_nat (length out + L)))
      with (Z.of_nat (p + L)) by lia.
    rewrite HA. cbn [obind]. rewrite (proj2 (Z.ltb_ge _ 0)) by lia.
    rewrite Hml. cbn [obind]. rewrite app_assoc.
    replace (length out + L)%nat with (length (out ++ literals s)) by (by rewrite length_app).
    rewrite Nat2Z.inj_sub by (rewrite length_app; unfold L in *; lia). done.
  Qed.

  (** A run of the loop over a sequence: decoding goes on behind it, or stops because the
      output is too small. *)
Lemma uncompress_sequence fuel out rest :
    (oend <= length out + length rest)%nat ->
    (1 <= offset s <= length out + L)%nat -> Z.of_nat (extra s) <= INT_MAX ->
    let start := uncompress_loop (S fuel) src (Z.of_nat (length src)) (Z.of_nat oend)
       (Z.of_nat (length pre)) (Z.of_nat (length out)) (out ++ rest) in
    (exists r dst, start = Ret (r, dst) /\
       length dst = length (out ++ rest) /\ (r < 0 \/ r = Z.of_nat oend) /\
       (oend < length out + L + 12 \/ oend <= length out + L + 4 + extra s)%nat) \/
    (exists rest', start =
       uncompress_loop fuel src (Z.of_nat (length src)) (Z.of_nat oend)
         (Z.of_nat (length (pre ++ encode_sequence s)))
         (Z.of_nat (length (expand_sequence out s))) (expand_sequence out s ++ rest') /\
       length (expand_sequence out s ++ rest') = length (out ++ rest)).
  Proof.
    intros Hroom Hoff Hex start.
    destruct (decide (oend < length out + L + 8)%nat) as [Hnear|Hfar].
    { left. destruct (sequence_near fuel out rest Hnear Hroom) as (r & dst & E & Hd & Hr).
      exists r, dst. split; [done|]. split; [done|]. split; [by left|lia]. }
    destruct (sequence_far fuel out rest) as (rest1 & Hr1 & E); [lia|done..|].
    unfold start. rewrite E. clear E start. cbv zeta.
    assert (length (out ++ literals s) = length out + L)%nat as HO by (by rewrite length_app).
    assert (Z.of_nat (length (pre ++ encode_sequence s)) <= INT_MAX /\
            1 <= Z.of_nat (length (pre ++ encode_sequence s))) as [Hip1 Hip2].
    { pose proof sequence_sizes. rewrite length_app, length_encode_sequence.
      subst p. unfold L in *. lia. }
    pose proof (copy_match_ok (out ++ literals s) (offset s) rest1 (extra s) oend
                  ltac:(lia) ltac:(lia) ltac:(lia)) as Hcm.
    destruct (decide _) as [Hover|Hin].
    - destruct Hcm as (dst & op & -> & Hld). left. cbn [obind]. do 2 eexists. split; [done|].
      rewrite s32_neg by lia. rewrite Hld, length_app, HO, length_app. lia.
    - destruct Hcm as (rest' & -> & Hld). cbn [obind]. destruct (decide _) as [Heof|Hne].
      + left. do 2 eexists. split; [done|].
        rewrite s32_small by (unfold INT_MAX in *; lia). rewrite !length_app, length_rep. lia.
      + right. exists rest'. unfold expand_sequence. cbv zeta.
        split; [by rewrite (length_app (out ++ literals s)), length_repeat_from|].
        rewrite !length_app, length_repeat_from. unfold L in *. lia.
  Qed.
End OneSequence.

Lemma length_encode_last l : (length l + 1 <= length (encode_last l))%nat.
Proof. unfold encode_last. cbn [length]. rewrite length_app. lia. Qed.

Lemma uncompress_sequences src oend last l : forall fuel pre out rest,
  src = pre ++ concat (map encode_sequence l) ++ encode_last last ->
  sequences_ok (length out) (length (foldl expand_sequence out l ++ last)) l ->
  (length l < fuel)%nat -> Z.of_nat (length src) <= INT_MAX -> Z.of_nat oend <= INT_MAX ->
  Z.of_nat (length (foldl expand_sequence out l ++ last)) <= INT_MAX ->
  (oend <= length out + length rest)%nat ->
  exists r dst, uncompress_loop fuel src (Z.of_nat (length src)) (Z.of_nat oend)
      (Z.of_nat (length pre)) (Z.of_nat (length out)) (out ++ rest) = Ret (r, dst) /\
    length dst = length (out ++ rest) /\
    let x := foldl expand_sequence out l ++ last in
    if decide (oend < length x)%nat then r < 0 \/ r = Z.of_nat oend
    else r = Z.of_nat (length x) /\ take (length x) dst = x.
Proof.
  induction l as [|s l IH]; intros fuel pre out rest Hsrc Hok Hf Hsm Hom Hxm Hroom.
  - destruct (uncompress_last fuel pre last out rest oend src) as (r & dst & E & Hd & Hr);
      [done|lia|done..|].
    exists r, dst. split; [done|]. split; [done|]. cbv zeta. cbn [foldl]. rewrite length_app.
    destruct (decide _); [by left|done].
  - destruct fuel as [|fuel]; [cbn in Hf; lia|].
    pose proof (last_literals_long _ _ _ Hok ltac:(done)) as H5.
    cbn [sequences_ok foldl map concat] in *. cbv zeta in Hok.
    destruct Hok as (Hoff & H16 & Hstart & Hend & Hok). rewrite <- app_assoc in Hsrc.
    pose proof (length_encode_last last).
    destruct (uncompress_sequence src pre (concat (map encode_sequence l) ++ encode_last last) s
                oend Hsrc ltac:(rewrite length_app; lia) Hsm Hom H16 fuel out rest)
      as [(r & dst & E & Hd & Hr & Hs)|(rest' & E & Hl)]; [done|done|lia| |].
    + exists r, dst. split; [done|]. split; [done|]. cbv zeta. rewrite decide_True by lia. done.
    + cbv zeta in E. rewrite E.
      destruct (IH fuel (pre ++ encode_sequence s) (expand_sequence out s) rest')
        as (r & dst & E' & Hd & Hr); [by rewrite <- app_assoc| |cbn [length] in Hf; lia|done..| |].
      * by rewrite length_expand_sequence.
      * rewrite <- length_app, Hl, length_app. done.
      * exists r, dst. split; [done|]. split; [by rewrite Hd|done].
Qed.

(** What the decoder does with a well formed block. *)
Lemma uncompress_block b dst max :
  block_ok b -> Z.of_nat (length (encode_block b)) <= INT_MAX ->
  Z.of_nat (length (expand_block b)) <= INT_MAX -> Z.of_nat max <= INT_MAX ->
  (max <= length dst)%nat ->
  exists r dst', LZ4_uncompress_unknownOutputSize (encode_block b) dst
      (Z.of_nat (length (encode_block b))) (Z.of_nat max) = Ret (r, dst') /\
    length dst' = length dst /\
    if decide (max < length (expand_block b))%nat then r < 0 \/ r = Z.of_nat max
    else r = Z.of_nat (length (expand_block b)) /\
         take (length (expand_block b)) dst' = expand_block b.
Proof.
  intros Hok Hs Hx Hm Hd. unfold LZ4_uncompress_unknownOutputSize.
  apply (uncompress_sequences (encode_block b) max (last_literals b) (sequences b)
           (steps 0 (Z.of_nat (length (encode_block b)))) [] [] dst); try done.
  unfold steps, encode_block. rewrite length_app.
  assert (length (sequences b) <= length (concat (map encode_sequence (sequences b))))%nat; [|lia].
  induction (sequences b) as [|s l IH]; cbn [map concat length]; [lia|].
  rewrite length_app, length_encode_sequence. lia.
Qed.


(** ** Any input

    The rules for reads and writes in bounds; only the size of the output is kept track of. *)

Lemma returns_then {A B} (o : outcome A) (k : A -> outcome B) P Q :
  returns o P -> (forall a, P a -> returns (k a) Q) -> returns (obind o k) Q.
Proof. intros Ho Hk. apply returns_bind. by eapply returns_mono. Qed.

Lemma returns_read {B} b p n (k : list byte -> outcome B) Q :
  0 <= p -> 0 <= n -> p + n <= Z.of_nat (length b) ->
  (forall x, Z.of_nat (length x) = n -> returns (k x) Q) ->
  returns (obind (mem_read b p n) k) Q.
Proof.
  intros Hp Hn Hl Hk. rewrite mem_read_ok by lia. apply Hk. rewrite length_take, length_drop. lia.
Qed.

Lemma returns_write {B} b p x (k : list byte -> outcome B) Q :
  0 <= p -> p + Z.of_nat (length x) <= Z.of_nat (length b) ->
  (forall b', length b' = length b -> returns (k b') Q) ->
  returns (obind (mem_write b p x) k) Q.
Proof.
  intros Hp Hl Hk. rewrite mem_write_ok by lia. apply Hk. apply length_splice. lia.
Qed.

Lemma returns_byte {B} b p (k : Z -> outcome B) Q :
  0 <= p -> p + 1 <= Z.of_nat (length b) -> (forall x, 0 <= x < 256 -> returns (k x) Q) ->
  returns (obind (read_byte b p) k) Q.
Proof.
  intros Hp Hl Hk. unfold read_byte. apply returns_bind. apply returns_read; [lia..|].
  intros x Hx. cbn [returns obind]. apply Hk. pose proof (le_value_bound x). 
  replace (length x) with 1%nat in * by lia. lia.
Qed.

(** The result of a copy leaves the size of the block as it is. *)
Definition same_size {A} (dst : list byte) (P : A -> Prop) (r : list byte * A) : Prop :=
  length r.1 = length dst /\ P r.2.

Lemma wild_copy_safe fuel : forall src s dst d e,
  0 <= s -> 0 <= d -> Z.max (d + 8) (e + 7) <= Z.of_nat (length dst) ->
  s + Z.max 8 (e - d + 7) <= Z.of_nat (length src) -> e - d < Z.of_nat fuel -> 
  (0 < fuel)%nat ->
  returns (wild_copy fuel src s dst d e)
    (fun r => length r.1.1 = length dst /\ r.1.2 - r.2 = s - d).
Proof.
  induction fuel as [|fuel IH]; intros src s dst d e Hs Hd Hl Hsl Hf Hf0; [lia|].
  cbn [wild_copy]. apply returns_read; [lia..|]. intros x Hx. apply returns_write; [lia..|].
  intros dst1 H1. destruct (Z.ltb_spec (d + 8) e) as [Hlt|Hge].
  - eapply returns_mono; [apply IH; lia|]. cbn beta. intros r. rewrite H1. lia.
  - cbn [returns fst snd]. lia.
Qed.

Lemma wild_copy_in_safe fuel : forall dst s d e,
  0 <= s -> s <= d -> d < e -> e + 7 <= Z.of_nat (length dst) -> e - d < Z.of_nat fuel ->
  returns (wild_copy_in fuel dst s d e)
    (fun r => length r.1.1 = length dst /\ 0 <= r.1.2 <= r.2 /\ e <= r.2 < e + 8).
Proof.
  induction fuel as [|fuel IH]; intros dst s d e Hs Hsd Hde Hl Hf; [lia|].
  cbn [wild_copy_in]. apply returns_read; [lia..|]. intros x Hx. apply returns_write; [lia..|].
  intros dst1 H1. destruct (Z.ltb_spec (d + 8) e) as [Hlt|Hge].
  - eapply returns_mono; [apply IH; lia|]. cbn beta. intros r. rewrite H1. lia.
  - cbn [returns fst snd]. lia.
Qed.

Lemma secure_copy_safe {B} dst s d e (k : list byte * Z * Z -> outcome B) Q :
  0 <= s <= d -> e + 7 <= Z.of_nat (length dst) ->
  (forall dst' s' d', length dst' = length dst -> 0 <= s' <= d' -> Z.max d e <= d' < Z.max (d + 1) (e + 8) ->
    returns (k (dst', s', d')) Q) ->
  returns (obind (LZ4_SECURECOPY dst s d e) k) Q.
Proof.
  intros Hs Hl Hk. unfold LZ4_SECURECOPY. destruct (Z.ltb_spec d e) as [Hlt|Hge].
  - eapply returns_then; [apply wild_copy_in_safe; [lia..|unfold steps; lia]|].
    intros [[dst' s'] d'] (H1 & H2 & H3). cbn in H1, H2, H3. apply Hk; lia.
  - cbn [obind]. apply Hk; [done|lia..].
Qed.

Lemma copy_bytes_safe n : forall dst ref op,
  0 <= ref <= op -> op + Z.of_nat n <= Z.of_nat (length dst) ->
  returns (copy_bytes n dst ref op) (fun r => length r = length dst).
Proof.
  induction n as [|n IH]; intros dst ref op Hr Hl; [done|]. cbn [copy_bytes].
  apply returns_then with (P := fun r => length r = length dst).
  - unfold copy_byte. apply returns_read; [lia..|]. intros x Hx.
    rewrite mem_write_ok by lia. apply length_splice. lia.
  - intros dst1 H1. rewrite <- H1. apply IH; lia.
Qed.

Lemma copy_first_safe dst ref op :
  0 <= ref <= op -> op + 8 <= Z.of_nat (length dst) ->
  returns (copy_first dst ref op)
    (fun r => length r.1.1 = length dst /\ 0 <= r.1.2 <= r.2 /\ r.2 = op + 8).
Proof.
  intros Hr Hl. unfold copy_first, STEPSIZE. destruct (Z.ltb_spec (op - ref) 8) as [Hlt|Hge].
  - eapply returns_then; [apply copy_bytes_safe; lia|]. cbv beta. intros dst1 H1.
    replace (op + 4 - (ref + 4)) with (op - ref) by lia.
    assert (0 <= dec (op - ref) <= 3 /\ 0 <= dec (op - ref) + dec2table (op - ref) <= 4) as [Hd Hd2].
    { assert (op - ref = 0 \/ op - ref = 1 \/ op - ref = 2 \/ op - ref = 3 \/ op - ref = 4 \/
        op - ref = 5 \/ op - ref = 6 \/ op - ref = 7) as Hc by lia.
      destruct Hc as [->|[->|[->|[->|[->|[->|[->| ->]]]]]]]; cbv; intuition discriminate. }
    apply returns_read; [lia..|]. intros x Hx. apply returns_write; [lia..|].
    intros dst2 H2. cbn [returns fst snd]. lia.
  - apply returns_read; [lia..|]. intros x Hx. apply returns_write; [lia..|].
    intros dst2 H2. cbn [returns fst snd]. lia.
Qed.

Lemma copy_match_safe dst ref op length0 oend :
  0 <= ref <= op -> op + 8 <= oend <= Z.of_nat (length dst) -> 0 <= length0 ->
  returns (copy_match dst ref op length0 oend)
    (fun r => length r.1.2 = length dst /\ (r.1.1 <> MatchError -> 0 <= r.2 <= oend)).
Proof.
  intros Hr Ho Hl. unfold copy_match.
  eapply returns_then; [apply copy_first_safe; lia|].
  intros [[dst1 ref1] op1] (H1 & H2 & H3). cbn [fst snd] in *. subst op1.
  unfold COPYLENGTH, STEPSIZE.
  destruct (Z.ltb_spec (oend - 8) (op + 8 + length0 - (8 - 4))) as [Hnear|Hfar].
  - destruct (Z.ltb_spec oend (op + 8 + length0 - (8 - 4))) as [Hover|Hin].
    { cbn [returns fst snd]. split; [lia|done]. }
    apply secure_copy_safe; [lia..|]. intros dst2 ref2 op2 HL2 Hr2 Ho2.
    eapply returns_then; [apply copy_bytes_safe; lia|].
    intros dst3 HL3. cbn [returns fst snd]. split; [congruence|lia].
  - apply secure_copy_safe; [lia..|]. intros dst2 ref2 op2 HL2 Hr2 Ho2.
    cbn [returns fst snd]. split; [congruence|lia].
Qed.

Lemma run_length_safe fuel : forall src iend ip len s,
  0 <= ip <= iend -> iend <= Z.of_nat (length src) -> 0 <= len ->
  len + 255 * (iend - ip) <= INT_MAX -> iend - ip < Z.of_nat fuel ->
  returns (run_length fuel src iend ip len s) (fun r => ip <= r.1 <= iend /\ 0 <= r.2).
Proof.
  induction fuel as [|fuel IH]; intros src iend ip len s Hip Hl Hlen Hm Hf; [lia|].
  cbn [run_length]. destruct (Z.ltb_spec ip iend) as [Hlt|Hge]; cbn [andb]; [|cbn; lia].
  destruct (s =? 255); [|cbn; lia]. apply returns_byte; [lia..|]. intros x Hx.
  rewrite add_int_small by lia. cbn [obind].
  eapply returns_mono; [apply IH; lia|]. cbv beta. intros r. lia.
Qed.

Lemma match_length_safe fuel : forall src iend ip len,
  0 <= ip <= iend -> iend <= Z.of_nat (length src) -> 0 <= len ->
  len + 255 * (iend - ip) <= INT_MAX -> iend - ip < Z.of_nat fuel ->
  returns (match_length fuel src iend ip len) (fun r => ip <= r.1 <= iend /\ 0 <= r.2).
Proof.
  induction fuel as [|fuel IH]; intros src iend ip len Hip Hl Hlen Hm Hf; [lia|].
  cbn [match_length]. destruct (Z.ltb_spec ip iend) as [Hlt|Hge]; [|cbn; lia].
  apply returns_byte; [lia..|]. intros x Hx. rewrite add_int_small by lia. cbn [obind].
  destruct (x =? 255); [|cbn; lia].
  eapply returns_mono; [apply IH; lia|]. cbv beta. intros r. lia.
Qed.

(** The longest input whose lengths stay in an [int], whatever its bytes. *)
Definition SAFE_INPUT : Z := 8421504.

Lemma token_parts t : 0 <= t < 256 -> 0 <= Z.shiftr t ML_BITS <= 15 /\ 0 <= Z.land t ML_MASK <= 15.
Proof.
  intros Ht. unfold ML_BITS, ML_MASK. rewrite Z.shiftr_div_pow2 by lia.
  pose proof (Z.land_ones t 4 ltac:(lia)) as HL. change (Z.ones 4) with 15 in HL.
  change (2 ^ 4) with 16 in *. rewrite HL.
  pose proof (Z.div_mod t 16 ltac:(lia)). pose proof (Z.mod_pos_bound t 16 ltac:(lia)). lia.
Qed.

Lemma uncompress_loop_safe src iend oend fuel : forall ip op dst,
  0 <= iend <= Z.of_nat (length src) -> iend <= SAFE_INPUT ->
  0 <= oend <= Z.of_nat (length dst) -> oend <= INT_MAX ->
  0 <= ip <= iend -> 0 <= op <= oend -> iend - ip < Z.of_nat fuel ->
  returns (uncompress_loop fuel src iend oend ip op dst)
    (fun r => - iend <= r.1 <= oend /\ length r.2 = length dst).
Proof.
  induction fuel as [|fuel IH]; intros ip op dst Hie His Hoe Hoi Hip Hop Hf; [lia|].
  unfold SAFE_INPUT in *. cbn [uncompress_loop].
  assert (forall z, 0 <= z <= iend -> - iend <= s32 (- z) <= oend) as Herr
    by (intros z Hz; rewrite s32_neg by (unfold INT_MAX; lia); lia).
  assert (forall z, 0 <= z <= oend -> - iend <= s32 z <= oend) as Hret
    by (intros z Hz; rewrite s32_small by (unfold INT_MAX in *; lia); lia).
  destruct (Z.ltb_spec ip iend) as [Hlt|Hge]; cbn [negb]; [|cbn [returns fst snd]; auto].
  apply returns_byte; [lia..|]. intros tok Htok. destruct (token_parts tok Htok) as [Hhi Hlo].
  apply returns_then with (P := fun r => ip + 1 <= r.1 <= iend /\ 0 <= r.2).
  { destruct (_ =? _); [apply run_length_safe; unfold steps, INT_MAX; lia|cbn; lia]. }
  intros [ip1 len] [Hip1 Hlen]. cbn [fst snd] in *. unfold COPYLENGTH.
  destruct (_ || _) eqn:Hend.
  - destruct (Z.ltb_spec oend (op + len)) as [Ho|Ho]; [cbn [returns fst snd]; auto with lia|].
    destruct (Z.ltb_spec iend (ip1 + len)) as [Hi|Hi]; [cbn [returns fst snd]; auto with lia|].
    apply returns_read; [lia..|]. intros x Hx. apply returns_write; [lia..|]. intros dst1 H1.
    destruct (Z.ltb_spec (ip1 + len) iend); cbn [returns fst snd]; auto with lia.
  - apply orb_false_iff in Hend as [Hoc Hic]. apply Z.ltb_ge in Hoc, Hic.
    eapply returns_then; [apply wild_copy_safe; unfold steps; lia|].
    intros [[dst1 ip2] op2] [H1 H2]. cbn [fst snd] in *.
    replace (ip2 - (op2 - (op + len))) with (ip1 + len) by lia.
    unfold A16 at 1. apply returns_bind. apply returns_read; [lia..|]. intros x Hx.
    cbn [returns]. pose proof (le_value_bound x).
    destruct (Z.ltb_spec (op + len - le_value x) 0) as [Hneg|Hpos];
      [cbn [returns fst snd]; auto with lia|].
    apply returns_then with (P := fun r => ip1 + len + 2 <= r.1 <= iend /\ 0 <= r.2).
    { destruct (_ =? _); [apply match_length_safe; unfold steps, INT_MAX; lia|cbn; lia]. }
    intros [ip3 ml] [Hip3 Hml]. cbn [fst snd] in *.
    eapply returns_then; [apply copy_match_safe; lia|].
    intros [[res dst2] op3] [H3 Hop3]. cbn [fst snd] in *.
    destruct res; cbn [returns fst snd].
    + split; [apply Hret, Hop3; done|congruence].
    + split; [apply Herr; lia|congruence].
    + specialize (Hop3 ltac:(done)). eapply returns_mono; [apply IH; lia|]. cbv beta. intros r.
      rewrite H3, H1. done.
Qed.

(** C13 (safety): the decoder that knows the size of its input neither reads nor writes outside
    of its blocks, comes to an end and overflows no length on any input of at most
    [SAFE_INPUT] bytes, well formed or not; it returns at most the room it was given, or a
    negative position in its input. *)
Theorem uncompress_any_input src dst isize max :
  0 <= isize <= Z.of_nat (length src) -> isize <= SAFE_INPUT ->
  0 <= max <= Z.of_nat (length dst) -> max <= INT_MAX ->
  exists r dst', LZ4_uncompress_unknownOutputSize src dst isize max = Ret (r, dst') /\
    - isize <= r <= max /\ length dst' = length dst.
Proof.
  intros Hi Hs Hm HM.
  destruct (returns_run _ _ (uncompress_loop_safe src isize max (steps 0 isize) 0 0 dst Hi Hs Hm HM
              ltac:(lia) ltac:(lia) ltac:(unfold steps; lia))) as ([r dst'] & E & Hr & Hd).
  by exists r, dst'.
Qed.

Lemma uncompress_any_input_witness :
  exists r dst', LZ4_uncompress_unknownOutputSize (lit "garbage that is no block") (lit "0123456789")
      24 10 = Ret (r, dst') /\ - 24 <= r <= 10 /\ length dst' = 10%nat.
Proof.
  exact (uncompress_any_input (lit "garbage that is no block") (lit "0123456789") 24 10
           ltac:(done) ltac:(done) ltac:(done) ltac:(done)).
Defined.

(** C22 (functional): every well formed block, whoever wrote it, is expanded when the output
    has room for what it stands for; when it has not, the decoder returns an error or the
    size of the output. *)
Theorem uncompress_block_correct b dst :
  block_ok b -> Z.of_nat (length (encode_block b)) <= INT_MAX ->
  Z.of_nat (length (expand_block b)) <= INT_MAX -> Z.of_nat (length dst) <= INT_MAX ->
  exists r dst', LZ4_uncompress_unknownOutputSize (encode_block b) dst
      (Z.of_nat (length (encode_block b))) (Z.of_nat (length dst)) = Ret (r, dst') /\
    length dst' = length dst /\
    if decide (length dst < length (expand_block b))%nat
    then r < 0 \/ r = Z.of_nat (length dst)
    else r = Z.of_nat (length (expand_block b)) /\
         take (length (expand_block b)) dst' = expand_block b.
Proof. intros. by apply uncompress_block. Qed.

Lemma sample_block_ok : block_ok sample_block.
Proof. vm_compute. repeat split; repeat constructor. Qed.

Lemma uncompress_block_correct_witness :
  exists r dst', LZ4_uncompress_unknownOutputSize (encode_block sample_block) (replicate 60 x00)
      (Z.of_nat (length (encode_block sample_block))) 60 = Ret (r, dst') /\
    length dst' = 60%nat /\ r = 59 /\ take 59 dst' = expand_block sample_block.
Proof.
  refine (uncompress_block_correct sample_block (replicate 60 x00) sample_block_ok _ _ _);
    vm_compute; discriminate.
Defined.

(** ** What the decoder does not check *)

Lemma run_length_overflow fuel : forall pre n a,
  0 <= a <= INT_MAX -> INT_MAX < a + 255 * Z.of_nat n -> (n < fuel)%nat ->
  run_length fuel (pre ++ replicate n xff) (Z.of_nat (length (pre ++ replicate n xff)))
    (Z.of_nat (length pre)) a 255 = Undef SignedOverflow.
Proof.
  induction fuel as [|fuel IH]; intros pre n a Ha Hn Hf; [lia|]. cbn [run_length].
  destruct n as [|n]; [lia|]. rewrite (proj2 (Z.ltb_lt _ _))
    by (rewrite length_app, length_replicate; lia).
  cbn [replicate]. rewrite read_byte_mid by done. cbn [andb Z.eqb Pos.eqb obind].
  change (b2z xff) with 255. unfold add_int at 1. rewrite (proj2 (Z.leb_le _ (a + 255))) by lia.
  destruct (Z.leb_spec (a + 255) INT_MAX) as [Hle|Hgt]; [cbn [andb obind]|done].
  rewrite (cons_middle xff). rewrite app_assoc.
  replace (Z.of_nat (length pre) + 1) with (Z.of_nat (length (pre ++ [xff])))
    by (rewrite length_app; cbn; lia).
  apply IH; lia.
Qed.

(** Above [SAFE_INPUT] bytes a length can overflow its [int]: a run of 255s does it. *)
Theorem uncompress_long_run n dst max :
  INT_MAX < 15 + 255 * Z.of_nat n ->
  LZ4_uncompress_unknownOutputSize (xf0 :: replicate n xff) dst (Z.of_nat (S n)) max =
    Undef SignedOverflow.
Proof.
  intros Hn. unfold LZ4_uncompress_unknownOutputSize, steps. cbn [uncompress_loop].
  rewrite (proj2 (Z.ltb_lt _ _)) by lia. cbn [negb].
  pose proof (read_byte_mid [] xf0 (replicate n xff) 0%nat eq_refl) as Htok.
  change (Z.of_nat 0) with 0 in Htok. cbn [app] in Htok. rewrite Htok. cbn [obind].
  change (Z.shiftr (b2z xf0) ML_BITS =? RUN_MASK) with true. cbv iota.
  pose proof (run_length_overflow (steps (Z.of_nat 1) (Z.of_nat (S n))) [xf0] n 15) as H.
  cbn [app length] in H. rewrite length_replicate in H. cbn [Z.add].
  change (Z.shiftr (b2z xf0) ML_BITS) with 15. change (0 + 1) with (Z.of_nat 1).
  rewrite H by (unfold steps, INT_MAX in *; lia). done.
Qed.

(** An offset of 0, which no compressor writes, is not refused: the match is made of what the
    output held before. *)
Example uncompress_offset_zero :
  let b := [x14; x61; x00; x00; x50; x62; x63; x64; x65; x66] in
  let run fill := LZ4_uncompress_unknownOutputSize b (replicate 32 fill) 10 32 in
  exists out1 out2, run x2a = Ret (14, out1) /\ run x2b = Ret (14, out2) /\
    out1 !! 8%nat = Some x2a /\ out2 !! 8%nat = Some x2b.
Proof. do 2 eexists. vm_compute. by repeat split. Qed.
