(* ===== verification/Lz4Encode.v ===== *)
(** * LZ4 compression (compress-lz4/lz4/lz4.c, the compressor)

    Both compressors as they are written for a 64 bit little endian machine, over checked
    reads of the input and checked writes of the output.  The two functions differ in the size
    of their tables, in the width of their entries, in the test of the distance (which the
    one for short inputs leaves out) and in the first position they enter; [variant] holds
    these.  The result is a well formed block (Lz4Format) that expands to the input, within
    [LZ4_compressBound]. *)

From S2P Require Import Prelude Lz4Format Lz4Decode.
From Stdlib Require Import Init.Byte.

#[local] Open Scope c_scope.

Definition MINMATCH : Z := 4.
Definition LASTLITERALS : Z := 5.
Definition MFLIMIT : Z := COPYLENGTH + MINMATCH.
Definition MINLENGTH : Z := MFLIMIT + 1.
Definition MAX_DISTANCE : Z := 65535.
Definition SKIPSTRENGTH : Z := 6.
Definition HASH_LOG : Z := 12.
Definition LZ4_64KLIMIT : Z := 65536 + (MFLIMIT - 1).

(** [isize + (isize/255) + 16]: the sums are of [int]s. *)
Definition LZ4_compressBound (isize : Z) : outcome Z :=
  let+ s := add_int isize (Z.quot isize 255) in add_int s 16.

(** ** Reads and counts *)

Definition A32 (b : list byte) (p : Z) : outcome Z :=
  let+ d := mem_read b p 4 in Ret (le_value d).

Definition A64 (b : list byte) (p : Z) : outcome Z :=
  let+ d := mem_read b p 8 in Ret (le_value d).

(** [__builtin_ctzll] of a value that is not 0. *)
Fixpoint ctz (p : positive) : Z :=
  match p with xO p => 1 + ctz p | _ => 0 end.

Definition LZ4_NbCommonBytes (val : Z) : Z := Z.shiftr (ctz (Z.to_pos val)) 3.

(** ** The two tables *)

Record variant := Variant {
  hash_log : Z;
  entry_bits : Z;
  far_check : bool;
  enter_first : bool;
}.

(** A table is zero where nothing was entered. *)
Abbreviation table := (gmap Z Z).

Definition hash_value (v : variant) (src : list byte) (p : Z) : outcome Z :=
  let+ x := A32 src p in Ret (Z.shiftr (u32 (x * 2654435761)) (MINMATCH * 8 - hash_log v)).

Definition in_table (v : variant) (h : Z) : bool :=
  (0 <=? h) && (h <? Z.shiftl 1 (hash_log v)).

Definition table_get (v : variant) (t : table) (h : Z) : outcome Z :=
  if in_table v h then Ret (default 0 (t !! h)) else Undef OutOfBounds.

Definition table_set (v : variant) (t : table) (h x : Z) : outcome table :=
  if in_table v h then Ret (<[h := x mod 2 ^ entry_bits v]> t) else Undef OutOfBounds.

(** The entry of [p] in the table. *)
Definition enter (v : variant) (src : list byte) (t : table) (p : Z) : outcome table :=
  let+ h := hash_value v src p in table_set v t h p.

(** ** A match *)

(** The test of a candidate: near enough, and four equal bytes. *)
Definition matches (v : variant) (src : list byte) (ref ip : Z) : outcome bool :=
  if far_check v && (ref <? ip - MAX_DISTANCE) then Ret false
  else let+ x := A32 src ref in let+ y := A32 src ip in Ret (x =? y).

(** The search, in steps that grow; without a match it ends at the limit. *)
Fixpoint find_match (fuel : nat) (v : variant) (src : list byte) (mflimit : Z) (t : table)
  (findMatchAttempts forwardIp forwardH : Z) : outcome (option (table * Z * Z)) :=
  match fuel with
  | O => Undef Diverges
  | S fuel =>
      let h := forwardH in
      let step := Z.shiftr findMatchAttempts SKIPSTRENGTH in
      let+ findMatchAttempts := add_int findMatchAttempts 1 in
      let ip := forwardIp in
      let forwardIp := ip + step in
      if mflimit <? forwardIp then Ret None else
      let+ forwardH := hash_value v src forwardIp in
      let+ ref := table_get v t h in
      let+ t := table_set v t h ip in
      let+ found := matches v src ref ip in
      if found then Ret (Some (t, ip, ref))
      else find_match fuel v src mflimit t findMatchAttempts forwardIp forwardH
  end.

(** [ip[-1]==ref[-1]]. *)
Fixpoint catch_up (fuel : nat) (src : list byte) (anchor ip ref : Z) : outcome (Z * Z) :=
  match fuel with
  | O => Undef Diverges
  | S fuel =>
      if (anchor <? ip) && (0 <? ref) then
        let+ x := read_byte src (ip - 1) in
        let+ y := read_byte src (ref - 1) in
        if x =? y then catch_up fuel src anchor (ip - 1) (ref - 1) else Ret (ip, ref)
      else Ret (ip, ref)
  end.

(** Eight bytes at a time; [true]: the first difference was found. *)
Fixpoint count_words (fuel : nat) (src : list byte) (matchlimit ip ref : Z)
  : outcome (Z * Z * bool) :=
  match fuel with
  | O => Undef Diverges
  | S fuel =>
      if ip <? matchlimit - (STEPSIZE - 1) then
        let+ x := A64 src ref in
        let+ y := A64 src ip in
        let diff := Z.lxor x y in
        if diff =? 0 then count_words fuel src matchlimit (ip + STEPSIZE) (ref + STEPSIZE)
        else Ret (ip + LZ4_NbCommonBytes diff, ref, true)
      else Ret (ip, ref, false)
  end.

(** [if ((ip<limit) && (A(ref) == A(ip)))] for the bytes behind the words. *)
Definition equal_at (n : Z) (src : list byte) (limit ip ref : Z) : outcome bool :=
  if ip <? limit then
    let+ x := mem_read src ref n in
    let+ y := mem_read src ip n in
    Ret (le_value x =? le_value y)
  else Ret false.

(** The end of the match. *)
Definition count_match (src : list byte) (matchlimit ip ref : Z) : outcome Z :=
  let+ '(ip, ref, ended) := count_words (steps ip matchlimit) src matchlimit ip ref in
  if ended then Ret ip else
  let+ four := equal_at 4 src (matchlimit - 3) ip ref in
  let '(ip, ref) := if four then (ip + 4, ref + 4) else (ip, ref) in
  let+ two := equal_at 2 src (matchlimit - 1) ip ref in
  let '(ip, ref) := if two then (ip + 2, ref + 2) else (ip, ref) in
  let+ one := equal_at 1 src matchlimit ip ref in
  Ret (if one then ip + 1 else ip).

(** ** Output *)

Definition put (dst : list byte) (op x : Z) : outcome (list byte * Z) :=
  let+ dst := mem_write dst op [z2b x] in Ret (dst, op + 1).

(** [for(; len > 254 ; len-=255) *op++ = 255; *op++ = (BYTE)len;]. *)
Fixpoint put_length (fuel : nat) (dst : list byte) (op len : Z) : outcome (list byte * Z) :=
  match fuel with
  | O => Undef Diverges
  | S fuel =>
      if 254 <? len then
        let+ '(dst, op) := put dst op 255 in put_length fuel dst op (len - 255)
      else put dst op len
  end.

(** The same for a match: two bytes at a time. *)
Fixpoint put_length2 (fuel : nat) (dst : list byte) (op len : Z) : outcome (list byte * Z) :=
  match fuel with
  | O => Undef Diverges
  | S fuel =>
      if 509 <? len then
        let+ '(dst, op) := put dst op 255 in
        let+ '(dst, op) := put dst op 255 in
        put_length2 fuel dst op (len - 510)
      else
        let+ '(dst, op, len) :=
          if 254 <? len then
            let+ '(dst, op) := put dst op 255 in Ret (dst, op, len - 255)
          else Ret (dst, op, len) in
        put dst op len
  end.

(** The token and the length of a run of literals. *)
Definition put_run (dst : list byte) (op length : Z) : outcome (list byte * Z) :=
  if RUN_MASK <=? length then
    let+ '(dst, op) := put dst op (Z.shiftl RUN_MASK ML_BITS) in
    put_length (steps 0 length) dst op (length - RUN_MASK)
  else put dst op (Z.shiftl length ML_BITS).

(** [*token += n] and what follows the offset. *)
Definition put_match_length (dst : list byte) (token op len : Z) : outcome (list byte * Z) :=
  let+ x := read_byte dst token in
  if ML_MASK <=? len then
    let+ dst := mem_write dst token [z2b (x + ML_MASK)] in
    put_length2 (steps 0 len) dst op (len - ML_MASK)
  else
    let+ dst := mem_write dst token [z2b (x + len)] in
    Ret (dst, op).

(** ** The compressors *)

(** Where the matches at one place end: at the end of the chunk, or with a new search. *)
Inductive match_next := EndOfChunk | Search (t : table) (forwardH : Z).

(** From [_next_match] on; the output, the place in it and [anchor]. *)
Fixpoint next_match (fuel : nat) (v : variant) (src : list byte) (iend : Z) (t : table)
  (dst : list byte) (token op ip ref : Z) : outcome (match_next * list byte * Z * Z) :=
  match fuel with
  | O => Undef Diverges
  | S fuel =>
      let mflimit := iend - MFLIMIT in
      let matchlimit := iend - LASTLITERALS in
      let+ dst := mem_write dst op (le_bytes 2 (ip - ref)) in
      let op := op + 2 in
      let ip := ip + MINMATCH in
      let ref := ref + MINMATCH in
      let anchor := ip in
      let+ ip := count_match src matchlimit ip ref in
      let+ '(dst, op) := put_match_length dst token op (ip - anchor) in
      if mflimit <? ip then Ret (EndOfChunk, dst, op, ip) else
      let+ t := enter v src t (ip - 2) in
      let+ h := hash_value v src ip in
      let+ ref := table_get v t h in
      let+ t := enter v src t ip in
      let+ found := matches v src ref ip in
      if found then
        let token := op in
        let+ dst := mem_write dst token [z2b 0] in
        next_match fuel v src iend t dst token (op + 1) ip ref
      else
        let anchor := ip in
        let ip := ip + 1 in
        let+ forwardH := hash_value v src ip in
        Ret (Search t forwardH, dst, op, anchor)
  end.

Fixpoint main_loop (fuel : nat) (v : variant) (src : list byte) (iend : Z) (t : table)
  (dst : list byte) (op anchor ip forwardH : Z) : outcome (list byte * Z * Z) :=
  match fuel with
  | O => Undef Diverges
  | S fuel =>
      let mflimit := iend - MFLIMIT in
      let+ found := find_match (steps ip iend) v src mflimit t (Z.shiftl 1 SKIPSTRENGTH + 3)
                      ip forwardH in
      match found with
      | None => Ret (dst, op, anchor)
      | Some (t, ip, ref) =>
          let+ '(ip, ref) := catch_up (steps 0 ref) src anchor ip ref in
          let length := ip - anchor in
          let token := op in
          let+ '(dst, op) := put_run dst op length in
          let+ '(dst, _, _) := LZ4_WILDCOPY src anchor dst op (op + length) in
          let op := op + length in
          let+ '(next, dst, op, anchor) :=
            next_match (steps ip iend) v src iend t dst token op ip ref in
          match next with
          | EndOfChunk => Ret (dst, op, anchor)
          | Search t forwardH => main_loop fuel v src iend t dst op anchor (anchor + 1) forwardH
          end
      end
  end.

(** [_last_literals]. *)
Definition last_run (src dst : list byte) (op anchor iend : Z) : outcome (list byte * Z) :=
  let lastRun := iend - anchor in
  let+ '(dst, op) := put_run dst op lastRun in
  let+ x := mem_read src anchor lastRun in
  let+ dst := mem_write dst op x in
  Ret (dst, op + lastRun).

Definition compress_ctx (v : variant) (src dst : list byte) (isize : Z)
  : outcome (Z * list byte) :=
  let+ '(dst, op, anchor) :=
    if isize <? MINLENGTH then Ret (dst, 0, 0)
    else
      let+ t := if enter_first v then enter v src ∅ 0 else Ret ∅ in
      let+ forwardH := hash_value v src 1 in
      main_loop (steps 0 isize) v src isize t dst 0 0 1 forwardH in
  let+ '(dst, op) := last_run src dst op anchor isize in
  Ret (s32 op, dst).

Definition ctx32 : variant := Variant HASH_LOG 32 true true.
Definition ctx64k : variant := Variant (HASH_LOG + 1) 16 false false.

Definition LZ4_compressCtx : list byte -> list byte -> Z -> outcome (Z * list byte) :=
  compress_ctx ctx32.
Definition LZ4_compress64kCtx : list byte -> list byte -> Z -> outcome (Z * list byte) :=
  compress_ctx ctx64k.

Definition LZ4_compress (src dst : list byte) (isize : Z) : outcome (Z * list byte) :=
  if isize <? LZ4_64KLIMIT then LZ4_compress64kCtx src dst isize
  else LZ4_compressCtx src dst isize.

Definition sample_text : list byte :=
  lit "a rose is a rose is a rose is a rose, says she; a rose is a rose is a rose!".

Example sample_compresses :
  match LZ4_compress sample_text (replicate 95 x00) 75 with
  | Ret (n, dst) =>
      n = 35 /\
      LZ4_uncompress_unknownOutputSize (take (Z.to_nat n) dst) (replicate 75 x00) n 75 =
        Ret (75, sample_text)
  | Undef _ => False
  end.
Proof. vm_compute. by split. Qed.

(** ** Common bytes *)

Lemma le_value_inj x : forall y, length x = length y -> le_value x = le_value y -> x = y.
Proof.
  induction x as [|a x IH]; intros [|b y] Hl He; try done. cbn [le_value] in He.
  pose proof (b2z_range a). pose proof (b2z_range b). injection Hl as Hl.
  f_equal; [apply b2z_inj; lia|]. apply IH; [done|lia].
Qed.

Lemma lxor_byte a b x y :
  0 <= a < 256 -> 0 <= b < 256 ->
  Z.lxor (a + 256 * x) (b + 256 * y) = Z.lxor a b + 256 * Z.lxor x y /\ 0 <= Z.lxor a b < 256.
Proof.
  intros Ha Hb.
  assert (forall u v, 0 <= u < 256 -> (u + 256 * v) mod 2 ^ 8 = u /\ (u + 256 * v) / 2 ^ 8 = v) as Hdm.
  { intros u v Hu. change (2 ^ 8) with 256. rewrite (Z.mul_comm 256 v).
    rewrite Z.mod_add, Z.div_add, Z.mod_small, Z.div_small by lia. lia. }
  assert (0 <= Z.lxor a b < 256) as Hab.
  { split; [apply Z.lxor_nonneg; lia|]. change 256 with (2 ^ 8).
    destruct (Z.eq_dec (Z.lxor a b) 0) as [->|Hn]; [lia|].
    assert (0 <= Z.lxor a b) by (apply Z.lxor_nonneg; lia).
    apply Z.log2_lt_pow2; [lia|]. eapply Z.le_lt_trans; [apply Z.log2_lxor; lia|].
    apply Z.max_lub_lt; (destruct (Z.eq_dec a 0) as [->|], (Z.eq_dec b 0) as [->|];
      try (cbn; lia); apply Z.log2_lt_pow2; lia). }
  split; [|done].
  rewrite (Z.div_mod (Z.lxor (a + 256 * x) (b + 256 * y)) (2 ^ 8)) by lia.
  rewrite <- Z.land_ones by lia. rewrite <- Z.shiftr_div_pow2, Z.shiftr_lxor by lia.
  rewrite !Z.shiftr_div_pow2 by lia. rewrite (proj2 (Hdm a x Ha)), (proj2 (Hdm b y Hb)).
  assert (Z.land (Z.lxor (a + 256 * x) (b + 256 * y)) (Z.ones 8) =
          Z.lxor (Z.land (a + 256 * x) (Z.ones 8)) (Z.land (b + 256 * y) (Z.ones 8))) as ->.
  { apply Z.bits_inj'. intros n Hn. rewrite !Z.land_spec, !Z.lxor_spec, !Z.land_spec.
    by destruct (Z.testbit _ n), (Z.testbit _ n), (Z.testbit _ n). }
  rewrite !Z.land_ones by lia. rewrite (proj1 (Hdm a x Ha)), (proj1 (Hdm b y Hb)). lia.
Qed.

Lemma ctz_small p : Zpos p mod 256 <> 0 -> 0 <= ctz p < 8.
Proof.
  intros H. do 8 (destruct p as [p|p|]; [cbn; lia| |cbn; lia]).
  exfalso. apply H. change (Zpos p~0~0~0~0~0~0~0~0) with (256 * Zpos p).
  by rewrite Z.mul_comm, Z.mod_mul.
Qed.

Lemma ctz_nonneg p : 0 <= ctz p.
Proof. induction p; cbn; lia. Qed.

(** The first byte in which two words differ. *)
Lemma common_bytes x : forall y, length x = length y -> x <> y ->
  exists c, 0 < Z.lxor (le_value x) (le_value y) /\
    LZ4_NbCommonBytes (Z.lxor (le_value x) (le_value y)) = Z.of_nat c /\
    (c < length x)%nat /\ take c x = take c y /\ x !! c <> y !! c.
Proof.
  induction x as [|a x IH]; intros [|b y] Hl Hne; try done. injection Hl as Hl.
  cbn [le_value].
  destruct (lxor_byte (b2z a) (b2z b) (le_value x) (le_value y)) as [E Hab];
    [apply b2z_range..|].
  rewrite E. unfold LZ4_NbCommonBytes in *. rewrite Z.shiftr_div_pow2 by lia.
  assert (0 <= Z.lxor (le_value x) (le_value y)) as Hxy.
  { apply Z.lxor_nonneg. pose proof (le_value_bound x). pose proof (le_value_bound y). lia. }
  destruct (decide (a = b)) as [->|Hd].
  - destruct (IH y Hl) as (c & Hpos & Hc & Hlt & Ht & Hn); [congruence|].
    exists (S c). rewrite Z.lxor_nilpotent, Z.add_0_l.
    destruct (Z.lxor (le_value x) (le_value y)) as [|p|p]; try lia.
    rewrite Z.shiftr_div_pow2 in Hc by lia. cbn [Z.to_pos] in Hc.
    change (256 * Zpos p) with (Zpos p~0~0~0~0~0~0~0~0). cbn [Z.to_pos ctz].
    split; [lia|]. split.
    { replace (1 + _) with (ctz p + 1 * 2 ^ 3) by (change (2 ^ 3) with 8; lia).
      rewrite Z.div_add by lia. lia. }
    cbn [length take]. by repeat split; [lia|f_equal|].
  - exists 0%nat. assert (Z.lxor (b2z a) (b2z b) <> 0) as Hz.
    { intros H0%Z.lxor_eq. by apply Hd, b2z_inj. }
    split; [lia|]. split; [|cbn; repeat split; [lia|congruence]].
    set (d := Z.lxor (b2z a) (b2z b) + 256 * _) in *.
    assert (0 <= ctz (Z.to_pos d) < 8) as Hc.
    { apply ctz_small. rewrite Z2Pos.id by (unfold d; lia). unfold d.
      rewrite (Z.mul_comm 256), Z.mod_add, Z.mod_small by lia. done. }
    apply Z.div_small. change (2 ^ 3) with 8. lia.
Qed.

(** ** Matches in the text *)

(** [n] bytes at [p] equal those at [q]. *)
Definition agree (src : list byte) (p q n : nat) : Prop :=
  forall j, (j < n)%nat -> src !! (p + j)%nat = src !! (q + j)%nat.

Lemma agree_take src p q n :
  agree src p q n <-> take n (drop p src) = take n (drop q src).
Proof.
  split.
  - intros H. apply list_eq. intros i. destruct (decide (i < n)%nat).
    + rewrite !lookup_take_lt, !lookup_drop by done. by apply H.
    + rewrite !lookup_ge_None_2 by (rewrite length_take; lia). done.
  - intros H j Hj. rewrite <- !lookup_drop.
    rewrite <- (lookup_take_lt (drop p src) n j), <- (lookup_take_lt (drop q src) n j) by done.
    by rewrite H.
Qed.

Lemma agree_app src p q n m :
  agree src p q n -> agree src (p + n) (q + n) m -> agree src p q (n + m).
Proof.
  intros H1 H2 j Hj. destruct (decide (j < n)%nat) as [|Hn]; [by apply H1|].
  specialize (H2 (j - n)%nat ltac:(lia)).
  replace (p + n + (j - n))%nat with (p + j)%nat in H2 by lia.
  by replace (q + n + (j - n))%nat with (q + j)%nat in H2 by lia.
Qed.

Lemma agree_le src p q n m : agree src p q n -> (m <= n)%nat -> agree src p q m.
Proof. intros H Hm j Hj. apply H. lia. Qed.

(** Two words of [n] bytes. *)
Lemma words_equal src p q n :
  (p + n <= length src)%nat -> (q + n <= length src)%nat ->
  if le_value (take n (drop p src)) =? le_value (take n (drop q src))
  then agree src p q n else take n (drop p src) <> take n (drop q src).
Proof.
  intros Hp Hq. destruct (Z.eqb_spec (le_value (take n (drop p src))) (le_value (take n (drop q src)))).
  - apply agree_take. apply le_value_inj; [rewrite !length_take, !length_drop; lia|done].
  - congruence.
Qed.

(** How far two places agree before [limit]. *)
Definition maximal (src : list byte) (p q n limit : nat) : Prop :=
  agree src p q n /\ (q + n <= limit)%nat /\
  ((q + n = limit)%nat \/ src !! (p + n)%nat <> src !! (q + n)%nat).

Lemma maximal_ge src p q n limit m :
  maximal src p q n limit -> agree src p q m -> (q + m <= limit)%nat -> (m <= n)%nat.
Proof.
  intros (_ & Hl & [He|Hd]) Ha Hm; [lia|]. destruct (decide (m <= n)%nat) as [|Hn]; [done|].
  exfalso. apply Hd, Ha. lia.
Qed.

Lemma maximal_app src p q n m limit :
  agree src p q n -> maximal src (p + n) (q + n) m limit -> maximal src p q (n + m) limit.
Proof.
  intros H1 (H2 & Hl & He). split; [by apply agree_app|]. by rewrite !Nat.add_assoc.
Qed.

Lemma count_words_ok fuel : forall src limit p q,
  (p <= q)%nat -> (q <= limit <= length src)%nat -> (limit - q < fuel)%nat ->
  exists p' n (ended : bool),
    count_words fuel src (Z.of_nat limit) (Z.of_nat q) (Z.of_nat p) =
      Ret (Z.of_nat (q + n), p', ended) /\
    if ended then maximal src p q n limit
    else p' = Z.of_nat (p + n) /\ agree src p q n /\ (limit < q + n + 8)%nat /\ (q + n <= limit)%nat.
Proof.
  induction fuel as [|fuel IH]; intros src limit p q Hpq Hl Hf; [lia|].
  cbn [count_words]. unfold STEPSIZE.
  destruct (Z.ltb_spec (Z.of_nat q) (Z.of_nat limit - (8 - 1))) as [Hlt|Hge].
  - unfold A64. rewrite !(mem_read_nat _ _ 8) by lia. cbn [obind].
    destruct (Z.eqb_spec (Z.lxor (le_value (take 8 (drop p src))) (le_value (take 8 (drop q src)))) 0)
      as [E|E].
    + apply Z.lxor_eq in E. pose proof (words_equal src p q 8 ltac:(lia) ltac:(lia)) as Ha.
      rewrite E, Z.eqb_refl in Ha.
      destruct (IH src limit (p + 8)%nat (q + 8)%nat) as (p' & n & ended & Ec & Hc); [lia..|].
      exists p', (8 + n)%nat, ended.
      replace (Z.of_nat q + 8) with (Z.of_nat (q + 8)) by lia.
      replace (Z.of_nat p + 8) with (Z.of_nat (p + 8)) by lia.
      rewrite Ec. split; [by rewrite Nat.add_assoc|]. destruct ended.
      * by apply maximal_app.
      * destruct Hc as (-> & Hc & Hc2 & Hc3). split; [lia|]. split; [by apply agree_app|lia].
    + destruct (common_bytes (take 8 (drop p src)) (take 8 (drop q src)))
        as (c & _ & Hc & Hcl & Ht & Hn).
      { rewrite !length_take, !length_drop. lia. }
      { intros Heq. apply E. rewrite Heq. apply Z.lxor_nilpotent. }
      rewrite length_take, length_drop in Hcl. rewrite Hc.
      do 2 eexists. exists true. split; [by rewrite Nat2Z.inj_add|].
      rewrite !take_take, !Nat.min_l in Ht by lia.
      rewrite !lookup_take_lt, !lookup_drop in Hn by lia.
      split; [by apply agree_take|]. split; [lia|by right].
  - exists (Z.of_nat p), 0%nat, false. rewrite !Nat.add_0_r. split; [done|].
    split; [done|]. split; [intros j Hj; lia|lia].
Qed.

Lemma equal_at_ok src n limit p q m :
  m = Z.of_nat n -> (p <= q)%nat -> (q < limit -> q + n <= length src)%nat ->
  exists b : bool, equal_at m src (Z.of_nat limit) (Z.of_nat q) (Z.of_nat p) = Ret b /\
    if b then (q < limit)%nat /\ agree src p q n
    else (limit <= q)%nat \/ take n (drop p src) <> take n (drop q src).
Proof.
  intros -> Hpq Hl. unfold equal_at. destruct (Z.ltb_spec (Z.of_nat q) (Z.of_nat limit)) as [Hlt|Hge].
  - rewrite !(mem_read_nat _ _ n) by lia. cbn [obind]. eexists. split; [done|].
    pose proof (words_equal src p q n ltac:(lia) ltac:(lia)) as H.
    destruct (_ =? _); [by split; [lia|]|by right].
  - exists false. split; [done|]. left. lia.
Qed.

Lemma agree_one src p q : agree src p q 1 <-> src !! p = src !! q.
Proof.
  split; [intros H; specialize (H 0%nat ltac:(lia)); by rewrite !Nat.add_0_r in H|].
  intros H j Hj. replace j with 0%nat by lia. by rewrite !Nat.add_0_r.
Qed.

(** What is left after a step of [k] bytes that may have been taken. *)
Lemma tail_step src limit p q k k' (b : bool) :
  (if b then (q < limit - (k - 1))%nat /\ agree src p q k
   else (limit - (k - 1) <= q)%nat \/ take k (drop p src) <> take k (drop q src)) ->
  (k = k' + k')%nat -> (0 < k')%nat -> (k <= limit)%nat -> (q <= limit)%nat ->
  (limit < q + (k + k) \/ ~ agree src p q (k + k))%nat ->
  let n := if b then k else 0%nat in
  agree src p q n /\ (q + n <= limit)%nat /\
  (limit < q + n + k \/ ~ agree src (p + n) (q + n) k)%nat.
Proof.
  intros Hb Hk Hk' Hkl Hq Hr n. subst n. destruct b.
  - destruct Hb as [Hlt Ha]. split; [done|]. split; [lia|].
    destruct Hr as [Hr|Hr]; [left; lia|right]. intros Ha2. by apply Hr, agree_app.
  - rewrite !Nat.add_0_r. split; [intros j Hj; lia|]. split; [done|].
    destruct Hb as [Hb|Hb]; [left; lia|right]. by rewrite agree_take.
Qed.

Lemma count_match_ok src limit p q :
  (p <= q)%nat -> (4 <= limit)%nat -> (q <= limit <= length src)%nat ->
  exists n, count_match src (Z.of_nat limit) (Z.of_nat q) (Z.of_nat p) = Ret (Z.of_nat (q + n)) /\
    maximal src p q n limit.
Proof.
  intros Hpq H4 Hl. unfold count_match.
  destruct (count_words_ok (steps (Z.of_nat q) (Z.of_nat limit)) src limit p q)
    as (p' & n & ended & -> & Hn); [lia|lia|unfold steps; lia|].
  cbn [obind]. destruct ended; [by exists n|].
  destruct Hn as (-> & Ha & H8 & Hlim).
  replace (Z.of_nat limit - 3) with (Z.of_nat (limit - (4 - 1))) by lia.
  replace (Z.of_nat limit - 1) with (Z.of_nat (limit - (2 - 1))) by lia.
  destruct (equal_at_ok src 4 (limit - (4 - 1)) (p + n) (q + n) 4) as (b4 & -> & Hb4); [lia..|].
  cbn [obind].
  destruct (tail_step src limit _ _ 4 2 b4 Hb4) as (A4 & L4 & R4); [lia..|].
  set (n4 := if b4 then 4%nat else 0%nat) in *.
  replace (if b4 then _ else _)
    with (Z.of_nat (q + n + n4), Z.of_nat (p + n + n4)) by (unfold n4; destruct b4; f_equal; lia).
  destruct (equal_at_ok src 2 (limit - (2 - 1)) (p + n + n4) (q + n + n4) 2) as (b2 & -> & Hb2); [lia..|].
  cbn [obind].
  destruct (tail_step src limit _ _ 2 1 b2 Hb2) as (A2 & L2 & R2); [lia..|done|].
  set (n2 := if b2 then 2%nat else 0%nat) in *.
  replace (if b2 then _ else _)
    with (Z.of_nat (q + n + n4 + n2), Z.of_nat (p + n + n4 + n2))
    by (unfold n2; destruct b2; f_equal; lia).
  destruct (equal_at_ok src 1 limit (p + n + n4 + n2) (q + n + n4 + n2) 1) as (b1 & -> & Hb1); [lia..|].
  cbn [obind].
  set (n1 := if b1 then 1%nat else 0%nat).
  exists (n + (n4 + (n2 + n1)))%nat.
  split; [unfold n1; destruct b1; f_equal; lia|].
  do 3 (apply maximal_app; [done|]).
  unfold n1. destruct b1.
  - destruct Hb1 as [Hlt Ha1]. split; [done|]. split; [lia|].
    destruct R2 as [R2|R2]; [left; lia|right]. intros He. apply R2.
    apply (agree_app _ _ _ 1 1); [done|]. by apply agree_one.
  - split; [intros j Hj; lia|]. split; [lia|]. rewrite !Nat.add_0_r.
    destruct Hb1 as [Hge|Hd]; [left; lia|right]. by rewrite <- agree_one, agree_take.
Qed.

(** ** The table and the search *)

(** What is relied on of a variant for an input of [iend] bytes. *)
Definition variant_ok (v : variant) (iend : Z) : Prop :=
  0 < hash_log v <= 32 /\ iend - MFLIMIT < 2 ^ entry_bits v /\
  (far_check v = false -> iend - MFLIMIT <= MAX_DISTANCE).

(** The entries are positions before [p]. *)
Definition table_ok (t : table) (p : nat) : Prop :=
  forall h x, t !! h = Some x -> 0 <= x < Z.of_nat p.

Lemma hash_value_ok v src p :
  0 < hash_log v <= 32 -> (p + 4 <= length src)%nat ->
  exists h, hash_value v src (Z.of_nat p) = Ret h /\ in_table v h = true.
Proof.
  intros Hv Hp. unfold hash_value, A32. rewrite (mem_read_nat _ _ 4) by lia. cbn [obind].
  eexists. split; [done|]. unfold in_table. rewrite Z.shiftl_1_l.
  rewrite Z.shiftr_div_pow2 by (unfold MINMATCH; lia). unfold u32, MINMATCH.
  set (x := le_value _ * 2654435761). pose proof (Z.mod_pos_bound x (2 ^ 32) ltac:(lia)) as Hx.
  assert (0 < 2 ^ (4 * 8 - hash_log v)) as Hpow by (apply Z.pow_pos_nonneg; lia).
  apply andb_true_iff. split; [apply Z.leb_le, Z.div_pos; lia|].
  apply Z.ltb_lt, Z.div_lt_upper_bound; [done|]. rewrite <- Z.pow_add_r by lia.
  replace (4 * 8 - hash_log v + hash_log v) with 32 by lia. lia.
Qed.

Lemma table_get_ok v t h q :
  in_table v h = true -> table_ok t q -> (0 < q)%nat ->
  exists r, table_get v t h = Ret (Z.of_nat r) /\ (r < q)%nat.
Proof.
  intros Hh Ht Hq. unfold table_get. rewrite Hh. destruct (t !! h) as [x|] eqn:E; cbn.
  - specialize (Ht h x E). exists (Z.to_nat x). rewrite Z2Nat.id by lia. split; [done|lia].
  - by exists 0%nat.
Qed.

Lemma table_set_ok v t h x q q' :
  in_table v h = true -> table_ok t q -> (q <= q')%nat -> (x < q')%nat ->
  Z.of_nat x < 2 ^ entry_bits v ->
  exists t', table_set v t h (Z.of_nat x) = Ret t' /\ table_ok t' q'.
Proof.
  intros Hh Ht Hq Hx He. unfold table_set. rewrite Hh. eexists. split; [done|].
  intros h' y. rewrite Z.mod_small by lia. rewrite lookup_insert. case_decide.
  - intros [= <-]. lia.
  - intros E. specialize (Ht h' y E). lia.
Qed.

Section Search.
Context (v : variant) (src : list byte).
Let N := length src.
Hypothesis Hv : variant_ok v (Z.of_nat N).

Lemma enter_ok t x q q' :
    table_ok t q -> (q <= q')%nat -> (x < q')%nat -> (x + 12 <= N)%nat ->
    exists t', enter v src t (Z.of_nat x) = Ret t' /\ table_ok t' q'.
  Proof.
    intros Ht Hq Hx Hn. destruct Hv as (Hlog & Hbits & _). unfold enter.
    destruct (hash_value_ok v src x Hlog) as (h & -> & Hh); [subst N; lia|]. cbn [obind].
    eapply table_set_ok; try done. unfold MFLIMIT, COPYLENGTH, MINMATCH in Hbits. lia.
  Qed.

Lemma matches_ok ref ip :
    (ref < ip)%nat -> (ip + 12 <= N)%nat ->
    exists b : bool, matches v src (Z.of_nat ref) (Z.of_nat ip) = Ret b /\
      (b = true -> agree src ref ip 4 /\ (Z.of_nat (ip - ref) < 65536)).
  Proof.
    intros Hr Hn. destruct Hv as (_ & _ & Hfar).
    unfold matches, MFLIMIT, COPYLENGTH, MINMATCH, MAX_DISTANCE in *.
    destruct (far_check v && (Z.of_nat ref <? Z.of_nat ip - 65535)) eqn:E; [by exists false|].
    unfold A32. rewrite !(mem_read_nat _ _ 4) by (subst N; lia). cbn [obind].
    eexists. split; [done|]. intros Hb.
    pose proof (words_equal src ref ip 4 ltac:(subst N; lia) ltac:(subst N; lia)) as Hw.
    rewrite Hb in Hw. split; [done|].
    apply andb_false_iff in E as [E|E]; [specialize (Hfar E); lia|apply Z.ltb_ge in E; lia].
  Qed.

Lemma find_match_ok fuel : forall t attempts q h,
    table_ok t q -> (1 <= q <= N)%nat -> in_table v h = true -> 64 <= attempts ->
    attempts + Z.of_nat (N - q) < INT_MAX -> (N - q < fuel)%nat ->
    exists r, find_match fuel v src (Z.of_nat N - MFLIMIT) t attempts (Z.of_nat q) h = Ret r /\
      match r with
      | None => True
      | Some (t', ip', ref') =>
          exists ip ref, ip' = Z.of_nat ip /\ ref' = Z.of_nat ref /\ (q <= ip)%nat /\
            (ip + 13 <= N)%nat /\ (ref < ip)%nat /\ Z.of_nat (ip - ref) < 65536 /\
            agree src ref ip 4 /\ table_ok t' (S ip)
      end.
  Proof.
    induction fuel as [|fuel IH]; intros t attempts q h Ht Hq Hh Ha Hm Hf; [lia|].
    cbn [find_match]. rewrite add_int_small by (unfold INT_MAX in *; lia). cbn [obind].
    assert (1 <= Z.shiftr attempts SKIPSTRENGTH) as Hstep.
    { unfold SKIPSTRENGTH. rewrite Z.shiftr_div_pow2 by lia. apply Z.div_le_lower_bound; lia. }
    set (step := Z.shiftr attempts SKIPSTRENGTH) in *.
    destruct (Z.ltb_spec (Z.of_nat N - MFLIMIT) (Z.of_nat q + step)) as [Hlt|Hge]; [by exists None|].
    pose proof Hv as (Hlog & Hbits & _).
    assert (MFLIMIT = 12) as Hmf by done. rewrite Hmf in *.
    replace (Z.of_nat q + step) with (Z.of_nat (q + Z.to_nat step)) by lia.
    destruct (hash_value_ok v src (q + Z.to_nat step) Hlog) as (h' & -> & Hh'); [subst N; lia|].
    cbn [obind]. destruct (table_get_ok v t h q Hh Ht) as (r & -> & Hr); [lia|]. cbn [obind].
    destruct (table_set_ok v t h q q (S q) Hh Ht) as (t' & -> & Ht'); [lia..|]. cbn [obind].
    destruct (matches_ok r q) as (b & -> & Hb); [done|lia|]. cbn [obind]. destruct b.
    - eexists. split; [done|]. cbn beta iota. exists q, r. destruct (Hb eq_refl).
      repeat (split; [done || lia|]). done.
    - destruct (IH t' (attempts + 1) (q + Z.to_nat step)%nat h') as (res & E & Hres);
        [|lia|done|lia|lia|lia|].
      { intros k x Hk. specialize (Ht' k x Hk). lia. }
      exists res. split; [done|]. destruct res as [[[t2 ip'] ref']|]; [|done].
      destruct Hres as (ip & ref & ? & ? & ? & ?). exists ip, ref.
      do 2 (split; [done|]). split; [lia|done].
  Qed.

Lemma catch_up_ok fuel : forall anchor ip ref,
    (anchor <= ip <= N)%nat -> (ref < ip)%nat -> (ref < fuel)%nat ->
    exists k, catch_up fuel src (Z.of_nat anchor) (Z.of_nat ip) (Z.of_nat ref) =
        Ret (Z.of_nat (ip - k), Z.of_nat (ref - k)) /\
      (anchor + k <= ip)%nat /\ (k <= ref)%nat /\ agree src (ref - k) (ip - k) k.
  Proof.
    induction fuel as [|fuel IH]; intros anchor ip ref Ha Hr Hf; [lia|]. cbn [catch_up].
    assert (exists k, Ret (Z.of_nat ip, Z.of_nat ref) =
        Ret (Z.of_nat (ip - k), Z.of_nat (ref - k)) /\
      (anchor + k <= ip)%nat /\ (k <= ref)%nat /\ agree src (ref - k) (ip - k) k) as Hstop.
    { exists 0%nat. rewrite !Nat.sub_0_r. split; [done|]. split; [lia|]. split; [lia|].
      intros j Hj. lia. }
    destruct (Z.ltb_spec (Z.of_nat anchor) (Z.of_nat ip)) as [Hai|]; cbn [andb]; [|done].
    destruct (Z.ltb_spec 0 (Z.of_nat ref)) as [Hr0|]; [|done].
    replace (Z.of_nat ip - 1) with (Z.of_nat (ip - 1)) by lia.
    replace (Z.of_nat ref - 1) with (Z.of_nat (ref - 1)) by lia.
    unfold read_byte. rewrite !(mem_read_nat _ _ 1) by (subst N; lia). cbn [obind].
    pose proof (words_equal src (ip - 1) (ref - 1) 1 ltac:(subst N; lia) ltac:(subst N; lia)) as Hw.
    destruct (_ =? _); [|done]. apply agree_one in Hw.
    destruct (IH anchor (ip - 1)%nat (ref - 1)%nat) as (k & -> & Hk1 & Hk2 & Hk3); [lia..|].
    exists (k + 1)%nat. replace (ip - (k + 1))%nat with (ip - 1 - k)%nat by lia.
    replace (ref - (k + 1))%nat with (ref - 1 - k)%nat by lia.
    split; [done|]. split; [lia|]. split; [lia|]. apply agree_app; [done|]. apply agree_one.
    replace (ref - 1 - k + k)%nat with (ref - 1)%nat by lia.
    by replace (ip - 1 - k + k)%nat with (ip - 1)%nat by lia.
  Qed.

  (** What is entered and looked up behind a match that ends at [p]. *)
Lemma next_position_ok t p q :
    table_ok t q -> (q < p)%nat -> (2 < p)%nat -> (p + 12 <= N)%nat ->
    exists t1 h ref t2 (b : bool),
      enter v src t (Z.of_nat p - 2) = Ret t1 /\ hash_value v src (Z.of_nat p) = Ret h /\
      table_get v t1 h = Ret (Z.of_nat ref) /\ enter v src t1 (Z.of_nat p) = Ret t2 /\
      matches v src (Z.of_nat ref) (Z.of_nat p) = Ret b /\ (ref < p)%nat /\
      table_ok t2 (p + 1) /\
      (b = true -> agree src ref p 4 /\ Z.of_nat (p - ref) < 65536).
  Proof.
    intros Ht Hq H2 Hn. pose proof (proj1 Hv) as Hlog.
    replace (Z.of_nat p - 2) with (Z.of_nat (p - 2)) by lia.
    destruct (enter_ok t (p - 2) q (p - 1) Ht) as (t1 & E1 & Ht1); [lia..|].
    destruct (hash_value_ok v src p Hlog) as (h & Eh & Hh); [subst N; lia|].
    destruct (table_get_ok v t1 h _ Hh Ht1) as (ref & Er & Href); [lia|].
    destruct (enter_ok t1 p _ (p + 1) Ht1) as (t2 & E2 & Ht2); [lia..|].
    destruct (matches_ok ref p) as (b & Eb & Hb); [lia..|].
    exists t1, h, ref, t2, b. repeat (split; [done || lia|]). done.
  Qed.
End Search.

(** ** Lengths in the output *)

(** [r] is [out] with [x] behind it in a block that started as [out ++ rest]. *)
Definition appended (out rest x : list byte) (r : list byte * Z) : Prop :=
  exists rest', r = ((out ++ x) ++ rest', Z.of_nat (length (out ++ x))) /\
    (length x + length rest' = length rest)%nat.

Lemma put_ok out rest x n :
  n = length out -> (1 <= length rest)%nat ->
  returns (put (out ++ rest) (Z.of_nat n) x) (appended out rest [z2b x]).
Proof.
  intros -> Hr. unfold put. rewrite mem_write_mid by done. cbn [obind returns].
  exists (drop 1 rest). rewrite <- app_assoc, length_app, length_drop. cbn [length].
  split; [f_equal; lia|lia].
Qed.

Lemma put_then {B} out rest x n (k : list byte * Z -> outcome B) Q :
  n = length out -> (1 <= length rest)%nat ->
  (forall rest', (1 + length rest' = length rest)%nat ->
     returns (k ((out ++ [z2b x]) ++ rest', Z.of_nat (length (out ++ [z2b x])))) Q) ->
  returns (obind (put (out ++ rest) (Z.of_nat n) x) k) Q.
Proof.
  intros Hn Hr Hk. eapply returns_then; [by apply put_ok|].
  intros r (rest' & -> & HL). by apply Hk.
Qed.

Lemma appended_app out rest x rest' y r :
  appended (out ++ x) rest' y r -> (length x + length rest' = length rest)%nat ->
  appended out rest (x ++ y) r.
Proof.
  intros (rest2 & -> & H2) H1. exists rest2. rewrite app_assoc. split; [done|].
  rewrite length_app. lia.
Qed.

(** A length as bytes of 255 and a last one. *)
Definition bytes255 (n : nat) : list byte :=
  replicate (n / 255) xff ++ [z2b (Z.of_nat (n mod 255))].

Lemma length_bytes255 n : length (bytes255 n) = (n / 255 + 1)%nat.
Proof. unfold bytes255. by rewrite length_app, length_replicate. Qed.

Lemma bytes255_small n : (n < 255)%nat -> bytes255 n = [z2b (Z.of_nat n)].
Proof. intros H. unfold bytes255. by rewrite Nat.div_small, Nat.mod_small. Qed.

Lemma bytes255_step n : (255 <= n)%nat -> bytes255 n = xff :: bytes255 (n - 255).
Proof.
  intros H. unfold bytes255. replace n with (n - 255 + 1 * 255)%nat at 1 2 by lia.
  rewrite Nat.div_add, Nat.Div0.mod_add by lia. by rewrite Nat.add_1_r.
Qed.

Lemma put_length_ok fuel : forall out rest len n,
  n = length out -> (length (bytes255 len) <= length rest)%nat -> (len < fuel)%nat ->
  returns (put_length fuel (out ++ rest) (Z.of_nat n) (Z.of_nat len))
    (appended out rest (bytes255 len)).
Proof.
  induction fuel as [|fuel IH]; intros out rest len n Hn Hr Hf; [lia|]. cbn [put_length].
  destruct (Z.ltb_spec 254 (Z.of_nat len)) as [Hlt|Hge].
  - rewrite bytes255_step in Hr |- * by lia. cbn [length] in Hr.
    apply put_then; [done|lia|]. intros rest' HL.
    replace (Z.of_nat len - 255) with (Z.of_nat (len - 255)) by lia.
    eapply returns_mono; [apply IH; [done|lia|lia]|].
    intros r Hr'. by eapply (appended_app out rest [xff]).
  - rewrite bytes255_small in Hr |- * by lia. by apply put_ok.
Qed.

Lemma put_length2_ok fuel : forall out rest len n,
  n = length out -> (length (bytes255 len) <= length rest)%nat -> (len < fuel)%nat ->
  returns (put_length2 fuel (out ++ rest) (Z.of_nat n) (Z.of_nat len))
    (appended out rest (bytes255 len)).
Proof.
  induction fuel as [|fuel IH]; intros out rest len n Hn Hr Hf; [lia|]. cbn [put_length2].
  destruct (Z.ltb_spec 509 (Z.of_nat len)) as [Hlt|Hge].
  - rewrite (bytes255_step len), (bytes255_step (len - 255)) in Hr |- * by lia.
    cbn [length] in Hr. apply put_then; [done|lia|]. intros rest1 H1.
    apply put_then; [done|lia|]. intros rest2 H2.
    replace (Z.of_nat len - 510) with (Z.of_nat (len - 255 - 255)) by lia.
    eapply returns_mono; [apply IH; [done|lia|lia]|]. intros r Hr'.
    rewrite <- app_assoc in Hr'. eapply (appended_app out rest [xff; xff]); [exact Hr'|cbn; lia].
  - destruct (Z.ltb_spec 254 (Z.of_nat len)) as [Hlt|Hge2].
    + rewrite bytes255_step, bytes255_small in Hr |- * by lia. cbn [length] in Hr.
      apply returns_bind. apply put_then; [done|lia|]. intros rest1 H1. cbn [returns].
      replace (Z.of_nat len - 255) with (Z.of_nat (len - 255)) by lia.
      eapply returns_mono; [apply put_ok; [done|lia]|].
      intros r Hr'. by eapply (appended_app out rest [xff]).
    + rewrite bytes255_small in Hr |- * by lia. by apply put_ok.
Qed.

Lemma length_tail_ge n : (15 <= n)%nat -> length_tail n = bytes255 (n - 15).
Proof. intros H. unfold length_tail. by rewrite (proj2 (Nat.ltb_ge _ _)). Qed.

Lemma length_tail_lt n : (n < 15)%nat -> length_tail n = [].
Proof. intros H. unfold length_tail. by rewrite (proj2 (Nat.ltb_lt _ _)). Qed.

(** The token of a run, before its match is known. *)
Definition run_bytes (n : nat) : list byte := token n 0 :: length_tail n.

Lemma put_run_ok out rest len n :
  n = length out -> (length (run_bytes len) <= length rest)%nat ->
  returns (put_run (out ++ rest) (Z.of_nat n) (Z.of_nat len))
    (appended out rest (run_bytes len)).
Proof.
  intros Hn Hr. unfold put_run, run_bytes, RUN_MASK, ML_BITS in *. cbn [length] in Hr.
  destruct (Z.leb_spec 15 (Z.of_nat len)) as [Hle|Hgt].
  - rewrite length_tail_ge in Hr |- * by lia. apply put_then; [done|lia|]. intros rest' HL.
    replace (Z.of_nat len - 15) with (Z.of_nat (len - 15)) by lia.
    eapply returns_mono; [apply put_length_ok; [done|lia|unfold steps; lia]|].
    intros r Hr'. assert (token len 0 = z2b (Z.shiftl 15 4)) as ->
      by (unfold token; rewrite Nat.min_r by lia; done).
    by eapply (appended_app out rest [_]).
  - rewrite length_tail_lt in Hr |- * by lia.
    assert (token len 0 = z2b (Z.shiftl (Z.of_nat len) 4)) as ->; [|by apply put_ok].
    unfold token. rewrite Nat.min_l, Z.shiftl_mul_pow2 by lia. f_equal. cbn. lia.
Qed.

Lemma put_match_length_ok out lits mid rest len n m :
  n = length out -> m = length (out ++ token lits 0 :: mid) ->
  (length (length_tail len) <= length rest)%nat ->
  returns (put_match_length ((out ++ token lits 0 :: mid) ++ rest) (Z.of_nat n) (Z.of_nat m)
             (Z.of_nat len))
    (appended (out ++ token lits len :: mid) rest (length_tail len)).
Proof.
  intros -> -> Hr. unfold put_match_length, ML_MASK. rewrite <- app_assoc. cbn [app].
  rewrite read_byte_mid by done. cbn [obind].
  assert (forall k, k = Z.of_nat (Nat.min len 15) ->
    mem_write (out ++ token lits 0 :: mid ++ rest) (Z.of_nat (length out))
      [z2b (b2z (token lits 0) + k)] = Ret ((out ++ token lits len :: mid) ++ rest)) as Hw.
  { intros k ->. rewrite mem_write_mid by (cbn; lia). cbn [length drop]. unfold token.
    rewrite b2z_z2b, Z.mod_small by lia. rewrite <- app_assoc. cbn [app]. do 4 f_equal. lia. }
  assert (length (out ++ token lits 0 :: mid) = length (out ++ token lits len :: mid)) as ->
    by (by rewrite !length_app).
  destruct (Z.leb_spec 15 (Z.of_nat len)) as [Hle|Hgt]; rewrite Hw by lia; cbn [obind].
  - rewrite length_tail_ge in Hr |- * by lia.
    replace (Z.of_nat len - 15) with (Z.of_nat (len - 15)) by lia.
    apply put_length2_ok; [done|lia|unfold steps; lia].
  - rewrite length_tail_lt by lia. cbn [returns]. exists rest. by rewrite !app_nil_r.
Qed.

(** ** What has been written *)

Section Written.
Context (v : variant) (src : list byte) (size : nat).
Let N := length src.
Hypothesis Hv : variant_ok v (Z.of_nat N).
Hypothesis Hbound : (N + N / 255 + 16 <= size)%nat.
Hypothesis Hint : Z.of_nat size <= INT_MAX.

  (** The sequences written for the input before [a]. *)
Definition written (l : list sequence) (a : nat) : Prop :=
    foldl expand_sequence [] l = take a src /\ (a <= N)%nat /\ sequences_ok 0 N l /\
    (length (concat (map encode_sequence l)) <= a + a / 255)%nat.

Definition encoded (l : list sequence) : list byte := concat (map encode_sequence l).

Lemma encoded_snoc l s : encoded (l ++ [s]) = encoded l ++ encode_sequence s.
  Proof. unfold encoded. rewrite map_app, concat_app. cbn. by rewrite app_nil_r. Qed.

  (** The sequence at [a] with [len] literals and a match of [4 + n] bytes. *)
Lemma written_snoc l a len off n :
    written l a -> (a + len + 12 <= N)%nat -> (a + len + 4 + n + 5 <= N)%nat ->
    (1 <= off <= a + len)%nat -> Z.of_nat off < 65536 ->
    agree src (a + len - off) (a + len) (4 + n) ->
    written (l ++ [Sequence (take len (drop a src)) off n]) (a + len + 4 + n).
  Proof.
    intros (Hx & Ha & Hok & Hsz) H12 H5 Ho H16 Hag. set (s := Sequence _ _ _).
    assert (length (literals s) = len) as Hlen
      by (cbn; rewrite length_take, length_drop; fold N; lia).
    assert (length (foldl expand_sequence [] l) = a) as Hla
      by (rewrite Hx, length_take; fold N; lia).
    split; [|split; [lia|split]].
    - rewrite foldl_app. cbn [foldl]. unfold expand_sequence at 1. cbv zeta. rewrite Hx. cbn [literals offset extra s].
      rewrite take_take_drop. rewrite repeat_from_text; [f_equal; lia|lia|fold N; lia|].
      intros j Hj. rewrite <- (Hag j Hj). f_equal. lia.
    - apply (sequences_ok_snoc N s l []); [done|]. rewrite Hla. cbn [sequences_ok]. rewrite Hlen.
      cbn [offset extra s]. lia.
    - fold (encoded (l ++ [s])). rewrite encoded_snoc, length_app, length_encode_sequence, Hlen.
      cbn [extra s]. unfold encoded.
      destruct (length_tail_bound len) as [Ht1 Ht2], (length_tail_bound n) as [Hn1 Hn2].
      pose proof (div255_add a len). pose proof (div255_add (a + len) (4 + n)).
      pose proof (div255_add 4 n).
      replace (a + len + (4 + n))%nat with (a + len + 4 + n)%nat in * by lia.
      change (4 / 255)%nat with 0%nat in *. destruct (decide (n < 15)%nat); lia.
  Qed.

Lemma written_room l a : written l a -> (length (encoded l) <= N + N / 255)%nat.
  Proof.
    intros (_ & Ha & _ & Hs). unfold encoded.
    pose proof (Nat.Div0.div_le_mono a N 255 Ha). lia.
  Qed.

  (** The output before the match of a sequence. *)
Definition run_at (l : list sequence) (a len : nat) : list byte :=
    encoded l ++ run_bytes len ++ take len (drop a src).

  (** What [next_match] leaves. *)
Definition next_ok (a : nat) (r : match_next * list byte * Z * Z) : Prop :=
    let '(next, dst, op, anchor) := r in
    exists l' a' rest', written l' a' /\ dst = encoded l' ++ rest' /\ length dst = size /\
      op = Z.of_nat (length (encoded l')) /\ anchor = Z.of_nat a' /\ (a < a')%nat /\
      match next with
      | EndOfChunk => True
      | Search t h => (a' + 12 <= N)%nat /\ table_ok t (a' + 1) /\ in_table v h = true
      end.

  (** The bytes of a match: its sequence is complete. *)
Lemma put_match_ok l a len off n rest :
    let s := Sequence (take len (drop a src)) off n in
    written (l ++ [s]) (a + len + 4 + n) -> (a + len <= N)%nat ->
    length (run_at l a len ++ rest) = size ->
    returns
      (let+ dst := mem_write (run_at l a len ++ rest) (Z.of_nat (length (run_at l a len)))
                     (le_bytes 2 (Z.of_nat off)) in
       put_match_length dst (Z.of_nat (length (encoded l)))
         (Z.of_nat (length (run_at l a len)) + 2) (Z.of_nat n))
      (fun r => exists rest', r = (encoded (l ++ [s]) ++ rest', Z.of_nat (length (encoded (l ++ [s])))) /\
         length (encoded (l ++ [s]) ++ rest') = size).
  Proof.
    intros s Hw Hn Hsize. pose proof (written_room _ _ Hw) as Hroom.
    assert (length (literals s) = len) as Hlen
      by (cbn; rewrite length_take, length_drop; fold N; lia).
    assert (encoded (l ++ [s]) = (encoded l ++ token len n :: length_tail len ++
              take len (drop a src) ++ le_bytes 2 (Z.of_nat off)) ++ length_tail n) as Henc.
    { rewrite encoded_snoc. unfold encode_sequence. rewrite Hlen. cbn [literals offset extra s].
      by repeat (rewrite <- app_assoc; cbn [app]). }
    assert (length (encoded (l ++ [s])) =
              length (run_at l a len) + 2 + length (length_tail n))%nat as HL.
    { rewrite Henc. unfold run_at, run_bytes. rewrite !length_app. cbn [length].
      rewrite !length_app, length_le_bytes. lia. }
    assert (length (run_at l a len) + length rest = size)%nat as Hr
      by (by rewrite <- length_app).
    rewrite mem_write_mid by (rewrite ?length_le_bytes; lia). cbn [obind].
    rewrite length_le_bytes, app_assoc. unfold run_at at 1, run_bytes.
    set (mid := length_tail len ++ take len (drop a src) ++ le_bytes 2 (Z.of_nat off)) in *.
    replace ((encoded l ++ (token len 0 :: length_tail len) ++ take len (drop a src)) ++
              le_bytes 2 (Z.of_nat off)) with (encoded l ++ token len 0 :: mid)
      by (unfold mid; by repeat (rewrite <- app_assoc; cbn [app])).
    replace (Z.of_nat (length (run_at l a len)) + 2)
      with (Z.of_nat (length (run_at l a len) + 2)) by lia.
    eapply returns_mono.
    - apply put_match_length_ok; [done| |rewrite length_drop; lia].
      unfold run_at, run_bytes, mid. rewrite !length_app. cbn [length].
      rewrite !length_app, length_le_bytes. lia.
    - intros r (rest' & -> & Hrest'). exists rest'. rewrite <- Henc. split; [done|].
      rewrite length_drop in Hrest'. rewrite length_app. lia.
  Qed.

Lemma next_match_ok fuel : forall l a len ref m t rest,
    written l a -> agree src ref (a + len) m -> (4 <= m)%nat -> (ref < a + len)%nat ->
    Z.of_nat (a + len - ref) < 65536 -> (a + len + m + 8 <= N)%nat ->
    table_ok t (a + len + m - 3) -> length (run_at l a len ++ rest) = size ->
    (N - (a + len) < fuel)%nat ->
    returns (next_match fuel v src (Z.of_nat N) t (run_at l a len ++ rest)
        (Z.of_nat (length (encoded l))) (Z.of_nat (length (run_at l a len)))
        (Z.of_nat (a + len)) (Z.of_nat ref))
      (next_ok a).
  Proof.
    induction fuel as [|fuel IH];
      intros l a len ref m t rest Hw Hag Hm Href Hoff Hend Ht Hsize Hf; [lia|].
    pose proof Hv as (Hlog & Hbits & _).
    assert (MFLIMIT = 12) as Hmf by done. rewrite Hmf in *.
    destruct (count_match_ok src (N - 5) (ref + 4) (a + len + 4)) as (n & En & Hmax);
      [lia|lia|fold N; lia|].
    assert (agree src ref (a + len) 4) as H4 by (by apply (agree_le _ _ _ m)).
    pose proof (maximal_app _ _ _ _ _ _ H4 Hmax) as Hmax4.
    pose proof (maximal_ge _ _ _ _ _ m Hmax4 Hag ltac:(lia)) as Hmn.
    destruct Hmax4 as (Hag4 & Hlim & _).
    pose proof (written_snoc l a len (a + len - ref) n Hw ltac:(lia) ltac:(lia) ltac:(lia) Hoff) as Hw'.
    replace (a + len - (a + len - ref))%nat with ref in Hw' by lia. specialize (Hw' Hag4).
    pose proof (put_match_ok l a len (a + len - ref) n rest Hw' ltac:(lia) Hsize) as Hput.
    apply returns_run in Hput as (r & Eput & rest' & -> & Hsize').
    set (s := Sequence _ _ _) in *. set (a' := (a + len + 4 + n)%nat) in *.
    cbn [next_match]. rewrite Hmf.
    replace (Z.of_nat (a + len) - Z.of_nat ref) with (Z.of_nat (a + len - ref)) by lia.
    destruct (mem_write _ _ (le_bytes _ _)) as [dst1|]; [|done]. cbn [obind] in Eput |- *.
    unfold MINMATCH, LASTLITERALS.
    replace (Z.of_nat (a + len) + 4) with (Z.of_nat (a + len + 4)) by lia.
    replace (Z.of_nat ref + 4) with (Z.of_nat (ref + 4)) by lia.
    replace (Z.of_nat N - 5) with (Z.of_nat (N - 5)) by lia. rewrite En. cbn [obind].
    fold a'. replace (Z.of_nat a' - Z.of_nat (a + len + 4)) with (Z.of_nat n) by lia.
    rewrite Eput. cbn [obind].
    destruct (Z.ltb_spec (Z.of_nat N - 12) (Z.of_nat a')) as [Hchunk|Hgo].
    { cbn [returns]. exists (l ++ [s]), a', rest'. repeat (split; [done || lia|]). done. }
    destruct (next_position_ok v src Hv t a' _ Ht)
      as (t1 & h & ref' & t2 & b & -> & Eh & Er & Et & Eb & Href' & Ht2 & Hb); [lia..|].
    cbn [obind]. rewrite Eh. cbn [obind]. rewrite Er. cbn [obind]. rewrite Et. cbn [obind].
    rewrite Eb. cbn [obind].
    pose proof (written_room _ _ Hw') as Hroom. rewrite length_app in Hsize'.
    destruct b.
    - destruct (Hb eq_refl) as [Hag' Hoff']. rewrite mem_write_mid by (cbn; lia). cbn [obind length].
      assert (run_at (l ++ [s]) a' 0 = encoded (l ++ [s]) ++ [z2b 0]) as Hra by done.
      assert (length (run_at (l ++ [s]) a' 0) = length (encoded (l ++ [s])) + 1)%nat as Hlr
        by (by rewrite Hra, length_app).
      rewrite app_assoc, <- Hra.
      replace (Z.of_nat (length (encoded (l ++ [s]))) + 1)
        with (Z.of_nat (length (run_at (l ++ [s]) a' 0))) by lia.
      specialize (IH (l ++ [s]) a' 0%nat ref' 4%nat t2 (drop 1 rest') Hw').
      rewrite !Nat.add_0_r in IH. eapply returns_mono; [apply IH; try done; try lia|].
      + by replace (a' + 4 - 3)%nat with (a' + 1)%nat by lia.
      + rewrite length_app, length_drop. lia.
      + intros [[[next dst] op] anchor] (l2 & a2 & rest2 & ? & ? & ? & ? & ? & ? & ?).
        exists l2, a2, rest2. repeat (split; [done || lia|]). done.
    - replace (Z.of_nat a' + 1) with (Z.of_nat (a' + 1)) by lia.
      destruct (hash_value_ok v src (a' + 1) Hlog) as (h' & -> & Hh'); [fold N; lia|].
      cbn [obind returns]. exists (l ++ [s]), a', rest'. rewrite length_app.
      repeat (split; [done || lia|]). done.
  Qed.

  (** The literals before a match: eight bytes at a time, up to [run_at]. *)
Lemma put_literals_ok l a len rest :
    written l a -> (a + len + 12 <= N)%nat -> length (encoded l ++ rest) = size ->
    returns
      (let+ '(dst, op) := put_run (encoded l ++ rest) (Z.of_nat (length (encoded l)))
                            (Z.of_nat len) in
       let+ '(dst, _, _) := LZ4_WILDCOPY src (Z.of_nat a) dst op (op + Z.of_nat len) in
       Ret (dst, op + Z.of_nat len))
      (fun r => exists rest', r = (run_at l a len ++ rest', Z.of_nat (length (run_at l a len))) /\
         length (run_at l a len ++ rest') = size).
  Proof.
    intros Hw Hn Hsize. rewrite length_app in Hsize.
    pose proof Hw as (_ & Ha & _ & Hsz). fold (encoded l) in Hsz.
    assert (length (run_bytes len) <= len / 255 + 2)%nat as Hrun
      by (pose proof (length_tail_bound len); unfold run_bytes; cbn [length]; lia).
    pose proof (div255_add a len). pose proof (Nat.Div0.div_le_mono (a + len) N 255 ltac:(lia)).
    eapply returns_then; [apply put_run_ok; [done|lia]|].
    intros r (rest1 & -> & H1). cbv beta iota.
    set (out := encoded l ++ run_bytes len).
    destruct (wild_copy_ok (steps (Z.of_nat (length out)) (Z.of_nat (length out + len)))
                src a out rest1 len) as (rest2 & m & E & H2); [fold N; lia|lia|unfold steps; lia|].
    unfold LZ4_WILDCOPY. rewrite <- Nat2Z.inj_add, E. cbn [obind returns].
    assert (run_at l a len = out ++ take len (drop a src)) as Hra
      by (unfold run_at, out; by rewrite <- app_assoc).
    assert (length (take len (drop a src)) = len) as Hlen
      by (rewrite length_take, length_drop; fold N; lia).
    exists rest2. rewrite Hra, <- app_assoc. split; [by rewrite (length_app out), Hlen|].
    unfold out. rewrite !length_app, Hlen. lia.
  Qed.

Lemma main_loop_ok fuel : forall l a t h rest,
    written l a -> (a + 12 <= N)%nat -> table_ok t (a + 1) -> in_table v h = true ->
    length (encoded l ++ rest) = size -> (N - a < fuel)%nat ->
    returns (main_loop fuel v src (Z.of_nat N) t (encoded l ++ rest)
        (Z.of_nat (length (encoded l))) (Z.of_nat a) (Z.of_nat a + 1) h)
      (fun r => exists l' a' rest', written l' a' /\ length (encoded l' ++ rest') = size /\
         r = (encoded l' ++ rest', Z.of_nat (length (encoded l')), Z.of_nat a')).
  Proof.
    induction fuel as [|fuel IH]; intros l a t h rest Hw H12 Ht Hh Hsize Hf; [lia|].
    assert (67 + Z.of_nat N < INT_MAX) as H67.
    { unfold INT_MAX in *. pose proof (Nat.div_mod N 255 ltac:(lia)).
      pose proof (Nat.mod_upper_bound N 255 ltac:(lia)). lia. }
    cbn [main_loop]. replace (Z.of_nat a + 1) with (Z.of_nat (a + 1)) by lia.
    destruct (find_match_ok v src Hv (steps (Z.of_nat (a + 1)) (Z.of_nat N)) t
                (Z.shiftl 1 SKIPSTRENGTH + 3) (a + 1) h) as (r & E & Hr);
      [done|fold N; lia|done|done|fold N; change (Z.shiftl 1 SKIPSTRENGTH) with 64; lia|
       fold N; unfold steps; lia|].
    fold N in E, Hr. rewrite E. cbn [obind]. destruct r as [[[t' ip'] ref']|].
    2: { cbn [returns]. by exists l, a, rest. }
    destruct Hr as (ip & ref & -> & -> & Hq & Hip & Href & Hoff & Hag & Ht').
    destruct (catch_up_ok src (steps 0 (Z.of_nat ref)) a ip ref)
      as (k & -> & Hk1 & Hk2 & Hk); [fold N; lia|done|unfold steps; lia|].
    cbn [obind]. set (len := (ip - k - a)%nat).
    replace (Z.of_nat (ip - k) - Z.of_nat a) with (Z.of_nat len) by lia.
    replace (ip - k)%nat with (a + len)%nat in * by lia.
    pose proof (put_literals_ok l a len rest Hw ltac:(lia) Hsize) as Hlit.
    destruct (put_run _ _ _) as [[dst1 op1]|]; [|done]. cbn [obind] in Hlit |- *.
    destruct (LZ4_WILDCOPY _ _ _ _ _) as [[[dst2 u1] u2]|]; [|done]. cbn [obind] in Hlit |- *.
    destruct Hlit as (rest1 & [= -> ->] & Hsize1).
    eapply returns_then.
    - apply (next_match_ok _ l a len (ref - k) (k + 4) t' rest1); [done| |lia..| |done|unfold steps; lia].
      + apply agree_app; [done|]. replace (ref - k + k)%nat with ref by lia.
        by replace (a + len + k)%nat with ip by lia.
      + by replace (a + len + (k + 4) - 3)%nat with (S ip) by lia.
    - intros [[[next dst] op] anchor] (l2 & a2 & rest2 & Hw2 & -> & Hs2 & -> & -> & Ha2 & Hn2).
      destruct next as [|t2 h2]; [by exists l2, a2, rest2|].
      destruct Hn2 as (Hn & Ht2 & Hh2). apply IH; try done; lia.
  Qed.

  (** The block that ends with the rest of the input. *)
Lemma last_run_ok l a rest :
    written l a -> length (encoded l ++ rest) = size ->
    let b := Block l (drop a src) in
    block_ok b /\ expand_block b = src /\
    (length (encode_block b) <= N + N / 255 + 2)%nat /\
    returns (last_run src (encoded l ++ rest) (Z.of_nat (length (encoded l))) (Z.of_nat a)
               (Z.of_nat N))
      (fun r => exists rest', r = (encode_block b ++ rest', Z.of_nat (length (encode_block b))) /\
         length (encode_block b ++ rest') = size).
  Proof.
    intros Hw Hsize b. rewrite length_app in Hsize.
    pose proof Hw as (Hx & Ha & Hok & Hsz). fold (encoded l) in Hsz.
    assert (expand_block b = src) as Hexp by (unfold expand_block; cbn; by rewrite Hx, take_drop).
    set (len := (N - a)%nat).
    assert (length (drop a src) = len) as Hlen by (by rewrite length_drop).
    assert (length (run_bytes len) <= len / 255 + 2)%nat as Hrun
      by (pose proof (length_tail_bound len); unfold run_bytes; cbn [length]; lia).
    assert (encode_block b = (encoded l ++ run_bytes len) ++ drop a src) as Henc
      by (unfold encode_block, encode_last; cbn; rewrite Hlen; by rewrite <- app_assoc).
    pose proof (div255_add a len). replace (a + len)%nat with N in * by lia.
    assert (length (encode_block b) <= N + N / 255 + 2)%nat as Hle
      by (rewrite Henc, !length_app, Hlen; lia).
    split; [unfold block_ok; by rewrite Hexp|]. split; [done|]. split; [done|].
    unfold last_run. replace (Z.of_nat N - Z.of_nat a) with (Z.of_nat len) by lia.
    eapply returns_then; [apply put_run_ok; [done|lia]|]. intros r (rest1 & -> & H1).
    cbv beta iota. rewrite (mem_read_nat _ _ len) by (fold N; lia). cbn [obind].
    rewrite take_ge by lia. rewrite mem_write_mid by lia. cbn [obind returns].
    exists (drop len rest1). rewrite Hlen, app_assoc, <- Henc.
    rewrite (length_app _ (drop len rest1)), length_drop.
    assert (length (encode_block b) = length (encoded l ++ run_bytes len) + len)%nat as HE
      by (by rewrite Henc, length_app, Hlen).
    rewrite length_app in HE |- *. split; [f_equal; lia|lia].
  Qed.

  (** Both compressors. *)
Lemma compress_ctx_ok dst :
    length dst = size ->
    exists b dst', compress_ctx v src dst (Z.of_nat N) =
        Ret (Z.of_nat (length (encode_block b)), dst') /\
      block_ok b /\ expand_block b = src /\ (length (encode_block b) <= N + N / 255 + 2)%nat /\
      length dst' = size /\ take (length (encode_block b)) dst' = encode_block b.
  Proof.
    intros Hdst. unfold compress_ctx.
    assert (written [] 0) as Hw0 by (repeat split; cbn; lia).
    match goal with |- context [obind ?o _] => assert (returns o
      (fun r => exists l' a' rest', written l' a' /\ length (encoded l' ++ rest') = size /\
         r = (encoded l' ++ rest', Z.of_nat (length (encoded l')), Z.of_nat a'))) as Hmain end.
    { destruct (Z.ltb_spec (Z.of_nat N) MINLENGTH) as [Hs|Hl]; [by exists [], 0%nat, dst|].
      change MINLENGTH with 13 in Hl. pose proof (proj1 Hv) as Hlog.
      apply returns_then with (P := fun t => table_ok t 1).
      - destruct (enter_first v); [|cbn; intros h x; by rewrite lookup_empty].
        destruct (enter_ok v src Hv ∅ 0 0 1) as (t & E & Ht); [|fold N; lia..|].
        { intros h x. by rewrite lookup_empty. }
        change (Z.of_nat 0) with 0 in E. by rewrite E.
      - intros t Ht. destruct (hash_value_ok v src 1 Hlog) as (h & E & Hh); [fold N; lia|].
        change (Z.of_nat 1) with 1 in E. rewrite E. cbn [obind].
        apply (main_loop_ok _ [] 0 t h dst); try done; [lia|unfold steps; lia]. }
    apply returns_run in Hmain as (r & E & l & a & rest & Hw & Hsize & ->). rewrite E.
    cbn [obind]. destruct (last_run_ok l a rest Hw Hsize) as (Hok & Hexp & Hle & Hlast).
    apply returns_run in Hlast as (r & E2 & rest' & -> & Hs2). rewrite E2. cbn [obind].
    do 2 eexists. rewrite s32_small by (unfold INT_MAX in *; lia). split; [done|].
    split; [done|]. split; [done|]. split; [done|]. split; [done|]. by apply take_app_length.
  Qed.
End Written.

Lemma compressBound_ok n :
  Z.of_nat (n + n / 255 + 16) <= INT_MAX ->
  LZ4_compressBound (Z.of_nat n) = Ret (Z.of_nat (n + n / 255 + 16)).
Proof.
  intros H. unfold LZ4_compressBound. rewrite Z.quot_div_nonneg by lia.
  change 255 with (Z.of_nat 255). rewrite <- Nat2Z.inj_div. rewrite add_int_small by lia. cbn [obind].
  rewrite add_int_small by lia. f_equal. lia.
Qed.

(** [LZ4_compress] into a block of the size [LZ4_compressBound] asks for, or a larger one. *)
Lemma LZ4_compress_ok src dst :
  let n := length src in
  (n + n / 255 + 16 <= length dst)%nat -> Z.of_nat (length dst) <= INT_MAX ->
  exists b dst', LZ4_compress src dst (Z.of_nat n) =
      Ret (Z.of_nat (length (encode_block b)), dst') /\
    block_ok b /\ expand_block b = src /\ (length (encode_block b) <= n + n / 255 + 2)%nat /\
    length dst' = length dst /\ take (length (encode_block b)) dst' = encode_block b.
Proof.
  intros n Hb Hi. unfold LZ4_compress, LZ4_compress64kCtx, LZ4_compressCtx.
  change LZ4_64KLIMIT with 65547.
  destruct (Z.ltb_spec (Z.of_nat n) 65547) as [Hs|Hl]; apply compress_ctx_ok; try done.
  - fold n. unfold variant_ok, ctx64k, HASH_LOG, MAX_DISTANCE. change MFLIMIT with 12.
    cbn [hash_log entry_bits far_check]. change (2 ^ 16) with 65536. lia.
  - fold n. unfold variant_ok, ctx32, HASH_LOG, MAX_DISTANCE. change MFLIMIT with 12.
    cbn [hash_log entry_bits far_check]. unfold INT_MAX in Hi. split; [lia|]. split; [lia|done].
Qed.

(** ** Properties *)

(** C18 (refinement): the compressor writes a well formed block that expands to its input.  It
    reads only the input, writes only the output (which may be as small as
    [LZ4_compressBound] says), comes to an end, and the size it returns is within that bound. *)
Theorem LZ4_compress_correct src dst bound :
  LZ4_compressBound (Z.of_nat (length src)) = Ret bound ->
  bound <= Z.of_nat (length dst) -> Z.of_nat (length dst) <= INT_MAX ->
  exists b dst', LZ4_compress src dst (Z.of_nat (length src)) =
      Ret (Z.of_nat (length (encode_block b)), dst') /\
    block_ok b /\ expand_block b = src /\ Z.of_nat (length (encode_block b)) <= bound /\
    length dst' = length dst /\ take (length (encode_block b)) dst' = encode_block b.
Proof.
  intros Hb Hl Hi. set (n := length src) in *.
  assert (bound = Z.of_nat (n + n / 255 + 16)) as ->.
  { unfold LZ4_compressBound, add_int in Hb. rewrite Z.quot_div_nonneg in Hb by lia.
    change 255 with (Z.of_nat 255) in Hb. rewrite <- Nat2Z.inj_div in Hb.
    destruct (_ && _); [|done]. cbn [obind] in Hb.
    destruct (_ && _); [|done]. injection Hb as <-. by rewrite !Nat2Z.inj_add. }
  destruct (LZ4_compress_ok src dst) as (b & dst' & E & Hok & Hx & Hs & Hd & Ht); [fold n; lia|done|].
  fold n in Hs. exists b, dst'. do 3 (split; [done|]). split; [lia|done].
Qed.

Lemma LZ4_compress_correct_witness :
  exists b dst', LZ4_compress sample_text (replicate 91 x00) 75 =
      Ret (Z.of_nat (length (encode_block b)), dst') /\
    block_ok b /\ expand_block b = sample_text /\ Z.of_nat (length (encode_block b)) <= 91 /\
    length dst' = 91%nat /\ take (length (encode_block b)) dst' = encode_block b.
Proof.
  refine (LZ4_compress_correct sample_text (replicate 91 x00) 91 _ _ _);
    [reflexivity|vm_compute; discriminate|vm_compute; discriminate].
Defined.
