(* ===== verification/Compress.v ===== *)
(** * Compressors (compress/compress.h, compress-lz4/compress-lz4.c)

    What the API calls to deflate and inflate stored documents.  The LZ4 driver allocates its
    blocks: for compression one of the size [LZ4_compressBound] gives, for decompression one
    that grows by 1024 bytes until what is decoded leaves room.  Sizes are [size_t]s that
    become [int]s on the way to the algorithm (Lz4Encode, Lz4Decode). *)

From S2P Require Import Prelude Lz4Format Lz4Decode Lz4Encode.
From Stdlib Require Import Init.Byte.

#[local] Open Scope c_scope.

(** A compressor as the API uses it: the bytes of the block it returns, or NULL. *)
Record la_compressor := Compressor {
  compressor : list byte -> option (list byte);
  decompressor : list byte -> option (list byte);
}.

Section lz4.
Context {X : Type}.

(** The block and what is stored to [outlen]. *)
Definition lz4_compress (inp : list byte) (inlen : Z) : M X (option (list byte * Z)) :=
  let* maxlen := lift (LZ4_compressBound (s32 inlen)) in
  let* buffer := malloc (u64 maxlen) in
  match buffer with
  | None => ret None
  | Some buffer =>
      let* '(n, buffer) := lift (LZ4_compress inp buffer (s32 inlen)) in
      ret (Some (buffer, u64 n))
  end.

(** The result of [malloc] is not tested: through a NULL pointer only nothing can be written. *)
Definition uncompress_into (inp : list byte) (inlen : Z) (buffer : option (list byte))
  (alloclen : Z) : M X (Z * option (list byte)) :=
  let* '(osize, b) := lift (LZ4_uncompress_unknownOutputSize inp (default [] buffer) (s32 inlen)
                              alloclen) in
  ret (osize, (fun _ => b) <$> buffer).

Definition realloc_any (buffer : option (list byte)) (n : Z) : M X (option (list byte)) :=
  match buffer with Some b => realloc b n | None => malloc n end.

(** [while (osize < 0 || osize == alloclen)]. *)
Fixpoint lz4_grow (fuel : nat) (inp : list byte) (inlen : Z) (buffer : option (list byte))
  (alloclen osize : Z) : M X (option (list byte * Z)) :=
  if (osize <? 0) || (osize =? alloclen) then
    match fuel with
    | O => undef Diverges
    | S fuel =>
        let* alloclen := lift (add_int alloclen 1024) in
        let* buffer := realloc_any buffer (u64 alloclen) in
        match buffer with
        | None => ret None
        | Some _ =>
            let* '(osize, buffer) := uncompress_into inp inlen buffer alloclen in
            lz4_grow fuel inp inlen buffer alloclen osize
        end
    end
  else ret ((fun b => (b, u64 osize)) <$> buffer).

Definition lz4_decompress (fuel : nat) (inp : list byte) (inlen : Z)
  : M X (option (list byte * Z)) :=
  let alloclen := s32 (u64 (inlen + inlen / 2)) in
  let* buffer := malloc (u64 alloclen) in
  let* '(osize, buffer) := uncompress_into inp inlen buffer alloclen in
  lz4_grow fuel inp inlen buffer alloclen osize.
End lz4.

(** The bytes a run leaves when no allocation fails and fresh memory is zero. *)
Definition block_result (m : M unit (option (list byte * Z))) : option (list byte) :=
  match m (World [] (fun _ => x00) 0 0 tt) with
  | Ret (Some (b, n), _) => Some (take (Z.to_nat n) b)
  | _ => None
  end.

Definition la_lz4_compressor (fuel : nat) : la_compressor := {|
  compressor text := block_result (lz4_compress text (Z.of_nat (length text)));
  decompressor data := block_result (lz4_decompress fuel data (Z.of_nat (length data)));
|}.

Example lz4_compressor_sample :
  option_bind _ _ (decompressor (la_lz4_compressor 2)) (compressor (la_lz4_compressor 2) sample_text) =
    Some sample_text.
Proof. vm_compute. reflexivity. Qed.

(** ** Bounds *)

(** Up to a gigabyte no size overflows an [int]. *)
Definition LZ4_TEXT : Z := 2 ^ 30.

(** Turns of the growing loop for a text of [n] bytes. *)
Definition grow_fuel (n : nat) : nat := (n / Z.to_nat 1024 + 1)%nat.

Lemma grow_fuel_enough n : (n < Z.to_nat 1024 * grow_fuel n)%nat.
Proof.
  unfold grow_fuel. pose proof (Nat.div_mod n (Z.to_nat 1024) ltac:(lia)).
  pose proof (Nat.mod_upper_bound n (Z.to_nat 1024) ltac:(lia)). lia.
Qed.

Section correct.
Context {X : Type}.
Implicit Types w : world X.

(** What a run of the compressor returns for [text] where memory does not run out. *)
Lemma wp_lz4_compress text w (Q : option (list byte * Z) -> world X -> Prop) :
  Z.of_nat (length text) <= LZ4_TEXT -> mem_ok w ->
  (forall b buf w', frame 1 w w' -> block_ok b -> expand_block b = text ->
     (length (encode_block b) <= length text + length text / 255 + 2)%nat ->
     take (length (encode_block b)) buf = encode_block b ->
     Q (Some (buf, Z.of_nat (length (encode_block b)))) w') ->
  wp (lz4_compress text (Z.of_nat (length text))) w Q.
Proof.
  intros Hl Hm HQ. set (n := length text) in *. unfold LZ4_TEXT in Hl.
  pose proof (Nat.div_mod n 255 ltac:(lia)) as Hdiv.
  assert (Z.of_nat (n + n / 255 + 16) <= INT_MAX) as Hb by (unfold INT_MAX; lia).
  unfold lz4_compress. rewrite s32_small by (unfold INT_MAX in *; lia).
  apply wp_bind. rewrite compressBound_ok by done. apply wp_lift.
  rewrite u64_small by (unfold SIZE_MAX, INT_MAX in *; lia).
  apply wp_bind, wp_malloc; [lia| |].
  - intros blk w' Hblk _ Hf _. rewrite Nat2Z.id in Hblk. apply wp_bind.
    destruct (LZ4_compress_ok text blk) as (b & dst' & E & Hok & Hx & Hs & _ & Ht);
      [fold n; lia|rewrite Hblk; lia|].
    fold n in E, Hs. rewrite E. apply wp_lift. cbv beta iota.
    rewrite u64_small by (unfold SIZE_MAX, INT_MAX in *; lia). apply wp_ret. by apply HQ.
  - intros w' Hn _ _. exfalso. apply Hn. split; [done|]. unfold PTRDIFF_MAX, INT_MAX in *. lia.
Qed.

(** The growing loop, for a block whose text has [n] bytes. *)
Lemma wp_lz4_grow b fuel : forall buf osize w (Q : option (list byte * Z) -> world X -> Prop),
  let n := length (expand_block b) in let alloclen := Z.of_nat (length buf) in
  block_ok b -> Z.of_nat (length (encode_block b)) <= INT_MAX -> Z.of_nat n + 1024 <= INT_MAX ->
  mem_ok w -> (n < length buf + Z.to_nat 1024 * fuel)%nat -> alloclen <= INT_MAX ->
  (if decide (length buf < n)%nat then osize < 0 \/ osize = alloclen
   else osize = Z.of_nat n /\ take n buf = expand_block b) ->
  (forall buf' w', frame 0 w w' -> take n buf' = expand_block b ->
     Q (Some (buf', Z.of_nat n)) w') ->
  wp (lz4_grow fuel (encode_block b) (Z.of_nat (length (encode_block b))) (Some buf) alloclen osize)
    w Q.
Proof.
  induction fuel as [|fuel IH]; intros buf osize w Q n alloclen Hok He Hn Hm Hf Ha Ho HQ;
    cbn [lz4_grow].
  { rewrite decide_False in Ho by lia. destruct Ho as [-> Ht].
    rewrite (proj2 (Z.ltb_ge _ _)), (proj2 (Z.eqb_neq _ _)) by (subst alloclen; lia). cbn [orb fmap option_fmap option_map].
    rewrite u64_small by (unfold SIZE_MAX, INT_MAX in *; lia). apply wp_ret, HQ; [apply frame_refl|done]. }
  destruct ((osize <? 0) || (osize =? alloclen)) eqn:Hgo.
  - assert (length buf <= n)%nat as Hle.
    { destruct (decide (length buf < n)%nat); [lia|]. destruct Ho as [-> _].
      apply orb_true_iff in Hgo as [Hgo|Hgo]; [lia|]. subst alloclen. lia. }
    apply wp_bind. rewrite add_int_small by (subst alloclen; lia). apply wp_lift.
    cbn [realloc_any]. rewrite u64_small by (unfold SIZE_MAX, INT_MAX in *; lia).
    apply wp_bind, wp_realloc; [lia| |].
    + intros buf1 w1 Hl1 _ _ Hf1 _. apply wp_bind.
      assert (Z.of_nat (length buf1) = alloclen + 1024) as Hl1' by lia.
      unfold uncompress_into. cbn [default]. cbn [from_option id].
      rewrite (s32_small (Z.of_nat (length (encode_block b)))) by (unfold INT_MAX in *; lia).
      destruct (uncompress_block b buf1 (length buf1) Hok) as (r & buf2 & E & Hl2 & Hr);
        [unfold INT_MAX in *; lia..|].
      rewrite <- Hl1'. apply wp_bind. rewrite E. apply wp_lift. cbv beta iota. apply wp_ret.
      rewrite <- Hl2. cbn [fmap option_fmap option_map]. fold n in Hr. rewrite <- Hl2 in Hr.
      apply IH; try done; [by eapply frame_mem_ok|subst alloclen; lia|rewrite Hl2; lia|].
      intros buf3 w3 Hf3 Ht. apply HQ; [|done]. by eapply frame_eq; [eapply frame_trans|].
    + intros w' Hn' _ _. exfalso. apply Hn'. split; [done|]. unfold PTRDIFF_MAX, INT_MAX in *. lia.
  - apply orb_false_iff in Hgo as [Hg1 Hg2]. destruct (decide _) as [Hlt|Hge].
    { apply Z.ltb_ge in Hg1. apply Z.eqb_neq in Hg2. lia. }
    destruct Ho as [-> Ht]. cbn [fmap option_fmap option_map].
    rewrite u64_small by (unfold SIZE_MAX, INT_MAX in *; lia). apply wp_ret, HQ; [apply frame_refl|done].
Qed.

Lemma wp_lz4_decompress b fuel w (Q : option (list byte * Z) -> world X -> Prop) :
  let n := length (expand_block b) in
  block_ok b -> Z.of_nat (length (encode_block b)) <= 2 ^ 30 + 2 ^ 23 ->
  Z.of_nat n <= LZ4_TEXT -> mem_ok w -> (grow_fuel n <= fuel)%nat ->
  (forall buf w', frame 1 w w' -> take n buf = expand_block b -> Q (Some (buf, Z.of_nat n)) w') ->
  wp (lz4_decompress fuel (encode_block b) (Z.of_nat (length (encode_block b)))) w Q.
Proof.
  intros n Hok He Hn Hm Hf HQ. unfold lz4_decompress, LZ4_TEXT in *.
  set (l := length (encode_block b)) in *.
  pose proof (Z.div_mod (Z.of_nat l) 2 ltac:(lia)). pose proof (Z.mod_pos_bound (Z.of_nat l) 2 ltac:(lia)).
  set (alloclen := Z.of_nat l + Z.of_nat l / 2) in *.
  assert (0 <= alloclen <= INT_MAX) as Ha by (unfold INT_MAX; lia).
  rewrite (u64_small alloclen) by (unfold SIZE_MAX, INT_MAX in *; lia).
  rewrite s32_small by (unfold INT_MAX in *; lia).
  rewrite u64_small by (unfold SIZE_MAX, INT_MAX in *; lia).
  apply wp_bind, wp_malloc; [lia| |].
  - intros buf w1 Hl _ Hf1 _. assert (Z.of_nat (length buf) = alloclen) as Hla by lia.
    unfold uncompress_into. cbn [from_option id]. rewrite (s32_small (Z.of_nat l))
      by (unfold INT_MAX in *; lia).
    destruct (uncompress_block b buf (length buf) Hok) as (r & buf2 & E & Hl2 & Hr);
      [unfold INT_MAX in *; lia..|].
    fold l n in E, Hr. rewrite <- Hla. do 2 apply wp_bind. rewrite E. apply wp_lift.
    cbv beta iota. apply wp_ret. cbn [fmap option_fmap option_map]. rewrite <- Hl2 in Hr |- *.
    pose proof (grow_fuel_enough n).
    apply wp_lz4_grow; fold n l; try done; [unfold INT_MAX; lia|unfold INT_MAX; lia| | | |].
    + by eapply frame_mem_ok.
    + nia.
    + lia.
    + intros buf3 w3 Hf3 Ht. apply HQ; [|done]. by eapply frame_eq; [eapply frame_trans|].
  - intros w' Hn' _ _. exfalso. apply Hn'. split; [done|]. unfold PTRDIFF_MAX, INT_MAX in *. lia.
Qed.
End correct.

(** ** The compressor of the API *)

(** The text comes back out of what the LZ4 compressor makes of it. *)
Lemma la_lz4_gives_back fuel text data :
  Z.of_nat (length text) <= LZ4_TEXT -> (grow_fuel (length text) <= fuel)%nat ->
  compressor (la_lz4_compressor fuel) text = Some data ->
  decompressor (la_lz4_compressor fuel) data = Some text.
Proof.
  intros Hl Hf. cbn [compressor decompressor la_lz4_compressor]. unfold block_result.
  set (w0 := World [] _ 0 0 tt).
  assert (mem_ok w0) as Hm by done.
  pose proof (wp_lz4_compress text w0
    (fun r _ => exists b buf, r = Some (buf, Z.of_nat (length (encode_block b))) /\
       block_ok b /\ expand_block b = text /\
       (length (encode_block b) <= length text + length text / 255 + 2)%nat /\
       take (length (encode_block b)) buf = encode_block b) Hl Hm) as Hc.
  apply wp_run in Hc as (r & w1 & -> & b & buf & -> & Hok & Hx & Hs & Ht); [|eauto 10].
  rewrite Nat2Z.id, Ht. intros [= <-].
  pose proof (wp_lz4_decompress b fuel w0
    (fun r _ => exists buf, r = Some (buf, Z.of_nat (length text)) /\ take (length text) buf = text))
    as Hd. rewrite Hx in Hd.
  pose proof (Nat.div_mod (length text) 255 ltac:(lia)). unfold LZ4_TEXT in *.
  apply wp_run in Hd as (r & w2 & -> & buf2 & -> & Ht2);
    [by rewrite Nat2Z.id, Ht2|done|lia|lia|done|done|eauto].
Qed.

(** ** Input that does not decode *)

(** Nothing comes of an input the decoder refuses at every size: the block grows on. *)
Lemma grow_refused {X} inp fuel : forall buf alloclen osize (w : world X) r w',
  (forall dst max, exists r dst', LZ4_uncompress_unknownOutputSize inp dst
     (Z.of_nat (length inp)) max = Ret (r, dst') /\ r < 0) ->
  Z.of_nat (length inp) <= INT_MAX -> mem_ok w -> 0 <= alloclen <= INT_MAX -> osize < 0 ->
  lz4_grow fuel inp (Z.of_nat (length inp)) buf alloclen osize w <> Ret (r, w').
Proof.
  induction fuel as [|fuel IH]; intros buf alloclen osize w r w' Hbad Hl Hm Ha Ho; cbn [lz4_grow];
    rewrite (proj2 (Z.ltb_lt _ _)) by done; [done|]. cbn [orb].
  unfold bind at 1, lift at 1, add_int. destruct (_ && _) eqn:Hi; [|done].
  apply andb_true_iff in Hi as [_ Hi]. apply Z.leb_le in Hi.
  rewrite u64_small by (unfold SIZE_MAX, INT_MAX in *; lia).
  assert (alloc_result (alloclen + 1024) w = true) as Hres.
  { unfold alloc_result. rewrite Hm, andb_true_r. apply andb_true_iff.
    split; apply Z.leb_le; unfold PTRDIFF_MAX, INT_MAX in *; lia. }
  assert (exists b, realloc_any buf (alloclen + 1024) w =
    Ret (Some b, after_alloc (alloclen + 1024) (match buf with Some _ => 0 | None => 1 end) w)) as [b E].
  { destruct buf; cbn [realloc_any]; unfold realloc, malloc; rewrite Hres; by eexists. }
  unfold bind at 1. rewrite E. unfold uncompress_into, bind at 1 2, lift. cbn [from_option id].
  rewrite s32_small by (unfold INT_MAX in *; lia).
  destruct (Hbad b (alloclen + 1024)) as (r1 & dst1 & -> & Hr1). apply IH; try done; [|lia].
  unfold mem_ok, after_alloc in *. cbn. by rewrite Hm.
Qed.

(** ** Properties *)

(** C7 (roundtrip): what the LZ4 driver compresses, it decompresses: for any text of up to a
    gigabyte, as long as memory does not run out, both runs return, the second after at most
    [grow_fuel] turns of its loop, with the text and its size; each leaves exactly the block it
    returns. *)
Theorem lz4_driver_roundtrip {X} text fuel (w : world X) :
  Z.of_nat (length text) <= LZ4_TEXT -> (grow_fuel (length text) <= fuel)%nat -> mem_ok w ->
  exists buf size w1 out w2,
    lz4_compress text (Z.of_nat (length text)) w = Ret (Some (buf, size), w1) /\
    frame 1 w w1 /\
    lz4_decompress fuel (take (Z.to_nat size) buf) size w1 =
      Ret (Some (out, Z.of_nat (length text)), w2) /\
    frame 1 w1 w2 /\ take (length text) out = text.
Proof.
  intros Hl Hf Hm.
  pose proof (wp_lz4_compress text w
    (fun r w' => exists b buf, r = Some (buf, Z.of_nat (length (encode_block b))) /\ frame 1 w w' /\
       block_ok b /\ expand_block b = text /\
       (length (encode_block b) <= length text + length text / 255 + 2)%nat /\
       take (length (encode_block b)) buf = encode_block b) Hl Hm) as Hc.
  apply wp_run in Hc as (r & w1 & E1 & b & buf & -> & Hf1 & Hok & Hx & Hs & Ht); [|eauto 10].
  pose proof (wp_lz4_decompress b fuel w1
    (fun r w' => exists out, r = Some (out, Z.of_nat (length text)) /\ frame 1 w1 w' /\
       take (length text) out = text)) as Hd.
  rewrite Hx in Hd. pose proof (Nat.div_mod (length text) 255 ltac:(lia)). unfold LZ4_TEXT in *.
  apply wp_run in Hd as (r & w2 & E2 & out & -> & Hf2 & Ht2);
    [|done|lia|lia|by eapply frame_mem_ok|done|eauto].
  exists buf, (Z.of_nat (length (encode_block b))), w1, out, w2.
  rewrite Nat2Z.id, Ht. do 4 (split; [done|]). done.
Qed.

Lemma lz4_driver_roundtrip_witness :
  let w := World (X := unit) [] (fun _ => x2a) 0 0 tt in
  exists buf size w1 out w2,
    lz4_compress sample_text 75 w = Ret (Some (buf, size), w1) /\ frame 1 w w1 /\
    lz4_decompress 1 (take (Z.to_nat size) buf) size w1 = Ret (Some (out, 75), w2) /\
    frame 1 w1 w2 /\ take 75 out = sample_text.
Proof.
  intros w. refine (lz4_driver_roundtrip sample_text 1 w _ _ _);
    [vm_compute; discriminate|apply (bool_decide_unpack _); vm_compute; reflexivity|reflexivity].
Defined.

(** An input the decoder refuses whatever the size of the output, such as damaged
    data, is never reported: while memory lasts the driver grows its block and decodes again,
    and no run of it returns. *)
Theorem lz4_decompress_refused {X} inp fuel (w : world X) r w' :
  (forall dst max, exists r dst', LZ4_uncompress_unknownOutputSize inp dst
     (Z.of_nat (length inp)) max = Ret (r, dst') /\ r < 0) ->
  Z.of_nat (length inp) <= LZ4_TEXT -> mem_ok w ->
  lz4_decompress fuel inp (Z.of_nat (length inp)) w <> Ret (r, w').
Proof.
  intros Hbad Hl Hm. unfold lz4_decompress, LZ4_TEXT in *. set (l := Z.of_nat (length inp)) in *.
  pose proof (Z.div_mod l 2 ltac:(lia)). pose proof (Z.mod_pos_bound l 2 ltac:(lia)).
  rewrite (u64_small (l + l / 2)) by (unfold SIZE_MAX; lia).
  rewrite s32_small by lia. rewrite u64_small by (unfold SIZE_MAX; lia).
  assert (alloc_result (l + l / 2) w = true) as Hres.
  { unfold alloc_result. rewrite Hm, andb_true_r. apply andb_true_iff.
    split; apply Z.leb_le; unfold PTRDIFF_MAX; lia. }
  unfold bind at 1, malloc. rewrite Hres. unfold uncompress_into, bind at 1 2, lift.
  cbn [from_option id]. rewrite (s32_small l) by lia.
  destruct (Hbad (junk_block w (Z.to_nat (l + l / 2))) (l + l / 2)) as (r1 & dst1 & -> & Hr1).
  apply grow_refused; try done; [unfold INT_MAX; lia| |unfold INT_MAX; lia].
  unfold mem_ok, after_alloc in *. cbn. by rewrite Hm.
Qed.

(** A run of literals that never comes. *)
Lemma refused_byte dst max : LZ4_uncompress_unknownOutputSize [xf0] dst 1 max = Ret (-1, dst).
Proof.
  unfold LZ4_uncompress_unknownOutputSize. change (steps 0 1) with 2%nat.
  cbn [uncompress_loop]. change (0 <? 1) with true. change (read_byte [xf0] 0) with (Ret 240).
  cbn [negb obind]. change (Z.shiftr 240 ML_BITS) with 15. change (15 =? RUN_MASK) with true.
  change (run_length (steps (0 + 1) 1) [xf0] 1 (0 + 1) 15 255) with (Ret (1, 15)). cbn [obind].
  change (1 - COPYLENGTH <? 1 + 15) with true. rewrite orb_true_r.
  destruct (max <? 0 + 15); reflexivity.
Qed.

Lemma lz4_decompress_refused_witness :
  lz4_decompress 9 [xf0] 1 (World (X := unit) [] (fun _ => x00) 0 0 tt) <>
    Ret (None, World [] (fun _ => x00) 0 0 tt).
Proof.
  refine (lz4_decompress_refused [xf0] 9 _ _ _ _ _ _); [|vm_compute; discriminate|reflexivity].
  intros dst max. exists (-1), dst. split; [apply (refused_byte dst max)|reflexivity].
Defined.
