(* ===== verification/CFormat.v ===== *)
(** * Number formats of the C library the code relies on

    The conversions of [printf] and [scanf] that the sources use: unsigned decimal
    ([%llu], [%u]), lower-case hexadecimal ([%02x], [%08lx]) and the [%llu] scan, on byte
    strings, with the round trip between decimal printing and scanning. *)

From S2P Require Import Prelude.
From Stdlib Require Import Init.Byte.

(** ** Decimal *)

Definition dec_digit (d : Z) : byte := z2b (48 + d).

Fixpoint dec_aux (fuel : nat) (z : Z) (acc : list byte) : list byte :=
  match fuel with
  | O => acc
  | S fuel =>
      let acc := dec_digit (z mod 10) :: acc in
      if z <? 10 then acc else dec_aux fuel (z / 10) acc
  end.

(** [%llu] and [%u]; twenty digits hold every 64 bit number. *)
Definition print_llu (z : Z) : list byte := dec_aux 20 z [].

Definition is_digit (b : byte) : bool := (48 <=? b2z b) && (b2z b <=? 57).

(** The digits a scan consumes, folded into [v]. *)
Fixpoint scan_digits (s : list byte) (v : Z) : Z :=
  match s with
  | b :: s => if is_digit b then scan_digits s (v * 10 + (b2z b - 48)) else v
  | [] => v
  end.

Definition is_space (b : byte) : bool :=
  (b2z b =? 32) || ((9 <=? b2z b) && (b2z b <=? 13)).

Fixpoint skip_space (s : list byte) : list byte :=
  match s with
  | b :: s' => if is_space b then skip_space s' else s
  | [] => []
  end.

Definition ULLONG_MAX : Z := 2 ^ 64 - 1.

(** [sscanf(s, "%llu", &v)]: white space, a sign, digits; [None] when nothing matches.
    Too large a number saturates and a minus sign negates modulo 2^64, as [strtoull] does. *)
Definition scan_llu (s : list byte) : option Z :=
  let s := skip_space s in
  let '(neg, s) := match s with
                   | b :: s' => if b2z b =? 45 then (true, s')
                                else if b2z b =? 43 then (false, s') else (false, s)
                   | [] => (false, [])
                   end in
  match s with
  | b :: _ =>
      if is_digit b then
        let v := scan_digits s 0 in
        Some (if ULLONG_MAX <? v then ULLONG_MAX else if neg then u64 (- v) else v)
      else None
  | [] => None
  end.

(** ** Hexadecimal *)

(** The macro [hexify] of utils/stringutils.c and the digits of [%x]. *)
Definition hexify (nybble : Z) : byte :=
  if nybble <? 10 then z2b (48 + nybble) else z2b (97 + (nybble - 10)).

Definition print_02x (b : byte) : list byte := [hexify (Z.shiftr (b2z b) 4); hexify (Z.land (b2z b) 15)].

Fixpoint hex_aux (fuel : nat) (z : Z) (acc : list byte) : list byte :=
  match fuel with
  | O => acc
  | S fuel =>
      let acc := hexify (z mod 16) :: acc in
      if z <? 16 then acc else hex_aux fuel (z / 16) acc
  end.

(** [%0<width>lx]. *)
Definition print_0lx (width : nat) (z : Z) : list byte :=
  let ds := hex_aux 16 z [] in
  replicate (width - length ds) (z2b 48) ++ ds.

(** ** Lemmas *)

Lemma is_digit_dec d : 0 <= d < 10 -> is_digit (dec_digit d) = true.
Proof. intros. unfold is_digit, dec_digit. rewrite b2z_z2b, Z.mod_small by lia. lia. Qed.

Lemma b2z_dec_digit d : 0 <= d < 10 -> b2z (dec_digit d) = 48 + d.
Proof. intros. unfold dec_digit. by rewrite b2z_z2b, Z.mod_small by lia. Qed.

Lemma scan_digits_dec_aux fuel : forall z acc,
  0 <= z < 10 ^ Z.of_nat fuel ->
  scan_digits (dec_aux fuel z acc) 0 = scan_digits acc z.
Proof.
  induction fuel as [|fuel IH]; intros z acc Hz.
  - simpl in *. f_equal. lia.
  - cbn [dec_aux]. pose proof (Z.mod_pos_bound z 10 ltac:(lia)) as Hm.
    assert (Hd : forall v, scan_digits (dec_digit (z mod 10) :: acc) v =
              scan_digits acc (v * 10 + z mod 10)).
    { intros v. cbn [scan_digits]. rewrite is_digit_dec, b2z_dec_digit by lia. f_equal. lia. }
    destruct (Z.ltb_spec z 10).
    + rewrite Hd. f_equal. rewrite Z.mod_small; lia.
    + rewrite IH.
      * rewrite Hd. f_equal. rewrite (Z.div_mod z 10) at 3 by lia. lia.
      * split; [apply Z.div_pos; lia|]. apply Z.div_lt_upper_bound; [lia|].
        rewrite <- Z.pow_succ_r by lia. rewrite <- Nat2Z.inj_succ. lia.
Qed.

Lemma dec_aux_cons fuel : forall z acc, 0 <= z ->
  exists d ds, dec_aux (S fuel) z acc = d :: ds ++ acc /\ is_digit d = true /\
    Forall (fun b => is_digit b = true) ds /\ (length ds <= fuel)%nat.
Proof.
  induction fuel as [|fuel IH]; intros z acc Hz.
  - exists (dec_digit (z mod 10)), []. pose proof (Z.mod_pos_bound z 10 ltac:(lia)).
    rewrite is_digit_dec by lia. split_and!; auto. cbn [dec_aux app]. by destruct (z <? 10).
  - pose proof (Z.mod_pos_bound z 10 ltac:(lia)).
    change (dec_aux (S (S fuel)) z acc) with
      (if z <? 10 then dec_digit (z mod 10) :: acc
       else dec_aux (S fuel) (z / 10) (dec_digit (z mod 10) :: acc)).
    destruct (z <? 10).
    + exists (dec_digit (z mod 10)), []. rewrite is_digit_dec by lia.
      split_and!; auto. simpl. lia.
    + destruct (IH (z / 10) (dec_digit (z mod 10) :: acc)) as (d & ds & -> & Hd & Hds & Hl);
        [apply Z.div_pos; lia|].
      exists d, (ds ++ [dec_digit (z mod 10)]). split_and!.
      * by rewrite <- app_assoc.
      * done.
      * apply Forall_app. split; [done|]. constructor; [|done]. by apply is_digit_dec.
      * rewrite length_app. simpl. lia.
Qed.

Lemma print_llu_digits z : 0 <= z ->
  exists d ds, print_llu z = d :: ds /\ is_digit d = true /\
    Forall (fun b => is_digit b = true) ds /\ (length ds <= 19)%nat.
Proof.
  intros Hz. destruct (dec_aux_cons 19 z [] Hz) as (d & ds & E & ? & ? & ?).
  exists d, ds. rewrite app_nil_r in E. done.
Qed.

Lemma scan_digits_app ds v rest :
  Forall (fun b => is_digit b = true) ds ->
  match rest with b :: _ => is_digit b = false | [] => True end ->
  scan_digits (ds ++ rest) v = scan_digits ds v.
Proof.
  intros Hds Hr. revert v. induction Hds as [|d ds Hd _ IH]; intros v; simpl.
  - destruct rest as [|b rest]; [done|]. simpl. by rewrite Hr.
  - by rewrite Hd.
Qed.

(** Scanning what was printed, up to a byte that is no digit. *)
Lemma scan_print_llu z rest :
  0 <= z <= ULLONG_MAX ->
  match rest with b :: _ => is_digit b = false | [] => True end ->
  scan_llu (print_llu z ++ rest) = Some z.
Proof.
  intros Hz Hr. unfold ULLONG_MAX in *.
  assert (Hs : scan_digits (print_llu z ++ rest) 0 = z).
  { destruct (print_llu_digits z) as (d & ds & E & Hd & Hds & _); [lia|].
    rewrite scan_digits_app by first [exact Hr | rewrite E; by constructor].
    unfold print_llu. rewrite scan_digits_dec_aux; [done|]. simpl. lia. }
  destruct (print_llu_digits z) as (d & ds & E & Hd & _ & _); [lia|].
  rewrite E in Hs |- *. unfold scan_llu.
  assert (skip_space ((d :: ds) ++ rest) = d :: ds ++ rest) as ->.
  { simpl. assert (is_space d = false) as -> by (unfold is_space, is_digit in *; lia). done. }
  assert ((b2z d =? 45) = false) as -> by (unfold is_digit in Hd; lia).
  assert ((b2z d =? 43) = false) as -> by (unfold is_digit in Hd; lia).
  rewrite Hd. simpl app in Hs. rewrite Hs.
  unfold ULLONG_MAX. by rewrite (proj2 (Z.ltb_ge _ _)) by lia.
Qed.
