(* ===== verification/Buffer.v ===== *)
(** * Byte buffers (utils/buffer.c, utils/buffer.h)

    [la_buffer] is the C struct with the block [ptr] as a list of bytes; an operation takes
    the buffer and returns the C return value with the buffer it leaves behind.  [contents]
    is the abstraction: the first [size] bytes.  The [int]s of [vsnprintf] keep their width.
    The section [refinement] relates runs of operations to operations on byte strings
    ([spec_op]) and names where the code departs from them ([defective], [defect]). *)

From S2P Require Import Prelude.
From Stdlib Require Import Init.Byte.

#[local] Open Scope c_scope.

Record la_buffer := LaBuffer {
  ptr : list byte;
  size : Z;
  capacity : Z;
  ptr_owned : bool;
}.

Definition MIN_ALLOC : Z := 1024.
Definition SIZEOF_LA_BUFFER : Z := 32.
Definition EOVERFLOW : Z := 75.

Definition cap (n : Z) : Z := if MIN_ALLOC <? n then n else MIN_ALLOC.

Section ops.
Context {X : Type}.

Definition la_buffer_new (capacity : Z) : M X (option la_buffer) :=
    let* b := malloc SIZEOF_LA_BUFFER in
    match b with
    | None => ret None
    | Some _ =>
        let capacity := cap capacity in
        let* p := malloc capacity in
        match p with
        | None => free ;;; ret None
        | Some blk =>
            let* blk := lift (mem_write blk 0 (replicate (Z.to_nat capacity) xaa)) in
            ret (Some (LaBuffer blk 0 capacity true))
        end
    end.

Definition la_buffer_wrap (p : list byte) (capacity size : Z) : M X (option la_buffer) :=
    let* b := malloc SIZEOF_LA_BUFFER in
    match b with
    | None => ret None
    | Some _ => ret (Some (LaBuffer p size capacity false))
    end.

Definition la_buffer_size (b : la_buffer) : Z := size b.

Definition la_buffer_capacity (b : la_buffer) : Z := capacity b.

Definition la_buffer_data (b : la_buffer) : list byte := ptr b.

  (** The number of bytes copied out and the bytes. *)
Definition la_buffer_get (b : la_buffer) (offset len : Z) : outcome (Z * list byte) :=
    let len := if u64 (size b - offset) <? len then u64 (size b - offset) else len in
    match mem_read (ptr b) offset len with
    | Ret d => Ret (len, d)
    | Undef u => Undef u
    end.

Definition la_buffer_copy (b : la_buffer) : M X (option (list byte)) :=
    let* p := malloc (size b) in
    match p with
    | None => ret None
    | Some blk =>
        let* '(_, d) := lift (la_buffer_get b 0 (size b)) in
        let* blk := lift (mem_write blk 0 d) in
        ret (Some blk)
    end.

Definition la_buffer_remove (b : la_buffer) (offset len : Z) : M X (Z * la_buffer) :=
    if (size b <=? offset) || (size b <=? u64 (offset + len)) then
      set_errno EINVAL ;;; ret (-1, b)
    else
      let remain_offset := u64 (offset + len) in
      let remain_length := u64 (size b - remain_offset) in
      let* p := (if 0 <? remain_length
                 then lift (mem_move (ptr b) offset remain_offset remain_length)
                 else ret (ptr b)) in
      ret (0, LaBuffer p (u64 (size b - len)) (capacity b) (ptr_owned b)).

Definition la_buffer_ensure_capacity (b : la_buffer) (c : Z) : M X (Z * la_buffer) :=
    if capacity b <? c then
      if negb (ptr_owned b) then set_errno EINVAL ;;; ret (-1, b)
      else
        let delta := cap (u64 (c - capacity b)) in
        let c := u64 (capacity b + delta) in
        let* p := realloc (ptr b) c in
        match p with
        | None => ret (-1, b)
        | Some p => ret (0, LaBuffer p (size b) c (ptr_owned b))
        end
    else ret (0, b).

Definition la_buffer_append (b : la_buffer) (data : list byte) : M X (Z * la_buffer) :=
    let len := Z.of_nat (length data) in
    let* '(rc, b) := la_buffer_ensure_capacity b (u64 (size b + len)) in
    if negb (rc =? 0) then ret (-1, b)
    else
      let* p := lift (mem_write (ptr b) (size b) data) in
      ret (0, LaBuffer p (u64 (size b + len)) (capacity b) (ptr_owned b)).

Definition la_buffer_insert (b : la_buffer) (index : Z) (data : list byte)
    : M X (Z * la_buffer) :=
    let len := Z.of_nat (length data) in
    let remain := if index <? size b then size b - index else 0 in
    let* '(rc, b) := la_buffer_ensure_capacity b (u64 (index + len + remain)) in
    if negb (rc =? 0) then ret (-1, b)
    else
      let* p := (if 0 <? remain then lift (mem_move (ptr b) (index + len) index remain)
                 else ret (ptr b)) in
      let* p := lift (mem_write p index data) in
      ret (0, LaBuffer p (size b) (capacity b) (ptr_owned b)).

Definition la_buffer_overwrite (b : la_buffer) (index : Z) (data : list byte)
    : M X (Z * la_buffer) :=
    let len := Z.of_nat (length data) in
    let* '(rc, b) := la_buffer_ensure_capacity b (u64 (index + len)) in
    if negb (rc =? 0) then ret (-1, b)
    else
      let* p := lift (mem_write (ptr b) index data) in
      let size' := if size b <? u64 (index + len) then u64 (index + len) else size b in
      ret (0, LaBuffer p size' (capacity b) (ptr_owned b)).

Definition la_buffer_move (b : la_buffer) (index newindex len : Z) : M X (Z * la_buffer) :=
    if (size b <? u64 (index + len)) || (size b <? newindex) then
      set_errno EINVAL ;;; ret (-1, b)
    else
      let* '(rc, b) := (if capacity b <? u64 (newindex + len)
                        then la_buffer_ensure_capacity b (u64 (newindex + len))
                        else ret (0, b)) in
      if negb (rc =? 0) then ret (-1, b)
      else
        let* p := lift (mem_move (ptr b) newindex index len) in
        let size' := if size b <? u64 (newindex + len) then u64 (newindex + len) else size b in
        ret (0, LaBuffer p size' (capacity b) (ptr_owned b)).

Definition la_buffer_compact (b : la_buffer) : M X (Z * la_buffer) :=
    if negb (ptr_owned b) then ret (0, b)
    else if size b <? capacity b then
      let newsize := if size b =? 0 then MIN_ALLOC else size b in
      let* p := realloc (ptr b) newsize in
      match p with
      | None => ret (-1, b)
      | Some p => ret (0, LaBuffer p (size b) (size b) (ptr_owned b))
      end
    else ret (0, b).

Definition la_buffer_truncate (b : la_buffer) (newsize : Z) : M X (Z * la_buffer) :=
    if size b <? newsize then set_errno EINVAL ;;; ret (-1, b)
    else ret (0, LaBuffer (ptr b) newsize (capacity b) (ptr_owned b)).

  (** The macro of buffer.h; both return values are dropped. *)
Definition la_buffer_clear (b : la_buffer) : M X la_buffer :=
    let* '(_, b) := la_buffer_truncate b 0 in
    let* '(_, b) := la_buffer_compact b in
    ret b.

  (** [vsnprintf(p, n, ...)] of the C library, for a format and arguments that print [text]:
      the [int] it returns and the bytes it writes to [p], as much of the text as fits and a
      NUL, nothing when [n] is 0.  The length of a text of more than [INT_MAX] bytes is not an
      [int]: it returns -1 with [EOVERFLOW]. *)
Definition vsnprintf (n : Z) (text : list byte) : M X (Z * list byte) :=
    let written := if 0 <? n then take (Z.to_nat (n - 1)) text ++ [NUL] else [] in
    if Z.of_nat (length text) <=? INT_MAX then ret (Z.of_nat (length text), written)
    else set_errno EOVERFLOW ;;; ret (-1, written).

  (** The [int]s are added to [size_t]s: [u64] converts them. *)
Definition la_buffer_vappendf (b : la_buffer) (text : list byte) : M X (Z * la_buffer) :=
    let* '(needed, _) := vsnprintf 0 text in
    let* '(rc, b) := la_buffer_ensure_capacity b (u64 (size b + u64 needed + 1)) in
    if negb (rc =? 0) then ret (-1, b)
    else
      let remaining := u64 (capacity b - size b) in
      let* p := lift (mem_write (ptr b) (size b) [NUL]) in
      let* '(added, printed) := vsnprintf remaining text in
      let* p := lift (mem_write p (size b) printed) in
      ret (0, LaBuffer p (u64 (size b + u64 added)) (capacity b) (ptr_owned b)).

Definition la_buffer_appendf (b : la_buffer) (text : list byte) : M X (Z * la_buffer) :=
    la_buffer_vappendf b text.

  (** [malloc] is not checked: a failed one is written through. *)
Definition la_buffer_string (b : la_buffer) : M X (list byte) :=
    let* p := malloc (u64 (size b + 1)) in
    match p with
    | None => undef NullDeref
    | Some blk =>
        let* '(_, d) := lift (la_buffer_get b 0 (size b)) in
        let* blk := lift (mem_write blk 0 d) in
        let* blk := lift (mem_write blk (size b) [NUL]) in
        ret blk
    end.

Definition la_buffer_destroy (b : la_buffer) : M X unit :=
    (if ptr_owned b then free else ret tt) ;;; free.
End ops.

(** ** Invariant and abstraction *)

Definition wf (b : la_buffer) : Prop :=
  0 <= size b <= capacity b /\ capacity b <= Z.of_nat (length (ptr b)) <= PTRDIFF_MAX.

Definition contents (b : la_buffer) : list byte := take (Z.to_nat (size b)) (ptr b).

(** The capacity [la_buffer_ensure_capacity] asks the allocator for when it has to grow. *)
Definition grown (b : la_buffer) (c : Z) : Z := capacity b + cap (c - capacity b).

(** [c] bytes can be had: they are there already, or the block is ours and can grow. *)
Definition has_room {X} (w : world X) (b : la_buffer) (c : Z) : Prop :=
  c <= capacity b \/ (ptr_owned b = true /\ mem_ok w /\ grown b c <= PTRDIFF_MAX).

Lemma cap_spec n : cap n = Z.max n 1024.
Proof. unfold cap, MIN_ALLOC. destruct (1024 <? n) eqn:E; lia. Qed.

Ltac bufs := unfold wf, contents, grown, SIZE_MAX, PTRDIFF_MAX in *; simpl in *.

Lemma contents_length b : wf b -> Z.of_nat (length (contents b)) = size b.
Proof. bufs. len. Qed.

Section specs.
Context {X : Type}.
Implicit Types (w : world X) (b : la_buffer).

Lemma la_buffer_new_spec c w Q :
    0 <= c ->
    (forall b w', wf b -> contents b = [] -> capacity b = cap c -> ptr_owned b = true ->
       size b = 0 -> frame 2 w w' -> Q (Some b) w') ->
    (forall w', ~ (mem_ok w /\ cap c <= PTRDIFF_MAX) -> frame 0 w w' -> Q None w') ->
    wp (la_buffer_new c) w Q.
  Proof.
    intros Hc Hs Hf. unfold la_buffer_new. wp_step.
    apply wp_malloc; [done | |].
    - intros _ w1 _ _ F1 _. wp_step.
      apply wp_malloc; [rewrite cap_spec; lia | |].
      + intros blk w2 Hl Hm F2 _. wp_step.
        rewrite mem_write_ok by len. wp_steps.
        apply Hs; try solve_frame; try done.
        rewrite cap_spec in *. bufs. len.
      + intros w2 Hn F2 _. wp_steps. apply Hf; [|solve_frame].
        intros [Ho Hm]. apply Hn. eauto using frame_mem_ok.
    - intros w1 Hn F1 _. wp_steps. apply Hf; [|solve_frame].
      intros [Ho Hm]. apply Hn. split; [done|]. done.
  Qed.

Lemma la_buffer_ensure_capacity_spec b c w Q :
    wf b -> 0 <= c <= SIZE_MAX ->
    (forall b' w', wf b' -> contents b' = contents b -> size b' = size b ->
       take (Z.to_nat (capacity b)) (ptr b') = take (Z.to_nat (capacity b)) (ptr b) ->
       ptr_owned b' = ptr_owned b -> c <= capacity b' ->
       capacity b' = (if capacity b <? c then grown b c else capacity b) ->
       frame 0 w w' -> Q (0, b') w') ->
    (forall w', ~ has_room w b c -> frame 0 w w' -> Q (-1, b) w') ->
    wp (la_buffer_ensure_capacity b c) w Q.
  Proof.
    intros Hwf Hc Hs Hf. unfold la_buffer_ensure_capacity, has_room in *.
    destruct (Z.ltb_spec (capacity b) c) as [Hlt|]; [|apply wp_ret, Hs; auto with cmem].
    destruct (ptr_owned b) eqn:Eo; simpl.
    2: { wp_steps. apply Hf; [intuition (congruence || lia) | solve_frame]. }
    rewrite (u64_small (c - _)) by (bufs; lia).
    assert (u64 (capacity b + cap (c - capacity b)) = grown b c) as ->.
    { rewrite u64_small; [done|]. rewrite cap_spec. bufs. lia. }
    assert (c <= grown b c) by (bufs; rewrite cap_spec; lia).
    wp_step. apply wp_realloc; [bufs; lia | |].
    - intros p w1 Hl Ht Hm F1 _. wp_steps.
      assert (take (Z.to_nat (capacity b)) p = take (Z.to_nat (capacity b)) (ptr b)) as Hpre.
      { apply (f_equal (take (Z.to_nat (capacity b)))) in Ht.
        rewrite !take_take in Ht. bufs.
        rewrite !Nat.min_l in Ht by lia. done. }
      apply Hs; try done; simpl; [bufs; lia | ].
      apply (f_equal (take (Z.to_nat (size b)))) in Hpre.
      rewrite !take_take in Hpre. bufs. rewrite !Nat.min_l in Hpre by lia. done.
    - intros w1 Hn F1 _. wp_steps. apply Hf; [|done].
      intros [?|(_ & ? & ?)]; [lia | auto].
  Qed.
  (** An operation on a buffer: the block keeps its owner, the result satisfies the
      invariant and the new contents are [c]. *)
Definition becomes b (c : list byte) b' : Prop :=
    wf b' /\ contents b' = c /\ ptr_owned b' = ptr_owned b.

Lemma wf_bounds b : wf b -> 0 <= size b <= capacity b /\ size b <= Z.of_nat (length (ptr b)) /\
    capacity b <= PTRDIFF_MAX.
  Proof. bufs. lia. Qed.

Lemma la_buffer_overwrite_spec b i data w Q :
    wf b -> 0 <= i <= size b -> i + Z.of_nat (length data) <= SIZE_MAX ->
    (forall b' w', becomes b (take (Z.to_nat i) (contents b) ++ data ++
         drop (Z.to_nat i + length data) (contents b)) b' ->
       capacity b' <= Z.max (capacity b) (grown b (i + Z.of_nat (length data))) ->
       frame 0 w w' -> Q (0, b') w') ->
    (forall w', ~ has_room w b (i + Z.of_nat (length data)) -> frame 0 w w' -> Q (-1, b) w') ->
    wp (la_buffer_overwrite b i data) w Q.
  Proof.
    intros Hwf Hi Hov Hs Hf. unfold la_buffer_overwrite. pose proof (wf_bounds b Hwf).
    rewrite (u64_small (i + _)) by lia.
    wp_step. apply la_buffer_ensure_capacity_spec; [done | lia | | ].
    2: { intros w1 Hn F1. simpl. wp_steps. by apply Hf. }
    intros b1 w1 Hwf1 Hc1 Hs1 _ Ho1 Hcap1 Hg1 F1. simpl. pose proof (wf_bounds b1 Hwf1).
    wp_step. rewrite mem_write_ok by (bufs; lia). wp_steps.
    assert (Hlen : Z.of_nat (length (ptr b1)) >= capacity b1) by (bufs; lia).
    apply Hs; [|destruct (capacity b <? _) in Hg1; simpl; lia|done].
    unfold becomes. split_and!; [| |done].
    - unfold wf in *. simpl. rewrite length_splice by lia.
      destruct (Z.ltb_spec (size b1) (i + Z.of_nat (length data))); lia.
    - rewrite <- Hc1. unfold contents at 1; simpl.
      apply list_eq. intros k.
      destruct (Z.ltb_spec (size b1) (i + Z.of_nat (length data))) as [Hlt|Hge].
      + replace (Z.to_nat (i + Z.of_nat (length data))) with (Z.to_nat i + length data)%nat by lia.
        rewrite take_splice_end by lia.
        unfold contents. rewrite take_take, Nat.min_l by lia.
        rewrite (drop_ge (take _ _)) by len. by rewrite app_nil_r.
      + unfold contents.
        rewrite take_take, Nat.min_l, !app_assoc by lia.
        rewrite take_app, take_ge by len.
        f_equal. f_equal. rewrite skipn_firstn_comm. f_equal. len.
  Qed.

Lemma ensure_capacity_size b c w b' rc w' :
    la_buffer_ensure_capacity b c w = Ret ((rc, b'), w') -> size b' = size b.
  Proof.
    unfold la_buffer_ensure_capacity. destruct (capacity b <? c); [|by intros [= <- <- <-]].
    destruct (ptr_owned b); simpl.
    - unfold bind, realloc. destruct (alloc_result _ w); by intros [= <- <- <-].
    - unfold bind, set_errno. by intros [= <- <- <-].
  Qed.

  (** Appending is overwriting at the end. *)
Lemma la_buffer_append_overwrite b data w :
    wf b -> size b + Z.of_nat (length data) <= SIZE_MAX ->
    la_buffer_append b data w = la_buffer_overwrite b (size b) data w.
  Proof.
    intros Hwf Hov. pose proof (wf_bounds b Hwf).
    unfold la_buffer_append, la_buffer_overwrite, bind at 1 3.
    destruct (la_buffer_ensure_capacity b _ w) as [[[rc b1] w1]|u] eqn:E; [|done].
    apply ensure_capacity_size in E. destruct (negb (rc =? 0)); [done|].
    rewrite E. unfold bind, lift. destruct (mem_write _ _ _); [|done].
    unfold ret. repeat f_equal. rewrite u64_small by lia.
    destruct (Z.ltb_spec (size b) (size b + Z.of_nat (length data))); lia.
  Qed.

Lemma la_buffer_append_spec b data w Q :
    wf b -> size b + Z.of_nat (length data) <= SIZE_MAX ->
    (forall b' w', becomes b (contents b ++ data) b' ->
       capacity b' <= Z.max (capacity b) (grown b (size b + Z.of_nat (length data))) ->
       frame 0 w w' -> Q (0, b') w') ->
    (forall w', ~ has_room w b (size b + Z.of_nat (length data)) -> frame 0 w w' ->
       Q (-1, b) w') ->
    wp (la_buffer_append b data) w Q.
  Proof.
    intros Hwf Hov Hs Hf. pose proof (wf_bounds b Hwf).
    eapply wp_ext; [by apply la_buffer_append_overwrite|].
    apply la_buffer_overwrite_spec; [done|lia|done| |done].
    intros b' w' Hb. apply Hs. revert Hb.
    rewrite take_ge, drop_ge, app_nil_r by (pose proof (contents_length b Hwf); lia). done.
  Qed.

Lemma la_buffer_insert_spec b i data w Q :
    wf b -> 0 <= i <= size b -> size b + Z.of_nat (length data) <= SIZE_MAX ->
    (forall b' w', becomes b (take (length (contents b))
         (take (Z.to_nat i) (contents b) ++ data ++ drop (Z.to_nat i) (contents b))) b' ->
       capacity b' <= Z.max (capacity b) (grown b (size b + Z.of_nat (length data))) ->
       frame 0 w w' -> Q (0, b') w') ->
    (forall w', ~ has_room w b (size b + Z.of_nat (length data)) -> frame 0 w w' ->
       Q (-1, b) w') ->
    wp (la_buffer_insert b i data) w Q.
  Proof.
    intros Hwf Hi Hov Hs Hf. unfold la_buffer_insert. pose proof (wf_bounds b Hwf).
    set (remain := if i <? size b then size b - i else 0).
    assert (remain = size b - i) as -> by (unfold remain; destruct (Z.ltb_spec i (size b)); lia).
    rewrite u64_small by lia.
    replace (i + Z.of_nat (length data) + (size b - i)) with (size b + Z.of_nat (length data)) by lia.
    wp_step. apply la_buffer_ensure_capacity_spec; [done | lia | | ].
    2: { intros w1 Hn F1. simpl. wp_steps. by apply Hf. }
    intros b1 w1 Hwf1 Hc1 Hs1 _ Ho1 Hcap1 Hg1 F1. simpl. pose proof (wf_bounds b1 Hwf1).
    assert (Hlen : Z.of_nat (length (ptr b1)) >= capacity b1) by (bufs; lia).
    set (D := take (Z.to_nat (size b - i)) (drop (Z.to_nat i) (ptr b1))).
    assert (HD : Z.of_nat (length D) = size b - i) by (unfold D; len).
    set (p := take (Z.to_nat i + length data) (ptr b1) ++ D ++
              drop (Z.to_nat i + length data + length D) (ptr b1)).
    assert (Hmv : (if 0 <? size b - i
       then lift (mem_move (ptr b1) (i + Z.of_nat (length data)) i (size b - i))
       else ret (ptr b1)) w1 = Ret (p, w1)).
    { destruct (Z.ltb_spec 0 (size b - i)).
      - unfold mem_move. rewrite mem_read_ok by lia. fold D. rewrite mem_write_ok by lia.
        by replace (Z.to_nat (i + Z.of_nat (length data))) with (Z.to_nat i + length data)%nat by lia.
      - unfold p. destruct D; [|simpl in HD; lia]. simpl.
        by rewrite Nat.add_0_r, take_drop. }
    assert (Hlp : length p = length (ptr b1)) by (unfold p; rewrite length_splice; lia).
    assert (Htp : take (Z.to_nat i) p = take (Z.to_nat i) (ptr b1)).
    { unfold p. rewrite take_splice_le by lia. done. }
    wp_step. eapply wp_eq; [exact Hmv|]. wp_step.
    rewrite mem_write_ok by lia. wp_steps.
    apply Hs; [|destruct (capacity b <? _) in Hg1; simpl; lia|done].
    split_and!; [bufs; rewrite length_splice by lia; lia | | done].
    rewrite <- Hc1 at 2 3. unfold contents; simpl.
    rewrite Htp. unfold p.
    rewrite (drop_app_le (take _ _)) by len.
    rewrite (drop_ge (take _ _)) by len. simpl.
    rewrite take_take, Nat.min_l by lia.
    rewrite skipn_firstn_comm.
    replace (Z.to_nat (size b1) - Z.to_nat i)%nat with (Z.to_nat (size b - i)) by lia. fold D.
    rewrite length_take, Hs1, Nat.min_l by lia.
    rewrite (app_assoc data), (app_assoc (take _ _)), take_app_le by len.
    done.
  Qed.

Lemma la_buffer_remove_spec b off n w Q :
    wf b -> 0 <= off -> 0 <= n -> off + n <= SIZE_MAX ->
    (forall b' w', off + n < size b ->
       becomes b (take (Z.to_nat off) (contents b) ++ drop (Z.to_nat (off + n)) (contents b)) b' ->
       capacity b' = capacity b -> frame 0 w w' -> Q (0, b') w') ->
    (forall w', size b <= off + n -> frame 0 w w' -> w_errno w' = EINVAL -> Q (-1, b) w') ->
    wp (la_buffer_remove b off n) w Q.
  Proof.
    intros Hwf Ho Hn Hov Hs Hf. unfold la_buffer_remove. pose proof (wf_bounds b Hwf).
    rewrite (u64_small (off + n)) by lia.
    destruct (Z.leb_spec (size b) (off + n)).
    { rewrite orb_true_r. wp_steps. by apply Hf. }
    rewrite (proj2 (Z.leb_gt _ _)) by lia. simpl.
    rewrite !u64_small by (bufs; lia).
    rewrite (proj2 (Z.ltb_lt _ _)) by lia.
    set (D := take (Z.to_nat (size b - (off + n))) (drop (Z.to_nat (off + n)) (ptr b))).
    assert (HD : Z.of_nat (length D) = size b - (off + n)) by (unfold D; len).
    wp_step. unfold mem_move. rewrite mem_read_ok by lia. fold D.
    rewrite mem_write_ok by lia. wp_steps. apply Hs; [lia| |done|eauto with cmem].
    split_and!; [bufs; rewrite length_splice by lia; lia | | done].
    unfold contents; simpl.
    replace (Z.to_nat (size b - n)) with (Z.to_nat off + length D)%nat by lia.
    rewrite take_splice_end, take_take, Nat.min_l by lia.
    rewrite skipn_firstn_comm. unfold D. f_equal. f_equal. lia.
  Qed.

Lemma la_buffer_move_spec b i j n w Q :
    wf b -> 0 <= i -> 0 <= j -> 0 <= n -> i + n <= SIZE_MAX -> j + n <= SIZE_MAX ->
    (forall b' w', i + n <= size b -> j <= size b ->
       becomes b (take (Z.to_nat j) (contents b) ++
         take (Z.to_nat n) (drop (Z.to_nat i) (contents b)) ++
         drop (Z.to_nat j + Z.to_nat n) (contents b)) b' ->
       capacity b' <= Z.max (capacity b) (grown b (j + n)) ->
       frame 0 w w' -> Q (0, b') w') ->
    (forall w', size b < i + n \/ size b < j \/ ~ has_room w b (j + n) ->
       frame 0 w w' -> Q (-1, b) w') ->
    wp (la_buffer_move b i j n) w Q.
  Proof.
    intros Hwf Hi Hj Hn Hov1 Hov2 Hs Hf. unfold la_buffer_move. pose proof (wf_bounds b Hwf).
    rewrite !(u64_small (_ + n)) by lia.
    destruct (Z.ltb_spec (size b) (i + n)) as [|Hin]; simpl; [wp_steps; apply Hf; auto|].
    destruct (Z.ltb_spec (size b) j) as [|Hjs]; simpl; [wp_steps; apply Hf; auto|].
    wp_step. eapply wp_ext.
    { instantiate (1 := la_buffer_ensure_capacity b (j + n)).
      unfold la_buffer_ensure_capacity. by destruct (capacity b <? j + n). }
    apply la_buffer_ensure_capacity_spec; [done | lia | | ].
    2: { intros w1 Hr F1. simpl. wp_steps. apply Hf; auto. }
    intros b1 w1 Hwf1 Hc1 Hs1 _ Ho1 Hcap1 Hg1 F1. simpl. pose proof (wf_bounds b1 Hwf1).
    assert (Hlen : Z.of_nat (length (ptr b1)) >= capacity b1) by (bufs; lia).
    set (D := take (Z.to_nat n) (drop (Z.to_nat i) (ptr b1))).
    assert (HD : Z.of_nat (length D) = n) by (unfold D; len).
    wp_step. unfold mem_move. rewrite mem_read_ok by lia. fold D.
    rewrite mem_write_ok by lia. wp_steps.
    assert (HDc : take (Z.to_nat n) (drop (Z.to_nat i) (contents b)) = D).
    { rewrite <- Hc1. unfold contents, D. rewrite skipn_firstn_comm, take_take. f_equal. lia. }
    apply Hs; [done|done| |destruct (capacity b <? _) in Hg1; simpl; lia|done].
    rewrite HDc, <- Hc1. split_and!; [| |done].
    - bufs. rewrite length_splice by lia.
      destruct (Z.ltb_spec (size b1) (j + n)); lia.
    - replace (Z.to_nat n) with (length D) by lia.
      unfold contents; simpl. rewrite take_take, Nat.min_l by lia.
      destruct (Z.ltb_spec (size b1) (j + n)).
      + replace (Z.to_nat (j + n)) with (Z.to_nat j + length D)%nat by lia.
        rewrite take_splice_end by lia.
        rewrite (drop_ge (take _ _)) by len. by rewrite app_nil_r.
      + rewrite !app_assoc, take_app, take_ge by len.
        f_equal. rewrite skipn_firstn_comm. f_equal. len.
  Qed.

Lemma la_buffer_truncate_spec b n w Q :
    wf b -> 0 <= n ->
    (forall b' w', n <= size b -> becomes b (take (Z.to_nat n) (contents b)) b' ->
       capacity b' = capacity b -> frame 0 w w' -> Q (0, b') w') ->
    (forall w', size b < n -> frame 0 w w' -> w_errno w' = EINVAL -> Q (-1, b) w') ->
    wp (la_buffer_truncate b n) w Q.
  Proof.
    intros Hwf Hn Hs Hf. unfold la_buffer_truncate.
    destruct (Z.ltb_spec (size b) n); wp_steps; [by apply Hf|].
    apply Hs; [done| |done|auto with cmem].
    split_and!; [bufs; lia| |done].
    unfold contents; simpl. rewrite take_take. f_equal. lia.
  Qed.

Lemma la_buffer_compact_spec b w Q :
    wf b ->
    (forall b' w', becomes b (contents b) b' -> capacity b' <= capacity b ->
       (ptr_owned b = true -> capacity b' = size b) ->
       frame 0 w w' -> Q (0, b') w') ->
    (forall w', ~ mem_ok w -> frame 0 w w' -> Q (-1, b) w') ->
    wp (la_buffer_compact b) w Q.
  Proof.
    intros Hwf Hs Hf. unfold la_buffer_compact. pose proof (wf_bounds b Hwf).
    destruct (ptr_owned b) eqn:Eo; simpl; [|wp_steps; apply Hs; done || auto with cmem].
    destruct (Z.ltb_spec (size b) (capacity b)).
    2: { wp_steps. apply Hs; [done|done|lia|auto with cmem]. }
    set (n := if size b =? 0 then MIN_ALLOC else size b).
    assert (Hn : size b <= n <= PTRDIFF_MAX /\ (size b = 0 -> n = 1024) /\ 0 < n /\
      (size b <> 0 -> n = size b)).
    { unfold n, MIN_ALLOC, PTRDIFF_MAX in *. destruct (Z.eqb_spec (size b) 0); lia. }
    clearbody n. wp_step. apply wp_realloc; [lia| |].
    - intros p w1 Hl Ht Hm F1 _. wp_steps. apply Hs; [|simpl; lia|done|done].
      split_and!; [bufs; lia| |done].
      unfold contents; simpl.
      apply (f_equal (take (Z.to_nat (size b)))) in Ht. rewrite !take_take in Ht.
      bufs. rewrite !Nat.min_l in Ht by lia. done.
    - intros w1 Hno F1 _. wp_steps. apply Hf; [|done]. intros Ho. apply Hno. split; [done|lia].
  Qed.

Lemma vsnprintf_printed n text :
    Z.of_nat (length text) <= INT_MAX -> Z.of_nat (length text) < n ->
    @vsnprintf X n text = ret (Z.of_nat (length text), text ++ [NUL]).
  Proof.
    intros Hl Hn. unfold vsnprintf.
    rewrite (proj2 (Z.leb_le _ _)), (proj2 (Z.ltb_lt 0 n)), take_ge by lia. done.
  Qed.

Lemma vsnprintf_counted text :
    Z.of_nat (length text) <= INT_MAX ->
    @vsnprintf X 0 text = ret (Z.of_nat (length text), []).
  Proof. intros Hl. unfold vsnprintf. by rewrite (proj2 (Z.leb_le _ _)) by lia. Qed.

Lemma la_buffer_appendf_spec b text w Q :
    wf b -> Z.of_nat (length text) <= INT_MAX ->
    size b + Z.of_nat (length text) + 1 <= SIZE_MAX ->
    (forall b' w', becomes b (contents b ++ text) b' ->
       capacity b' <= Z.max (capacity b) (grown b (size b + Z.of_nat (length text) + 1)) ->
       frame 0 w w' -> Q (0, b') w') ->
    (forall w', ~ has_room w b (size b + Z.of_nat (length text) + 1) -> frame 0 w w' ->
       Q (-1, b) w') ->
    wp (la_buffer_appendf b text) w Q.
  Proof.
    intros Hwf Hint Hov Hs Hf. unfold la_buffer_appendf, la_buffer_vappendf.
    pose proof (wf_bounds b Hwf). rewrite vsnprintf_counted by done. wp_step. wp_step.
    rewrite (u64_small (Z.of_nat (length text))), u64_small by (unfold SIZE_MAX, INT_MAX in *; lia).
    wp_step. apply la_buffer_ensure_capacity_spec; [done | lia | | ].
    2: { intros w1 Hn F1. simpl. wp_steps. by apply Hf. }
    intros b1 w1 Hwf1 Hc1 Hs1 _ Ho1 Hcap1 Hg1 F1. simpl. pose proof (wf_bounds b1 Hwf1).
    rewrite (u64_small (capacity b1 - _)) by (bufs; lia).
    rewrite vsnprintf_printed by lia.
    assert (Hlen : Z.of_nat (length (ptr b1)) >= capacity b1) by (bufs; lia).
    wp_step. rewrite mem_write_ok by len. wp_step. simpl length.
    wp_step. wp_step. wp_step. rewrite mem_write_ok by len. wp_steps.
    rewrite (u64_small (Z.of_nat (length text))), u64_small by (bufs; unfold INT_MAX in *; lia).
    apply Hs; [|destruct (capacity b <? _) in Hg1; simpl; lia|done].
    set (q := take (Z.to_nat (size b1)) (ptr b1) ++ [NUL] ++ _).
    assert (Hq : length q = length (ptr b1)).
    { unfold q. rewrite (length_splice _ [NUL]); simpl; lia. }
    split_and!; [bufs; rewrite length_splice by len; lia| |done].
    unfold contents; simpl. fold (contents b). rewrite <- Hc1.
    replace (Z.to_nat (size b1 + Z.of_nat (length text)))
      with (Z.to_nat (size b1) + length text)%nat by lia.
    rewrite <- (app_assoc text), (app_assoc (take _ q)), take_app_le, take_ge by len.
    f_equal. unfold contents, q. rewrite (take_splice_le _ [NUL]) by (simpl; lia). done.
  Qed.

  (** A text of more than [INT_MAX] bytes: no room is made for it, the free part of the block
      is filled with its beginning, and 0 is returned for a size that went down by one. *)
Lemma la_buffer_appendf_too_long b text w :
    wf b -> size b < capacity b -> INT_MAX < Z.of_nat (length text) ->
    wp (la_buffer_appendf b text) w (fun '(rc, b') w' =>
      rc = 0 /\ size b' = u64 (size b - 1) /\ capacity b' = capacity b /\
      w_errno w' = EOVERFLOW).
  Proof.
    intros Hwf Hlt Hl. pose proof (wf_bounds b Hwf).
    assert (@vsnprintf X 0 text = (set_errno EOVERFLOW ;;; ret (-1, []))) as E0.
    { unfold vsnprintf. by rewrite (proj2 (Z.leb_gt _ _)) by lia. }
    assert (@vsnprintf X (capacity b - size b) text = (set_errno EOVERFLOW ;;;
      ret (-1, take (Z.to_nat (capacity b - size b - 1)) text ++ [NUL]))) as E1.
    { unfold vsnprintf. by rewrite (proj2 (Z.leb_gt _ _)), (proj2 (Z.ltb_lt _ _)) by lia. }
    assert (u64 (size b + u64 (-1) + 1) = size b) as Eu.
    { change (u64 (-1)) with (2 ^ 64 - 1). unfold u64.
      replace (size b + (2 ^ 64 - 1) + 1) with (size b + 1 * 2 ^ 64) by lia.
      rewrite Z.mod_add, Z.mod_small; bufs; lia. }
    assert (u64 (size b + u64 (-1)) = u64 (size b - 1)) as Eu'.
    { unfold u64. rewrite Zplus_mod_idemp_r. f_equal. }
    assert (Z.of_nat (length (ptr b)) >= capacity b) by (bufs; lia).
    unfold la_buffer_appendf, la_buffer_vappendf. rewrite E0.
    wp_step. wp_step. wp_step. wp_step. rewrite Eu. unfold la_buffer_ensure_capacity.
    rewrite (proj2 (Z.ltb_ge _ _)) by lia. wp_step. wp_step. simpl negb. cbv iota.
    rewrite (u64_small (capacity b - size b)) by (bufs; lia). rewrite E1.
    wp_step. rewrite mem_write_ok by len. wp_step. wp_step. wp_step. wp_step. wp_step.
    wp_step. rewrite mem_write_ok by len. wp_steps. by split_and!.
  Qed.

Lemma la_buffer_get_spec b off n :
    wf b -> 0 <= off <= size b -> 0 <= n ->
    la_buffer_get b off n =
      Ret (Z.min n (size b - off), take (Z.to_nat n) (drop (Z.to_nat off) (contents b))).
  Proof.
    intros Hwf Ho Hn. pose proof (wf_bounds b Hwf). unfold la_buffer_get.
    rewrite u64_small by (bufs; lia).
    set (m := if size b - off <? n then size b - off else n).
    assert (m = Z.min n (size b - off)) as ->
      by (unfold m; destruct (Z.ltb_spec (size b - off) n); lia).
    rewrite mem_read_ok by lia. f_equal. f_equal.
    unfold contents. rewrite skipn_firstn_comm, take_take. f_equal. lia.
  Qed.

Lemma la_buffer_string_spec b w Q :
    wf b -> mem_ok w -> size b < PTRDIFF_MAX ->
    (forall w', frame 1 w w' -> Q (contents b ++ [NUL]) w') ->
    wp (la_buffer_string b) w Q.
  Proof.
    intros Hwf Ho Hm Hs. unfold la_buffer_string. pose proof (wf_bounds b Hwf).
    rewrite u64_small by (bufs; lia).
    pose proof (contents_length b Hwf) as Hcl.
    wp_step. apply wp_malloc; [lia| |].
    - intros blk w1 Hl _ F1 _. rewrite la_buffer_get_spec by (done || lia).
      rewrite drop_0, take_ge by lia. wp_step. wp_step. wp_step.
      rewrite mem_write_ok by lia. wp_step. wp_step.
      simpl. rewrite mem_write_ok by len. wp_steps.
      replace (Z.to_nat (size b)) with (length (contents b)) by lia.
      rewrite take_app_length, (drop_ge (_ ++ _)) by len. auto.
    - intros w1 Hno _ _. exfalso. apply Hno. split; [done|lia].
  Qed.

Lemma la_buffer_copy_spec b w Q :
    wf b ->
    (forall w', frame 1 w w' -> Q (Some (contents b)) w') ->
    (forall w', ~ mem_ok w -> frame 0 w w' -> Q None w') ->
    wp (la_buffer_copy b) w Q.
  Proof.
    intros Hwf Hs Hf. unfold la_buffer_copy. pose proof (wf_bounds b Hwf).
    pose proof (contents_length b Hwf) as Hcl.
    wp_step. apply wp_malloc; [lia| |].
    - intros blk w1 Hl _ F1 _. rewrite la_buffer_get_spec by (done || lia).
      rewrite drop_0, take_ge by lia. wp_steps. simpl.
      rewrite drop_ge, app_nil_r by lia. auto.
    - intros w1 Hno F1 _. wp_steps. apply Hf; [|done]. intros Ho. apply Hno. split; [done|lia].
  Qed.

Lemma la_buffer_destroy_spec b w Q :
    (forall w', frame (if ptr_owned b then -2 else -1) w w' -> Q tt w') ->
    wp (la_buffer_destroy b) w Q.
  Proof.
    intros Hs. unfold la_buffer_destroy. destruct (ptr_owned b); wp_steps; apply Hs; solve_frame.
  Qed.
End specs.

(** ** Refinement: buffers implement byte strings *)

Inductive op :=
| OpAppend (data : list byte)
| OpAppendf (text : list byte)
| OpOverwrite (i : Z) (data : list byte)
| OpInsert (i : Z) (data : list byte)
| OpRemove (off n : Z)
| OpMove (i j n : Z)
| OpTruncate (n : Z)
| OpCompact.

Section refinement.
Context {X : Type}.
Implicit Types (w : world X) (b : la_buffer).

Definition run_op (o : op) (b : la_buffer) : M X (Z * la_buffer) :=
    match o with
    | OpAppend d => la_buffer_append b d
    | OpAppendf s => la_buffer_appendf b s
    | OpOverwrite i d => la_buffer_overwrite b i d
    | OpInsert i d => la_buffer_insert b i d
    | OpRemove off n => la_buffer_remove b off n
    | OpMove i j n => la_buffer_move b i j n
    | OpTruncate n => la_buffer_truncate b n
    | OpCompact => la_buffer_compact b
    end.

Fixpoint run_ops (os : list op) (b : la_buffer) : M X (list Z * la_buffer) :=
    match os with
    | [] => ret ([], b)
    | o :: os =>
        let* '(rc, b) := run_op o b in
        let* '(rcs, b) := run_ops os b in
        ret (rc :: rcs, b)
    end.

  (** What each operation means for a byte string, and the return value: 0, or -1 with the
      string unchanged for a range that is not in it. *)
Definition spec_op (o : op) (c : list byte) : Z * list byte :=
    let n := Z.of_nat (length c) in
    match o with
    | OpAppend d => (0, c ++ d)
    | OpAppendf s => (0, c ++ s)
    | OpOverwrite i d => (0, take (Z.to_nat i) c ++ d ++ drop (Z.to_nat i + length d) c)
    | OpInsert i d => (0, take (Z.to_nat i) c ++ d ++ drop (Z.to_nat i) c)
    | OpRemove off k =>
        if off + k <=? n then (0, take (Z.to_nat off) c ++ drop (Z.to_nat (off + k)) c)
        else (-1, c)
    | OpMove i j k =>
        if (i + k <=? n) && (j <=? n)
        then (0, take (Z.to_nat j) c ++ take (Z.to_nat k) (drop (Z.to_nat i) c) ++
                 drop (Z.to_nat j + Z.to_nat k) c)
        else (-1, c)
    | OpTruncate k => if k <=? n then (0, take (Z.to_nat k) c) else (-1, c)
    | OpCompact => (0, c)
    end.

Fixpoint spec_ops (os : list op) (c : list byte) : list Z * list byte :=
    match os with
    | [] => ([], c)
    | o :: os =>
        let '(rc, c) := spec_op o c in
        let '(rcs, c) := spec_ops os c in (rc :: rcs, c)
    end.

  (** The arguments a caller may pass: nothing negative, no index behind the end, no text
      whose length is not an [int]. *)
Definition allowed (o : op) (c : list byte) : bool :=
    let n := Z.of_nat (length c) in
    match o with
    | OpAppend _ | OpCompact => true
    | OpAppendf s => Z.of_nat (length s) <=? INT_MAX
    | OpOverwrite i _ | OpInsert i _ => (0 <=? i) && (i <=? n)
    | OpRemove off k => (0 <=? off) && (0 <=? k)
    | OpMove i j k => (0 <=? i) && (0 <=? j) && (0 <=? k)
    | OpTruncate k => 0 <=? k
    end.

  (** The two operations the code gets wrong: inserting bytes, after which the size is the
      old one, and removing a range that ends where the string ends, which is refused. *)
Definition defective (o : op) (c : list byte) : bool :=
    match o with
    | OpInsert _ d => negb (bool_decide (d = []))
    | OpRemove off k => off + k =? Z.of_nat (length c)
    | _ => false
    end.

  (** What the code makes of them: the bytes an insertion pushes behind the old end are lost,
      and the refused removal changes nothing. *)
Definition defect (o : op) (c : list byte) : Z * list byte :=
    match o with
    | OpInsert _ _ => let '(rc, c') := spec_op o c in (rc, take (length c) c')
    | _ => (-1, c)
    end.

Fixpoint coded_ops (os : list op) (c : list byte) : option (list Z * list byte) :=
    match os with
    | [] => Some ([], c)
    | o :: os =>
        if allowed o c then
          let '(rc, c) := if defective o c then defect o c else spec_op o c in
          match coded_ops os c with
          | Some (rcs, c) => Some (rc :: rcs, c)
          | None => None
          end
        else None
    end.

  (** No operation of the sequence meets a defect. *)
Fixpoint free_of_defects (os : list op) (c : list byte) : bool :=
    match os with
    | [] => true
    | o :: os => negb (defective o c) && free_of_defects os (spec_op o c).2
    end.

Lemma coded_spec os : forall c r,
    free_of_defects os c = true -> coded_ops os c = Some r -> r = spec_ops os c.
  Proof.
    induction os as [|o os IH]; intros c r Hf Hr; simpl in *; [congruence|].
    apply andb_prop in Hf as [Hd Hf]. apply negb_true_iff in Hd. rewrite Hd in Hr.
    destruct (allowed o c); [|done]. destruct (spec_op o c) as [rc c1]; simpl in Hf.
    destruct (coded_ops os c1) as [[rcs c2]|] eqn:E; simplify_eq.
    by rewrite <- (IH _ _ Hf E).
  Qed.

  (** How much an operation can add to the capacity. *)
Definition weight (o : op) : Z :=
    match o with
    | OpAppend d | OpInsert _ d => MIN_ALLOC + Z.of_nat (length d)
    | OpAppendf s => MIN_ALLOC + Z.of_nat (length s) + 1
    | OpOverwrite i d => MIN_ALLOC + Z.abs i + Z.of_nat (length d)
    | OpMove i j k => MIN_ALLOC + Z.abs i + Z.abs j + Z.abs k
    | OpRemove off k => Z.abs off + Z.abs k
    | OpTruncate _ | OpCompact => 0
    end.

Fixpoint weights (os : list op) : Z :=
    match os with [] => 0 | o :: os => weight o + weights os end.

Lemma weight_nonneg o : 0 <= weight o.
  Proof. destruct o; unfold weight, MIN_ALLOC; lia. Qed.

Lemma weights_nonneg os : 0 <= weights os.
  Proof. induction os as [|o os IH]; simpl; [lia|]. pose proof (weight_nonneg o). lia. Qed.

#[local] Ltac capacity_bound HQ Hg :=
    apply HQ; [done|]; unfold grown in Hg; rewrite cap_spec in Hg; lia.

#[local] Ltac no_room Hroom Hr := exfalso; apply (Hroom _ Hr); rewrite cap_spec; lia.

Lemma run_op_spec o b w rc c Q :
    wf b -> ptr_owned b = true -> mem_ok w -> capacity b + weight o <= PTRDIFF_MAX ->
    allowed o (contents b) = true ->
    (if defective o (contents b) then defect o (contents b) else spec_op o (contents b)) = (rc, c) ->
    (forall b' w', becomes b c b' -> capacity b' <= capacity b + weight o -> frame 0 w w' ->
       Q (rc, b') w') ->
    wp (run_op o b) w Q.
  Proof.
    intros Hwf Ho Hm Hcap Hal Hsp HQ. pose proof (wf_bounds b Hwf) as Hb.
    pose proof (contents_length b Hwf) as Hcl.
    assert (Hself : becomes b (contents b) b) by (by split_and!).
    assert (Hroom : forall k, ~ has_room w b k -> cap (k - capacity b) + capacity b <= PTRDIFF_MAX ->
      False) by (intros k Hr ?; apply Hr; right; unfold grown; split_and!; [done|done|lia]).
    unfold grown in *.
    destruct o as [d|s|i d|i d|off k|i j k|k|]; simpl in Hal, Hsp, Hcap, HQ |- *;
      unfold MIN_ALLOC in *; simplify_eq; try (rewrite ?andb_true_iff, ?Z.leb_le in Hal).
    - apply la_buffer_append_spec; [done|bufs; lia| |].
      + intros b' w' Hb' Hg. capacity_bound HQ Hg.
      + intros w' Hr. no_room Hroom Hr.
    - apply la_buffer_appendf_spec; [done|done|bufs; lia| |].
      + intros b' w' Hb' Hg. capacity_bound HQ Hg.
      + intros w' Hr. no_room Hroom Hr.
    - apply la_buffer_overwrite_spec; [done|lia|bufs; lia| |].
      + intros b' w' Hb' Hg. capacity_bound HQ Hg.
      + intros w' Hr. no_room Hroom Hr.
    - apply la_buffer_insert_spec; [done|lia|bufs; lia| |].
      + intros b' w' Hb' Hg. case_bool_decide as Hd; simpl in Hsp; simplify_eq.
        * apply HQ; [|unfold grown in Hg; rewrite cap_spec in Hg; lia].
          revert Hb'. by rewrite app_nil_l, take_drop, firstn_all.
        * capacity_bound HQ Hg.
      + intros w' Hr. no_room Hroom Hr.
    - destruct (Z.eqb_spec (off + k) (Z.of_nat (length (contents b)))); simplify_eq;
        [|destruct (Z.leb_spec (off + k) (Z.of_nat (length (contents b)))); simplify_eq];
        (apply la_buffer_remove_spec; [done|lia|lia|bufs; lia| |]); try (intros; lia).
      + intros w' _ ? _. apply HQ; [done|lia|done].
      + intros b' w' _ Hb' Hg. apply HQ; [done|lia].
      + intros w' _ ? _. apply HQ; [done|lia|done].
    - destruct ((i + k <=? _) && _) eqn:E; simplify_eq;
        [apply andb_prop in E as [?%Z.leb_le ?%Z.leb_le]|apply andb_false_iff in E];
        rewrite ?Z.leb_gt in *;
        (apply la_buffer_move_spec; [done|lia|lia|lia|bufs; lia|bufs; lia| |]); try (intros; lia).
      + intros b' w' _ _ Hb' Hg. capacity_bound HQ Hg.
      + intros w' [?|[?|Hr]]; [lia|lia|]. no_room Hroom Hr.
      + intros w' _ ?. apply HQ; [done|lia|done].
    - destruct (Z.leb_spec k (Z.of_nat (length (contents b)))); simplify_eq;
        (apply la_buffer_truncate_spec; [done|lia| |]); try (intros; lia).
      + intros b' w' _ Hb' ?. apply HQ; [done|lia].
      + intros w' _ ? _. apply HQ; [done|lia|done].
    - apply la_buffer_compact_spec; [done| |].
      + intros b' w' Hb' ? _. apply HQ; [done|lia].
      + done.
  Qed.

Lemma run_ops_spec os : forall b w rcs c Q,
    wf b -> ptr_owned b = true -> mem_ok w -> capacity b + weights os <= PTRDIFF_MAX ->
    coded_ops os (contents b) = Some (rcs, c) ->
    (forall b' w', becomes b c b' -> frame 0 w w' -> Q (rcs, b') w') ->
    wp (run_ops os b) w Q.
  Proof.
    induction os as [|o os IH]; intros b w rcs c Q Hwf Ho Hm Hcap Hsp HQ; simpl in *.
    - simplify_eq. wp_steps. apply HQ; auto with cmem. by split_and!.
    - destruct (allowed o (contents b)) eqn:Ea; [|done].
      destruct (if defective _ _ then _ else _) as [rc c1] eqn:E1.
      destruct (coded_ops os c1) as [[rcs1 c2]|] eqn:E2; [|done]. simplify_eq.
      pose proof (weights_nonneg os).
      wp_step. eapply run_op_spec; try done; [lia|].
      intros b1 w1 (Hwf1 & Hc1 & Ho1) Hcap1 F1. wp_step. eapply IH; try done.
      + by rewrite Ho1.
      + by eapply frame_mem_ok.
      + lia.
      + by rewrite Hc1.
      + intros b2 w2 (? & ? & ?) F2. wp_steps. apply HQ; [|solve_frame].
        split_and!; [done|done|congruence].
  Qed.
End refinement.

(** ** Properties *)

(** C5 (refinement): starting from any well-formed buffer that owns its block, a sequence of
    append, appendf, overwrite, insert, remove, move, truncate and compact calls, with indexes
    that are not negative and not behind the end and texts of at most [INT_MAX] bytes, never
    reads or writes outside the block and returns and stores what the same operations on a
    byte string return and give, as long as memory does not run out; but for the code's two
    defects, which are exactly these: inserting bytes keeps the old length, so that what is
    pushed behind it is lost (buffer.c:115-129), and removing a range that ends at the end is
    refused (buffer.c:93).  A sequence that meets neither is the sequence of byte string
    operations. *)
Theorem la_buffer_refines_bytes {X} (os : list op) (b : la_buffer) (w : world X) rcs c
  (Hwf : wf b) (Howned : ptr_owned b = true) (Hmem : mem_ok w)
  (Hsize : capacity b + weights os <= PTRDIFF_MAX)
  (Hcoded : coded_ops os (contents b) = Some (rcs, c)) :
  wp (run_ops os b) w (fun '(rcs', b') w' =>
    rcs' = rcs /\ contents b' = c /\ wf b' /\ frame 0 w w') /\
  (free_of_defects os (contents b) = true -> (rcs, c) = spec_ops os (contents b)).
Proof.
  split; [|intros Hf; by apply coded_spec].
  eapply run_ops_spec; try done. intros b' w' (? & ? & ?) ?. done.
Qed.

Definition buffer_example : la_buffer := LaBuffer (replicate 1024 xaa) 0 1024 true.

Definition ops_example : list op :=
  [OpAppend (lit "hello world"); OpRemove 0 6; OpOverwrite 5 (lit "!"); OpRemove 5 1;
   OpTruncate 9; OpInsert 0 (lit "my "); OpAppendf (lit "wor"); OpMove 0 6 3; OpCompact].

Definition free_example : list op :=
  [OpAppend (lit "hello world"); OpRemove 0 6; OpOverwrite 5 (lit "!"); OpMove 0 6 5; OpTruncate 20].

Lemma la_buffer_refines_bytes_witness :
  (wp (run_ops ops_example buffer_example) (world0 tt) (fun '(rcs', b') w' =>
       rcs' = [0; 0; 0; -1; -1; 0; 0; 0; 0] /\ contents b' = lit "my wormy " /\ wf b' /\
       frame 0 (world0 tt) w') /\
   (free_of_defects ops_example (contents buffer_example) = true ->
    ([0; 0; 0; -1; -1; 0; 0; 0; 0], lit "my wormy ") = spec_ops ops_example (contents buffer_example))) /\
  (wp (run_ops free_example buffer_example) (world0 tt) (fun '(rcs', b') w' =>
       rcs' = [0; 0; 0; 0; -1] /\ contents b' = lit "world!world" /\ wf b' /\
       frame 0 (world0 tt) w') /\
   (free_of_defects free_example (contents buffer_example) = true ->
    ([0; 0; 0; 0; -1], lit "world!world") = spec_ops free_example (contents buffer_example))).
Proof.
  split;
    [apply (la_buffer_refines_bytes ops_example buffer_example)
    |apply (la_buffer_refines_bytes free_example buffer_example)];
    try (vm_compute; reflexivity); try (vm_compute; discriminate);
    split; vm_compute; split; discriminate.
Defined.

Example free_example_free : free_of_defects free_example (contents buffer_example) = true.
Proof. reflexivity. Qed.

(** The first sequence on a byte string: nothing is lost and the last byte is removed. *)
Example ops_example_spec :
  spec_ops ops_example [] = ([0; 0; 0; 0; -1; 0; 0; 0; 0], lit "my wormy or").
Proof. vm_compute. reflexivity. Qed.
