(* ===== verification/ZlibDriver.v ===== *)
(** * The zlib compressor (compress-zlib/compress-zlib.c)

    The driver feeds a block to a zlib stream and collects what comes out, 4096 bytes at a
    time, in a buffer (Buffer).  Zlib is a class of operations; its documented behaviour is a
    class of laws: what a stream yields up to the code that ends it.  The two functions of the
    driver differ in the calls they make and in the codes they accept. *)

From S2P Require Import Prelude Buffer Compress.
From Stdlib Require Import Init.Byte.

#[local] Open Scope c_scope.

(** ** Zlib *)

Definition Z_OK : Z := 0.
Definition Z_STREAM_END : Z := 1.
Definition Z_DATA_ERROR : Z := -3.
Definition Z_MEM_ERROR : Z := -4.
Definition Z_BUF_ERROR : Z := -5.

Definition CHUNK_SIZE : Z := 4096.

(** A call of [deflate] or [inflate] with [Z_FINISH] is given the stream, the bytes at
    [next_in] and [avail_out]; it returns its code, the bytes it wrote at [next_out], the bytes
    left at [next_in] and the stream. *)
Class Zlib (X : Type) := {
  z_stream : Type;
  deflateInit : M X (Z * z_stream);
  deflate : z_stream -> list byte -> Z -> M X (Z * list byte * list byte * z_stream);
  deflateEnd : z_stream -> M X unit;
  inflateInit : M X (Z * z_stream);
  inflate : z_stream -> list byte -> Z -> M X (Z * list byte * list byte * z_stream);
  inflateEnd : z_stream -> M X unit;
}.
Arguments z_stream X {_}.

(** ** The driver *)

Section driver.
Context {X : Type} `{Zlib X}.

(** What both functions do on an error in the loop. *)
Definition z_give_up {A} (z_end : z_stream X -> M X unit) (zs : z_stream X) (buffer : la_buffer)
  : M X (option A) :=
  z_end zs ;;; la_buffer_destroy buffer ;;; ret None.

(** [do ... while (zs.avail_out == 0)]; [accepted] are the codes that are not an error. *)
Fixpoint z_loop (step : z_stream X -> list byte -> Z -> M X (Z * list byte * list byte * z_stream X))
  (accepted : Z -> bool) (z_end : z_stream X -> M X unit) (fuel : nat) (zs : z_stream X)
  (next_in : list byte) (buffer : la_buffer) : M X (option (z_stream X * la_buffer)) :=
  match fuel with
  | O => undef Diverges
  | S fuel =>
      let* '(rc, out, next_in, zs) := step zs next_in CHUNK_SIZE in
      if negb (accepted rc) then z_give_up z_end zs buffer
      else
        let* '(rc, buffer) := la_buffer_append buffer out in
        if negb (rc =? 0) then z_give_up z_end zs buffer
        else
          let avail_out := CHUNK_SIZE - Z.of_nat (length out) in
          if avail_out =? 0 then z_loop step accepted z_end fuel zs next_in buffer
          else ret (Some (zs, buffer))
  end.

Definition deflate_accepted (rc : Z) : bool := (rc =? Z_OK) || (rc =? Z_STREAM_END).

Definition inflate_accepted (rc : Z) : bool :=
  (rc =? Z_OK) || (rc =? Z_STREAM_END) || (rc =? Z_BUF_ERROR).

(** After the loop: the result and what is stored to [outlen]. *)
Definition z_result (z_end : z_stream X -> M X unit) (r : option (z_stream X * la_buffer))
  : M X (option (list byte * Z)) :=
  match r with
  | None => ret None
  | Some (zs, buffer) =>
      z_end zs ;;;
      let outlen := la_buffer_size buffer in
      let* p := la_buffer_copy buffer in
      la_buffer_destroy buffer ;;;
      ret ((fun p => (p, outlen)) <$> p)
  end.

(** [avail_in] has 32 bits. *)
Definition z_driver (init : M X (Z * z_stream X))
  (step : z_stream X -> list byte -> Z -> M X (Z * list byte * list byte * z_stream X))
  (accepted : Z -> bool) (z_end : z_stream X -> M X unit) (fuel : nat)
  (input : list byte) (len : Z) : M X (option (list byte * Z)) :=
  let* buffer := la_buffer_new 1024 in
  match buffer with
  | None => ret None
  | Some buffer =>
      let* '(rc, zs) := init in
      if negb (rc =? Z_OK) then la_buffer_destroy buffer ;;; ret None
      else
        let avail_in := u32 len in
        let* r := z_loop step accepted z_end fuel zs (take (Z.to_nat avail_in) input) buffer in
        z_result z_end r
  end.

Definition _zlib_compress (fuel : nat) (input : list byte) (len : Z)
  : M X (option (list byte * Z)) :=
  z_driver deflateInit deflate deflate_accepted deflateEnd fuel input len.

Definition _zlib_decompress (fuel : nat) (input : list byte) (len : Z)
  : M X (option (list byte * Z)) :=
  z_driver inflateInit inflate inflate_accepted inflateEnd fuel input len.
End driver.

Definition la_zlib_compressor `{Zlib unit} (fuel : nat) : la_compressor := {|
  compressor text := block_result (_zlib_compress fuel text (Z.of_nat (length text)));
  decompressor data := block_result (_zlib_decompress fuel data (Z.of_nat (length data)));
|}.

(** ** The documented behaviour of zlib *)

(** [S zs next_in bytes final]: the stream has [bytes] to yield and then ends with the code
    [final].  A call yields all of them and ends, or fills the room it is given, as
    [Z_FINISH] makes it, with one of the codes [more]; it fails for want of memory only. *)
Definition yields {X} `{Zlib X} (opened : z_stream X -> Prop)
  (step : z_stream X -> list byte -> Z -> M X (Z * list byte * list byte * z_stream X))
  (S : z_stream X -> list byte -> list byte -> Z -> Prop) (more : Z -> bool) : Prop :=
  forall w zs next_in bytes final n,
    S zs next_in bytes final -> 0 < n ->
    wp (step zs next_in n) w (fun '(rc, out, next_in', zs') w' =>
      frame 0 w w' /\ opened zs' /\
      ((rc = final /\ out = bytes /\ Z.of_nat (length bytes) <= n) \/
       (more rc = true /\ Z.of_nat (length out) = n /\
          exists bytes', bytes = out ++ bytes' /\ S zs' next_in' bytes' final) \/
       (rc = Z_MEM_ERROR /\ ~ mem_ok w))).

(** Opening a stream succeeds when memory does not run out, and takes what ending it gives
    back, counted as one block. *)
Definition opens {X} `{Zlib X} (init : M X (Z * z_stream X)) (opened : z_stream X -> Prop)
  (S : z_stream X -> list byte -> list byte -> Z -> Prop)
  (result : list byte -> list byte * Z) : Prop :=
  forall w, wp init w (fun '(rc, zs) w' =>
    (rc = Z_OK /\ frame 1 w w' /\ opened zs /\
       forall input, S zs input (result input).1 (result input).2) \/
    (rc <> Z_OK /\ ~ mem_ok w /\ frame 0 w w')).

Definition ends {X} `{Zlib X} (z_end : z_stream X -> M X unit) (opened : z_stream X -> Prop)
  : Prop :=
  forall w zs, opened zs -> wp (z_end zs) w (fun _ w' => frame (-1) w w').

(** [deflated text] is the zlib stream of a text; [inflated data] are the bytes that come out
    of [data] and the code after the last of them: [Z_STREAM_END] for a whole stream,
    [Z_BUF_ERROR] when the input ends before the stream does, [Z_DATA_ERROR] when it is
    damaged. *)
Class ZlibLaws (X : Type) `{Zlib X} := {
  deflated : list byte -> list byte;
  inflated : list byte -> list byte * Z;
  deflate_open : z_stream X -> Prop;
  inflate_open : z_stream X -> Prop;
  deflating : z_stream X -> list byte -> list byte -> Z -> Prop;
  inflating : z_stream X -> list byte -> list byte -> Z -> Prop;
  deflateInit_law :
    opens deflateInit deflate_open deflating (fun text => (deflated text, Z_STREAM_END));
  deflate_law : yields deflate_open deflate deflating (fun rc => rc =? Z_OK);
  deflateEnd_law : ends deflateEnd deflate_open;
  inflateInit_law : opens inflateInit inflate_open inflating inflated;
  inflate_law :
    yields inflate_open inflate inflating (fun rc => (rc =? Z_OK) || (rc =? Z_BUF_ERROR));
  inflateEnd_law : ends inflateEnd inflate_open;
  inflated_deflated text : inflated (deflated text) = (text, Z_STREAM_END);
  inflated_cut text k :
    (k < length (deflated text))%nat ->
    exists p, inflated (take k (deflated text)) = (p, Z_BUF_ERROR) /\ p `prefix_of` text;
}.

(** Output that fills its last chunk: the loop then calls the stream again although it has
    ended, which zlib does not document. *)
Definition fills_chunks (bytes : list byte) : Prop :=
  bytes <> [] /\ (Z.of_nat (length bytes)) mod CHUNK_SIZE = 0.

(** Turns of the loop for [n] bytes. *)
Definition z_fuel (n : nat) : nat := S (n / Z.to_nat CHUNK_SIZE).

(** ** Runs *)

Section runs.
Context {X : Type} `{Zlib X}.
Implicit Types w : world X.
Implicit Types Q : option (list byte * Z) -> world X -> Prop.
Context (opened : z_stream X -> Prop) (S : z_stream X -> list byte -> list byte -> Z -> Prop)
  (step : z_stream X -> list byte -> Z -> M X (Z * list byte * list byte * z_stream X))
  (z_end : z_stream X -> M X unit) (more accepted : Z -> bool).
Hypothesis Hstep : yields opened step S more.
Hypothesis Hend : ends z_end opened.
Hypothesis Hmore : forall rc, more rc = true -> accepted rc = true.
Hypothesis Hmem : accepted Z_MEM_ERROR = false.

Lemma wp_give_up {A} zs buffer w (Q : option A -> world X -> Prop) :
  opened zs -> ptr_owned buffer = true ->
  (forall w', frame (-3) w w' -> Q None w') -> wp (z_give_up z_end zs buffer) w Q.
Proof.
  intros Ho Hp HQ. unfold z_give_up. wp_step. eapply wp_mono; [by apply Hend|].
  cbv beta. intros _ w1 F1. wp_step. apply la_buffer_destroy_spec. intros w2 F2. rewrite Hp in F2.
  wp_steps. apply HQ. solve_frame.
Qed.

(** What the loop collects in: a buffer of its own that holds [c]. *)
Definition holds (b : la_buffer) (c : list byte) : Prop :=
  wf b /\ contents b = c /\ ptr_owned b = true.

Lemma holds_size b c : holds b c -> size b = Z.of_nat (length c).
Proof. intros (Hwf & <- & _). by rewrite contents_length. Qed.

(** One turn: a chunk goes into a buffer within a kilobyte of what it holds. *)
Lemma wp_append_chunk b c out w (Q : Z * la_buffer -> world X -> Prop) :
  holds b c -> capacity b <= size b + 1024 -> Z.of_nat (length c + length out) <= 2 ^ 62 ->
  Z.of_nat (length out) <= CHUNK_SIZE ->
  (forall b' w', holds b' (c ++ out) -> frame 0 w w' ->
     (Z.of_nat (length out) = CHUNK_SIZE -> capacity b' <= size b' + 1024) -> Q (0, b') w') ->
  (forall w', ~ mem_ok w -> frame 0 w w' -> Q (-1, b) w') ->
  wp (la_buffer_append b out) w Q.
Proof.
  intros Hb Hc Hl Ho Hs Hf. pose proof (holds_size _ _ Hb) as Hsz. destruct Hb as (Hwf & <- & Hp).
  unfold CHUNK_SIZE in *. pose proof (wf_bounds b Hwf).
  apply la_buffer_append_spec; [done|unfold SIZE_MAX; lia| |].
  - intros b' w' (Hwf' & Hc' & Hp') Hg F. rewrite Hp in Hp'.
    assert (holds b' (contents b ++ out)) as Hb' by done.
    pose proof (holds_size _ _ Hb') as Hsz'. rewrite length_app in Hsz'.
    apply Hs; [done|done|]. intros Hlo. unfold grown in Hg. rewrite cap_spec in Hg. lia.
  - intros w' Hr F. apply Hf; [|done]. intros Hm. apply Hr. right.
    split; [done|]. split; [done|]. unfold grown, PTRDIFF_MAX. rewrite cap_spec. lia.
Qed.

(** Either everything the stream yields is in the buffer, or all is given back. *)
Lemma wp_z_loop fuel : forall zs next_in bytes final b c w
    (Q : option (z_stream X * la_buffer) -> world X -> Prop),
  S zs next_in bytes final -> opened zs -> ~ fills_chunks bytes ->
  (length bytes < Z.to_nat CHUNK_SIZE * fuel)%nat ->
  holds b c -> capacity b <= size b + 1024 -> Z.of_nat (length c + length bytes) <= 2 ^ 62 ->
  (forall zs' b' w', accepted final = true -> opened zs' -> holds b' (c ++ bytes) ->
     frame 0 w w' -> Q (Some (zs', b')) w') ->
  (forall w', ~ (mem_ok w /\ accepted final = true) -> frame (-3) w w' -> Q None w') ->
  wp (z_loop step accepted z_end fuel zs next_in b) w Q.
Proof.
  induction fuel as [|fuel IH]; intros zs next_in bytes final b c w Q HS Ho Hfc Hf Hb Hc Hl Hs Hn;
    [lia|]. cbn [z_loop]. wp_step. eapply wp_mono; [by apply (Hstep _ _ _ _ _ CHUNK_SIZE HS)|].
  intros [[[rc out] next_in'] zs'] w1 (F1 & Ho' & Hr). destruct (accepted rc) eqn:Ha; cbn [negb].
  2: { apply wp_give_up; [done|by destruct Hb as (_ & _ & ?)|]. intros w2 F2. apply Hn; [|solve_frame].
       intros [Hm Hfin]. destruct Hr as [(-> & _)|[(Hrc & _)|(_ & Hno)]]; [congruence| |done].
       rewrite (Hmore _ Hrc) in Ha. done. }
  assert (Z.of_nat (length out) <= CHUNK_SIZE /\ (length out <= length bytes)%nat) as [Hlo Hlb].
  { destruct Hr as [(_ & -> & ?)|[(_ & ? & bytes' & -> & _)|(-> & _)]]; [done|..|congruence].
    rewrite length_app. lia. }
  wp_step. apply (wp_append_chunk b c); [done|done|lia|done| |].
  - intros b' w2 Hb' F2 Hcap. cbn [negb]. rewrite Z.eqb_refl. cbn [negb].
    destruct Hr as [(-> & -> & _)|[(_ & Hfull & bytes' & -> & HS')|(-> & _)]]; [| |congruence].
    + destruct (CHUNK_SIZE - Z.of_nat (length bytes) =? 0) eqn:Hz.
      * exfalso. apply Hfc. apply Z.eqb_eq in Hz. split; [intros ->; by vm_compute in Hz|].
        replace (Z.of_nat (length bytes)) with CHUNK_SIZE by lia. done.
      * wp_step. apply Hs; [done|done|done|solve_frame].
    + rewrite (proj2 (Z.eqb_eq _ 0)) by lia. rewrite length_app in *.
      eapply IH; [exact HS'|done| | |exact Hb'|by apply Hcap| | |].
      * intros [Hne Hmod]. apply Hfc. split; [by destruct out|].
        rewrite length_app, Nat2Z.inj_add, Hfull, Z.add_mod, Hmod by done. done.
      * unfold CHUNK_SIZE in *. lia.
      * rewrite length_app. lia.
      * intros zs2 b2 w3 Ha2 Ho2 Hb2 F3. apply Hs; [done|done| |solve_frame].
        by rewrite <- app_assoc in Hb2.
      * intros w3 Hn3 F3. apply Hn; [|solve_frame]. intros [Hm Hfin]. apply Hn3. split; [|done].
        by do 2 (eapply frame_mem_ok; [eassumption|]).
  - intros w2 Hm F2. cbn [negb]. change (-1 =? 0) with false. cbn [negb].
    apply wp_give_up; [done|by destruct Hb as (_ & _ & ?)|]. intros w3 F3. apply Hn; [|solve_frame].
    intros [Hm' _]. apply Hm. by eapply frame_mem_ok.
Qed.

Lemma wp_z_result zs b c w Q :
  opened zs -> holds b c ->
  (forall w', frame (-2) w w' -> Q (Some (c, Z.of_nat (length c))) w') ->
  (forall w', ~ mem_ok w -> frame (-3) w w' -> Q None w') ->
  wp (z_result z_end (Some (zs, b))) w Q.
Proof.
  intros Ho Hb Hs Hn. pose proof (holds_size _ _ Hb) as Hsz. destruct Hb as (Hwf & <- & Hp).
  unfold z_result. wp_step. eapply wp_mono; [by apply Hend|]. cbv beta. intros _ w1 F1.
  wp_step. apply la_buffer_copy_spec; [done| |].
  - intros w2 F2. wp_step. apply la_buffer_destroy_spec. intros w3 F3. rewrite Hp in F3. wp_step.
    unfold la_buffer_size. rewrite Hsz. apply Hs. solve_frame.
  - intros w2 Hm F2. wp_step. apply la_buffer_destroy_spec. intros w3 F3. rewrite Hp in F3. wp_step.
    apply Hn; [|solve_frame]. intros Hm'. apply Hm. by eapply frame_mem_ok.
Qed.
(** A whole run, for a stream that yields [bytes] of its input. *)
Lemma wp_z_driver init result fuel input w Q :
  opens init opened S result ->
  let bytes := (result input).1 in let final := (result input).2 in
  ~ fills_chunks bytes -> (z_fuel (length bytes) <= fuel)%nat ->
  Z.of_nat (length input) < 2 ^ 32 -> Z.of_nat (length bytes) <= 2 ^ 62 ->
  (forall w', accepted final = true -> frame 1 w w' ->
     Q (Some (bytes, Z.of_nat (length bytes))) w') ->
  (forall w', ~ (mem_ok w /\ accepted final = true) -> frame 0 w w' -> Q None w') ->
  wp (z_driver init step accepted z_end fuel input (Z.of_nat (length input))) w Q.
Proof.
  intros Hinit bytes final Hfc Hf Hlen Hlb Hs Hn. unfold z_driver.
  assert (forall w', frame 0 w w' \/ frame 1 w w' \/ frame 2 w w' \/ frame 3 w w' ->
    mem_ok w -> mem_ok w') as Hmw by (intros w' [?|[?|[?|?]]]; by eapply frame_mem_ok).
  wp_step. apply la_buffer_new_spec; [done| |].
  2: { intros w1 Hm F1. wp_step. apply Hn; [|done]. intros [Hm' _]. apply Hm. split; [done|].
       by vm_compute. }
  intros b w1 Hwf Hcont Hcap Hown Hsz F1. wp_step. eapply wp_mono; [by apply Hinit|].
  intros [rc zs] w2 [(-> & F2 & Ho & HS)|(Hrc & Hm & F2)]; cbv beta iota.
  2: { rewrite (proj2 (Z.eqb_neq _ _) Hrc). cbn [negb]. wp_step. apply la_buffer_destroy_spec.
       intros w3 F3. rewrite Hown in F3. wp_step. apply Hn; [|solve_frame].
       intros [Hm' _]. apply Hm, Hmw; auto. }
  change (negb (Z_OK =? Z_OK)) with false. cbv iota. unfold u32. rewrite Z.mod_small by lia.
  rewrite take_ge by lia. wp_step.
  assert (frame 3 w w2) as F by solve_frame.
  apply (wp_z_loop fuel zs input bytes final b []); [by apply HS|done|done| |done|rewrite Hcap, Hsz; by vm_compute|done|..].
  - unfold z_fuel in Hf. unfold CHUNK_SIZE in *.
    pose proof (Nat.div_mod (length bytes) (Z.to_nat 4096) ltac:(lia)).
    pose proof (Nat.mod_upper_bound (length bytes) (Z.to_nat 4096) ltac:(lia)). nia.
  - intros zs' b' w3 Ha Ho' Hb' F3. cbn [app] in Hb'. apply (wp_z_result _ _ bytes); [done|done| |].
    + intros w4 F4. apply Hs; [done|solve_frame].
    + intros w4 Hm F4. apply Hn; [|solve_frame]. intros [Hm' _]. apply Hm.
      eapply frame_mem_ok; [exact F3|]. apply Hmw; auto.
  - intros w3 Hm F3. cbn [z_result]. wp_step. apply Hn; [|solve_frame].
    intros [Hm' Ha]. apply Hm. split; [|done]. apply Hmw; auto.
Qed.
End runs.

Lemma accepted_mem : deflate_accepted Z_MEM_ERROR = false /\ inflate_accepted Z_MEM_ERROR = false.
Proof. done. Qed.

Lemma inflate_more rc : (rc =? Z_OK) || (rc =? Z_BUF_ERROR) = true -> inflate_accepted rc = true.
Proof. unfold inflate_accepted. destruct (rc =? Z_OK), (rc =? Z_BUF_ERROR); cbn; rewrite ?orb_true_r; done. Qed.

Lemma deflate_more rc : (rc =? Z_OK) = true -> deflate_accepted rc = true.
Proof. unfold deflate_accepted. by intros ->. Qed.

Section zlib.
Context {X : Type} `{ZlibLaws X}.
Implicit Types w : world X.

Lemma wp_zlib_compress fuel text w (Q : option (list byte * Z) -> world X -> Prop) :
  let bytes := deflated text in
  ~ fills_chunks bytes -> (z_fuel (length bytes) <= fuel)%nat ->
  Z.of_nat (length text) < 2 ^ 32 -> Z.of_nat (length bytes) <= 2 ^ 62 ->
  (forall w', frame 1 w w' -> Q (Some (bytes, Z.of_nat (length bytes))) w') ->
  (forall w', ~ mem_ok w -> frame 0 w w' -> Q None w') ->
  wp (_zlib_compress fuel text (Z.of_nat (length text))) w Q.
Proof.
  intros bytes Hfc Hf Hlen Hlb Hs Hn. unfold _zlib_compress.
  eapply (wp_z_driver _ _ _ _ _ _ deflate_law deflateEnd_law deflate_more (proj1 accepted_mem));
    [exact deflateInit_law|done..| |].
  - intros w' _. apply Hs.
  - intros w' Hm. apply Hn. intros Hm'. by apply Hm.
Qed.

Lemma wp_zlib_decompress fuel input w (Q : option (list byte * Z) -> world X -> Prop) :
  let bytes := (inflated input).1 in let final := (inflated input).2 in
  ~ fills_chunks bytes -> (z_fuel (length bytes) <= fuel)%nat ->
  Z.of_nat (length input) < 2 ^ 32 -> Z.of_nat (length bytes) <= 2 ^ 62 ->
  (forall w', inflate_accepted final = true -> frame 1 w w' ->
     Q (Some (bytes, Z.of_nat (length bytes))) w') ->
  (forall w', ~ (mem_ok w /\ inflate_accepted final = true) -> frame 0 w w' -> Q None w') ->
  wp (_zlib_decompress fuel input (Z.of_nat (length input))) w Q.
Proof.
  apply (wp_z_driver _ _ _ _ _ _ inflate_law inflateEnd_law inflate_more (proj2 accepted_mem)).
  exact inflateInit_law.
Qed.
End zlib.

(** ** A concrete library *)

(** Each byte after a mark, and a mark at the end. *)
Definition toy_deflated (text : list byte) : list byte := flat_map (fun b => [x01; b]) text ++ [x00].

Fixpoint toy_inflated (data : list byte) : list byte * Z :=
  match data with
  | [] => ([], Z_BUF_ERROR)
  | x00 :: _ => ([], Z_STREAM_END)
  | x01 :: b :: data => let '(text, rc) := toy_inflated data in (b :: text, rc)
  | [x01] => ([], Z_BUF_ERROR)
  | _ => ([], Z_DATA_ERROR)
  end.

(** A stream holds what it has yet to yield, once it has seen its input. *)
Definition toy_stream : Type := option (list byte * Z).

Definition toy_step {X} (result : list byte -> list byte * Z) (zs : toy_stream)
  (next_in : list byte) (n : Z) : M X (Z * list byte * list byte * toy_stream) :=
  let '(bytes, final) := default (result next_in) zs in
  if Z.of_nat (length bytes) <=? n then ret (final, bytes, [], Some ([], final))
  else ret (Z_OK, take (Z.to_nat n) bytes, [], Some (drop (Z.to_nat n) bytes, final)).

Definition toy_init {X} : M X (Z * toy_stream) :=
  let* p := malloc 64 in
  ret (if p is Some _ then Z_OK else Z_MEM_ERROR, None).

#[export] Instance toy_zlib (X : Type) : Zlib X := {|
  z_stream := toy_stream;
  deflateInit := toy_init;
  deflate := toy_step (fun text => (toy_deflated text, Z_STREAM_END));
  deflateEnd _ := free;
  inflateInit := toy_init;
  inflate := toy_step toy_inflated;
  inflateEnd _ := free;
|}.

Definition toy_yields (result : list byte -> list byte * Z) (zs : toy_stream)
  (next_in bytes : list byte) (final : Z) : Prop :=
  default (result next_in) zs = (bytes, final).

Lemma toy_yields_law {X} result more :
  more Z_OK = true -> yields (X := X) (fun _ => True) (toy_step result) (toy_yields result) more.
Proof.
  intros Hm w zs next_in bytes final n HS Hn. unfold toy_step. rewrite HS.
  destruct (_ <=? n) eqn:E; apply wp_ret; (split; [apply frame_refl|]); (split; [done|]).
  - left. split; [done|]. split; [done|lia].
  - right. left. split; [done|]. split; [rewrite length_take; lia|].
    exists (drop (Z.to_nat n) bytes). by rewrite take_drop.
Qed.

Lemma toy_opens {X} result :
  opens (X := X) toy_init (fun _ => True) (toy_yields result) result.
Proof.
  intros w. unfold toy_init. wp_step. apply wp_malloc; [done|..].
  - intros _ w' _ _ F _. apply wp_ret. left. do 3 (split; [done|]).
    intros input. unfold toy_yields. cbn. by destruct (result input).
  - intros w' Hno F _. apply wp_ret. right. split; [done|]. split; [|done].
    intros Hm. by apply Hno.
Qed.

Lemma toy_ends {X} : ends (X := X) (fun _ => free) (fun _ => True).
Proof. intros w zs _. apply wp_free. intros w' F _. exact F. Qed.

Lemma toy_inflated_deflated text : toy_inflated (toy_deflated text) = (text, Z_STREAM_END).
Proof. induction text as [|b text IH]; [done|]. cbn. unfold toy_deflated in IH. by rewrite IH. Qed.

Lemma toy_inflated_cut text : forall k, (k < length (toy_deflated text))%nat ->
  exists p, toy_inflated (take k (toy_deflated text)) = (p, Z_BUF_ERROR) /\ p `prefix_of` text.
Proof.
  unfold toy_deflated.
  induction text as [|b text IH]; intros [|[|k]] Hk; cbn in *; try lia;
    try (eexists; split; [reflexivity|apply prefix_nil]).
  destruct (IH k) as (p & -> & Hp); [lia|]. exists (b :: p). split; [done|].
  by apply prefix_cons.
Qed.

#[export] Instance toy_laws (X : Type) : ZlibLaws X := {|
  deflateInit_law := toy_opens _;
  deflate_law := toy_yields_law _ _ eq_refl;
  deflateEnd_law := toy_ends;
  inflateInit_law := toy_opens _;
  inflate_law := toy_yields_law _ _ eq_refl;
  inflateEnd_law := toy_ends;
  inflated_deflated := toy_inflated_deflated;
  inflated_cut := toy_inflated_cut;
|}.

Example zlib_compressor_sample :
  option_bind _ _ (decompressor (la_zlib_compressor 1)) (compressor (la_zlib_compressor 1) (lit "hello")) =
    Some (lit "hello").
Proof. vm_compute. reflexivity. Qed.

(** Damaged data is refused. *)
Example zlib_compressor_damaged : decompressor (la_zlib_compressor 1) [x01; x41; x02; x00] = None.
Proof. vm_compute. reflexivity. Qed.

Lemma small_fills_no_chunk bytes : (length bytes < Z.to_nat CHUNK_SIZE)%nat -> ~ fills_chunks bytes.
Proof.
  intros Hl [Hne Hm]. rewrite Z.mod_small in Hm by (unfold CHUNK_SIZE in *; lia).
  by destruct bytes.
Qed.

(** ** Properties *)

(** C36 (roundtrip): what the zlib driver compresses, it decompresses: for a text and a stream
    of less than four gigabytes that do not fill their last chunk, as long as memory does not
    run out, both runs return, the loops after at most [z_fuel] turns, the first with the zlib
    stream of the text, the second with the text; each leaves exactly the block it returns. *)
Theorem zlib_driver_roundtrip {X} `{ZlibLaws X} text fuel (w : world X) :
  let data := deflated text in
  Z.of_nat (length text) < 2 ^ 32 -> Z.of_nat (length data) < 2 ^ 32 ->
  ~ fills_chunks text -> ~ fills_chunks data ->
  (z_fuel (length text) <= fuel)%nat -> (z_fuel (length data) <= fuel)%nat -> mem_ok w ->
  exists w1 w2,
    _zlib_compress fuel text (Z.of_nat (length text)) w =
      Ret (Some (data, Z.of_nat (length data)), w1) /\
    frame 1 w w1 /\
    _zlib_decompress fuel data (Z.of_nat (length data)) w1 =
      Ret (Some (text, Z.of_nat (length text)), w2) /\
    frame 1 w1 w2.
Proof.
  intros data Ht Hd Hft Hfd Hfu Hfu' Hm.
  pose proof (wp_zlib_compress fuel text w
    (fun r w' => r = Some (data, Z.of_nat (length data)) /\ frame 1 w w')) as Hc.
  apply wp_run in Hc as (r & w1 & E1 & -> & F1); [|done|done|done|fold data; lia|done|done].
  pose proof (wp_zlib_decompress fuel data w1
    (fun r w' => r = Some (text, Z.of_nat (length text)) /\ frame 1 w1 w')) as Hr.
  unfold data in Hr. rewrite inflated_deflated in Hr. cbn [fst snd] in Hr.
  apply wp_run in Hr as (r & w2 & E2 & -> & F2);
    [by exists w1, w2|done|done|done|lia|done|].
  intros w' Hno. exfalso. apply Hno. split; [by eapply frame_mem_ok|done].
Qed.

Lemma zlib_driver_roundtrip_witness :
  let w := World (X := unit) [] (fun _ => x2a) 0 0 tt in
  exists w1 w2,
    _zlib_compress 1 (lit "aab") 3 w = Ret (Some (toy_deflated (lit "aab"), 7), w1) /\
    frame 1 w w1 /\
    _zlib_decompress 1 (toy_deflated (lit "aab")) 7 w1 = Ret (Some (lit "aab", 3), w2) /\
    frame 1 w1 w2.
Proof.
  intros w. refine (zlib_driver_roundtrip (lit "aab") 1 w _ _ _ _ _ _ _).
  - reflexivity.
  - reflexivity.
  - apply small_fills_no_chunk, (bool_decide_unpack _); vm_compute; reflexivity.
  - apply small_fills_no_chunk, (bool_decide_unpack _); vm_compute; reflexivity.
  - apply (bool_decide_unpack _); vm_compute; reflexivity.
  - apply (bool_decide_unpack _); vm_compute; reflexivity.
  - reflexivity.
Defined.

(** C39 (error): a zlib stream that is cut short is not refused: whatever is missing of it, the
    driver returns a beginning of the text and its size, as it does for a whole stream. *)
Theorem zlib_decompress_cut {X} `{ZlibLaws X} text k fuel (w : world X) :
  let data := take k (deflated text) in
  (k < length (deflated text))%nat -> Z.of_nat (length data) < 2 ^ 32 ->
  Z.of_nat (length text) <= 2 ^ 62 -> ~ fills_chunks (inflated data).1 ->
  (z_fuel (length text) <= fuel)%nat -> mem_ok w ->
  exists p w', p `prefix_of` text /\
    _zlib_decompress fuel data (Z.of_nat (length data)) w =
      Ret (Some (p, Z.of_nat (length p)), w') /\
    frame 1 w w'.
Proof.
  intros data Hk Hd Ht Hfc Hfu Hm. destruct (inflated_cut text k Hk) as (p & E & Hp).
  fold data in E. pose proof (prefix_length _ _ Hp) as Hpl.
  pose proof (wp_zlib_decompress fuel data w
    (fun r w' => r = Some (p, Z.of_nat (length p)) /\ frame 1 w w')) as Hr.
  rewrite E in Hr, Hfc. cbn [fst snd] in Hr, Hfc.
  apply wp_run in Hr as (r & w2 & E2 & -> & F2); [by exists p, w2|done| |done|lia|done|].
  - pose proof (Nat.Div0.div_le_mono (length p) (length text) (Z.to_nat CHUNK_SIZE) Hpl).
    unfold z_fuel in *. lia.
  - intros w' Hno. by exfalso; apply Hno.
Qed.

Lemma zlib_decompress_cut_witness :
  let w := World (X := unit) [] (fun _ => x2a) 0 0 tt in
  exists p w', p `prefix_of` lit "aab" /\
    _zlib_decompress 1 [x01; x61; x01] 3 w = Ret (Some (p, Z.of_nat (length p)), w') /\
    frame 1 w w'.
Proof.
  intros w. refine (zlib_decompress_cut (lit "aab") 3 1 w _ _ _ _ _ _).
  - apply (bool_decide_unpack _); vm_compute; reflexivity.
  - reflexivity.
  - vm_compute; discriminate.
  - apply small_fills_no_chunk, (bool_decide_unpack _); vm_compute; reflexivity.
  - apply (bool_decide_unpack _); vm_compute; reflexivity.
  - reflexivity.
Defined.
