(* ===== verification/StringUtils.v ===== *)
(** * String utilities and hex dumps (utils/stringutils.c, utils/hexdump.c)

    C strings are byte lists without NUL; the results are the blocks the functions
    allocate, terminator included.  Reading [/dev/urandom] is an argument: the bytes the
    file yields, or nothing when it cannot be opened. *)

From S2P Require Import Prelude CFormat.
From Stdlib Require Import Init.Byte.

#[local] Open Scope c_scope.

Section join.
Context {X : Type}.

(** The first loop of [string_join]: the bytes of the parts and of the separators between
    them. *)
Fixpoint join_size (sep : list byte) (parts : list (list byte)) : Z :=
  match parts with
  | [] => 0
  | [p] => Z.of_nat (length p)
  | p :: parts => Z.of_nat (length p) + (Z.of_nat (length sep) + join_size sep parts)
  end.

(** The second loop. *)
Fixpoint join_loop (sep : list byte) (parts : list (list byte)) (buf : list byte)
  : outcome (list byte) :=
  match parts with
  | [] => Ret buf
  | p :: parts' =>
      match strcat buf p with
      | Undef u => Undef u
      | Ret buf =>
          match parts' with
          | [] => Ret buf
          | _ :: _ =>
              match strcat buf sep with
              | Undef u => Undef u
              | Ret buf => join_loop sep parts' buf
              end
          end
      end
  end.

Definition string_join (sep : list byte) (parts : list (list byte)) : M X (option (list byte)) :=
  let* buf := malloc (u64 (join_size sep parts + 1)) in
  match buf with
  | None => ret None
  | Some buf =>
      let* buf := lift (mem_write buf 0 [NUL]) in
      let* buf := lift (join_loop sep parts buf) in
      ret (Some buf)
  end.

(** The result of [malloc] is not checked. *)
Definition string_append (prefix suffix : list byte) : M X (list byte) :=
  let* buf := malloc (u64 (Z.of_nat (length prefix) + Z.of_nat (length suffix))) in
  match buf with
  | None => undef NullDeref
  | Some buf =>
      let* buf := lift (mem_write buf 0 [NUL]) in
      let* buf := lift (strcat buf prefix) in
      let* buf := lift (strcat buf suffix) in
      ret buf
  end.
End join.

(** The loop of [string_randhex] from index [i]; the flag says whether every [fread]
    delivered a byte. *)
Fixpoint randhex_loop (urandom : list byte) (i len : Z) (str : list byte)
  : outcome (bool * list byte) :=
  if len <=? i then Ret (true, str)
  else
    match urandom with
    | [] => Ret (false, str)
    | b :: urandom =>
        match mem_write str i [hexify (Z.land (Z.shiftr (b2z b) 4) 15)] with
        | Undef u => Undef u
        | Ret str =>
            match (if i + 1 <? len
                   then mem_write str (i + 1) [hexify (Z.land (b2z b) 15)] else Ret str) with
            | Undef u => Undef u
            | Ret str => randhex_loop urandom (i + 2) len str
            end
        end
    end.

Definition string_randhex (urandom : option (list byte)) (str : list byte) (len : Z)
  : outcome (Z * list byte) :=
  match urandom with
  | None => Ret (-1, str)
  | Some rnd =>
      match randhex_loop rnd 0 len str with
      | Undef u => Undef u
      | Ret (false, str) => Ret (-1, str)
      | Ret (true, str) =>
          match mem_write str len [NUL] with
          | Undef u => Undef u
          | Ret str => Ret (0, str)
          end
      end
  end.

(** [tolower] in the C locale. *)
Definition tolower (b : byte) : byte :=
  if (65 <=? b2z b) && (b2z b <=? 90) then z2b (b2z b + 32) else b.

(** The value [string_unhex] gives to a lower-cased digit. *)
Definition hex_value (c : byte) : option Z :=
  if (48 <=? b2z c) && (b2z c <=? 57) then Some (b2z c - 48)
  else if (97 <=? b2z c) && (b2z c <=? 102) then Some (b2z c - 97 + 10)
  else None.

Fixpoint unhex_loop (str : list byte) (buf : list byte) (size count : Z)
  : outcome (Z * list byte) :=
  match str with
  | a :: b :: str =>
      match hex_value (tolower a), hex_value (tolower b) with
      | Some hi, Some lo =>
          match (if count <? size
                 then mem_write buf count [z2b (Z.lor (Z.shiftl hi 4) lo)] else Ret buf) with
          | Undef u => Undef u
          | Ret buf => unhex_loop str buf size (count + 1)
          end
      | _, _ => Ret (count, buf)
      end
  | _ => Ret (count, buf)
  end.

(** [count] and [j] advance together. *)
Definition string_unhex (str : list byte) (buf : list byte) (size : Z) : outcome (Z * list byte) :=
  unhex_loop str buf size 0.

(** ** Hex dumps *)

(** [isgraph] in the C locale. *)
Definition isgraph (c : byte) : bool := (33 <=? b2z c) && (b2z c <=? 126).

Definition ch (c : byte) : byte := if isgraph c then c else z2b 46.

(** The inner loop over the sixteen columns: [row] is what is left of the line's bytes. *)
Fixpoint dump_cols (n j : nat) (row : list byte) : list byte :=
  match n with
  | O => []
  | S n =>
      (if (j =? 8)%nat then lit " " else []) ++
      match row with
      | b :: _ => print_02x b ++ lit " "
      | [] => lit "   "
      end ++ dump_cols n (S j) (tail row)
  end.

Definition dump_line (addr : Z) (row : list byte) : list byte :=
  print_0lx 8 addr ++ lit "  " ++ dump_cols 16 0 row ++ lit "    " ++ map ch row ++ [z2b 10].

(** The lines written for the [len] bytes at address [addr]; [fuel] bounds the number of
    lines, and the length of the data is always enough. *)
Fixpoint dump_lines (fuel : nat) (addr : Z) (buf : list byte) : list (list byte) :=
  match fuel, buf with
  | S fuel, _ :: _ => dump_line addr (take 16 buf) :: dump_lines fuel (addr + 16) (drop 16 buf)
  | _, _ => []
  end.

Definition la_fhexdump (addr : Z) (buf : list byte) : list byte :=
  concat (dump_lines (length buf) addr buf).

Definition la_hexdump (addr : Z) (buf : list byte) : list byte := la_fhexdump addr buf.

(** ** Specifications *)

(** The parts with the separator between them. *)
Fixpoint join (sep : list byte) (parts : list (list byte)) : list byte :=
  match parts with
  | [] => []
  | [p] => p
  | p :: parts => p ++ sep ++ join sep parts
  end.

(** The hexadecimal text of bytes. *)
Definition hex_string (bs : list byte) : list byte := concat (map print_02x bs).

Lemma join_size_join sep parts : join_size sep parts = Z.of_nat (length (join sep parts)).
Proof.
  induction parts as [|p [|q parts] IH]; [done|done|].
  change (join_size sep (p :: q :: parts)) with
    (Z.of_nat (length p) + (Z.of_nat (length sep) + join_size sep (q :: parts))).
  change (join sep (p :: q :: parts)) with (p ++ sep ++ join sep (q :: parts)).
  rewrite IH. len.
Qed.

Lemma join_cstring sep parts : cstring sep -> Forall cstring parts -> cstring (join sep parts).
Proof.
  intros Hs. induction 1 as [|p parts Hp Hps IH]; [apply cstring_nil|].
  destruct parts as [|q parts]; [done|].
  change (join sep (p :: q :: parts)) with (p ++ sep ++ join sep (q :: parts)).
  by rewrite !cstring_app.
Qed.

Lemma join_loop_ok sep parts : forall d rest,
  cstring d -> cstring sep -> Forall cstring parts ->
  length rest = length (join sep parts) ->
  join_loop sep parts (d ++ NUL :: rest) = Ret (d ++ join sep parts ++ [NUL]).
Proof.
  induction parts as [|p [|q parts] IH]; intros d rest Hd Hs Hps Hl.
  - simpl in *. by destruct rest.
  - apply Forall_cons_1 in Hps as [Hp _]. cbn [join_loop]. simpl in Hl.
    rewrite strcat_ok, drop_ge by (done || lia). done.
  - apply Forall_cons_1 in Hps as [Hp Hps].
    change (join sep (p :: q :: parts)) with (p ++ sep ++ join sep (q :: parts)) in *.
    cbn [join_loop]. rewrite strcat_ok by (done || len).
    rewrite (app_assoc d p), strcat_ok by first [by rewrite cstring_app | len].
    change (join_loop sep (q :: parts) (((d ++ p) ++ sep ++ NUL :: drop (length sep) (drop (length p) rest)))
      = Ret (d ++ (p ++ sep ++ join sep (q :: parts)) ++ [NUL])).
    rewrite (app_assoc (d ++ p)), IH; try done.
    + by rewrite !app_assoc.
    + rewrite !cstring_app. done.
    + len.
Qed.

Lemma string_join_spec {X} sep parts (w : world X) Q :
  cstring sep -> Forall cstring parts ->
  Z.of_nat (length (join sep parts)) < PTRDIFF_MAX ->
  (forall w', frame 1 w w' -> Q (Some (join sep parts ++ [NUL])) w') ->
  (forall w', ~ mem_ok w -> frame 0 w w' -> Q None w') ->
  wp (string_join sep parts) w Q.
Proof.
  intros Hs Hps Hl HS HF. unfold string_join. rewrite join_size_join.
  unfold u64, PTRDIFF_MAX in *. rewrite Z.mod_small by lia.
  wp_step. apply wp_malloc; [lia| |].
  - intros blk w1 Hb _ F1 _. wp_steps. simpl.
    destruct blk as [|b blk]; [simpl in Hb; lia|]. simpl.
    rewrite drop_0. change (NUL :: blk) with ([] ++ NUL :: blk).
    rewrite join_loop_ok by first [done | apply cstring_nil | simpl in Hb; lia].
    wp_steps. auto.
  - intros w1 Hno F1 _. wp_steps. apply HF; [|done].
    intros Ho. apply Hno. unfold PTRDIFF_MAX. split; [done|lia].
Qed.

(** [string_append] allocates no byte for the terminator. *)
Lemma string_append_oob {X} p s (w : world X) :
  cstring p -> cstring s -> exists u, string_append p s w = Undef u.
Proof.
  intros Hp Hs. unfold string_append, bind, malloc.
  set (n := u64 _). destruct (alloc_result n w); [|by eexists].
  assert (Hn : (length (junk_block w (Z.to_nat n)) <= length p + length s)%nat).
  { unfold junk_block. rewrite length_map, length_seq. unfold n, u64.
    pose proof (Z.mod_le (Z.of_nat (length p) + Z.of_nat (length s)) (2 ^ 64)). lia. }
  destruct (junk_block w (Z.to_nat n)) as [|b blk]; [by eexists|]. simpl in Hn.
  unfold lift. rewrite mem_write_ok by len. simpl. rewrite drop_0.
  destruct (decide (length p <= length blk)%nat).
  - change (NUL :: blk) with ([] ++ NUL :: blk).
    rewrite strcat_ok by (done || apply cstring_nil). simpl.
    rewrite strcat_oob by (done || len). by eexists.
  - change (NUL :: blk) with ([] ++ NUL :: blk).
    rewrite strcat_oob by (apply cstring_nil || lia). by eexists.
Qed.

Lemma hex_value_hexify n : 0 <= n < 16 -> hex_value (tolower (hexify n)) = Some n.
Proof.
  intros Hn.
  assert (Forall (fun k => hex_value (tolower (hexify (Z.of_nat k))) = Some (Z.of_nat k)) (seq 0 16))
    as H by (repeat constructor).
  rewrite Forall_forall in H. specialize (H (Z.to_nat n)).
  rewrite Z2Nat.id in H by lia. apply H, in_seq. lia.
Qed.

Lemma nybbles b :
  0 <= Z.shiftr (b2z b) 4 < 16 /\ 0 <= Z.land (b2z b) 15 < 16 /\
  Z.land (Z.shiftr (b2z b) 4) 15 = Z.shiftr (b2z b) 4 /\
  z2b (Z.lor (Z.shiftl (Z.shiftr (b2z b) 4) 4) (Z.land (b2z b) 15)) = b.
Proof. destruct b; vm_compute; intuition discriminate. Qed.

Lemma print_02x_hex b rest buf size count :
  0 <= count -> count < Z.of_nat (length buf) -> count < size ->
  unhex_loop (print_02x b ++ rest) buf size count =
  unhex_loop rest (take (Z.to_nat count) buf ++ [b] ++ drop (Z.to_nat count + 1) buf)
             size (count + 1).
Proof.
  intros H0 Hb Hs. destruct (nybbles b) as (H1 & H2 & _ & H4).
  unfold print_02x. cbn [app unhex_loop]. rewrite !hex_value_hexify by done.
  rewrite (proj2 (Z.ltb_lt _ _)) by lia. rewrite mem_write_ok by len. by rewrite H4.
Qed.

Lemma unhex_loop_hex bs : forall pre buf size,
  (length bs <= length buf)%nat -> Z.of_nat (length pre + length bs) <= size ->
  unhex_loop (hex_string bs) (pre ++ buf) size (Z.of_nat (length pre)) =
  Ret (Z.of_nat (length pre + length bs), pre ++ bs ++ drop (length bs) buf).
Proof.
  induction bs as [|b bs IH]; intros pre buf size Hb Hs.
  - simpl. by rewrite Nat.add_0_r, drop_0.
  - change (hex_string (b :: bs)) with (print_02x b ++ hex_string bs).
    destruct buf as [|x buf]; [simpl in Hb; lia|].
    rewrite print_02x_hex by len.
    rewrite Nat2Z.id, take_app_length.
    assert (drop (length pre + 1) (pre ++ x :: buf) = buf) as ->.
    { rewrite drop_app_ge by lia. by replace (length pre + 1 - length pre)%nat with 1%nat by lia. }
    rewrite app_assoc.
    replace (Z.of_nat (length pre) + 1) with (Z.of_nat (length (pre ++ [b]))) by len.
    rewrite IH by len. simpl. rewrite <- app_assoc. simpl. f_equal. f_equal. len.
Qed.

(** Decoding writes inside the first [size] bytes and keeps the rest. *)
Lemma unhex_loop_bounds n : forall str buf size count,
  (length str <= n)%nat -> 0 <= count -> size <= Z.of_nat (length buf) ->
  exists c buf', unhex_loop str buf size count = Ret (c, buf') /\
    count <= c /\ 2 * (c - count) <= Z.of_nat (length str) /\
    length buf' = length buf /\ drop (Z.to_nat size) buf' = drop (Z.to_nat size) buf.
Proof.
  induction n as [|n IH]; intros [|a [|b str]] buf size count Hn Hc Hs; simpl in Hn;
    try lia; try (eexists _, _; split_and!; (done || simpl; lia)).
  cbn [unhex_loop].
  destruct (hex_value (tolower a)) as [hi|]; [|eexists _, _; split_and!; (done || simpl; lia)].
  destruct (hex_value (tolower b)) as [lo|]; [|eexists _, _; split_and!; (done || simpl; lia)].
  destruct (Z.ltb_spec count size).
  - rewrite mem_write_ok by len.
    set (buf1 := take _ _ ++ _).
    assert (Hl : length buf1 = length buf) by (unfold buf1; rewrite (length_splice _ [_]); len).
    destruct (IH str buf1 size (count + 1)) as (c & buf' & -> & ? & ? & ? & Hd); [lia..|].
    eexists _, _; split_and!; try done; [lia|simpl; lia|lia|].
    rewrite Hd. unfold buf1. rewrite app_assoc, drop_app_ge by len.
    rewrite drop_drop. f_equal. len.
  - destruct (IH str buf size (count + 1)) as (c & buf' & -> & ? & ? & ? & Hd); [lia..|].
    eexists _, _; split_and!; try done; simpl; lia.
Qed.

Lemma randhex_loop_ok rnd : forall pre rest z,
  (length rest = 2 * length rnd)%nat ->
  randhex_loop rnd (Z.of_nat (length pre)) (Z.of_nat (length pre + length rest)) (pre ++ rest ++ [z]) =
  Ret (true, pre ++ hex_string rnd ++ [z]).
Proof.
  induction rnd as [|b rnd IH]; intros pre rest z Hl.
  - destruct rest; [|simpl in Hl; lia]. simpl. by rewrite Nat.add_0_r, Z.leb_refl.
  - destruct rest as [|x [|y rest]]; simpl in Hl; try lia.
    cbn [randhex_loop]. rewrite (proj2 (Z.leb_gt _ _)) by len.
    destruct (nybbles b) as (_ & _ & -> & _).
    rewrite mem_write_ok by len. rewrite Nat2Z.id, take_app_length.
    assert (drop (length pre + length [hexify (Z.shiftr (b2z b) 4)])
              (pre ++ (x :: y :: rest) ++ [z]) = y :: rest ++ [z]) as ->.
    { rewrite drop_app_ge by lia. simpl. by replace (length pre + 1 - length pre)%nat with 1%nat by lia. }
    rewrite (proj2 (Z.ltb_lt _ _)) by len.
    rewrite app_assoc, mem_write_ok by len.
    replace (Z.to_nat (Z.of_nat (length pre) + 1))
      with (length (pre ++ [hexify (Z.shiftr (b2z b) 4)])) by len.
    rewrite take_app_length.
    match goal with |- context [drop ?k ?l] =>
      assert (drop k l = rest ++ [z]) as -> end.
    { rewrite drop_app_ge by lia.
      match goal with |- drop ?k _ = _ => by replace k with 1%nat by (simpl; lia) end. }
    rewrite app_assoc.
    match goal with |- randhex_loop _ _ _ (?p ++ _) = _ => set (pre' := p) end.
    replace (Z.of_nat (length pre) + 2) with (Z.of_nat (length pre')) by (unfold pre'; len).
    replace (length pre + length (x :: y :: rest))%nat with (length pre' + length rest)%nat
      by (unfold pre'; len).
    rewrite IH by lia. unfold pre'. change (hex_string (b :: rnd)) with (print_02x b ++ hex_string rnd).
    unfold print_02x. by rewrite <- !app_assoc.
Qed.

Lemma dump_lines_length fuel : forall addr buf, (length buf <= fuel)%nat ->
  Z.of_nat (length (dump_lines fuel addr buf)) = (Z.of_nat (length buf) + 15) / 16.
Proof.
  induction fuel as [|fuel IH]; intros addr [|b buf] Hl; simpl in Hl; try lia; try done.
  change (dump_lines (S fuel) addr (b :: buf)) with
    (dump_line addr (take 16 (b :: buf)) :: dump_lines fuel (addr + 16) (drop 16 (b :: buf))).
  cbn [length]. rewrite Nat2Z.inj_succ, IH by (rewrite length_drop; simpl; lia).
  rewrite length_drop. cbn [length].
  destruct (decide (length buf < 15)%nat).
  - replace (S (length buf) - 16)%nat with 0%nat by lia.
    change ((Z.of_nat 0 + 15) / 16) with 0.
    apply Z.div_unique with (r := Z.of_nat (length buf)); lia.
  - replace (Z.of_nat (S (length buf)) + 15) with (Z.of_nat (S (length buf) - 16) + 15 + 1 * 16) by lia.
    rewrite (Z.div_add _ 1 16) by lia. lia.
Qed.

Lemma dump_cols_length n : forall j row,
  (length (dump_cols n j row) = 3 * n + (if decide (j <= 8 < j + n) then 1 else 0))%nat.
Proof.
  induction n as [|n IH]; intros j row; cbn [dump_cols].
  - case_decide; simpl; lia.
  - rewrite !length_app, IH.
    assert (length (match row with b :: _ => print_02x b ++ lit " " | [] => lit "   " end) = 3%nat)
      as -> by (by destruct row).
    destruct (Nat.eqb_spec j 8); repeat case_decide; simpl; lia.
Qed.

(** ** Properties *)

(** [string_join] returns a block that holds exactly the parts separated by
    [sep] and the terminator, every byte of it written in bounds, or NULL when [malloc]
    fails. *)
Theorem string_join_correct {X} sep parts (w : world X)
  (Hsep : cstring sep) (Hparts : Forall cstring parts)
  (Hlen : Z.of_nat (length (join sep parts)) < PTRDIFF_MAX) :
  wp (string_join sep parts) w (fun r w' =>
    match r with
    | Some blk => blk = join sep parts ++ [NUL] /\ cstr blk = Ret (join sep parts) /\ frame 1 w w'
    | None => ~ mem_ok w /\ frame 0 w w'
    end).
Proof.
  apply string_join_spec; try done. intros w' F. split_and!; [done| |done].
  apply cstr_app. by apply join_cstring.
Qed.

Lemma string_join_correct_witness :
  wp (string_join (lit "/") [lit "home"; lit "db"; lit "docs"]) (world0 tt) (fun r w' =>
    match r with
    | Some blk => blk = lit "home/db/docs" ++ [NUL] /\ cstr blk = Ret (lit "home/db/docs") /\
                  frame 1 (world0 tt) w'
    | None => ~ mem_ok (world0 tt) /\ frame 0 (world0 tt) w'
    end).
Proof.
  apply (string_join_correct (lit "/") [lit "home"; lit "db"; lit "docs"]).
  - apply (bool_decide_unpack _). vm_compute. exact I.
  - apply (bool_decide_unpack _). vm_compute. exact I.
  - vm_compute. reflexivity.
Defined.

(** The identifier [string_randhex] makes of random bytes is decoded by
    [string_unhex] to those bytes; it is exactly as long as asked and terminated. *)
Theorem string_randhex_unhex (rnd str buf : list byte) (size : Z)
  (Hstr : length str = (2 * length rnd + 1)%nat)
  (Hbuf : (length rnd <= length buf)%nat) (Hsize : Z.of_nat (length rnd) <= size) :
  exists id,
    string_randhex (Some rnd) str (2 * Z.of_nat (length rnd)) = Ret (0, id ++ [NUL]) /\
    length id = (2 * length rnd)%nat /\
    string_unhex id buf size = Ret (Z.of_nat (length rnd), rnd ++ drop (length rnd) buf).
Proof.
  exists (hex_string rnd).
  destruct (exists_last (l := str)) as (rest & z & ->); [intros ->; simpl in Hstr; lia|].
  rewrite length_app in Hstr. simpl in Hstr.
  assert (Hlen : length (hex_string rnd) = (2 * length rnd)%nat).
  { clear. induction rnd as [|b rnd IH]; [done|].
    change (hex_string (b :: rnd)) with (print_02x b ++ hex_string rnd).
    rewrite length_app, IH. simpl. lia. }
  split_and!; [|done|].
  - pose proof (randhex_loop_ok rnd [] rest z ltac:(lia)) as Hr. simpl in Hr.
    replace (Z.of_nat (length rest)) with (2 * Z.of_nat (length rnd)) in Hr by lia.
    unfold string_randhex. change 0 with (Z.of_nat 0) at 1. rewrite Hr, mem_write_ok by len.
    replace (Z.to_nat (2 * Z.of_nat (length rnd))) with (length (hex_string rnd)) by lia.
    rewrite take_app_length, (drop_ge (_ ++ _)) by len. by rewrite app_nil_r.
  - apply (unhex_loop_hex rnd []); simpl; lia.
Qed.

Lemma string_randhex_unhex_witness :
  exists id,
    string_randhex (Some [xde; xad]) [x00; x00; x00; x00; x00] 4 = Ret (0, id ++ [NUL]) /\
    length id = 4%nat /\
    string_unhex id [x00; x00; xff] 3 = Ret (2, [xde; xad; xff]).
Proof.
  apply (string_randhex_unhex [xde; xad] [x00; x00; x00; x00; x00] [x00; x00; xff] 3);
    first [reflexivity | simpl; lia].
Defined.

(** On any text [string_unhex] is defined, writes only into the first [size]
    bytes of the buffer and reports at most half as many bytes as there are characters. *)
Theorem string_unhex_bounds (str buf : list byte) (size : Z)
  (Hsize : size <= Z.of_nat (length buf)) :
  exists c buf', string_unhex str buf size = Ret (c, buf') /\ 0 <= c /\
    2 * c <= Z.of_nat (length str) /\ length buf' = length buf /\
    drop (Z.to_nat size) buf' = drop (Z.to_nat size) buf.
Proof.
  destruct (unhex_loop_bounds (length str) str buf size 0) as (c & buf' & ? & ? & ? & ? & ?);
    [done..|lia|done|]. exists c, buf'. split_and!; try done; lia.
Qed.
