(* ===== verification/Revision.v ===== *)
(** * Revision identifiers (revgen/revgen.c, revgen/revgen.h)

    A revision is a sequence number and sixteen bytes, written ["<decimal>-<hex>"].  The
    file models scanning and printing, with the C library's [snprintf] writing into a
    bounded block, and relates them: what is printed with room enough scans back, and
    [la_rev_string]'s static buffer is one byte short for sequence numbers of twenty
    digits. *)

From S2P Require Import Prelude CFormat StringUtils.
From Stdlib Require Import Init.Byte.

Definition LA_OBJECT_REVISION_LEN : nat := 16.

(** [la_storage_rev_t]: the bytes of a revision. *)
Abbreviation rev_t := (list byte).

Record la_rev := LaRev {
  rseq : Z;
  rrev : rev_t;
}.

(** The value of a digit; the last range test of the source reads ['G']. *)
Definition hx (c : byte) : Z :=
  if (48 <=? b2z c) && (b2z c <=? 57) then b2z c - 48
  else if (97 <=? b2z c) && (b2z c <=? 102) then b2z c - 97 + 10
  else if (65 <=? b2z c) && (b2z c <=? 71) then b2z c - 65 + 10
  else -1.

(** [strchr(s, '-')], from the byte after the dash. *)
Fixpoint after_dash (s : list byte) : option (list byte) :=
  match s with
  | [] => None
  | b :: s => if b2z b =? 45 then Some s else after_dash s
  end.

(** The loop of [la_rev_scan]: [n] bytes are left, [j] is the next one to store. *)
Fixpoint rev_scan_loop (n j : nat) (p : list byte) (out : rev_t) : Z * rev_t :=
  match n, p with
  | S n, a :: b :: p =>
      let x := hx a in
      let y := hx b in
      if (x <? 0) || (y <? 0) then (-1, out)
      else rev_scan_loop n (S j) p (<[j := z2b (Z.lor (Z.shiftl x 4) y)]> out)
  | _, _ => (0, out)
  end.

(** The return value and what [*rev] holds afterwards. *)
Definition la_rev_scan (str : list byte) (rev : la_rev) : Z * la_rev :=
  match scan_llu str with
  | None => (-1, rev)
  | Some seq =>
      let rev := LaRev seq (rrev rev) in
      match after_dash str with
      | None => (-1, rev)
      | Some p =>
          if (length p <? LA_OBJECT_REVISION_LEN * 2)%nat then (-1, rev)
          else
            let '(rc, bytes) := rev_scan_loop LA_OBJECT_REVISION_LEN 0 p (rrev rev) in
            (rc, LaRev seq bytes)
      end
  end.

(** [snprintf(blk + off, size, ...)] of a format that prints [text]. *)
Definition snprintf (blk : list byte) (off size : Z) (text : list byte) : outcome (Z * list byte) :=
  if size =? 0 then Ret (Z.of_nat (length text), blk)
  else
    match mem_write blk off (take (Z.to_nat (size - 1)) text ++ [NUL]) with
    | Ret blk => Ret (Z.of_nat (length text), blk)
    | Undef u => Undef u
    end.

(** The loop of [la_rev_print] over the bytes; [ret] is the value of the last call. *)
Fixpoint rev_print_loop (bytes : rev_t) (blk : list byte) (off size ret : Z)
  : outcome (Z * list byte) :=
  match bytes with
  | [] => Ret (ret, blk)
  | b :: bytes =>
      match snprintf blk off size (print_02x b) with
      | Ret (ret, blk) => rev_print_loop bytes blk (off + ret) (u64 (size - ret)) ret
      | Undef u => Undef u
      end
  end.

(** The value returned is that of the last [snprintf], not the total. *)
Definition la_rev_print (rev : la_rev) (blk : list byte) (size : Z) : outcome (Z * list byte) :=
  match snprintf blk 0 size (print_llu (rseq rev) ++ lit "-") with
  | Ret (ret, blk) => rev_print_loop (rrev rev) blk ret (u64 (size - ret)) ret
  | Undef u => Undef u
  end.

Definition SIZEOF_STRBUF : Z := 20 + Z.of_nat LA_OBJECT_REVISION_LEN * 2 + 1.

(** [strbuf] is the static buffer; the result is the string the caller sees. *)
Definition la_rev_string (strbuf : list byte) (rev : la_rev) : outcome (list byte) :=
  match la_rev_print rev strbuf SIZEOF_STRBUF with
  | Ret (_, strbuf) => cstr strbuf
  | Undef u => Undef u
  end.

(** ** Specifications *)

Definition rev_wf (r : la_rev) : Prop :=
  0 <= rseq r <= ULLONG_MAX /\ length (rrev r) = LA_OBJECT_REVISION_LEN.

(** The text of a revision. *)
Definition rev_text (r : la_rev) : list byte :=
  print_llu (rseq r) ++ lit "-" ++ hex_string (rrev r).

Lemma hx_hexify n : 0 <= n < 16 -> hx (hexify n) = n.
Proof.
  intros Hn.
  assert (Forall (fun k => hx (hexify (Z.of_nat k)) = Z.of_nat k) (seq 0 16)) as H
    by (repeat constructor).
  rewrite Forall_forall in H. specialize (H (Z.to_nat n)).
  rewrite Z2Nat.id in H by lia. apply H, in_seq. lia.
Qed.

Lemma hex_string_length bs : length (hex_string bs) = (2 * length bs)%nat.
Proof.
  induction bs as [|b bs IH]; [done|].
  change (hex_string (b :: bs)) with (print_02x b ++ hex_string bs).
  rewrite length_app, IH. simpl. lia.
Qed.

Lemma rev_scan_loop_hex bs : forall pre out,
  (length bs <= length out)%nat ->
  rev_scan_loop (length bs) (length pre) (hex_string bs) (pre ++ out) =
  (0, pre ++ bs ++ drop (length bs) out).
Proof.
  induction bs as [|b bs IH]; intros pre out Hl; [done|].
  change (hex_string (b :: bs)) with (print_02x b ++ hex_string bs).
  destruct (nybbles b) as (H1 & H2 & _ & H4).
  cbn [length rev_scan_loop print_02x app]. rewrite !hx_hexify, H4 by done.
  rewrite !(proj2 (Z.ltb_ge _ _)) by lia. cbn [orb].
  destruct out as [|x out]; [simpl in Hl; lia|].
  rewrite insert_app_r_alt, Nat.sub_diag by lia. cbn [list_insert insert].
  change (pre ++ b :: out) with (pre ++ [b] ++ out). rewrite app_assoc.
  replace (S (length pre)) with (length (pre ++ [b])) by len.
  rewrite IH by (simpl in Hl; lia). simpl. by rewrite <- app_assoc.
Qed.

Lemma is_digit_not_dash b : is_digit b = true -> (b2z b =? 45) = false.
Proof. unfold is_digit. lia. Qed.

Lemma after_dash_digits ds s :
  Forall (fun b => is_digit b = true) ds -> after_dash (ds ++ lit "-" ++ s) = Some s.
Proof.
  induction 1 as [|d ds Hd _ IH]; [done|]. simpl. by rewrite is_digit_not_dash.
Qed.

Lemma print_llu_Forall z : 0 <= z -> Forall (fun b => is_digit b = true) (print_llu z).
Proof. intros H. destruct (print_llu_digits z H) as (d & ds & -> & ? & ? & _). by constructor. Qed.

(** Scanning the text of a revision. *)
Lemma la_rev_scan_text r old :
  rev_wf r -> length (rrev old) = LA_OBJECT_REVISION_LEN -> la_rev_scan (rev_text r) old = (0, r).
Proof.
  intros [Hs Hr] Ho. unfold la_rev_scan, rev_text.
  rewrite scan_print_llu by done.
  rewrite after_dash_digits by (apply print_llu_Forall; lia).
  rewrite hex_string_length, Hr. cbn [rrev].
  rewrite (proj2 (Nat.ltb_ge _ _)) by lia.
  pose proof (rev_scan_loop_hex (rrev r) [] (rrev old) ltac:(lia)) as HL.
  cbn [length app] in HL. rewrite <- Hr, HL, drop_ge, app_nil_r by lia. by destruct r.
Qed.

(** One [snprintf] at the terminator of what was printed so far. *)
Lemma snprintf_end pre rest size text :
  (length text < Z.to_nat size)%nat -> (length text <= length rest)%nat ->
  snprintf (pre ++ NUL :: rest) (Z.of_nat (length pre)) size text =
  Ret (Z.of_nat (length text), pre ++ text ++ NUL :: drop (length text) rest).
Proof.
  intros Hs Hr. unfold snprintf. rewrite (proj2 (Z.eqb_neq _ _)) by lia.
  rewrite take_ge by lia. rewrite mem_write_ok by len.
  rewrite Nat2Z.id, take_app_length, <- app_assoc. do 3 f_equal.
  rewrite drop_app_ge by lia. rewrite length_app.
  replace (_ + _ - _)%nat with (S (length text)) by (simpl; lia). done.
Qed.

Lemma rev_print_loop_ok bs : forall pre rest size ret,
  Z.of_nat (2 * length bs) < size <= SIZE_MAX -> (2 * length bs <= length rest)%nat ->
  rev_print_loop bs (pre ++ NUL :: rest) (Z.of_nat (length pre)) size ret =
  Ret (match bs with [] => ret | _ :: _ => 2 end, pre ++ hex_string bs ++ NUL :: drop (2 * length bs) rest).
Proof.
  induction bs as [|b bs IH]; intros pre rest size ret Hs Hr; [done|].
  cbn [rev_print_loop]. cbn [length] in *. rewrite snprintf_end by (simpl; lia).
  change (length (print_02x b)) with 2%nat.
  rewrite app_assoc.
  replace (Z.of_nat (length pre) + Z.of_nat 2) with (Z.of_nat (length (pre ++ print_02x b))) by len.
  unfold SIZE_MAX, u64 in *. rewrite Z.mod_small by lia.
  rewrite IH by (unfold SIZE_MAX; len).
  change (hex_string (b :: bs)) with (print_02x b ++ hex_string bs).
  rewrite drop_drop, !app_assoc. f_equal. f_equal; [by destruct bs|].
  f_equal. f_equal. f_equal. lia.
Qed.

Lemma la_rev_print_ok r blk size :
  rrev r <> [] -> Z.of_nat (length (rev_text r)) < size <= Z.of_nat (length blk) ->
  size <= SIZE_MAX ->
  la_rev_print r blk size = Ret (2, rev_text r ++ NUL :: drop (S (length (rev_text r))) blk).
Proof.
  intros Hne Hs Hm. unfold la_rev_print, rev_text in *.
  set (t1 := print_llu (rseq r) ++ lit "-"). rewrite app_assoc in *. fold t1 in Hs |- *.
  rewrite length_app, hex_string_length in Hs.
  unfold snprintf at 1. rewrite (proj2 (Z.eqb_neq _ _)) by lia.
  rewrite take_ge by lia. rewrite mem_write_ok by len.
  match goal with |- rev_print_loop _ ?l _ _ _ = _ =>
    assert (l = t1 ++ NUL :: drop (S (length t1)) blk) as -> end.
  { replace (Z.to_nat 0 + length (t1 ++ [NUL]))%nat with (S (length t1)) by len.
    by rewrite <- app_assoc. }
  unfold SIZE_MAX, u64 in *. rewrite Z.mod_small by lia.
  rewrite rev_print_loop_ok by (unfold SIZE_MAX; len).
  destruct (rrev r) as [|b bs] eqn:E; [done|]. rewrite <- E in *.
  rewrite length_app, hex_string_length, drop_drop, <- app_assoc.
  by do 5 f_equal; lia.
Qed.

(** ** The texts are C strings *)

Lemma hexify_not_nul n : 0 <= n < 16 -> hexify n <> NUL.
Proof.
  intros Hn E. pose proof (hx_hexify n Hn) as H. rewrite E in H. vm_compute in H. lia.
Qed.

Lemma hex_string_cstring bs : cstring (hex_string bs).
Proof.
  induction bs as [|b bs IH]; [apply cstring_nil|].
  change (hex_string (b :: bs)) with (print_02x b ++ hex_string bs).
  apply cstring_app. split; [|done]. destruct (nybbles b) as (H1 & H2 & _).
  apply hexify_not_nul in H1. apply hexify_not_nul in H2.
  unfold cstring, print_02x. rewrite !elem_of_cons. intros [?|[?|?%elem_of_nil]]; congruence.
Qed.

Lemma print_llu_cstring z : 0 <= z -> cstring (print_llu z).
Proof.
  intros H. pose proof (print_llu_Forall z H) as Hf. intros Hin.
  rewrite Forall_forall in Hf. apply list_elem_of_In, Hf in Hin. done.
Qed.

Lemma rev_text_cstring r : 0 <= rseq r -> cstring (rev_text r).
Proof.
  intros H. unfold rev_text. rewrite !cstring_app.
  split_and!; [by apply print_llu_cstring| |apply hex_string_cstring].
  apply (bool_decide_unpack _). reflexivity.
Qed.

(** ** Decimal widths *)

Lemma dec_aux_length k : forall fuel z acc, (k < fuel)%nat ->
  (if decide (k = 0)%nat then 0 else 10 ^ Z.of_nat k) <= z < 10 ^ Z.of_nat (S k) ->
  length (dec_aux fuel z acc) = (S k + length acc)%nat.
Proof.
  induction k as [|k IH]; intros [|fuel] z acc Hk Hz; try lia.
  - cbn [dec_aux]. rewrite (proj2 (Z.ltb_lt _ _)); [done|]. simpl in Hz. lia.
  - rewrite decide_False in Hz by lia.
    rewrite !Nat2Z.inj_succ, !Z.pow_succ_r in Hz by lia.
    pose proof (Z.pow_pos_nonneg 10 (Z.of_nat k)).
    cbn [dec_aux]. rewrite (proj2 (Z.ltb_ge _ _)) by lia.
    rewrite IH; [simpl; lia|lia|].
    rewrite Nat2Z.inj_succ, Z.pow_succ_r by lia.
    pose proof (Z.div_mod z 10 ltac:(lia)). pose proof (Z.mod_pos_bound z 10 ltac:(lia)).
    case_decide; [lia|]. split; lia.
Qed.

Lemma dec_aux_length_le fuel : forall z acc,
  (length (dec_aux fuel z acc) <= fuel + length acc)%nat.
Proof.
  induction fuel as [|fuel IH]; intros z acc; cbn [dec_aux]; [lia|].
  destruct (z <? 10); [simpl; lia|]. etrans; [apply IH|]. simpl. lia.
Qed.

Lemma print_llu_length_le k z : (0 < k)%nat -> 0 <= z < 10 ^ Z.of_nat k ->
  (length (print_llu z) <= k)%nat.
Proof.
  intros Hk Hz. unfold print_llu. destruct (decide (20 <= k)%nat).
  { pose proof (dec_aux_length_le 20 z []). cbn [length] in *. lia. }
  assert (Hlt : (k < 20)%nat) by lia. clear n.
  revert z Hz. induction k as [|k IH]; intros z Hz; [lia|].
  destruct (decide (k = 0)%nat) as [->|Hk0].
  - rewrite (dec_aux_length 0); [done|lia|]. simpl. simpl in Hz. lia.
  - destruct (Z.lt_ge_cases z (10 ^ Z.of_nat k)).
    + etrans; [apply IH; lia|lia].
    + rewrite (dec_aux_length k); [simpl; lia|lia|]. rewrite decide_False by done. lia.
Qed.

Lemma print_llu_length_20 z : 10 ^ 19 <= z <= ULLONG_MAX -> length (print_llu z) = 20%nat.
Proof.
  intros Hz. unfold print_llu, ULLONG_MAX in *. rewrite (dec_aux_length 19); [done|lia|].
  rewrite decide_False by lia. simpl. lia.
Qed.

(** A block one byte short: the last [snprintf] has room for one digit. *)
Lemma rev_print_loop_short b bs : forall pre rest ret,
  length rest = (2 * length bs + 1)%nat -> Z.of_nat (2 * length bs) + 2 <= SIZE_MAX ->
  rev_print_loop (bs ++ [b]) (pre ++ NUL :: rest) (Z.of_nat (length pre))
                 (Z.of_nat (2 * length bs) + 2) ret =
  Ret (2, pre ++ hex_string bs ++ [hexify (Z.shiftr (b2z b) 4); NUL]).
Proof.
  induction bs as [|c bs IH]; intros pre rest ret Hr Hm.
  - destruct rest as [|z [|]]; simpl in Hr; try lia. cbn [app rev_print_loop].
    unfold snprintf. cbn [length]. change (Z.of_nat (2 * 0) + 2) with 2. cbn [Z.eqb].
    change (take (Z.to_nat (2 - 1)) (print_02x b)) with [hexify (Z.shiftr (b2z b) 4)].
    rewrite mem_write_ok by len. simpl length.
    rewrite Nat2Z.id, take_app_length, drop_ge by len. done.
  - cbn [app rev_print_loop]. cbn [length] in *. rewrite snprintf_end by (simpl; lia).
    change (length (print_02x c)) with 2%nat. rewrite app_assoc.
    replace (Z.of_nat (length pre) + Z.of_nat 2) with (Z.of_nat (length (pre ++ print_02x c))) by len.
    replace (u64 _) with (Z.of_nat (2 * length bs) + 2)
      by (unfold SIZE_MAX, u64 in *; rewrite Z.mod_small; lia).
    rewrite IH by len. change (hex_string (c :: bs)) with (print_02x c ++ hex_string bs).
    by rewrite <- !app_assoc.
Qed.

Lemma la_rev_string_short r strbuf :
  length (print_llu (rseq r)) = 20%nat -> length (rrev r) = 16%nat ->
  Z.of_nat (length strbuf) = SIZEOF_STRBUF ->
  exists b bs, rrev r = bs ++ [b] /\ length bs = 15%nat /\
  la_rev_string strbuf r =
    cstr (print_llu (rseq r) ++ lit "-" ++ hex_string bs ++ [hexify (Z.shiftr (b2z b) 4); NUL]).
Proof.
  intros Hd Hl Hb.
  destruct (exists_last (l := rrev r)) as (bs & b & E); [intros E; by rewrite E in Hl|].
  exists b, bs. rewrite E in *. rewrite length_app in Hl. simpl in Hl.
  split_and!; [done|lia|].
  unfold la_rev_string, la_rev_print. rewrite E. change SIZEOF_STRBUF with 53 in *.
  set (t1 := print_llu (rseq r) ++ lit "-").
  assert (Ht : length t1 = 21%nat) by (unfold t1; rewrite length_app, Hd; done).
  unfold snprintf at 1. cbn [Z.eqb]. rewrite take_ge by (rewrite Ht; vm_compute; lia).
  rewrite mem_write_ok by len.
  match goal with |- context [rev_print_loop _ ?l _ _ _] =>
    assert (l = t1 ++ NUL :: drop (S (length t1)) strbuf) as -> end.
  { replace (Z.to_nat 0 + length (t1 ++ [NUL]))%nat with (S (length t1)) by len.
    by rewrite <- app_assoc. }
  replace (u64 (53 - Z.of_nat (length t1))) with (Z.of_nat (2 * length bs) + 2)
    by (rewrite Ht; replace (length bs) with 15%nat by lia; reflexivity).
  rewrite rev_print_loop_short by (unfold SIZE_MAX; len).
  f_equal. unfold t1. by rewrite <- !app_assoc.
Qed.

(** ** Properties *)

(** Printing a revision into a block with room for its text and the
    terminator leaves exactly that text there, and scanning the text gives the revision
    back. *)
Theorem la_rev_print_scan (r old : la_rev) (blk : list byte) (size : Z)
  (Hr : rev_wf r) (Hold : length (rrev old) = LA_OBJECT_REVISION_LEN)
  (Hsize : 54 <= size <= Z.of_nat (length blk)) (Hmax : size <= SIZE_MAX) :
  exists blk' text, la_rev_print r blk size = Ret (2, blk') /\ cstr blk' = Ret text /\
    la_rev_scan text old = (0, r).
Proof.
  destruct (Hr) as [Hs Hl].
  destruct (print_llu_digits (rseq r)) as (d & ds & E & _ & _ & Hds); [lia|].
  assert (length (rev_text r) <= 53)%nat.
  { unfold rev_text. rewrite !length_app, hex_string_length, Hl, E. simpl. lia. }
  eexists _, (rev_text r). split_and!.
  - apply la_rev_print_ok; [|lia|done]. intros E'. by rewrite E' in Hl.
  - apply cstr_app, rev_text_cstring; lia.
  - by apply la_rev_scan_text.
Qed.

Definition rev_example : la_rev := LaRev 18446744073709551615 (replicate 16 xa5).

Lemma la_rev_print_scan_witness :
  exists blk' text, la_rev_print rev_example (replicate 60 x00) 60 = Ret (2, blk') /\
    cstr blk' = Ret text /\ la_rev_scan text (LaRev 0 (replicate 16 x00)) = (0, rev_example).
Proof.
  apply (la_rev_print_scan rev_example (LaRev 0 (replicate 16 x00)) (replicate 60 x00) 60).
  - split; [vm_compute; split; discriminate|reflexivity].
  - reflexivity.
  - vm_compute; split; discriminate.
  - vm_compute; discriminate.
Defined.

(** [la_rev_string] never leaves its static buffer; below 10^19 the string it
    returns scans back to the revision, and from 10^19 on it has lost its last digit and
    does not scan. *)
Theorem la_rev_string_limit (r old : la_rev) (strbuf : list byte)
  (Hr : rev_wf r) (Hold : length (rrev old) = LA_OBJECT_REVISION_LEN)
  (Hbuf : Z.of_nat (length strbuf) = SIZEOF_STRBUF) :
  exists s, la_rev_string strbuf r = Ret s /\
    (rseq r < 10 ^ 19 -> la_rev_scan s old = (0, r)) /\
    (10 ^ 19 <= rseq r -> (la_rev_scan s old).1 = -1).
Proof.
  destruct (Hr) as [Hs Hl]. destruct (Z.lt_ge_cases (rseq r) (10 ^ 19)) as [Hlt|Hge].
  - exists (rev_text r).
    pose proof (print_llu_length_le 19 (rseq r) ltac:(lia) ltac:(lia)) as Hd.
    split_and!; [|by intros; apply la_rev_scan_text|lia].
    unfold la_rev_string. rewrite la_rev_print_ok.
    + apply cstr_app, rev_text_cstring; lia.
    + intros E'. by rewrite E' in Hl.
    + rewrite Hbuf. unfold rev_text.
      rewrite !length_app, hex_string_length, Hl. change SIZEOF_STRBUF with 53. simpl in *. lia.
    + vm_compute. discriminate.
  - pose proof (print_llu_length_20 (rseq r) ltac:(lia)) as Hd.
    destruct (la_rev_string_short r strbuf Hd Hl Hbuf) as (b & bs & E & Hbs & ->).
    set (tail := hex_string bs ++ [hexify (Z.shiftr (b2z b) 4)]).
    exists (print_llu (rseq r) ++ lit "-" ++ tail). split_and!; [|lia|].
    + replace (hex_string bs ++ [hexify (Z.shiftr (b2z b) 4); NUL]) with (tail ++ [NUL])
        by (unfold tail; by rewrite <- app_assoc).
      replace (print_llu (rseq r) ++ lit "-" ++ tail ++ [NUL])
        with ((print_llu (rseq r) ++ lit "-" ++ tail) ++ [NUL]) by (by rewrite <- !app_assoc).
      apply cstr_app. unfold tail. rewrite !cstring_app. split_and!.
      * apply print_llu_cstring. lia.
      * apply (bool_decide_unpack _). reflexivity.
      * apply hex_string_cstring.
      * destruct (nybbles b) as (? & _). unfold cstring. intros Hin%list_elem_of_singleton.
        symmetry in Hin. by apply hexify_not_nul in Hin.
    + intros _. unfold la_rev_scan. rewrite scan_print_llu by (done || lia).
      rewrite after_dash_digits by (apply print_llu_Forall; lia).
      unfold tail. rewrite length_app, hex_string_length, Hbs. reflexivity.
Qed.

Lemma la_rev_string_limit_witness :
  exists s, la_rev_string (replicate 53 x00) rev_example = Ret s /\
    (rseq rev_example < 10 ^ 19 -> la_rev_scan s (LaRev 0 (replicate 16 x00)) = (0, rev_example)) /\
    (10 ^ 19 <= rseq rev_example -> (la_rev_scan s (LaRev 0 (replicate 16 x00))).1 = -1).
Proof.
  apply (la_rev_string_limit rev_example (LaRev 0 (replicate 16 x00)) (replicate 53 x00)).
  - split; [vm_compute; split; discriminate|reflexivity].
  - reflexivity.
  - reflexivity.
Defined.
