(* ===== verification/ObjectStore.v ===== *)
(** * Stored objects and storage drivers (Storage/ObjectStore.h, Storage/ObjectStore.c)

    The object record with its packed header as it lies in memory and on disk, object
    creation, the revision-overlap test, the driver registry and the dispatch from a store
    handle to its driver. *)

From S2P Require Import Prelude Uthash StringUtils Revision.
From Stdlib Require Import Init.Byte.

#[local] Open Scope c_scope.

Definition LA_OBJECT_MAX_REVISION_COUNT : Z := 1024.
Definition REV_LEN : Z := 16.

Inductive la_storage_object_get_result :=
| LA_STORAGE_OBJECT_GET_OK
| LA_STORAGE_OBJECT_GET_NOT_FOUND
| LA_STORAGE_OBJECT_GET_REVISION_NOT_FOUND
| LA_STORAGE_OBJECT_GET_ERROR.

Inductive la_storage_object_put_result :=
| LA_STORAGE_OBJECT_PUT_SUCCESS
| LA_STORAGE_OBJECT_PUT_CONFLICT
| LA_STORAGE_OBJECT_PUT_ERROR.

Inductive la_storage_open_result_t :=
| LA_STORAGE_OPEN_OK
| LA_STORAGE_OPEN_CREATED
| LA_STORAGE_OPEN_NOT_FOUND
| LA_STORAGE_OPEN_EXISTS
| LA_STORAGE_OPEN_ERROR
| LA_STORAGE_OPEN_NO_DRIVER.

Inductive la_storage_object_iterator_result :=
| LA_STORAGE_OBJECT_ITERATOR_GOT_NEXT
| LA_STORAGE_OBJECT_ITERATOR_END
| LA_STORAGE_OBJECT_ITERATOR_ERROR.

Definition LA_STORAGE_OPEN_FLAG_CREATE : Z := 1.
Definition LA_STORAGE_OPEN_FLAG_EXCL : Z := 2.

#[export] Instance get_result_eq_dec : EqDecision la_storage_object_get_result.
Proof. solve_decision. Defined.
#[export] Instance put_result_eq_dec : EqDecision la_storage_object_put_result.
Proof. solve_decision. Defined.
#[export] Instance open_result_eq_dec : EqDecision la_storage_open_result_t.
Proof. solve_decision. Defined.
#[export] Instance iterator_result_eq_dec : EqDecision la_storage_object_iterator_result.
Proof. solve_decision. Defined.

(** ** Headers: the fields, and the 34 packed bytes *)

Record la_storage_object_header := Header {
  seq : Z;
  doc_seq : Z;
  deleted : Z;
  rev_count : Z;
  rev : rev_t;
}.

Definition SIZEOF_HEADER : Z := 34.

(** The two bit fields share two bytes, [deleted] in the lowest bit. *)
Definition encode_header (h : la_storage_object_header) : list byte :=
  le_bytes 8 (seq h) ++ le_bytes 8 (doc_seq h) ++
  le_bytes 2 (deleted h + 2 * rev_count h) ++ rev h.

Definition decode_header (bs : list byte) : la_storage_object_header :=
  let bits := le_value (take 2 (drop 16 bs)) in
  Header (le_value (take 8 bs)) (le_value (take 8 (drop 8 bs)))
         (bits mod 2) (bits / 2) (take 16 (drop 18 bs)).

(** Assignments to the bit fields. *)
Definition set_deleted (z : Z) (h : la_storage_object_header) : la_storage_object_header :=
  Header (seq h) (doc_seq h) (z mod 2) (rev_count h) (rev h).

Definition set_rev_count (z : Z) (h : la_storage_object_header) : la_storage_object_header :=
  Header (seq h) (doc_seq h) (deleted h) (z mod 2 ^ 15) (rev h).

Definition set_seq (z : Z) (h : la_storage_object_header) : la_storage_object_header :=
  Header (u64 z) (doc_seq h) (deleted h) (rev_count h) (rev h).

Definition set_doc_seq (z : Z) (h : la_storage_object_header) : la_storage_object_header :=
  Header (seq h) (u64 z) (deleted h) (rev_count h) (rev h).

(** ** Objects *)

(** [key] is a C string or NULL; [revs_data] is the flexible array behind the header: all
    the bytes allocated there. *)
Record la_storage_object := Object {
  key : option (list byte);
  header : la_storage_object_header;
  revs_data : list byte;
  data_length : Z;
}.

(** Assignments through the object. *)
Definition with_header (h : la_storage_object_header) (o : la_storage_object)
  : la_storage_object := Object (key o) h (revs_data o) (data_length o).

Definition with_revs_data (d : list byte) (o : la_storage_object) : la_storage_object :=
  Object (key o) (header o) d (data_length o).

(** The macros [la_storage_object_get_data] (as an offset into [revs_data]) and
    [la_storage_object_total_size]. *)
Definition get_data_offset (o : la_storage_object) : Z := REV_LEN * rev_count (header o).

Definition la_storage_object_get_data (o : la_storage_object) : outcome (list byte) :=
  mem_read (revs_data o) (get_data_offset o) (data_length o).

Definition la_storage_object_total_size (o : la_storage_object) : Z :=
  SIZEOF_HEADER + REV_LEN * rev_count (header o) + data_length o.

(** The memory [header] points to. *)
Definition header_memory (o : la_storage_object) : list byte :=
  encode_header (header o) ++ revs_data o.

Definition SIZEOF_OBJECT : Z := 24.

Section objects.
Context {X : Type}.

Definition strdup (s : list byte) : M X (option (list byte)) :=
  let* p := malloc (Z.of_nat (length s) + 1) in
  match p with
  | None => ret None
  | Some blk =>
      let* blk := lift (mem_write blk 0 (s ++ [NUL])) in
      let* s := lift (cstr blk) in
      ret (Some s)
  end.

(** [data] and [revs] are the memory the pointers point to. *)
Definition la_storage_create_object (k : list byte) (r : rev_t) (data : list byte) (len : Z)
  (revs : option (list byte)) (revcount : Z) : M X (option la_storage_object) :=
  let* obj := malloc SIZEOF_OBJECT in
  match obj with
  | None => ret None
  | Some _ =>
      let* k := strdup k in
      match k with
      | None => free ;;; ret None
      | Some k =>
          let total_len := u64 (SIZEOF_HEADER + len + revcount * REV_LEN) in
          let* h := malloc total_len in
          match h with
          | None => free ;;; free ;;; ret None
          | Some _ =>
              let blk := replicate (Z.to_nat (total_len - SIZEOF_HEADER)) x00 in
              let* '(rc, blk) :=
                match revs with
                | Some revs =>
                    let* d := lift (mem_read revs 0 (revcount * REV_LEN)) in
                    let* blk := lift (mem_write blk 0 d) in
                    ret (revcount mod 2 ^ 15, blk)
                | None => ret (0, blk)
                end in
              let* d := lift (mem_read data 0 len) in
              let* blk := lift (mem_write blk (REV_LEN * rc) d) in
              ret (Some (Object (Some k) (Header 0 0 0 rc r) blk (u32 len)))
          end
      end
  end.

Definition la_storage_destroy_object (o : la_storage_object) : M X unit :=
  free ;;; free ;;; free.
End objects.

(** The count, and the revisions starting with the current one. *)
Definition la_storage_object_get_all_revs (o : la_storage_object) : outcome (Z * list byte) :=
  let n := rev_count (header o) + 1 in
  match mem_read (rev (header o) ++ revs_data o) 0 (REV_LEN * n) with
  | Ret revs => Ret (n, revs)
  | Undef u => Undef u
  end.

Definition la_storage_scan_rev (str : list byte) (r : rev_t) : outcome (Z * rev_t) :=
  string_unhex str r REV_LEN.

Definition la_min (a b : Z) : Z := if a <? b then a else b.

(** The loop of [la_storage_revs_overlap] for the [n] iterations from [i]. *)
Fixpoint overlap_loop (n : nat) (i : Z) (revs1 : list byte) (count1 : Z) (revs2 : list byte)
  (count2 : Z) : outcome Z :=
  match n with
  | O => Ret 0
  | S n =>
      let len := REV_LEN * la_min count1 (count2 - i) in
      match mem_read revs1 0 len, mem_read revs2 (REV_LEN * i) len with
      | Ret a, Ret b =>
          if decide (a = b) then Ret 1 else overlap_loop n (i + 1) revs1 count1 revs2 count2
      | _, _ => Undef OutOfBounds
      end
  end.

Definition la_storage_revs_overlap (revs1 : list byte) (count1 : Z) (revs2 : list byte)
  (count2 : Z) : outcome Z :=
  overlap_loop (Z.to_nat (count2 - 1)) 0 revs1 count1 revs2 count2.

(** ** Drivers *)

(** [la_object_store_driver_t] over the types of the driver's environments, stores and
    iterators; the entries some driver leaves NULL are optional. *)
Record la_object_store_driver (X E S I : Type) := Driver {
  drv_name : list byte;
  drv_open_env : list byte -> M X (option E);
  drv_close_env : E -> M X unit;
  drv_open_store : option E -> list byte -> Z -> M X (la_storage_open_result_t * option S);
  drv_close_store : S -> M X unit;
  drv_delete_store : option (S -> M X Z);
  drv_get : S -> list byte -> option rev_t ->
            M X (la_storage_object_get_result * option la_storage_object);
  drv_get_rev : S -> list byte -> M X (la_storage_object_get_result * option rev_t);
  drv_get_all_revs : S -> list byte -> M X (Z * option (Z * option (list byte)));
  drv_set_revs : option (S -> list byte -> list byte -> Z -> M X la_storage_object_put_result);
  drv_put : S -> option rev_t -> la_storage_object ->
            M X (la_storage_object_put_result * la_storage_object);
  drv_replace : S -> la_storage_object ->
                M X (la_storage_object_put_result * la_storage_object);
  drv_lastseq : S -> M X Z;
  drv_stat : S -> M X (Z * option (Z * Z));
  drv_iterator_open : S -> Z -> M X (option I);
  drv_iterator_next : I ->
                      M X (la_storage_object_iterator_result * option la_storage_object * I);
  drv_iterator_close : I -> M X unit;
}.
Arguments drv_name {X E S I}.
Arguments drv_open_env {X E S I}.
Arguments drv_close_env {X E S I}.
Arguments drv_open_store {X E S I}.
Arguments drv_close_store {X E S I}.
Arguments drv_delete_store {X E S I}.
Arguments drv_get {X E S I}.
Arguments drv_get_rev {X E S I}.
Arguments drv_get_all_revs {X E S I}.
Arguments drv_set_revs {X E S I}.
Arguments drv_put {X E S I}.
Arguments drv_replace {X E S I}.
Arguments drv_lastseq {X E S I}.
Arguments drv_stat {X E S I}.
Arguments drv_iterator_open {X E S I}.
Arguments drv_iterator_next {X E S I}.
Arguments drv_iterator_close {X E S I}.

(** [struct la_object_store]: a store handle. *)
Record la_object_store (X E S I : Type) := Store {
  st_env : option E;
  st_store : option S;
  st_driver : la_object_store_driver X E S I;
}.
Arguments Store {X E S I}.
Arguments st_env {X E S I}.
Arguments st_store {X E S I}.
Arguments st_driver {X E S I}.

Section drivers.
Context {X E S I : Type}.
Let driver := la_object_store_driver X E S I.
Let store := la_object_store X E S I.

(** [struct driver_entry]: the strings and drivers with the addresses the entry stores. *)
Record driver_entry := DriverEntry {
  de_name : list byte;
  de_driver : driver;
}.

Definition drivers_table : Type := UT_hash_table driver_entry.

(** The memory of an entry: two pointers and the hash handle. *)
Definition entry_memory (name_addr driver_addr : Z) (hh : list byte) : list byte :=
  pointer_bytes name_addr ++ pointer_bytes driver_addr ++ hh.

(** The registry after the call, with the return value; [name] and [d] are at [name_addr] and
    [driver_addr], [hh] is the memory of the fresh hash handle.  The result of [malloc] is
    not checked. *)
Definition la_storage_install_driver (drivers : drivers_table) (name_addr : Z) (name : list byte)
  (driver_addr : Z) (d : driver) (hh : list byte) : M X (Z * drivers_table) :=
  match HASH_FIND_STR drivers name with
  | Some _ => set_errno EEXIST ;;; ret (-1, drivers)
  | None =>
      let* e := malloc 72 in
      match e with
      | None => undef NullDeref
      | Some _ =>
          let* drivers := HASH_ADD_STR drivers (entry_memory name_addr driver_addr hh) name
                            (DriverEntry name d) in
          ret (0, drivers)
      end
  end.

Definition la_storage_open_env (drivers : drivers_table) (drv name : list byte)
  : M X (option E) :=
  match HASH_FIND_STR drivers drv with
  | None => ret None
  | Some e => drv_open_env (de_driver e) name
  end.

Definition la_storage_close_env (drivers : drivers_table) (drv : list byte) (env : E)
  : M X unit :=
  match HASH_FIND_STR drivers drv with
  | None => ret tt
  | Some e => drv_close_env (de_driver e) env
  end.

(** The driver is looked up by the name of the store. *)
Definition la_storage_open (drivers : drivers_table) (drv : list byte)
  (env : option E) (name : list byte) (flags : Z) : M X (la_storage_open_result_t * option store) :=
  match HASH_FIND_STR drivers name with
  | None => ret (LA_STORAGE_OPEN_NO_DRIVER, None)
  | Some e =>
      let d := de_driver e in
      let* '(r, objstore) := drv_open_store d env name flags in
      if negb (bool_decide (r = LA_STORAGE_OPEN_OK)) then
        match env with
        | Some env => drv_close_env d env ;;; ret (LA_STORAGE_OPEN_ERROR, None)
        | None => ret (r, None)
        end
      else
        let* st := malloc 24 in
        match st with
        | None =>
            (match objstore with
             | Some s => drv_close_store d s
             | None => undef NullDeref
             end) ;;;
            match env with
            | Some env => drv_close_env d env ;;; ret (LA_STORAGE_OPEN_ERROR, None)
            | None => ret (LA_STORAGE_OPEN_ERROR, None)
            end
        | Some _ => ret (LA_STORAGE_OPEN_OK, Some (Store env objstore d))
        end
  end.

Definition la_storage_close (st : store) : M X unit :=
  (match st_store st with Some s => drv_close_store (st_driver st) s | None => ret tt end) ;;;
  (match st_env st with Some e => drv_close_env (st_driver st) e | None => ret tt end) ;;;
  free.

(** Calls through the handle; a closed store and a missing entry are NULL. *)
Definition with_store {A} (st : store) (k : S -> M X A) : M X A :=
  match st_store st with Some s => k s | None => undef NullDeref end.

Definition la_storage_delete_store (st : store) : M X unit :=
  match drv_delete_store (st_driver st) with
  | None => undef NullDeref
  | Some del =>
      with_store st (fun s =>
        let* rc := del s in
        if rc =? 0 then la_storage_close st else ret tt)
  end.

Definition la_storage_get (st : store) (k : list byte) (r : option rev_t) :=
  with_store st (fun s => drv_get (st_driver st) s k r).

Definition la_storage_get_rev (st : store) (k : list byte) :=
  with_store st (fun s => drv_get_rev (st_driver st) s k).

Definition la_storage_get_all_revs (st : store) (k : list byte) :=
  with_store st (fun s => drv_get_all_revs (st_driver st) s k).

Definition la_storage_set_revs (st : store) (k revs : list byte) (revcount : Z) :=
  match drv_set_revs (st_driver st) with
  | None => undef NullDeref
  | Some f => with_store st (fun s => f s k revs revcount)
  end.

Definition la_storage_put (st : store) (r : option rev_t) (o : la_storage_object) :=
  with_store st (fun s => drv_put (st_driver st) s r o).

Definition la_storage_replace (st : store) (o : la_storage_object) :=
  with_store st (fun s => drv_replace (st_driver st) s o).

Definition la_storage_lastseq (st : store) :=
  with_store st (fun s => drv_lastseq (st_driver st) s).

(** The return code, with [numkeys] and [size] when they were stored. *)
Definition la_storage_stat (st : store) :=
  with_store st (fun s => drv_stat (st_driver st) s).

Definition la_storage_iterator_open (st : store) (since : Z) :=
  with_store st (fun s => drv_iterator_open (st_driver st) s since).

Definition la_storage_iterator_next (st : store) (it : I) := drv_iterator_next (st_driver st) it.

Definition la_storage_iterator_close (st : store) (it : I) := drv_iterator_close (st_driver st) it.
End drivers.
Arguments driver_entry : clear implicits.
Arguments DriverEntry {X E S I}.
Arguments drivers_table : clear implicits.

(** ** Headers in memory *)

Definition header_wf (h : la_storage_object_header) : Prop :=
  0 <= seq h < 2 ^ 64 /\ 0 <= doc_seq h < 2 ^ 64 /\ 0 <= deleted h < 2 /\
  0 <= rev_count h < 2 ^ 15 /\ length (rev h) = 16%nat.

#[export] Instance header_wf_dec h : Decision (header_wf h).
Proof. unfold header_wf. apply _. Defined.

Lemma length_encode_header h : header_wf h -> length (encode_header h) = 34%nat.
Proof.
  intros (_ & _ & _ & _ & Hr). unfold encode_header.
  rewrite !length_app, !length_le_bytes, Hr. done.
Qed.

Lemma decode_encode_header h rest :
  header_wf h -> decode_header (take 34 (encode_header h ++ rest)) = h.
Proof.
  intros Hwf. rewrite take_app_exact by (by rewrite length_encode_header).
  destruct Hwf as (Hs & Hd & Hdel & Hrc & Hr).
  destruct h as [s d dl rc r]; unfold decode_header, encode_header; cbn [seq doc_seq deleted rev_count rev] in *.
  assert (take 2 (drop 16 (le_bytes 8 s ++ le_bytes 8 d ++ le_bytes 2 (dl + 2 * rc) ++ r))
          = le_bytes 2 (dl + 2 * rc)) as ->.
  { rewrite (app_assoc (le_bytes 8 s)).
    rewrite drop_app_exact by (by rewrite length_app, !length_le_bytes).
    by apply take_app_exact. }
  rewrite (le_value_bytes_small 2) by lia.
  rewrite take_app_exact by (by rewrite length_le_bytes).
  rewrite drop_app_exact by (by rewrite length_le_bytes).
  rewrite take_app_exact by (by rewrite length_le_bytes).
  rewrite !le_value_bytes_small by lia.
  f_equal; [Z.div_mod_to_equations; lia | Z.div_mod_to_equations; lia |].
  rewrite (app_assoc (le_bytes 8 d)), (app_assoc (le_bytes 8 s)).
  rewrite drop_app_exact by (by rewrite !length_app, !length_le_bytes).
  apply take_ge. lia.
Qed.

Lemma decode_header_wf bs : length bs = 34%nat -> header_wf (decode_header bs).
Proof.
  intros Hl. unfold header_wf, decode_header; cbn [seq doc_seq deleted rev_count rev].
  assert (forall k o, (o + k <= 34)%nat -> length (take k (drop o bs)) = k) as HL
    by (intros; len).
  pose proof (le_value_bound (take 8 bs)) as H1.
  pose proof (le_value_bound (take 8 (drop 8 bs))) as H2.
  pose proof (le_value_bound (take 2 (drop 16 bs))) as H3.
  rewrite <- (drop_0 bs), HL in H1 by lia. rewrite HL in H2, H3 by lia. rewrite HL by lia.
  rewrite drop_0 in H1.
  change (256 ^ Z.of_nat 8) with (2 ^ 64) in *. change (256 ^ Z.of_nat 2) with 65536 in *.
  repeat split; Z.div_mod_to_equations; lia.
Qed.

(** ** Lists of revisions as memory *)

Definition revs_wf (l : list rev_t) : Prop := Forall (fun r => length r = 16%nat) l.

Lemma length_concat_revs l : revs_wf l -> length (concat l) = (16 * length l)%nat.
Proof.
  unfold revs_wf. induction 1 as [|r l Hr _ IH]; [done|].
  cbn [concat length]. rewrite length_app, IH, Hr. lia.
Qed.

Lemma take_concat_revs l n : revs_wf l -> take (16 * n) (concat l) = concat (take n l).
Proof.
  unfold revs_wf. intros H. revert n. induction H as [|r l Hr _ IH]; intros n.
  - cbn [concat]. by rewrite !take_nil.
  - destruct n as [|n]; [done|]. cbn [concat take].
    rewrite take_app_ge by lia. rewrite <- IH. do 2 f_equal. lia.
Qed.

Lemma drop_concat_revs l n : revs_wf l -> drop (16 * n) (concat l) = concat (drop n l).
Proof.
  unfold revs_wf. intros H. revert n. induction H as [|r l Hr _ IH]; intros n.
  - cbn [concat]. by rewrite !drop_nil.
  - destruct n as [|n]; [done|]. cbn [concat drop].
    rewrite drop_app_ge by lia. rewrite <- IH. f_equal. lia.
Qed.

Lemma concat_revs_inj l1 l2 : revs_wf l1 -> revs_wf l2 -> concat l1 = concat l2 -> l1 = l2.
Proof.
  unfold revs_wf. intros H1. revert l2.
  induction H1 as [|r1 l1 Hr1 _ IH]; intros l2 H2 E; destruct H2 as [|r2 l2 Hr2 H2];
    cbn [concat] in E.
  - done.
  - apply (f_equal length) in E. len.
  - apply (f_equal length) in E. len.
  - apply app_inj_1 in E as [-> E]; [|congruence]. f_equal. by apply IH.
Qed.

Lemma revs_wf_drop n l : revs_wf l -> revs_wf (drop n l).
Proof. apply Forall_drop. Qed.

Lemma revs_wf_take n l : revs_wf l -> revs_wf (take n l).
Proof. apply Forall_take. Qed.

(** One of two histories continues the other. *)
Definition aligned {A} (l1 l2 : list A) : Prop := l1 `prefix_of` l2 \/ l2 `prefix_of` l1.

Lemma aligned_take {A} (l1 l2 : list A) :
  aligned l1 l2 <->
    take (Nat.min (length l1) (length l2)) l1 = take (Nat.min (length l1) (length l2)) l2.
Proof.
  unfold aligned. split.
  - intros [[k ->]|[k ->]]; rewrite length_app, ?Nat.min_l, ?Nat.min_r by lia;
      by rewrite take_app_length, take_ge.
  - destruct (decide (length l1 <= length l2)%nat).
    + rewrite Nat.min_l by lia. rewrite take_ge by lia. intros E. left.
      exists (drop (length l1) l2). by rewrite E at 1; rewrite take_drop.
    + rewrite Nat.min_r by lia. rewrite (take_ge l2) by lia. intros E. right.
      exists (drop (length l2) l1). by rewrite <- E at 1; rewrite take_drop.
Qed.

Lemma overlap_loop_spec l1 l2 n i :
  revs_wf l1 -> revs_wf l2 -> (i + n < length l2 \/ n = 0)%nat ->
  exists b, overlap_loop n (Z.of_nat i) (concat l1) (Z.of_nat (length l1)) (concat l2)
              (Z.of_nat (length l2)) = Ret (c_bool b) /\
    (b = true <-> exists j, (i <= j < i + n)%nat /\ aligned l1 (drop j l2)).
Proof.
  intros H1 H2. revert i. induction n as [|n IH]; intros i Hi; cbn [overlap_loop].
  - exists false. split; [done|]. split; [done|]. intros (j & ? & _). lia.
  - set (m := Nat.min (length l1) (length (drop i l2))).
    assert (REV_LEN * la_min (Z.of_nat (length l1)) (Z.of_nat (length l2) - Z.of_nat i)
            = 16 * Z.of_nat m) as ->.
    { unfold m, la_min, REV_LEN. rewrite length_drop. case_match; lia. }
    rewrite !mem_read_ok by (unfold m, REV_LEN; rewrite ?length_concat_revs, ?length_drop by done; lia).
    unfold REV_LEN. replace (Z.to_nat (16 * Z.of_nat m)) with (16 * m)%nat by lia.
    replace (Z.to_nat (16 * Z.of_nat i)) with (16 * i)%nat by lia.
    rewrite drop_concat_revs, drop_0, !take_concat_revs by auto using revs_wf_drop.
    case_decide as E.
    + apply concat_revs_inj in E; [|auto using revs_wf_drop, revs_wf_take..].
      exists true. split; [done|]. split; [|done]. intros _. exists i. split; [lia|].
      by apply aligned_take.
    + destruct (IH (S i)) as (b & Hb & Hiff); [lia|].
      exists b. replace (Z.of_nat i + 1) with (Z.of_nat (S i)) by lia. split; [done|].
      rewrite Hiff. split; intros (j & Hj & Ha).
      * exists j. split; [lia|done].
      * exists j. split; [|done]. destruct (decide (j = i)) as [->|]; [|lia].
        exfalso. apply E. f_equal. by apply aligned_take.
Qed.

(** C14 (functional): on two revision histories [la_storage_revs_overlap] stays in bounds and
    answers 1 exactly when, at some position of the second history other than its last,
    one of the two histories continues the other.  The last revision of [revs2] is never
    looked at, although a common last revision is an overlap too. *)
Theorem la_storage_revs_overlap_spec (l1 l2 : list rev_t)
  (H1 : revs_wf l1) (H2 : revs_wf l2) :
  exists b, la_storage_revs_overlap (concat l1) (Z.of_nat (length l1)) (concat l2)
              (Z.of_nat (length l2)) = Ret (c_bool b) /\
    (b = true <-> exists i, (S i < length l2)%nat /\ aligned l1 (drop i l2)).
Proof.
  unfold la_storage_revs_overlap.
  replace (Z.to_nat (Z.of_nat (length l2) - 1)) with (length l2 - 1)%nat by lia.
  destruct (overlap_loop_spec l1 l2 (length l2 - 1) 0) as (b & Hb & Hiff); [done..|lia|].
  exists b. split; [done|]. rewrite Hiff.
  split; intros (i & ? & ?); exists i; (split; [lia|done]).
Qed.

Definition rv (n : Z) : rev_t := replicate 16 (z2b n).

Lemma la_storage_revs_overlap_spec_witness :
  exists b, la_storage_revs_overlap (concat [rv 4; rv 3; rv 2; rv 1]) 4
              (concat [rv 6; rv 5; rv 4; rv 3]) 4 = Ret (c_bool b) /\
    (b = true <-> exists i, (S i < 4)%nat /\
       aligned [rv 4; rv 3; rv 2; rv 1] (drop i [rv 6; rv 5; rv 4; rv 3])).
Proof.
  apply (la_storage_revs_overlap_spec [rv 4; rv 3; rv 2; rv 1] [rv 6; rv 5; rv 4; rv 3]);
    repeat constructor.
Defined.

(** The header's own picture gives 1; a history that only adds one revision to another's
    single revision is not recognised. *)
Example overlap_header_picture :
  la_storage_revs_overlap (concat [rv 4; rv 3; rv 2; rv 1]) 4
    (concat [rv 6; rv 5; rv 4; rv 3]) 4 = Ret 1.
Proof. vm_compute. reflexivity. Qed.

Lemma overlap_misses_last (r1 r2 : rev_t) :
  length r1 = 16%nat -> length r2 = 16%nat -> r1 <> r2 ->
  la_storage_revs_overlap r1 1 (r2 ++ r1) 2 = Ret 0.
Proof.
  intros H1 H2 Hne. unfold la_storage_revs_overlap.
  change (Z.to_nat (2 - 1)) with 1%nat. cbn [overlap_loop].
  change (REV_LEN * la_min 1 (2 - 0)) with 16. change (REV_LEN * 0) with 0.
  rewrite !mem_read_ok by (rewrite ?length_app; lia).
  change (Z.to_nat 16) with 16%nat. rewrite !drop_0, take_app_exact by done.
  rewrite take_ge by lia. by rewrite decide_False.
Qed.

(** ** Creating objects *)

Definition revs_of (l : option (list rev_t)) : list rev_t := default [] l.

(** What [la_storage_create_object] makes. *)
Definition object_is (o : la_storage_object) (k : list byte) (r : rev_t) (data : list byte)
  (l : list rev_t) : Prop :=
  key o = Some k /\ header o = Header 0 0 0 (Z.of_nat (length l)) r /\
  data_length o = Z.of_nat (length data) /\
  la_storage_object_get_data o = Ret data /\
  la_storage_object_get_all_revs o = Ret (Z.of_nat (length l) + 1, r ++ concat l).

Section create.
Context {X : Type}.
Implicit Types w : world X.

Lemma wp_strdup s w (Q : option (list byte) -> world X -> Prop) :
  cstring s -> Z.of_nat (length s) < PTRDIFF_MAX ->
  (forall w', frame 1 w w' -> Q (Some s) w') ->
  (forall w', ~ mem_ok w -> frame 0 w w' -> Q None w') ->
  wp (strdup s) w Q.
Proof.
  intros Hs Hl HS HN. unfold strdup. wp_step. apply wp_malloc; [lia| |].
  - intros blk w' Hb _ Hf _. cbv beta iota. wp_step.
    rewrite mem_write_ok by (rewrite ?length_app; cbn [length]; lia). wp_step.
    rewrite drop_ge by (cbn [length Nat.add]; rewrite ?length_app, ?Hb; cbn [length]; lia).
    rewrite app_nil_r, take_0. wp_step. cbn [app].
    rewrite cstr_app by done. apply wp_lift. apply wp_ret. by apply HS.
  - intros w' Hm Hf _. apply wp_ret. apply HN; [|done]. intros ?. apply Hm. split; [done|lia].
Qed.

Lemma object_is_intro k r data l pad :
  length r = 16%nat -> revs_wf l -> Z.of_nat (length data) < 2 ^ 32 ->
  object_is (Object (Some k) (Header 0 0 0 (Z.of_nat (length l)) r) (concat l ++ data ++ pad)
               (u32 (Z.of_nat (length data)))) k r data l.
Proof.
  intros Hr Hl Hd. unfold u32. rewrite Z.mod_small by lia.
  pose proof (length_concat_revs l Hl) as HL.
  repeat split; cbn [key header data_length].
  - unfold la_storage_object_get_data, get_data_offset, REV_LEN; cbn [header rev_count revs_data data_length].
    rewrite mem_read_ok by (rewrite ?length_app; lia). rewrite Nat2Z.id.
    rewrite drop_app_exact by lia. by rewrite take_app_exact.
  - unfold la_storage_object_get_all_revs, REV_LEN; cbn [header rev_count rev revs_data].
    rewrite mem_read_ok by (rewrite ?length_app; lia). do 2 f_equal.
    rewrite drop_0, app_assoc. apply take_app_exact. rewrite length_app. lia.
Qed.

(** The memory [la_storage_create_object] fills in. *)
Lemma fill_object (l : list rev_t) data (c : nat) :
  revs_wf l -> (length l <= c)%nat ->
  exists pad,
    mem_write (concat l ++ replicate (16 * (c - length l) + length data) x00)
      (REV_LEN * Z.of_nat (length l)) data = Ret (concat l ++ data ++ pad).
Proof.
  intros Hl Hc. pose proof (length_concat_revs l Hl) as HL. unfold REV_LEN.
  rewrite mem_write_ok by (rewrite ?length_app, ?length_replicate; lia).
  rewrite take_app_exact by lia. eexists. reflexivity.
Qed.

Lemma wp_create_object k r data l (c : Z) w :
  cstring k -> Z.of_nat (length k) < PTRDIFF_MAX -> length r = 16%nat ->
  Z.of_nat (length data) < 2 ^ 32 -> revs_wf (revs_of l) -> 0 <= c < 2 ^ 15 ->
  (forall l', l = Some l' -> c = Z.of_nat (length l')) ->
  wp (la_storage_create_object k r data (Z.of_nat (length data)) (@concat byte <$> l) c) w
    (fun o w' =>
       match o with
       | Some o => frame 3 w w' /\ object_is o k r data (revs_of l)
       | None => frame 0 w w' /\ ~ mem_ok w
       end).
Proof.
  intros Hk Hkl Hr Hd Hl Hc Hcl. unfold la_storage_create_object.
  assert (forall n, n <= 2 ^ 60 -> n <= PTRDIFF_MAX) as HP by (unfold PTRDIFF_MAX; lia).
  wp_step. apply wp_malloc; [unfold SIZEOF_OBJECT; lia| |].
  2: { intros w' Hm Hf _. apply wp_ret. split; [done|]. intros ?. apply Hm.
       split; [done|]. by unfold SIZEOF_OBJECT, PTRDIFF_MAX. }
  intros obj w1 _ _ Hf1 _. cbv beta iota.
  wp_step. apply wp_strdup; [done..| |].
  2: { intros w2 Hm Hf2. wp_steps. split; [solve_frame|]. intros ?. apply Hm.
       by eapply frame_mem_ok. }
  intros w2 Hf2. cbv beta iota zeta.
  assert (u64 (SIZEOF_HEADER + Z.of_nat (length data) + c * REV_LEN)
          = 34 + Z.of_nat (length data) + 16 * c) as ->.
  { unfold u64, SIZEOF_HEADER, REV_LEN. rewrite Z.mod_small; lia. }
  wp_step. apply wp_malloc; [lia| |].
  2: { intros w3 Hm Hf3 _. wp_steps. split; [solve_frame|]. intros ?. apply Hm.
       split; [|apply HP; lia]. by do 2 (eapply frame_mem_ok; [eassumption|]). }
  intros hb w3 _ _ Hf3 _. cbv beta iota zeta. unfold SIZEOF_HEADER.
  replace (Z.to_nat (34 + Z.of_nat (length data) + 16 * c - 34))
    with (16 * Z.to_nat c + length data)%nat by lia.
  assert (frame 3 w w3) as Hf by solve_frame.
  assert (mem_read data 0 (Z.of_nat (length data)) = Ret data) as Hrd.
  { rewrite mem_read_ok by lia. by rewrite drop_0, Nat2Z.id, take_ge. }
  destruct l as [l|]; cbn [revs_of default option_fmap option_map from_option fmap] in *.
  - pose proof (Hcl l eq_refl) as ->. pose proof (length_concat_revs l Hl) as HL.
    destruct (fill_object l data (length l)) as (pad & Hpad); [done|lia|].
    wp_step. wp_step. unfold REV_LEN in *. rewrite mem_read_ok by lia. apply wp_lift.
    rewrite drop_0, take_ge by lia. wp_step.
    rewrite mem_write_ok by (rewrite ?length_replicate; lia). apply wp_lift.
    rewrite take_0, drop_replicate, HL. cbn [app]. wp_step. cbv beta iota.
    wp_step. rewrite Hrd. apply wp_lift. wp_step.
    rewrite Z.mod_small by lia.
    replace (16 * Z.to_nat (Z.of_nat (length l)) + length data - _)%nat
      with (16 * (length l - length l) + length data)%nat by lia.
    rewrite Hpad. apply wp_lift. apply wp_ret. split; [done|]. by apply object_is_intro.
  - destruct (fill_object [] data (Z.to_nat c)) as (pad & Hpad); [done|simpl; lia|].
    wp_step. wp_step. cbv beta iota. wp_step. rewrite Hrd. apply wp_lift. wp_step.
    cbn [concat app length] in Hpad. rewrite Nat.sub_0_r in Hpad.
    change (Z.of_nat 0) with 0 in Hpad. rewrite Hpad. apply wp_lift. apply wp_ret.
    split; [done|]. by apply (object_is_intro k r data []).
Qed.

Lemma wp_destroy_object (o : la_storage_object) w (Q : unit -> world X -> Prop) :
  (forall w', frame (-3) w w' -> Q tt w') -> wp (la_storage_destroy_object o) w Q.
Proof. intros HQ. unfold la_storage_destroy_object. wp_steps. apply HQ. solve_frame. Qed.
End create.

(** C11 (functional): a created object holds the key, the revision, the old revisions and the
    data it was made from; when memory runs out the call gives NULL and keeps nothing
    allocated; destroying the object gives back all it allocated. *)
Theorem la_storage_create_object_correct {X} (k : list byte) (r : rev_t) (data : list byte)
  (l : list rev_t) (w : world X)
  (Hk : cstring k) (Hkl : Z.of_nat (length k) < PTRDIFF_MAX) (Hr : length r = 16%nat)
  (Hd : Z.of_nat (length data) < 2 ^ 32) (Hl : revs_wf l) (Hn : Z.of_nat (length l) < 2 ^ 15) :
  exists o w1,
    la_storage_create_object k r data (Z.of_nat (length data)) (Some (concat l))
      (Z.of_nat (length l)) w = Ret (o, w1) /\
    match o with
    | None => ~ mem_ok w /\ frame 0 w w1
    | Some o =>
        object_is o k r data l /\
        exists w2, la_storage_destroy_object o w1 = Ret (tt, w2) /\ frame 0 w w2
    end.
Proof.
  pose proof (wp_create_object k r data (Some l) (Z.of_nat (length l)) w) as H.
  apply wp_run in H as (o & w1 & Hrun & H); [|done..|lia|by intros ? [= <-]].
  exists o, w1. split; [done|]. destruct o as [o|]; [|naive_solver].
  destruct H as [Hf Ho]. split; [done|].
  assert (wp (la_storage_destroy_object o) w1 (fun _ w2 => frame 0 w w2)) as H.
  { apply wp_destroy_object. intros. solve_frame. }
  apply wp_run in H as ([] & w2 & ? & ?). eauto.
Qed.

Lemma la_storage_create_object_correct_witness :
  exists o w1,
    la_storage_create_object (lit "doc") (rv 9) (lit "{}") 2 (Some (concat [rv 2; rv 1])) 2
      (world0 tt) = Ret (o, w1) /\
    match o with
    | None => ~ mem_ok (world0 tt) /\ frame 0 (world0 tt) w1
    | Some o =>
        object_is o (lit "doc") (rv 9) (lit "{}") [rv 2; rv 1] /\
        exists w2, la_storage_destroy_object o w1 = Ret (tt, w2) /\ frame 0 (world0 tt) w2
    end.
Proof.
  apply (la_storage_create_object_correct (lit "doc") (rv 9) (lit "{}") [rv 2; rv 1] (world0 tt)).
  - apply (bool_decide_unpack _). reflexivity.
  - reflexivity.
  - reflexivity.
  - reflexivity.
  - repeat constructor.
  - reflexivity.
Defined.

(** ** The driver registry *)

Section registry.
Context {X E S I : Type}.
Implicit Types drivers : drivers_table X E S I.

(** The driver argument plays no part. *)
Lemma la_storage_open_no_driver drivers drv env name flags w :
  HASH_FIND_STR drivers name = None ->
  la_storage_open drivers drv env name flags w = Ret (LA_STORAGE_OPEN_NO_DRIVER, None, w).
Proof. intros H. unfold la_storage_open. by rewrite H. Qed.

(** The bytes an entry is found under: as many bytes of its memory as the name has. *)
Definition entry_key (name_addr driver_addr : Z) (hh name : list byte) : list byte :=
  take (length name) (entry_memory name_addr driver_addr hh).

Lemma wp_install drivers name_addr name driver_addr d hh (w : world X)
    (Q : Z * drivers_table X E S I -> world X -> Prop) :
  mem_ok w -> length hh = 56%nat -> (length name <= 72)%nat ->
  match HASH_FIND_STR drivers name with
  | Some _ => forall w', w_errno w' = EEXIST -> Q (-1, drivers) w'
  | None => forall w', mem_ok w' ->
      Q (0, drivers ++ [(entry_key name_addr driver_addr hh name, DriverEntry name d)]) w'
  end ->
  wp (la_storage_install_driver drivers name_addr name driver_addr d hh) w Q.
Proof.
  intros Hm Hh Hn HQ. unfold la_storage_install_driver.
  destruct (HASH_FIND_STR drivers name).
  - wp_step. wp_step. wp_step. by apply HQ.
  - wp_step. apply wp_malloc; [lia| |intros ? Hno; exfalso; apply Hno; split; [done|unfold PTRDIFF_MAX; lia]].
    intros _ w1 _ _ Hf1 _. wp_step.
    assert (length (entry_memory name_addr driver_addr hh) = 72%nat) as HL.
    { unfold entry_memory, pointer_bytes. rewrite !length_app, !length_le_bytes. lia. }
    apply HASH_ADD_STR_spec; [lia|lia|]. intros w2 Hf2. wp_step. apply HQ.
    by do 2 (eapply frame_mem_ok; [eassumption|]).
Qed.

(** Installing a driver under a name that finds one is refused with
    [EEXIST]; otherwise the driver is found afterwards under the bytes of the entry's own
    memory, the pointer to the name first, and under nothing else. *)
Theorem la_storage_install_driver_correct drivers name_addr name driver_addr d hh (w : world X)
  (Hw : mem_ok w) (Hh : length hh = 56%nat) (Hn : (length name <= 72)%nat) :
  exists rc drivers' w',
    la_storage_install_driver drivers name_addr name driver_addr d hh w = Ret ((rc, drivers'), w') /\
    match HASH_FIND_STR drivers name with
    | Some _ => rc = -1 /\ w_errno w' = EEXIST /\ drivers' = drivers
    | None =>
        rc = 0 /\ forall other, HASH_FIND_STR drivers' other =
          if decide (entry_key name_addr driver_addr hh name = other)
          then Some (DriverEntry name d) else HASH_FIND_STR drivers other
    end.
Proof.
  assert (wp (la_storage_install_driver drivers name_addr name driver_addr d hh) w (fun r w' =>
    match HASH_FIND_STR drivers name with
    | Some _ => r.1 = -1 /\ w_errno w' = EEXIST /\ r.2 = drivers
    | None =>
        r.1 = 0 /\ forall other, HASH_FIND_STR r.2 other =
          if decide (entry_key name_addr driver_addr hh name = other)
          then Some (DriverEntry name d) else HASH_FIND_STR drivers other
    end)) as HW.
  { apply wp_install; [done..|]. destruct (HASH_FIND_STR drivers name); [done|].
    intros w' _. split; [done|]. intros other. apply find_add. }
  apply wp_run in HW as ([rc drivers'] & w' & Hrun & Hres). by exists rc, drivers', w'.
Qed.

(** A freshly installed driver is not found under its name, unless the bytes of
    the pointer to the name happen to spell it: no environment can be opened with it. *)
Theorem installed_driver_unreachable drivers name_addr name driver_addr d hh home (w : world X)
  (Hw : mem_ok w) (Hh : length hh = 56%nat) (Hn : (length name <= 72)%nat)
  (Hfree : HASH_FIND_STR drivers name = None)
  (Hspell : entry_key name_addr driver_addr hh name <> name) :
  exists drivers' w',
    la_storage_install_driver drivers name_addr name driver_addr d hh w = Ret ((0, drivers'), w') /\
    la_storage_open_env drivers' name home w' = Ret (None, w').
Proof.
  assert (wp (la_storage_install_driver drivers name_addr name driver_addr d hh) w (fun r w' =>
    r.1 = 0 /\ la_storage_open_env r.2 name home w' = Ret (None, w'))) as HW.
  { apply wp_install; [done..|]. rewrite Hfree. intros w' _. split; [done|].
    unfold la_storage_open_env, HASH_FIND_STR. cbn [snd]. rewrite find_add, decide_False by done.
    unfold HASH_FIND_STR in Hfree. by rewrite Hfree. }
  apply wp_run in HW as ([rc drivers'] & w' & Hrun & Hrc & Ho). cbn [fst snd] in *. subst rc.
  by exists drivers', w'.
Qed.
End registry.

(** A driver that refuses everything. *)
Definition null_driver : la_object_store_driver unit unit unit unit :=
  Driver unit unit unit unit (lit "null")
    (fun _ => ret None) (fun _ => ret tt)
    (fun _ _ _ => ret (LA_STORAGE_OPEN_NOT_FOUND, None)) (fun _ => ret tt) None
    (fun _ _ _ => ret (LA_STORAGE_OBJECT_GET_NOT_FOUND, None))
    (fun _ _ => ret (LA_STORAGE_OBJECT_GET_NOT_FOUND, None))
    (fun _ _ => ret (-1, None)) None
    (fun _ _ o => ret (LA_STORAGE_OBJECT_PUT_ERROR, o))
    (fun _ o => ret (LA_STORAGE_OBJECT_PUT_ERROR, o))
    (fun _ => ret 0) (fun _ => ret (-1, None)) (fun _ _ => ret None)
    (fun _ => ret (LA_STORAGE_OBJECT_ITERATOR_END, None, tt)) (fun _ => ret tt).

Definition handle_junk : list byte := replicate 56 x00.

Lemma la_storage_install_driver_correct_witness :
  exists rc drivers' w',
    la_storage_install_driver [] 93824992232084 (lit "BDB") 93824992235552 null_driver handle_junk
      (world0 tt) = Ret ((rc, drivers'), w') /\
    rc = 0 /\ forall other, HASH_FIND_STR drivers' other =
      if decide (entry_key 93824992232084 93824992235552 handle_junk (lit "BDB") = other)
      then Some (DriverEntry (lit "BDB") null_driver) else None.
Proof.
  apply (la_storage_install_driver_correct [] 93824992232084 (lit "BDB") 93824992235552 null_driver
           handle_junk (world0 tt)).
  - reflexivity.
  - reflexivity.
  - vm_compute. lia.
Defined.

Lemma installed_driver_unreachable_witness :
  exists drivers' w',
    la_storage_install_driver [] 93824992232084 (lit "BDB") 93824992235552 null_driver handle_junk
      (world0 tt) = Ret ((0, drivers'), w') /\
    la_storage_open_env drivers' (lit "BDB") (lit "/var/db") w' = Ret (None, w').
Proof.
  apply (installed_driver_unreachable [] 93824992232084 (lit "BDB") 93824992235552 null_driver
           handle_junk (lit "/var/db") (world0 tt)).
  - reflexivity.
  - reflexivity.
  - vm_compute. lia.
  - reflexivity.
  - vm_compute. discriminate.
Defined.
