(* ===== verification/DocStore.v ===== *)
(** * What a storage driver promises

    Documents, the objects in memory that hold them, and the contract of a driver: a class
    whose laws say what its get, put, replace and revision calls do to a finite map of
    documents.  The Berkeley DB driver is an instance; the database API is verified against
    the class. *)

From S2P Require Import Prelude StringUtils Revision ObjectStore.
From Stdlib Require Import Init.Byte.

#[local] Open Scope c_scope.

(** ** Documents and their representation *)

(** What a record means. *)
Record doc := Doc {
  d_seq : Z;
  d_doc_seq : Z;
  d_deleted : Z;
  d_rev : rev_t;
  d_revs : list rev_t;
  d_data : list byte;
}.

Definition doc_header (d : doc) : la_storage_object_header :=
  Header (d_seq d) (d_doc_seq d) (d_deleted d) (Z.of_nat (length (d_revs d))) (d_rev d).

Definition encode_doc (d : doc) : list byte :=
  encode_header (doc_header d) ++ concat (d_revs d) ++ d_data d.

Definition doc_wf (d : doc) : Prop :=
  header_wf (doc_header d) /\ revs_wf (d_revs d) /\
  Z.of_nat (length (encode_doc d)) < 2 ^ 32 /\
  Z.of_nat (length (d_revs d)) <= LA_OBJECT_MAX_REVISION_COUNT.

#[export] Instance doc_wf_dec d : Decision (doc_wf d).
Proof. unfold doc_wf, revs_wf. apply _. Defined.

(** An object in memory that holds a document, possibly with unused bytes at its end. *)
Definition object_holds (o : la_storage_object) (k : list byte) (d : doc) : Prop :=
  key o = Some k /\ header o = doc_header d /\ data_length o = Z.of_nat (length (d_data d)) /\
  exists pad, revs_data o = concat (d_revs d) ++ d_data d ++ pad.

Lemma length_encode_doc d :
  doc_wf d ->
  Z.of_nat (length (encode_doc d)) =
    34 + 16 * Z.of_nat (length (d_revs d)) + Z.of_nat (length (d_data d)).
Proof.
  intros (Hh & Hr & _ & _). unfold encode_doc.
  rewrite !length_app, length_encode_header, length_concat_revs by done. lia.
Qed.

Lemma total_size_holds o k d :
  object_holds o k d -> doc_wf d ->
  la_storage_object_total_size o = Z.of_nat (length (encode_doc d)).
Proof.
  intros (_ & Hh & Hl & _) Hd. rewrite length_encode_doc by done.
  unfold la_storage_object_total_size, SIZEOF_HEADER, REV_LEN. rewrite Hh, Hl. simpl. lia.
Qed.

(** The memory of an object starts with the record of its document. *)
Lemma object_record o k d :
  object_holds o k d -> doc_wf d ->
  mem_read (header_memory o) 0 (u32 (la_storage_object_total_size o)) = Ret (encode_doc d).
Proof.
  intros Ho Hd. rewrite (total_size_holds o k d) by done.
  destruct Ho as (_ & Hh & _ & pad & Hp). unfold u32.
  rewrite Z.mod_small by (destruct Hd as (_ & _ & ? & _); lia).
  assert (header_memory o = encode_doc d ++ pad) as ->.
  { unfold header_memory, encode_doc. rewrite Hh, Hp, <- !app_assoc. done. }
  rewrite mem_read_ok by (rewrite ?length_app; lia).
  by rewrite drop_0, Nat2Z.id, take_app_length.
Qed.

(** The revisions after an update, no more than the header can count. *)
Definition push_revs (r : rev_t) (revs : list rev_t) : list rev_t :=
  take (Z.to_nat LA_OBJECT_MAX_REVISION_COUNT) (r :: revs).

(** What a put has to store, if anything. *)
Definition put_doc (m : gmap (list byte) doc) (n : Z) (k : list byte) (r : option rev_t)
  (d : doc) : option doc :=
  match m !! k with
  | None => Some (Doc n 1 (d_deleted d) (d_rev d) [] (d_data d))
  | Some old =>
      if decide (r = Some (d_rev old)) then
        Some (Doc n (d_doc_seq old + 1) (d_deleted d) (d_rev d)
                (push_revs (d_rev old) (d_revs d)) (d_data d))
      else None
  end.

(** The object brings as many old revisions as the stored document has, and the counters
    and sizes have room for one more. *)
Definition put_ready (m : gmap (list byte) doc) (n : Z) (k : list byte) (d : doc) : Prop :=
  doc_wf d /\ 0 <= n < 2 ^ 64 /\ Z.of_nat (length (encode_doc d)) + 16 < 2 ^ 32 /\
  match m !! k with
  | None => d_revs d = []
  | Some old => length (d_revs d) = length (d_revs old) /\ d_doc_seq old + 1 < 2 ^ 64
  end.
Lemma push_revs_wf r revs : length r = 16%nat -> revs_wf revs -> revs_wf (push_revs r revs).
Proof. intros. apply revs_wf_take. by constructor. Qed.

Lemma length_push_revs r revs :
  (length (push_revs r revs) <= S (length revs))%nat /\
  Z.of_nat (length (push_revs r revs)) <= LA_OBJECT_MAX_REVISION_COUNT.
Proof.
  unfold push_revs, LA_OBJECT_MAX_REVISION_COUNT. rewrite length_take. cbn [length]. lia.
Qed.

Lemma put_doc_wf m n k r d d' :
  map_Forall (fun _ => doc_wf) m -> put_ready m n k d -> put_doc m n k r d = Some d' ->
  doc_wf d'.
Proof.
  unfold put_doc. intros Hm (Hd & Hn & Hsz & Hk) E.
  pose proof (length_encode_doc d Hd) as HL.
  destruct Hd as ((H1 & H2 & H3 & H4 & H5) & Hr & Hs & Hc). cbn [doc_header seq doc_seq deleted rev_count rev] in *.
  assert (forall dd, header_wf (doc_header dd) -> revs_wf (d_revs dd) ->
            Z.of_nat (length (d_revs dd)) <= LA_OBJECT_MAX_REVISION_COUNT ->
            (length (d_revs dd) <= S (length (d_revs d)))%nat -> d_data dd = d_data d ->
            doc_wf dd) as Hgen.
  { intros dd Hh Hrr Hcc Hll Hdd. split; [done|]. split; [done|]. split; [|done].
    unfold encode_doc. rewrite !length_app, length_encode_header, length_concat_revs by done.
    rewrite Hdd. lia. }
  unfold LA_OBJECT_MAX_REVISION_COUNT in *.
  destruct (m !! k) as [old|] eqn:Ek.
  - case_decide; [|done]. injection E as <-. destruct Hk as [Hl Hds].
    pose proof (Hm _ _ Ek) as ((_ & Ho2 & _ & _ & Ho5) & _).
    cbn [doc_header seq doc_seq deleted rev_count rev] in *.
    pose proof (length_push_revs (d_rev old) (d_revs d)) as [HP1 HP2].
    unfold LA_OBJECT_MAX_REVISION_COUNT in HP2.
    apply Hgen; cbn [d_revs d_data]; [|by apply push_revs_wf|done|done|done].
    repeat split; cbn [doc_header seq doc_seq deleted rev_count rev d_seq d_doc_seq d_deleted d_rev d_revs]; try lia; done.
  - injection E as <-. apply Hgen; cbn [d_revs d_data length]; [|by constructor|lia|lia|done].
    repeat split; cbn [doc_header seq doc_seq deleted rev_count rev d_seq d_doc_seq d_deleted d_rev d_revs length]; try lia.
Qed.

Definition with_seq (n : Z) (d : doc) : doc :=
  Doc n (d_doc_seq d) (d_deleted d) (d_rev d) (d_revs d) (d_data d).

(** ** The contract *)

(** What [repr w m n] of a driver must satisfy: [m] are the stored documents, [n] the next
    sequence number.  Calls in a [healthy] world do not fail; whatever happens, a call that
    reports a failure leaves the documents as they were. *)
Class DocStore {X E S I : Type} (drv : la_object_store_driver X E S I) (st : S) := {
  ds_repr : world X -> gmap (list byte) doc -> Z -> Prop;
  ds_healthy : world X -> Prop;
  ds_repr_wf w m n : ds_repr w m n -> map_Forall (fun _ => doc_wf) m;
  ds_repr_frame w w' m n : w_ext w' = w_ext w -> ds_repr w m n -> ds_repr w' m n;
  ds_healthy_frame w w' : w_ext w' = w_ext w -> ds_healthy w -> ds_healthy w';
  ds_get w m n k :
    ds_repr w m n -> mem_ok w -> cstring k -> Z.of_nat (length k) < PTRDIFF_MAX ->
    wp (drv_get drv st k None) w (fun '(res, o) w' =>
      ds_repr w' m n /\ (ds_healthy w -> ds_healthy w') /\
      match res with
      | LA_STORAGE_OBJECT_GET_OK =>
          exists d o', m !! k = Some d /\ o = Some o' /\ object_holds o' k d /\ heap 3 w w'
      | LA_STORAGE_OBJECT_GET_NOT_FOUND => m !! k = None /\ o = None /\ heap 0 w w'
      | LA_STORAGE_OBJECT_GET_REVISION_NOT_FOUND => False
      | LA_STORAGE_OBJECT_GET_ERROR => ~ ds_healthy w /\ o = None /\ heap 0 w w'
      end);
  ds_get_all_revs w m n k :
    ds_repr w m n -> mem_ok w ->
    wp (drv_get_all_revs drv st k) w (fun '(count, res) w' =>
      ds_repr w' m n /\ (ds_healthy w -> ds_healthy w') /\ (mem_ok w -> mem_ok w') /\
      match m !! k with
      | Some d =>
          count = Z.of_nat (length (d_revs d)) /\
            res = Some (d_doc_seq d, Some (concat (d_revs d))) \/
          count = -1 /\ res = None /\ ~ ds_healthy w
      | None => count = -1 /\ res = None
      end);
  ds_put w m n k r o d :
    ds_repr w m n -> mem_ok w -> object_holds o k d -> put_ready m n k d ->
    wp (drv_put drv st r o) w (fun '(res, o') w' =>
      heap 0 w w' /\ (ds_healthy w -> ds_healthy w') /\
      match res with
      | LA_STORAGE_OBJECT_PUT_SUCCESS =>
          exists d', put_doc m n k r d = Some d' /\ object_holds o' k d' /\
            (ds_repr w' (<[k := d']> m) (n + 1) \/ ~ ds_healthy w /\ ds_repr w' m n)
      | LA_STORAGE_OBJECT_PUT_CONFLICT =>
          ds_repr w' m n /\ (put_doc m n k r d = None \/ ~ ds_healthy w)
      | LA_STORAGE_OBJECT_PUT_ERROR => ds_repr w' m n /\ ~ ds_healthy w
      end);
  ds_replace w m n k o d :
    ds_repr w m n -> mem_ok w -> object_holds o k d -> doc_wf d -> 0 <= n < 2 ^ 64 ->
    wp (drv_replace drv st o) w (fun '(res, o') w' =>
      heap 0 w w' /\ (ds_healthy w -> ds_healthy w') /\
      match res with
      | LA_STORAGE_OBJECT_PUT_SUCCESS =>
          ds_repr w' (<[k := with_seq n d]> m) (n + 1) \/ ~ ds_healthy w /\ ds_repr w' m n
      | LA_STORAGE_OBJECT_PUT_CONFLICT => False
      | LA_STORAGE_OBJECT_PUT_ERROR => ds_repr w' m n /\ ~ ds_healthy w
      end);
}.

(** ** Concrete documents *)

(** The object [la_storage_create_object] makes for a document. *)
Definition object_of (k : list byte) (d : doc) : la_storage_object :=
  Object (Some k) (doc_header d) (concat (d_revs d) ++ d_data d) (Z.of_nat (length (d_data d))).

Lemma object_of_holds k d : object_holds (object_of k d) k d.
Proof. repeat split. exists []. cbn. by rewrite app_nil_r. Qed.

Definition doc1 : doc := Doc 1 1 0 (rv 1) [] (lit "{}").
Definition doc2 : doc := Doc 2 2 0 (rv 3) [rv 2] (lit "[1]").
Definition new_doc : doc := Doc 0 0 0 (rv 9) [] (lit "{'a':1}").
Definition m12 : gmap (list byte) doc := {[ lit "a" := doc1; lit "b" := doc2 ]}.

Lemma m12_wf : map_Forall (fun _ => doc_wf) m12.
Proof. apply (bool_decide_unpack _). vm_compute. reflexivity. Qed.
