(* ===== verification/BdbStore.v ===== *)
(** * The Berkeley DB driver (bdb-storage/ObjectStore-BDB.c)

    Berkeley DB itself is a parameter: a class of its operations over an abstract state, and
    a class of the documented laws the driver relies on (committed contents, the open
    transaction, the sequence, the secondary index cursor).  The driver's functions are
    modelled whole, with the memory they touch, and related to a specification on documents:
    put creates, updates or refuses by revision, leaves the committed contents alone when it
    fails, and never leaves a transaction open. *)

From stdpp Require Import sorting.
From S2P Require Import Prelude StringUtils Revision ObjectStore DocStore.
From Stdlib Require Import Init.Byte.

#[local] Open Scope c_scope.

Definition DB_NOTFOUND : Z := -30988.
Definition DB_LOCK_NOTGRANTED : Z := -30993.
Definition DB_DONOTINDEX : Z := -30998.

(** ** Berkeley DB *)

(** Library and system calls of which the driver sees only the return code. *)
Inductive db_call :=
| env_create
| env_mkdir (name : list byte)
| env_open (name : list byte)
| env_close
| db_create (secondary : bool)
| db_open (secondary : bool) (path : list byte) (flags : Z)
| db_set_bt_compare
| db_associate
| db_sequence_create
| db_seq_open (name : list byte)
| db_seq_close
| db_sync (secondary : bool)
| db_close (secondary : bool)
| env_dbremove (name : list byte).

(** The operations, over the state [D] of the environment and cursors of type [C].  A result
    code other than 0 is an error; record contents come back whole, the partial and user
    memory modes of a [DBT] are the caller's view of them.  The two functions a store registers
    for its sequence index, with [associate] and [set_bt_compare], are arguments of the call
    that opens a cursor over the index. *)
Class BerkeleyDB (D C : Type) := {
  bdb_call : db_call -> D -> Z * D;
  bdb_path : list byte -> D -> path_status;
  bdb_get_dbname : bool -> D -> Z * list byte * D;
  bdb_get_home : D -> Z * list byte * D;
  bdb_txn_begin : D -> Z * D;
  bdb_txn_abort : D -> D;
  bdb_txn_commit : D -> Z * D;
  bdb_get : bool -> list byte -> D -> Z * list byte * D;
  bdb_put : list byte -> list byte -> D -> Z * D;
  bdb_seq_get : D -> Z * Z * D;
  bdb_seq_stat : D -> Z * Z * D;
  bdb_stat : bool -> D -> Z * (Z * Z * Z) * D;
  bdb_cursor_open : (list byte -> list byte -> outcome (option (list byte))) ->
    (list byte -> list byte -> outcome Z) -> D -> Z * C * D;
  bdb_cursor_set : C -> list byte -> D -> Z * C * D;
  bdb_cursor_next : C -> D -> Z * (list byte * list byte) * C * D;
  bdb_cursor_close : C -> D -> D;
}.

Section driver.
Context {D C : Type} `{BerkeleyDB D C}.

Definition txn_begin : M D Z := call bdb_txn_begin.
Definition txn_abort : M D unit := call_ bdb_txn_abort.

(** The code of a failed commit is only logged. *)
Definition txn_commit : M D unit := let* _ := call bdb_txn_commit in ret tt.

(** A [DBT] over user memory [mem], reading a prefix of the record. *)
Definition dbt_user (mem value : list byte) : list byte :=
  take (length mem) value ++ drop (length value) mem.

(** The same over a header variable that was never set. *)
Definition user_header (value : list byte) : outcome la_storage_object_header :=
  match mem_read value 0 SIZEOF_HEADER with
  | Ret h => Ret (decode_header h)
  | Undef _ => Undef Uninitialised
  end.

(** A fresh key: the bytes up to a NUL. *)
Definition keycpy (k : list byte) : M D (list byte) :=
  let* p := malloc (u32 (Z.of_nat (length k) + 1)) in
  match p with
  | None => undef NullDeref
  | Some _ => lift (cstr (k ++ [NUL]))
  end.

Record la_storage_env := Env { env_name : list byte }.
Record la_storage_object_store := BdbStore { store_env : la_storage_env }.
Record la_storage_object_iterator := BdbIterator {
  it_store : la_storage_object_store;
  it_cursor : C;
}.

(** ** Environments *)

Definition bdb_la_storage_open_env (name : list byte) : M D (option la_storage_env) :=
  let* env := malloc 8 in
  match env with
  | None => ret None
  | Some _ =>
      let* rc := call (bdb_call env_create) in
      if negb (rc =? 0) then free ;;; ret None
      else
        let* d := get_ext in
        let* usable :=
          match bdb_path name d with
          | IsDirectory => ret true
          | NoEntry => let* rc := call (bdb_call (env_mkdir name)) in ret (rc =? 0)
          | NotDirectory | StatFails => ret false
          end in
        if negb usable then free ;;; ret None
        else
          let* rc := call (bdb_call (env_open name)) in
          if negb (rc =? 0) then free ;;; ret None
          else ret (Some (Env name))
  end.

Definition bdb_la_storage_close_env (env : la_storage_env) : M D unit :=
  let* _ := call (bdb_call env_close) in free.

(** ** The sequence index *)

(** The index key of a record, from its first eight bytes; the key of the sequence's own
    record starts with a NUL. *)
Definition seqindex (k value : list byte) : outcome (option (list byte)) :=
  match mem_read k 0 1 with
  | Undef u => Undef u
  | Ret c =>
      if decide (c = [NUL]) then Ret None
      else match mem_read value 0 8 with Ret s => Ret (Some s) | Undef u => Undef u end
  end.

Definition compare_seq (key1 key2 : list byte) : outcome Z :=
  if (length key2 <? length key1)%nat then Ret 1
  else if (length key1 <? length key2)%nat then Ret (-1)
  else
    match mem_read key1 0 8, mem_read key2 0 8 with
    | Ret s1, Ret s2 =>
        if le_value s1 <? le_value s2 then Ret (-1)
        else if le_value s2 <? le_value s1 then Ret 1
        else Ret 0
    | _, _ => Undef OutOfBounds
    end.

(** ** Opening and closing stores *)

Definition bdb_la_storage_open (env : option la_storage_env) (path : list byte) (flags : Z)
  : M D (la_storage_open_result_t * option la_storage_object_store) :=
  let* store := malloc 32 in
  match store with
  | None => ret (LA_STORAGE_OPEN_ERROR, None)
  | Some _ =>
      let* env := match env with Some e => ret e | None => undef NullDeref end in
      let fail := fun r => free ;;; ret (r, None) in
      let* rc := txn_begin in
      if negb (rc =? 0) then fail LA_STORAGE_OPEN_ERROR else
      let* rc := call (bdb_call (db_create false)) in
      if negb (rc =? 0) then txn_abort ;;; fail LA_STORAGE_OPEN_ERROR else
      let* rc := call (bdb_call (db_create true)) in
      if negb (rc =? 0) then txn_abort ;;; fail LA_STORAGE_OPEN_ERROR else
      let* rc := call (bdb_call (db_open false path flags)) in
      if negb (rc =? 0) then
        txn_abort ;;;
        fail (if rc =? EEXIST then LA_STORAGE_OPEN_EXISTS
              else if rc =? ENOENT then LA_STORAGE_OPEN_NOT_FOUND
              else LA_STORAGE_OPEN_ERROR)
      else
      let* seqpath := string_append path (lit ".seq") in
      let* rc := call (bdb_call db_set_bt_compare) in
      if negb (rc =? 0) then
        let* _ := call (bdb_call (db_close false)) in txn_abort ;;; fail LA_STORAGE_OPEN_ERROR
      else
      let* seqpath := lift (cstr seqpath) in
      let* rc := call (bdb_call (db_open true seqpath LA_STORAGE_OPEN_FLAG_CREATE)) in
      free ;;;
      if negb (rc =? 0) then
        let* _ := call (bdb_call (db_close false)) in txn_abort ;;; fail LA_STORAGE_OPEN_ERROR
      else
      let* _ := call (bdb_call db_associate) in
      let close_both :=
        let* _ := call (bdb_call (db_close true)) in
        let* _ := call (bdb_call (db_close false)) in
        txn_abort ;;; fail LA_STORAGE_OPEN_ERROR in
      let* rc := call (bdb_call db_sequence_create) in
      if negb (rc =? 0) then close_both else
      let* rc := call (bdb_call (db_seq_open (NUL :: lit "SEQ"))) in
      if negb (rc =? 0) then close_both else
      txn_commit ;;;
      ret (if Z.land flags (Z.lor LA_STORAGE_OPEN_FLAG_CREATE LA_STORAGE_OPEN_FLAG_EXCL)
              =? Z.lor LA_STORAGE_OPEN_FLAG_CREATE LA_STORAGE_OPEN_FLAG_EXCL
           then LA_STORAGE_OPEN_CREATED else LA_STORAGE_OPEN_OK, Some (BdbStore env))
  end.

Definition bdb_la_storage_close (st : la_storage_object_store) : M D unit :=
  let* _ := call (bdb_call db_seq_close) in
  let* _ := call (bdb_call (db_sync true)) in
  let* _ := call (bdb_call (db_close true)) in
  let* _ := call (bdb_call (db_sync false)) in
  let* _ := call (bdb_call (db_close false)) in
  free.

(** [la_storage_close] is the call of the layer above: it takes the driver's structure for a
    handle, whose members lie elsewhere. *)
Definition close_as_handle (st : la_storage_object_store) : M D unit := undef WrongType.

(** Not in the driver table.  The strings are freed on one path only. *)
Definition bdb_la_storage_object_store_delete (st : la_storage_object_store) : M D Z :=
  let* '(rc, dbname) := call (bdb_get_dbname false) in
  if negb (rc =? 0) then ret (-1) else
  let* '(rc, seqdbname) := call (bdb_get_dbname true) in
  if negb (rc =? 0) then ret (-1) else
  let* '(rc, home) := call bdb_get_home in
  if negb (rc =? 0) then ret (-1) else
  let* dbname := string_join (lit "/") [home; dbname] in
  let* seqdbname := string_join (lit "/") [home; seqdbname] in
  close_as_handle st ;;;
  let* rc := txn_begin in
  if negb (rc =? 0) then
    (if dbname is Some _ then free else ret tt) ;;;
    (if seqdbname is Some _ then free else ret tt) ;;;
    ret (-1)
  else
    let remove name := match name with
      | Some blk => let* path := lift (cstr blk) in call (bdb_call (env_dbremove path))
      | None => undef NullDeref
      end in
    let* rc := remove dbname in
    if negb (rc =? 0) then txn_abort ;;; ret (-1) else
    let* rc := remove seqdbname in
    if negb (rc =? 0) then txn_abort ;;; ret (-1)
    else txn_commit ;;; ret 0.

(** ** Reading *)

(** The object over a block of memory the library filled with a record. *)
Definition object_of_record (k : option (list byte)) (value : list byte)
  : outcome la_storage_object :=
  match mem_read value 0 SIZEOF_HEADER with
  | Undef u => Undef u
  | Ret h =>
      let h := decode_header h in
      Ret (Object k h (drop 34 value)
             (u32 (Z.of_nat (length value) - rev_count h * REV_LEN - SIZEOF_HEADER)))
  end.

Definition zero_header : list byte := replicate 34 x00.

(** [want] says whether the caller passes an [obj]. *)
Definition bdb_la_storage_get (k : list byte) (r : option rev_t) (want : bool)
  : M D (la_storage_object_get_result * option la_storage_object) :=
  let* '(rc, value) := call (bdb_get false k) in
  if negb (rc =? 0) then
    ret (if rc =? DB_NOTFOUND then LA_STORAGE_OBJECT_GET_NOT_FOUND
         else LA_STORAGE_OBJECT_GET_ERROR, None)
  else
    (if want then lib_alloc else ret tt) ;;;
    let h := if want then zero_header else dbt_user zero_header value in
    if match r with
       | Some r => negb (bool_decide (r = rev (decode_header h)))
       | None => false
       end
    then ret (LA_STORAGE_OBJECT_GET_NOT_FOUND, None)
    else if want then
      let* p := malloc SIZEOF_OBJECT in
      match p with
      | None => undef NullDeref
      | Some _ =>
          let* k := strdup k in
          let* o := lift (object_of_record k value) in
          ret (LA_STORAGE_OBJECT_GET_OK, Some o)
      end
    else ret (LA_STORAGE_OBJECT_GET_OK, None).

Definition bdb_la_storage_get_rev (k : list byte)
  : M D (la_storage_object_get_result * option rev_t) :=
  let* '(rc, value) := call (bdb_get false k) in
  if negb (rc =? 0) then
    ret (if rc =? DB_NOTFOUND then LA_STORAGE_OBJECT_GET_NOT_FOUND
         else LA_STORAGE_OBJECT_GET_ERROR, None)
  else
    ret (LA_STORAGE_OBJECT_GET_OK, Some (rev (decode_header (dbt_user zero_header value)))).

(** The record is read in part, and its block is not freed. *)
Definition bdb_la_storage_get_all_revs (k : list byte)
  : M D (Z * option (Z * option (list byte))) :=
  let* '(rc, value) := call (bdb_get false k) in
  if negb (rc =? 0) then ret (-1, None)
  else
    lib_alloc ;;;
    let value := take (Z.to_nat (SIZEOF_HEADER + REV_LEN * LA_OBJECT_MAX_REVISION_COUNT)) value in
    let* h := lift (mem_read value 0 SIZEOF_HEADER) in
    let h := decode_header h in
    let* revs := malloc (REV_LEN * rev_count h) in
    match revs with
    | None => ret (rev_count h, Some (doc_seq h, None))
    | Some _ =>
        let* revs := lift (mem_read value SIZEOF_HEADER (REV_LEN * rev_count h)) in
        ret (rev_count h, Some (doc_seq h, Some revs))
    end.

(** ** Writing *)

Definition bdb_la_storage_set_revs (k revs : list byte) (revcount : Z)
  : M D la_storage_object_put_result :=
  let revcount := la_min revcount LA_OBJECT_MAX_REVISION_COUNT in
  let* rc := txn_begin in
  if negb (rc =? 0) then ret LA_STORAGE_OBJECT_PUT_ERROR else
  let* '(rc, value) := call (bdb_get true k) in
  if negb (rc =? 0) then
    txn_abort ;;;
    ret (if rc =? DB_LOCK_NOTGRANTED then LA_STORAGE_OBJECT_PUT_CONFLICT
         else LA_STORAGE_OBJECT_PUT_ERROR)
  else
    lib_alloc ;;;
    let* o := lift (object_of_record None value) in
    let size := Z.of_nat (length value) in
    let off := SIZEOF_HEADER + get_data_offset o in
    let shift := s32 (revcount - rev_count (header o)) in
    let* blk := if 0 <? shift then realloc value (u32 (size + shift)) else ret (Some value) in
    match blk with
    | None => ret LA_STORAGE_OBJECT_PUT_ERROR
    | Some blk =>
        let* blk := lift (mem_move blk (off + shift) off (data_length o)) in
        let* d := lift (mem_read revs 0 (REV_LEN * revcount)) in
        let* blk := lift (mem_write blk SIZEOF_HEADER d) in
        let* record := lift (mem_read blk 0 (u32 (size + shift))) in
        let* rc := call (bdb_put k record) in
        free ;;;
        if negb (rc =? 0) then txn_abort ;;; ret LA_STORAGE_OBJECT_PUT_ERROR
        else txn_commit ;;; ret LA_STORAGE_OBJECT_PUT_SUCCESS
    end.

(** The object's memory after an update over the stored header [h]: its data moved up, its
    revisions moved up and the stored revision put in front. *)
Definition push_revision (h : la_storage_object_header) (o : la_storage_object)
  : M D la_storage_object :=
  let o := with_header (set_doc_seq (doc_seq h + 1) (header o)) o in
  let* o :=
    if rev_count h <? LA_OBJECT_MAX_REVISION_COUNT then
      let* p := realloc (revs_data o)
                  (la_storage_object_total_size o + REV_LEN - SIZEOF_HEADER) in
      match p with
      | None => undef NullDeref
      | Some d =>
          let off := get_data_offset o in
          let* d := lift (mem_move d (off + REV_LEN) off (data_length o)) in
          ret (with_header (set_rev_count (rev_count h + 1) (header o)) (with_revs_data d o))
      end
    else ret o in
  let* d := lift (mem_move (revs_data o) REV_LEN 0 (REV_LEN * (rev_count (header o) - 1))) in
  let* d := lift (mem_write d 0 (rev h)) in
  ret (with_revs_data d o).

(** The key, a C string, as the driver passes it. *)
Definition object_key (o : la_storage_object) : M D (list byte) :=
  match key o with Some k => ret k | None => undef NullDeref end.

(** The next value of the sequence; when the call fails the variable is not set. *)
Definition next_seq_value : M D Z :=
  let* '(rc, seq) := call bdb_seq_get in
  if rc =? 0 then ret seq else undef Uninitialised.

Definition bdb_la_storage_put (r : option rev_t) (o : la_storage_object)
  : M D (la_storage_object_put_result * la_storage_object) :=
  let* k := object_key o in
  let* rc := txn_begin in
  if negb (rc =? 0) then ret (LA_STORAGE_OBJECT_PUT_ERROR, o) else
  let* '(rc, value) := call (bdb_get true k) in
  if negb (rc =? 0) && negb (rc =? DB_NOTFOUND) then
    txn_abort ;;;
    ret (if rc =? DB_LOCK_NOTGRANTED then LA_STORAGE_OBJECT_PUT_CONFLICT
         else LA_STORAGE_OBJECT_PUT_ERROR, o)
  else
    let* h := if negb (rc =? DB_NOTFOUND) then lift (user_header value)
              else ret (decode_header zero_header) in
    if negb (rc =? DB_NOTFOUND) &&
       match r with Some r => negb (bool_decide (r = rev h)) | None => true end
    then txn_abort ;;; ret (LA_STORAGE_OBJECT_PUT_CONFLICT, o)
    else
      let* o := if negb (rc =? DB_NOTFOUND) then push_revision h o
                else ret (with_header (set_rev_count 0 (set_doc_seq 1 (header o))) o) in
      let* seq := next_seq_value in
      let o := with_header (set_seq seq (header o)) o in
      let* record := lift (mem_read (header_memory o) 0 (u32 (la_storage_object_total_size o))) in
      let* rc := call (bdb_put k record) in
      if negb (rc =? 0) then txn_abort ;;; ret (LA_STORAGE_OBJECT_PUT_ERROR, o)
      else txn_commit ;;; ret (LA_STORAGE_OBJECT_PUT_SUCCESS, o).

Definition bdb_la_storage_replace (o : la_storage_object)
  : M D (la_storage_object_put_result * la_storage_object) :=
  let* k := object_key o in
  let size := u32 (la_storage_object_total_size o) in
  let* rc := txn_begin in
  if negb (rc =? 0) then ret (LA_STORAGE_OBJECT_PUT_ERROR, o) else
  let* seq := next_seq_value in
  let o := with_header (set_seq seq (header o)) o in
  let* record := lift (mem_read (header_memory o) 0 size) in
  let* rc := call (bdb_put k record) in
  if negb (rc =? 0) then txn_abort ;;; ret (LA_STORAGE_OBJECT_PUT_ERROR, o)
  else txn_commit ;;; ret (LA_STORAGE_OBJECT_PUT_SUCCESS, o).

(** ** Statistics *)

Definition bdb_la_storage_lastseq : M D Z :=
  let* '(rc, seq) := call bdb_seq_stat in
  if negb (rc =? 0) then ret 0 else lib_alloc ;;; free ;;; ret (u64 seq).

(** The code, and [numkeys] and [size]; a first statistics block is not freed when the
    second call fails. *)
Definition bdb_la_storage_stat : M D (Z * option (Z * Z)) :=
  let* rc := txn_begin in
  if negb (rc =? 0) then ret (-1, None) else
  let* '(rc, (nkeys, pages, pagesize)) := call (bdb_stat false) in
  if negb (rc =? 0) then txn_abort ;;; ret (-1, None) else
  lib_alloc ;;;
  let* '(rc, (_, pages', pagesize')) := call (bdb_stat true) in
  if negb (rc =? 0) then txn_abort ;;; ret (-1, None) else
  lib_alloc ;;; free ;;; free ;;; txn_commit ;;;
  ret (0, Some (s32 nkeys, u64 (pages * pagesize + pages' * pagesize'))).

(** ** Iterating *)

Definition bdb_la_storage_iterator_open (st : la_storage_object_store) (since : Z)
  : M D (option la_storage_object_iterator) :=
  let* p := malloc 16 in
  match p with
  | None => ret None
  | Some _ =>
      let* '(rc, c) := call (bdb_cursor_open seqindex compare_seq) in
      if negb (rc =? 0) then free ;;; ret None
      else if 0 <? since then
        let* '(rc, c) := call (bdb_cursor_set c (le_bytes 8 since)) in
        if negb (rc =? 0) then call_ (bdb_cursor_close c) ;;; free ;;; ret None
        else ret (Some (BdbIterator st c))
      else ret (Some (BdbIterator st c))
  end.

(** For callers that pass an [obj]. *)
Definition bdb_la_storage_iterator_next (it : la_storage_object_iterator)
  : M D (la_storage_object_iterator_result * option la_storage_object *
         la_storage_object_iterator) :=
  let* '(rc, (pkey, value), c) := call (bdb_cursor_next (it_cursor it)) in
  let it := BdbIterator (it_store it) c in
  if negb (rc =? 0) then
    ret (if rc =? DB_NOTFOUND then LA_STORAGE_OBJECT_ITERATOR_END
         else LA_STORAGE_OBJECT_ITERATOR_ERROR, None, it)
  else
    lib_alloc ;;; lib_alloc ;;; lib_alloc ;;; free ;;;
    let* p := malloc SIZEOF_OBJECT in
    match p with
    | None => ret (LA_STORAGE_OBJECT_ITERATOR_ERROR, None, it)
    | Some _ =>
        let* k := keycpy pkey in
        free ;;;
        let* o := lift (object_of_record (Some k) value) in
        ret (LA_STORAGE_OBJECT_ITERATOR_GOT_NEXT, Some o, it)
    end.

Definition bdb_la_storage_iterator_close (it : la_storage_object_iterator) : M D unit :=
  call_ (bdb_cursor_close (it_cursor it)) ;;; free.

(** ** The driver table *)

Definition bdb_driver
  : la_object_store_driver D la_storage_env la_storage_object_store
      la_storage_object_iterator :=
  Driver D la_storage_env la_storage_object_store la_storage_object_iterator
    (lit "BDB") bdb_la_storage_open_env bdb_la_storage_close_env bdb_la_storage_open
    bdb_la_storage_close None
    (fun _ k r => bdb_la_storage_get k r true)
    (fun _ k => bdb_la_storage_get_rev k)
    (fun _ k => bdb_la_storage_get_all_revs k)
    (Some (fun _ k revs n => bdb_la_storage_set_revs k revs n))
    (fun _ r o => bdb_la_storage_put r o)
    (fun _ o => bdb_la_storage_replace o)
    (fun _ => bdb_la_storage_lastseq)
    (fun _ => bdb_la_storage_stat)
    bdb_la_storage_iterator_open bdb_la_storage_iterator_next bdb_la_storage_iterator_close.
End driver.

(** ** The laws of Berkeley DB the driver relies on *)

(** The records of the database, the sequence's own aside, and the sequence's next value. *)
Record view := View {
  docs : gmap (list byte) (list byte);
  next_seq : Z;
}.

(** The key of the record the sequence keeps its state in. *)
Definition SEQ_KEY : list byte := NUL :: lit "SEQ".

(** *** Secondary indexes *)

(** An entry of an index: its key, and the record it stands for. *)
Definition index_entry : Type := list byte * (list byte * list byte).

(** What the function given to [associate] makes of the records. *)
Definition indexed (index : list byte -> list byte -> outcome (option (list byte)))
  (l : list (list byte * list byte)) : list index_entry :=
  omap (fun e => match index e.1 e.2 with Ret (Some s) => Some (s, e) | _ => None end) l.

(** The order the function given to [set_bt_compare] defines. *)
Definition index_le (cmp : list byte -> list byte -> outcome Z) (e1 e2 : index_entry) : Prop :=
  exists z, cmp e1.1 e2.1 = Ret z /\ z <= 0.

(** What Berkeley DB asks of the two functions: they are defined on the records of the
    database and on the keys, the keys are distinct, and the comparison is a total order. *)
Record index_ready (index : list byte -> list byte -> outcome (option (list byte)))
  (cmp : list byte -> list byte -> outcome Z) (l : list (list byte * list byte)) : Prop := {
  ir_defined : Forall (fun e => exists s, index e.1 e.2 = Ret s) l;
  ir_distinct : NoDup (map fst (indexed index l));
  ir_compared e1 e2 :
    e1 ∈ indexed index l -> e2 ∈ indexed index l -> exists z, cmp e1.1 e2.1 = Ret z;
  ir_total e1 e2 :
    e1 ∈ indexed index l -> e2 ∈ indexed index l -> index_le cmp e1 e2 \/ index_le cmp e2 e1;
  ir_trans e1 e2 e3 :
    e1 ∈ indexed index l -> e2 ∈ indexed index l -> e3 ∈ indexed index l ->
    index_le cmp e1 e2 -> index_le cmp e2 e3 -> index_le cmp e1 e3;
}.

(** [healthy] states have no failing calls ahead.  A failed call changes no contents; aborts
    and failed commits drop what the transaction did. *)
Class BerkeleyDBLaws (D C : Type) `{BerkeleyDB D C} := {
  committed : D -> view;
  in_txn : D -> option view;
  healthy : D -> Prop;
  seq_record : D -> list byte;
  cursor_rest : C -> list index_entry;
  txn_begin_law (d : D) :
    in_txn d = None ->
    let '(rc, d') := bdb_txn_begin d in
    committed d' = committed d /\ in_txn d' = (if rc =? 0 then Some (committed d) else None) /\
    (healthy d -> rc = 0 /\ healthy d');
  txn_abort_law (d : D) :
    committed (bdb_txn_abort d) = committed d /\ in_txn (bdb_txn_abort d) = None /\
    (healthy d -> healthy (bdb_txn_abort d));
  txn_commit_law (d : D) t :
    in_txn d = Some t ->
    let '(rc, d') := bdb_txn_commit d in
    committed d' = (if rc =? 0 then t else committed d) /\ in_txn d' = None /\
    (healthy d -> rc = 0 /\ healthy d');
  get_law (b : bool) k (d : D) v0 :
    (if b then in_txn d else Some (committed d)) = Some v0 ->
    let '(rc, v, d') := bdb_get b k d in
    committed d' = committed d /\ in_txn d' = in_txn d /\
    (rc = 0 -> docs v0 !! k = Some v) /\ (rc = DB_NOTFOUND -> docs v0 !! k = None) /\
    (healthy d -> (rc = 0 \/ rc = DB_NOTFOUND) /\ healthy d');
  put_law k v (d : D) t :
    in_txn d = Some t ->
    let '(rc, d') := bdb_put k v d in
    committed d' = committed d /\
    in_txn d' = Some (if rc =? 0 then View (<[k := v]> (docs t)) (next_seq t) else t) /\
    (healthy d -> rc = 0 /\ healthy d');
  seq_get_law (d : D) t :
    in_txn d = Some t ->
    let '(rc, n, d') := bdb_seq_get d in
    committed d' = committed d /\
    in_txn d' = Some (if rc =? 0 then View (docs t) (next_seq t + 1) else t) /\
    (rc = 0 -> n = next_seq t) /\ (healthy d -> rc = 0 /\ healthy d');
  seq_stat_law (d : D) :
    let '(rc, n, d') := bdb_seq_stat d in
    committed d' = committed d /\ in_txn d' = in_txn d /\
    (rc = 0 -> n = next_seq (committed d)) /\ (healthy d -> rc = 0 /\ healthy d');
  cursor_open_law index cmp (d : D) :
    let '(rc, c, d') := bdb_cursor_open index cmp d in
    let l := (SEQ_KEY, seq_record d) :: map_to_list (docs (committed d)) in
    committed d' = committed d /\ in_txn d' = in_txn d /\
    (rc = 0 -> index_ready index cmp l ->
       cursor_rest c ≡ₚ indexed index l /\ StronglySorted (index_le cmp) (cursor_rest c)) /\
    (healthy d -> rc = 0 /\ healthy d');
  cursor_set_law (c : C) s (d : D) :
    let '(rc, c', d') := bdb_cursor_set c s d in
    committed d' = committed d /\ in_txn d' = in_txn d /\
    (rc = 0 -> exists l1 e, e.1 = s /\ cursor_rest c = l1 ++ e :: cursor_rest c') /\
    (healthy d -> (exists e, e ∈ cursor_rest c /\ e.1 = s) -> rc = 0) /\
    (healthy d -> healthy d');
  cursor_next_law (c : C) (d : D) :
    let '(rc, e, c', d') := bdb_cursor_next c d in
    committed d' = committed d /\ in_txn d' = in_txn d /\
    (rc = 0 -> exists s, cursor_rest c = (s, e) :: cursor_rest c') /\
    (rc = DB_NOTFOUND -> cursor_rest c = []) /\
    (healthy d -> (rc = 0 \/ rc = DB_NOTFOUND) /\ healthy d');
  cursor_close_law (c : C) (d : D) :
    committed (bdb_cursor_close c d) = committed d /\ in_txn (bdb_cursor_close c d) = in_txn d /\
    (healthy d -> healthy (bdb_cursor_close c d));
}.

(** ** Documents in records *)

Lemma user_header_doc d : doc_wf d -> user_header (encode_doc d) = Ret (doc_header d).
Proof.
  intros Hd. pose proof (length_encode_doc d Hd) as HL. destruct Hd as (Hh & _).
  unfold user_header, SIZEOF_HEADER. rewrite mem_read_ok by lia.
  rewrite drop_0. unfold encode_doc. change (Z.to_nat 34) with 34%nat.
  by rewrite decode_encode_header.
Qed.

Lemma dbt_user_doc d :
  doc_wf d -> decode_header (dbt_user zero_header (encode_doc d)) = doc_header d.
Proof.
  intros Hd. pose proof (length_encode_doc d Hd) as HL. destruct Hd as (Hh & _).
  unfold dbt_user, zero_header. rewrite length_replicate, drop_ge by (rewrite length_replicate; lia).
  rewrite app_nil_r. unfold encode_doc. by apply decode_encode_header.
Qed.

Lemma object_of_record_doc k d :
  doc_wf d ->
  exists o, object_of_record (Some k) (encode_doc d) = Ret o /\ object_holds o k d.
Proof.
  intros Hd. pose proof (length_encode_doc d Hd) as HL.
  pose proof Hd as (Hh & Hr & Hs & _). unfold object_of_record, SIZEOF_HEADER, REV_LEN.
  rewrite mem_read_ok by lia. rewrite drop_0. change (Z.to_nat 34) with 34%nat.
  assert (decode_header (take 34 (encode_doc d)) = doc_header d) as ->
    by (unfold encode_doc; by apply decode_encode_header).
  eexists. split; [done|]. repeat split; cbn [key header data_length revs_data].
  - unfold u32. cbn [rev_count doc_header]. rewrite Z.mod_small; lia.
  - exists []. unfold encode_doc. rewrite app_nil_r.
    apply drop_app_exact. by rewrite length_encode_header.
Qed.

(** Moving [b] up by the length of [c]. *)
Lemma mem_move_up (a b c e : list byte) dst src len :
  dst = Z.of_nat (length a + length c) -> src = Z.of_nat (length a) ->
  len = Z.of_nat (length b) ->
  mem_move (a ++ b ++ c ++ e) dst src len =
    Ret (a ++ take (length c) (b ++ c) ++ b ++ e).
Proof.
  intros -> -> ->. unfold mem_move.
  rewrite mem_read_ok by (rewrite ?length_app; lia). rewrite !Nat2Z.id.
  rewrite drop_app_length, take_app_length.
  rewrite mem_write_ok by (rewrite ?length_app; lia). rewrite Nat2Z.id. f_equal.
  rewrite take_app_ge by lia.
  replace (length a + length c - length a)%nat with (length c) by lia.
  rewrite !(app_assoc b c e), take_app_le by (rewrite length_app; lia).
  rewrite <- !app_assoc. do 3 f_equal.
  rewrite drop_app_ge by lia. rewrite drop_app_ge by lia. apply drop_app_exact. lia.
Qed.

Section push.
Context {D : Type}.
Implicit Types w : world D.

(** The two shapes of [push_revision]: with room for one more revision, and with the oldest
    one dropped. *)
Lemma make_room (revs : list rev_t) (data pad : list byte) :
  revs_wf revs -> length pad = 16%nat ->
  exists x, length x = 16%nat /\
    mem_move (concat revs ++ data ++ pad) (16 * Z.of_nat (length revs) + 16)
      (16 * Z.of_nat (length revs)) (Z.of_nat (length data)) = Ret (concat revs ++ x ++ data).
Proof.
  intros Hr Hp. pose proof (length_concat_revs revs Hr).
  exists (take 16 (data ++ pad)). split; [rewrite length_take, length_app; lia|].
  rewrite <- (app_nil_r pad) at 1. rewrite mem_move_up by lia. by rewrite Hp, app_nil_r.
Qed.

Lemma shift_revs (r : rev_t) (revs : list rev_t) (x rest : list byte) :
  revs_wf revs -> length x = 16%nat -> length r = 16%nat ->
  exists y,
    mem_move (concat revs ++ x ++ rest) 16 0 (16 * Z.of_nat (length revs)) = Ret y /\
    mem_write y 0 r = Ret (r ++ concat revs ++ rest).
Proof.
  intros Hr Hx Hl. pose proof (length_concat_revs revs Hr).
  eexists. split.
  - apply (mem_move_up [] (concat revs) x rest); simpl; lia.
  - cbn [app]. rewrite mem_write_ok by (rewrite ?length_app, ?length_take, ?length_app; lia).
    rewrite take_0. cbn [app]. f_equal. f_equal. apply drop_app_exact.
    rewrite length_take, length_app. lia.
Qed.

Lemma wp_push_revision h o k d w (Q : la_storage_object -> world D -> Prop) :
  object_holds o k d -> doc_wf d -> header_wf h ->
  rev_count h = Z.of_nat (length (d_revs d)) -> doc_seq h + 1 < 2 ^ 64 -> mem_ok w ->
  (forall o' w', frame 0 w w' ->
     object_holds o' k (Doc (d_seq d) (doc_seq h + 1) (d_deleted d) (d_rev d)
                          (push_revs (rev h) (d_revs d)) (d_data d)) -> Q o' w') ->
  wp (push_revision h o) w Q.
Proof.
  intros (Hk & Hh & Hlen & pad & Hpad) Hd Hhw Hrc Hds Hm HQ.
  pose proof (length_encode_doc d Hd) as HL. pose proof Hd as (_ & Hrw & Hs & Hmax).
  pose proof (length_concat_revs _ Hrw) as HC.
  destruct Hhw as (_ & Hds0 & _ & _ & Hrl).
  unfold push_revision. cbv zeta. unfold LA_OBJECT_MAX_REVISION_COUNT in *.
  cbn [header with_header revs_data key data_length set_doc_seq].
  destruct (rev_count h <? 1024) eqn:E; [apply Z.ltb_lt in E | apply Z.ltb_ge in E].
  - wp_step. wp_step.
    unfold la_storage_object_total_size, get_data_offset, SIZEOF_HEADER, REV_LEN.
    cbn [header rev_count data_length revs_data with_header].
    rewrite Hh, Hlen, Hpad. cbn [doc_header set_doc_seq rev_count].
    apply wp_realloc; [lia| |].
    2: { intros w' Hno _ _. exfalso. apply Hno. split; [done|]. unfold PTRDIFF_MAX. lia. }
    intros blk w' Hbl Hbt _ Hf _. cbv beta iota zeta.
    assert (exists p, blk = concat (d_revs d) ++ d_data d ++ p /\ length p = 16%nat)
      as (p & -> & Hp).
    { exists (drop (length (concat (d_revs d)) + length (d_data d)) blk).
      split; [|rewrite length_drop; lia]. rewrite app_assoc.
      rewrite <- (take_drop (length (concat (d_revs d)) + length (d_data d)) blk) at 1.
      f_equal. apply (f_equal (take (length (concat (d_revs d)) + length (d_data d)))) in Hbt.
      rewrite !take_take in Hbt. rewrite !length_app in Hbt.
      rewrite !Nat.min_l in Hbt by lia. rewrite Hbt, app_assoc.
      apply take_app_exact. by rewrite length_app. }
    destruct (make_room (d_revs d) (d_data d) p) as (x & Hx & Hmv); [done..|].
    wp_step. rewrite Hmv. apply wp_lift. apply wp_ret.
    cbn [header with_header with_revs_data set_rev_count rev_count revs_data].
    destruct (shift_revs (rev h) (d_revs d) x (d_data d)) as (y & Hy & Hw); [done..|].
    wp_step. replace (16 * ((rev_count h + 1) mod 2 ^ 15 - 1))
      with (16 * Z.of_nat (length (d_revs d))) by (rewrite Z.mod_small; lia).
    rewrite Hy. apply wp_lift. wp_step. rewrite Hw. apply wp_lift. apply wp_ret.
    apply HQ; [done|]. repeat split; cbn [key header data_length revs_data with_revs_data
      doc_header d_seq d_doc_seq d_deleted d_rev d_revs d_data]; try done.
    + unfold set_rev_count, set_doc_seq.
      cbn [seq doc_seq deleted rev_count rev doc_header header with_header].
      unfold push_revs, LA_OBJECT_MAX_REVISION_COUNT, u64.
      rewrite !Z.mod_small by lia.
      unfold doc_header; cbn [d_seq d_doc_seq d_deleted d_rev d_revs].
      f_equal. rewrite length_take. cbn [length]. lia.
    + exists []. unfold push_revs. rewrite take_ge by (cbn [length];
        unfold LA_OBJECT_MAX_REVISION_COUNT; lia). cbn [concat]. by rewrite app_nil_r, app_assoc.
  - wp_step. wp_step. unfold REV_LEN. cbn [header revs_data rev_count with_header].
    rewrite Hh, Hpad. cbn [doc_header rev_count set_doc_seq].
    destruct (exists_last (l := d_revs d)) as (front & last & Hfl).
    { intros E0. rewrite E0 in *. cbn [length] in *. lia. }
    pose proof Hrw as Hrw'. rewrite Hfl in Hrw'. apply Forall_app in Hrw' as [Hfw Hlw].
    apply Forall_cons_1 in Hlw as [Hlw _].
    assert (length (d_revs d) = S (length front)) as HS by (rewrite Hfl, length_app; simpl; lia).
    destruct (shift_revs (rev h) front last (d_data d ++ pad)) as (y & Hy & Hw); [done..|].
    wp_step. rewrite Hfl, concat_app. cbn [concat]. rewrite app_nil_r, <- app_assoc.
    replace (16 * (Z.of_nat (length (front ++ [last])) - 1))
      with (16 * Z.of_nat (length front)) by (rewrite length_app; simpl; lia).
    rewrite Hy. apply wp_lift. wp_step. rewrite Hw. apply wp_lift. apply wp_ret.
    assert (push_revs (rev h) (d_revs d) = rev h :: front) as Hpr.
    { unfold push_revs, LA_OBJECT_MAX_REVISION_COUNT. rewrite Hfl.
      change (Z.to_nat 1024) with (S 1023). cbn [take]. f_equal. apply take_app_exact. lia. }
    apply HQ; [apply frame_refl|]. rewrite Hfl in Hpr. rewrite Hfl, Hpr.
    repeat split; cbn [key header data_length revs_data with_revs_data with_header
      doc_header d_seq d_doc_seq d_deleted d_rev d_revs d_data]; try done.
    + unfold set_doc_seq. cbn [seq doc_seq deleted rev_count rev length]. unfold u64.
      rewrite Z.mod_small by lia. unfold doc_header.
      cbn [seq doc_seq deleted rev_count rev d_seq d_doc_seq d_deleted d_rev d_revs].
      f_equal. by rewrite HS.
    + exists pad. cbn [concat]. by rewrite <- app_assoc.
Qed.
End push.

(** ** Runs against the laws *)

(** Decides the tests of a return code from what is known of it. *)
Ltac code :=
  repeat match goal with
  | |- context [?x =? ?x] => rewrite (Z.eqb_refl x)
  | |- context [?x =? ?y] =>
      rewrite (proj2 (Z.eqb_neq x y)) by first [done | tauto | unfold DB_NOTFOUND; lia]
  end; cbn [negb andb].

Section laws.
Context {D C : Type} `{BerkeleyDBLaws D C}.
Implicit Types w : world D.

Definition healthy_w w : Prop := healthy (w_ext w).

(** The database is [v], outside of ([None]) or inside a transaction that has [t]. *)
Definition at_view w (v : view) (t : option view) : Prop :=
  committed (w_ext w) = v /\ in_txn (w_ext w) = t.

(** Each law as a rule for runs: [Q] is reached in a world related to the one before. *)
Ltac law L :=
  apply wp_call; intros ? ? w' E Hw' Hh; pose proof L as HL; rewrite E in HL.

Lemma wp_txn_begin w v (Q : Z -> world D -> Prop) :
  at_view w v None ->
  (forall rc w', heap 0 w w' -> at_view w' v (if rc =? 0 then Some v else None) ->
     (healthy_w w -> rc = 0 /\ healthy_w w') -> Q rc w') ->
  wp txn_begin w Q.
Proof.
  intros (Hc & Ht) HQ. law (txn_begin_law (w_ext w) Ht). destruct HL as (H1 & H2 & H3).
  apply HQ; [done| |unfold healthy_w; by rewrite Hw'].
  unfold at_view. rewrite Hw', H1, H2, Hc. done.
Qed.

Lemma wp_txn_abort w v t (Q : unit -> world D -> Prop) :
  at_view w v t ->
  (forall w', heap 0 w w' -> at_view w' v None -> (healthy_w w -> healthy_w w') -> Q tt w') ->
  wp txn_abort w Q.
Proof.
  intros (Hc & Ht) HQ. apply wp_call. intros [] d w' [= <-] Hw' Hh.
  pose proof (txn_abort_law (w_ext w)) as (H1 & H2 & H3).
  apply HQ; [done| |unfold healthy_w; by rewrite Hw'].
  unfold at_view. by rewrite Hw', H1, H2, Hc.
Qed.

(** The driver cannot see whether a commit failed. *)
Lemma wp_txn_commit w v t (Q : unit -> world D -> Prop) :
  at_view w v (Some t) ->
  (forall w', heap 0 w w' -> at_view w' t None \/ ~ healthy_w w /\ at_view w' v None ->
     (healthy_w w -> healthy_w w') -> Q tt w') ->
  wp txn_commit w Q.
Proof.
  intros (Hc & Ht) HQ. unfold txn_commit. wp_step.
  law (txn_commit_law (w_ext w) t Ht). destruct HL as (H1 & H2 & H3).
  apply wp_ret. apply HQ; [done| |unfold healthy_w; rewrite Hw'; intros Hy; by apply H3].
  unfold at_view, healthy_w. rewrite Hw', H1, H2, Hc.
  destruct (a =? 0) eqn:Ea; [by left|right]. split; [|done].
  intros Hy. apply H3 in Hy as [Hy _]. apply Z.eqb_neq in Ea. done.
Qed.

Lemma wp_get b k w v t v0 (Q : Z * list byte -> world D -> Prop) :
  at_view w v t -> (if b : bool then t else Some v) = Some v0 ->
  (forall rc value w', heap 0 w w' -> at_view w' v t ->
     (rc = 0 -> docs v0 !! k = Some value) -> (rc = DB_NOTFOUND -> docs v0 !! k = None) ->
     (healthy_w w -> (rc = 0 \/ rc = DB_NOTFOUND) /\ healthy_w w') -> Q (rc, value) w') ->
  wp (call (bdb_get b k)) w Q.
Proof.
  intros (Hc & Ht) Hb HQ. apply wp_call. intros [rc value] d w' E Hw' Hh.
  pose proof (get_law b k (w_ext w) v0) as HL. rewrite E, Hc, Ht in HL.
  destruct HL as (H1 & H2 & H3 & H4 & H5); [done|].
  apply HQ; [done|unfold at_view; by rewrite Hw', H1, H2|done|done|].
  unfold healthy_w. by rewrite Hw'.
Qed.

Lemma wp_put k value w v t (Q : Z -> world D -> Prop) :
  at_view w v (Some t) ->
  (forall rc w', heap 0 w w' ->
     at_view w' v (Some (if rc =? 0 then View (<[k := value]> (docs t)) (next_seq t) else t)) ->
     (healthy_w w -> rc = 0 /\ healthy_w w') -> Q rc w') ->
  wp (call (bdb_put k value)) w Q.
Proof.
  intros (Hc & Ht) HQ. law (put_law k value (w_ext w) t Ht). destruct HL as (H1 & H2 & H3).
  apply HQ; [done| |unfold healthy_w; by rewrite Hw'].
  unfold at_view. by rewrite Hw', H1, H2, Hc.
Qed.

(** Sequence calls never fail; when one does the driver reads a variable never set. *)
Definition seq_available : Prop := forall d : D, (bdb_seq_get d).1.1 = 0.

Lemma wp_next_seq w v t (Q : Z -> world D -> Prop) :
  seq_available -> at_view w v (Some t) ->
  (forall w', heap 0 w w' -> at_view w' v (Some (View (docs t) (next_seq t + 1))) ->
     (healthy_w w -> healthy_w w') -> Q (next_seq t) w') ->
  wp next_seq_value w Q.
Proof.
  intros Hs (Hc & Ht) HQ. unfold next_seq_value. wp_step.
  apply wp_call. intros [rc n] d w' E Hw' Hh.
  pose proof (seq_get_law (w_ext w) t Ht) as HL. specialize (Hs (w_ext w)).
  rewrite E in HL, Hs. cbn [fst] in Hs. subst rc.
  destruct HL as (H1 & H2 & H3 & H4). rewrite (H3 eq_refl). apply wp_ret.
  apply HQ; [done| |unfold healthy_w; rewrite Hw'; intros Hy; by apply H4].
  unfold at_view. by rewrite Hw', H1, H2, Hc.
Qed.

(** ** Documents in the database *)

(** Outside of a transaction the database holds the documents [m], and [n] is next. *)
Definition repr w (m : gmap (list byte) doc) (n : Z) : Prop :=
  at_view w (View (encode_doc <$> m) n) None /\ map_Forall (fun _ => doc_wf) m.

Lemma lookup_repr (m : gmap (list byte) doc) k value :
  (encode_doc <$> m) !! k = Some value -> exists d, m !! k = Some d /\ value = encode_doc d.
Proof. rewrite lookup_fmap. destruct (m !! k); naive_solver. Qed.

Lemma lookup_repr_None (m : gmap (list byte) doc) k :
  (encode_doc <$> m) !! k = None -> m !! k = None.
Proof. rewrite lookup_fmap. by destruct (m !! k). Qed.

Lemma repr_insert w m n k d :
  at_view w (View (<[k := encode_doc d]> (encode_doc <$> m)) n) None ->
  map_Forall (fun _ => doc_wf) m -> doc_wf d -> repr w (<[k := d]> m) n.
Proof.
  intros Hv Hm Hd. split; [by rewrite fmap_insert|]. by apply map_Forall_insert_2.
Qed.

(** The last part of a put: number the object, store its record, commit. *)
Definition store_object (k : list byte) (o : la_storage_object)
  : M D (la_storage_object_put_result * la_storage_object) :=
  let* seq := next_seq_value in
  let o := with_header (set_seq seq (header o)) o in
  let* record := lift (mem_read (header_memory o) 0 (u32 (la_storage_object_total_size o))) in
  let* rc := call (bdb_put k record) in
  if negb (rc =? 0) then txn_abort ;;; ret (LA_STORAGE_OBJECT_PUT_ERROR, o)
  else txn_commit ;;; ret (LA_STORAGE_OBJECT_PUT_SUCCESS, o).

Lemma wp_store_object k o d m n w
  (Q : la_storage_object_put_result * la_storage_object -> world D -> Prop) :
  seq_available -> map_Forall (fun _ => doc_wf) m ->
  at_view w (View (encode_doc <$> m) n) (Some (View (encode_doc <$> m) n)) ->
  object_holds o k d -> doc_wf (with_seq n d) ->
  (forall w', heap 0 w w' -> (healthy_w w -> healthy_w w') -> ~ healthy_w w ->
     repr w' m n -> forall o', Q (LA_STORAGE_OBJECT_PUT_ERROR, o') w') ->
  (forall w' o', heap 0 w w' -> (healthy_w w -> healthy_w w') ->
     repr w' (<[k := with_seq n d]> m) (n + 1) \/ ~ healthy_w w /\ repr w' m n ->
     object_holds o' k (with_seq n d) -> Q (LA_STORAGE_OBJECT_PUT_SUCCESS, o') w') ->
  wp (store_object k o) w Q.
Proof.
  intros Hs Hm Hv Ho Hd HE HS. unfold store_object. wp_step.
  eapply wp_next_seq; [done..|]. intros w1 Hh1 Hv1 Hy1. cbv zeta. cbn [next_seq docs] in *.
  assert (object_holds (with_header (set_seq n (header o)) o) k (with_seq n d)) as Ho'.
  { destruct Ho as (Hk & Hhd & Hl & Hp). repeat split; try done. cbn [with_header header].
    rewrite Hhd. unfold set_seq, doc_header, with_seq, u64.
    cbn [seq doc_seq deleted rev_count rev d_seq d_doc_seq d_deleted d_rev d_revs].
    rewrite Z.mod_small; [done|]. destruct Hd as ((? & _) & _). done. }
  wp_step. erewrite object_record by done. apply wp_lift. wp_step.
  eapply wp_put; [done|]. intros rc w2 Hh2 Hv2 Hy2. cbn [next_seq docs] in *.
  destruct (rc =? 0) eqn:Erc; cbn [negb].
  - wp_step. eapply wp_txn_commit; [done|]. intros w3 Hh3 Hv3 Hy3. apply wp_ret.
    apply HS; [solve_heap|tauto| |done].
    destruct Hv3 as [Hv3|[Hn Hv3]]; [left; by apply repr_insert|right].
    split; [tauto|done].
  - wp_step. eapply wp_txn_abort; [done|]. intros w3 Hh3 Hv3 Hy3. apply wp_ret.
    apply HE; [solve_heap|tauto| |done]. apply Z.eqb_neq in Erc. tauto.
Qed.

Lemma wp_bdb_put r o k d m n w :
  seq_available -> repr w m n -> mem_ok w -> object_holds o k d -> put_ready m n k d ->
  wp (bdb_la_storage_put r o) w
    (fun '(res, o') w' =>
       heap 0 w w' /\ (healthy_w w -> healthy_w w') /\
       match res with
       | LA_STORAGE_OBJECT_PUT_SUCCESS =>
           exists d', put_doc m n k r d = Some d' /\ object_holds o' k d' /\
             (repr w' (<[k := d']> m) (n + 1) \/ ~ healthy_w w /\ repr w' m n)
       | LA_STORAGE_OBJECT_PUT_CONFLICT =>
           repr w' m n /\ (put_doc m n k r d = None \/ ~ healthy_w w)
       | LA_STORAGE_OBJECT_PUT_ERROR => repr w' m n /\ ~ healthy_w w
       end).
Proof.
  intros Hs (Hv & Hm) Hok Ho Hrd. unfold bdb_la_storage_put. wp_step.
  unfold object_key. pose proof Ho as (Hk & _). rewrite Hk. apply wp_ret.
  wp_step. eapply wp_txn_begin; [done|]. intros rc w1 Hh1 Hv1 Hy1.
  destruct (rc =? 0) eqn:E1; cbn [negb].
  2: { apply wp_ret. apply Z.eqb_neq in E1. split; [done|]. split; [tauto|].
       split; [done|]. tauto. }
  wp_step. eapply (wp_get true); [done..|]. intros rc2 value w2 Hh2 Hv2 Hfd Hnf Hy2.
  cbn [docs] in *. apply Z.eqb_eq in E1.
  destruct (rc2 =? 0) eqn:E2; [apply Z.eqb_eq in E2|apply Z.eqb_neq in E2]; cbn [negb andb].
  - (* found *)
    subst rc2. destruct (lookup_repr m k value (Hfd eq_refl)) as (old & Hold & ->).
    change (0 =? DB_NOTFOUND) with false. cbn [negb andb].
    wp_step. rewrite user_header_doc by (by apply (Hm k)). apply wp_lift.
    assert (match r with
            | Some r => negb (bool_decide (r = rev (doc_header old)))
            | None => true end = negb (bool_decide (r = Some (d_rev old)))) as ->.
    { destruct r as [r|]; [|by rewrite bool_decide_false by done].
      f_equal. apply bool_decide_ext. cbn [doc_header rev]. split; [by intros ->|by intros [= ->]]. }
    destruct Hrd as (Hd & Hn & Hsz & Hrc). unfold put_doc. rewrite Hold in *.
    case_bool_decide as Hr; cbn [negb].
    + wp_step. destruct Hrc as [Hrc Hds].
      eapply (wp_push_revision (doc_header old) o k d); [done|done|by apply (Hm k)| | | |].
      { cbn [doc_header rev_count]. lia. } { done. }
      { by do 2 (eapply heap_mem_ok; [eassumption|]). }
      intros o' w3 Hf Ho'. pose proof (frame_heap _ _ _ Hf) as Hh3.
      assert (at_view w3 (View (encode_doc <$> m) n) (Some (View (encode_doc <$> m) n))) as Hv3.
      { destruct Hf as (He & _). unfold at_view in *. by rewrite He. }
      assert (healthy_w w2 -> healthy_w w3) as Hy3.
      { destruct Hf as (He & _). unfold healthy_w. by rewrite He. }
      eapply wp_store_object; [done|done|exact Hv3|exact Ho'| | |].
      * apply (put_doc_wf m n k r d); [done| |].
        { split; [done|]. rewrite Hold. done. }
        unfold put_doc. rewrite Hold. by rewrite decide_True.
      * intros w4 Hh4 Hy4 Hno Hrp o4. split; [solve_heap|]. split; [tauto|]. split; [done|]. tauto.
      * intros w4 o4 Hh4 Hy4 Hrp Ho4. split; [solve_heap|]. split; [tauto|].
        eexists. split; [by rewrite decide_True|]. split; [exact Ho4|].
        destruct Hrp; [by left|right]; tauto.
    + wp_step. eapply wp_txn_abort; [done|]. intros w3 Hh3 Hv3 Hy3. apply wp_ret.
      split; [solve_heap|]. split; [tauto|]. split; [done|]. left. by rewrite decide_False.
  - destruct (rc2 =? DB_NOTFOUND) eqn:E3; [apply Z.eqb_eq in E3|apply Z.eqb_neq in E3];
      cbn [negb andb].
    + (* a new document *)
      specialize (Hnf E3). apply lookup_repr_None in Hnf. wp_step. apply wp_ret. wp_step.
      pose proof Hrd as (Hd & Hn & Hsz & Hrc). rewrite Hnf in Hrc.
      apply wp_ret.
      assert (object_holds (with_header (set_rev_count 0 (set_doc_seq 1 (header o))) o) k
                (Doc (d_seq d) 1 (d_deleted d) (d_rev d) [] (d_data d))) as Ho'.
      { destruct Ho as (_ & Hhd & Hl & pad & Hp). repeat split; [done| |done|].
        - cbn [with_header header]. by rewrite Hhd.
        - exists pad. cbn [with_header revs_data d_revs d_data]. by rewrite Hp, Hrc. }
      assert (put_doc m n k r d = Some (Doc n 1 (d_deleted d) (d_rev d) [] (d_data d))) as HP
        by (unfold put_doc; by rewrite Hnf).
      eapply wp_store_object; [done|done|exact Hv2|exact Ho'| | |].
      * by apply (put_doc_wf m n k r d).
      * intros w4 Hh4 Hy4 Hno Hrp o4. split; [solve_heap|]. split; [tauto|]. split; [done|]. tauto.
      * intros w4 o4 Hh4 Hy4 Hrp Ho4. split; [solve_heap|]. split; [tauto|].
        eexists. split; [done|]. split; [exact Ho4|]. destruct Hrp; [by left|right]; tauto.
    + wp_step. eapply wp_txn_abort; [done|]. intros w3 Hh3 Hv3 Hy3. apply wp_ret.
      assert (~ healthy_w w) by tauto.
      split; [solve_heap|]. split; [tauto|].
      destruct (rc2 =? DB_LOCK_NOTGRANTED); (split; [done|]); tauto.
Qed.

Lemma frame_at_view d w w' v t : frame d w w' -> at_view w v t -> at_view w' v t.
Proof. unfold at_view. by intros (-> & _). Qed.

Lemma frame_healthy d w w' : frame d w w' -> healthy_w w -> healthy_w w'.
Proof. unfold healthy_w. by intros (-> & _). Qed.

Lemma repr_ext w w' m n : w_ext w' = w_ext w -> repr w m n -> repr w' m n.
Proof. unfold repr, at_view. by intros ->. Qed.

(** ** Reading *)

(** A read outside of transactions: the documents stay, and the record is that of the
    document, or there is none. *)
Lemma wp_read k w m n (Q : Z * list byte -> world D -> Prop) :
  repr w m n ->
  (forall rc value w', heap 0 w w' -> repr w' m n -> (healthy_w w -> healthy_w w') ->
     match m !! k with
     | Some d => rc = 0 /\ value = encode_doc d \/ rc <> 0 /\ rc <> DB_NOTFOUND /\ ~ healthy_w w
     | None => rc = DB_NOTFOUND \/ rc <> 0 /\ rc <> DB_NOTFOUND /\ ~ healthy_w w
     end -> Q (rc, value) w') ->
  wp (call (bdb_get false k)) w Q.
Proof.
  intros (Hv & Hm) HQ. eapply (wp_get false); [done..|].
  intros rc value w' Hh Hv' Hfd Hnf Hy. cbn [docs] in *.
  apply HQ; [done|done|tauto|].
  rewrite lookup_fmap in Hfd, Hnf.
  destruct (decide (rc = 0)) as [->|]; [|destruct (decide (rc = DB_NOTFOUND)) as [->|]].
  - specialize (Hfd eq_refl). destruct (m !! k); [left|done]. by injection Hfd as <-.
  - specialize (Hnf eq_refl). destruct (m !! k); [done|by left].
  - assert (~ healthy_w w) by tauto. destruct (m !! k); right; tauto.
Qed.

Lemma wp_bdb_get k w m n :
  repr w m n -> mem_ok w -> cstring k -> Z.of_nat (length k) < PTRDIFF_MAX ->
  wp (bdb_la_storage_get k None true) w (fun '(res, o) w' =>
    repr w' m n /\ (healthy_w w -> healthy_w w') /\
    match res with
    | LA_STORAGE_OBJECT_GET_OK =>
        exists d o', m !! k = Some d /\ o = Some o' /\ object_holds o' k d /\ heap 3 w w'
    | LA_STORAGE_OBJECT_GET_NOT_FOUND => m !! k = None /\ o = None /\ heap 0 w w'
    | LA_STORAGE_OBJECT_GET_REVISION_NOT_FOUND => False
    | LA_STORAGE_OBJECT_GET_ERROR => ~ healthy_w w /\ o = None /\ heap 0 w w'
    end).
Proof.
  intros Hr Hok Hk Hkl. unfold bdb_la_storage_get. wp_step.
  eapply wp_read; [done|]. intros rc value w1 Hh1 Hr1 Hy1 Hres.
  destruct (m !! k) as [d|] eqn:Ek.
  2: { destruct Hres as [->|(H1 & H2 & H3)].
       - code. by apply wp_ret.
       - code. by apply wp_ret. }
  destruct Hres as [[-> ->]|(H1 & H2 & H3)].
  2: { code. by apply wp_ret. }
  code. wp_step. apply wp_lib_alloc. intros w2 Hf2.
  assert (mem_ok w2) as Hok2
    by (eapply frame_mem_ok; [done|]; by eapply heap_mem_ok).
  cbv zeta. wp_step. apply wp_malloc; [unfold SIZEOF_OBJECT; lia| |].
  2: { intros w' Hno _ _. exfalso. apply Hno. done. }
  intros p w3 _ _ Hf3 _. cbv beta iota. wp_step.
  apply wp_strdup; [done|done| |].
  2: { intros w' Hno. exfalso. apply Hno. by eapply frame_mem_ok. }
  intros w4 Hf4. wp_step.
  destruct (object_of_record_doc k d) as (o & -> & Ho); [destruct Hr as [_ Hm]; by apply (Hm k)|].
  apply wp_lift. apply wp_ret.
  assert (frame 3 w1 w4) as Hf by solve_frame.
  split; [by eapply (repr_ext w1); [apply Hf|]|].
  split; [intros ?; eapply frame_healthy; [done|tauto]|].
  exists d, o. split; [done|]. split; [done|]. split; [done|].
  eapply heap_eq; [eapply heap_trans; [exact Hh1|by apply frame_heap]|lia].
Qed.

Lemma wp_bdb_get_rev k w m n :
  repr w m n ->
  wp (bdb_la_storage_get_rev k) w (fun '(res, r) w' =>
    repr w' m n /\ heap 0 w w' /\ (healthy_w w -> healthy_w w') /\
    match res with
    | LA_STORAGE_OBJECT_GET_OK => exists d, m !! k = Some d /\ r = Some (d_rev d)
    | LA_STORAGE_OBJECT_GET_NOT_FOUND => m !! k = None /\ r = None
    | LA_STORAGE_OBJECT_GET_REVISION_NOT_FOUND => False
    | LA_STORAGE_OBJECT_GET_ERROR => ~ healthy_w w /\ r = None
    end).
Proof.
  intros Hr. unfold bdb_la_storage_get_rev. wp_step.
  eapply wp_read; [done|]. intros rc value w1 Hh1 Hr1 Hy1 Hres.
  destruct (decide (rc = 0)) as [->|Hrc].
  - code. apply wp_ret. do 3 (split; [done|]).
    destruct (m !! k) as [d|] eqn:Ek; [|naive_solver].
    exists d. split; [done|]. destruct Hres as [[_ ->]|]; [|tauto].
    rewrite dbt_user_doc by (destruct Hr as [_ Hm]; by apply (Hm k)). done.
  - code. apply wp_ret.
    do 3 (split; [done|]). destruct (rc =? DB_NOTFOUND) eqn:E.
    + apply Z.eqb_eq in E. destruct (m !! k); [tauto|done].
    + apply Z.eqb_neq in E. destruct (m !! k); tauto.
Qed.

Lemma wp_bdb_get_all_revs k w m n :
  repr w m n -> mem_ok w ->
  wp (bdb_la_storage_get_all_revs k) w (fun '(count, res) w' =>
    repr w' m n /\ (healthy_w w -> healthy_w w') /\ (mem_ok w -> mem_ok w') /\
    match m !! k with
    | Some d =>
        count = Z.of_nat (length (d_revs d)) /\
          res = Some (d_doc_seq d, Some (concat (d_revs d))) \/
        count = -1 /\ res = None /\ ~ healthy_w w
    | None => count = -1 /\ res = None
    end).
Proof.
  intros Hr Hok. unfold bdb_la_storage_get_all_revs. wp_step.
  eapply wp_read; [done|]. intros rc value w1 Hh1 Hr1 Hy1 Hres.
  destruct (m !! k) as [d|] eqn:Ek.
  2: { assert (rc <> 0) by (destruct Hres as [->|]; [done|tauto]). code. apply wp_ret. split; [done|]. split; [done|]. split; [apply Hh1|done]. }
  destruct Hres as [[-> ->]|(H1 & H2 & H3)].
  2: { code. apply wp_ret. split; [done|]. split; [done|]. split; [apply Hh1|]. by right. }
  code. wp_step. apply wp_lib_alloc. intros w2 Hf2. cbv zeta.
  assert (doc_wf d) as Hd by (destruct Hr as [_ Hm]; by apply (Hm k)).
  pose proof (length_encode_doc d Hd) as HL. pose proof Hd as (Hh & Hrw & Hs & Hmx).
  pose proof (length_concat_revs _ Hrw) as HC.
  unfold LA_OBJECT_MAX_REVISION_COUNT, SIZEOF_HEADER, REV_LEN in *.
  assert (length (encode_header (doc_header d)) = 34%nat) as HE
    by (by apply length_encode_header).
  assert (exists rest, take (Z.to_nat (34 + 16 * 1024)) (encode_doc d) =
            encode_header (doc_header d) ++ concat (d_revs d) ++ rest) as (rest & ->).
  { unfold encode_doc. rewrite take_app_ge by lia. rewrite HE.
    rewrite take_app_ge by lia. eauto. }
  wp_step. rewrite mem_read_ok by (rewrite ?length_app; lia). apply wp_lift.
  rewrite drop_0. change (Z.to_nat 34) with 34%nat. rewrite decode_encode_header by done.
  cbn [rev_count doc_seq doc_header]. wp_step. apply wp_malloc; [lia| |].
  2: { intros w' Hno _ _. exfalso. apply Hno. split; [|unfold PTRDIFF_MAX; lia].
       eapply frame_mem_ok; [done|]. by eapply heap_mem_ok. }
  intros p w3 _ _ Hf3 _. cbv beta iota. wp_step.
  rewrite mem_read_ok by (rewrite ?length_app; lia). apply wp_lift. apply wp_ret.
  change (Z.to_nat 34) with 34%nat. rewrite drop_app_exact by done.
  rewrite take_app_exact by lia.
  assert (frame 2 w1 w3) as Hf by solve_frame.
  split; [by eapply (repr_ext w1); [apply Hf|]|].
  split; [intros ?; eapply frame_healthy; [done|tauto]|].
  split; [|by left]. intros ?. eapply frame_mem_ok; [done|]. by eapply heap_mem_ok.
Qed.

(** ** Replacing *)

Lemma wp_bdb_replace w m n k o d :
  seq_available -> repr w m n -> mem_ok w -> object_holds o k d -> doc_wf d ->
  0 <= n < 2 ^ 64 ->
  wp (bdb_la_storage_replace o) w (fun '(res, o') w' =>
    heap 0 w w' /\ (healthy_w w -> healthy_w w') /\
    match res with
    | LA_STORAGE_OBJECT_PUT_SUCCESS =>
        repr w' (<[k := with_seq n d]> m) (n + 1) \/ ~ healthy_w w /\ repr w' m n
    | LA_STORAGE_OBJECT_PUT_CONFLICT => False
    | LA_STORAGE_OBJECT_PUT_ERROR => repr w' m n /\ ~ healthy_w w
    end).
Proof.
  intros Hs (Hv & Hm) Hok Ho Hd Hn. unfold bdb_la_storage_replace. wp_step.
  unfold object_key. pose proof Ho as (Hk & _). rewrite Hk. apply wp_ret. cbv zeta.
  wp_step. eapply wp_txn_begin; [done|]. intros rc w1 Hh1 Hv1 Hy1.
  destruct (rc =? 0) eqn:E1; cbn [negb].
  2: { apply wp_ret. apply Z.eqb_neq in E1. split; [done|]. split; [tauto|]. split; [done|]. tauto. }
  assert (doc_wf (with_seq n d)) as Hd'.
  { destruct Hd as ((H1 & H2) & H3 & H4 & H5). split; [split; [done|]|]; done. }
  change (u32 (la_storage_object_total_size o))
    with (u32 (la_storage_object_total_size (with_header (set_seq 0 (header o)) o))).
  eapply (wp_store_object k o d); [done|done|exact Hv1|exact Ho|done| |].
  - intros w2 Hh2 Hy2 Hno Hrp o2. split; [solve_heap|]. split; [tauto|]. split; [done|]. tauto.
  - intros w2 o2 Hh2 Hy2 Hrp Ho2. split; [solve_heap|]. split; [tauto|].
    destruct Hrp; [by left|right]; tauto.
Qed.

(** ** Iterating *)

(** The objects [bdb_la_storage_iterator_next] gives, and the result that ended the loop. *)
Fixpoint drain (fuel : nat) (it : @la_storage_object_iterator C)
  : M D (list la_storage_object * la_storage_object_iterator_result) :=
  match fuel with
  | O => ret ([], LA_STORAGE_OBJECT_ITERATOR_ERROR)
  | S fuel =>
      let* '(r, o, it) := bdb_la_storage_iterator_next it in
      match r, o with
      | LA_STORAGE_OBJECT_ITERATOR_GOT_NEXT, Some o =>
          let* '(os, r) := drain fuel it in ret (o :: os, r)
      | _, _ => ret ([], r)
      end
  end.

Definition key_ok (k : list byte) : Prop := cstring k /\ Z.of_nat (length k) + 1 < 2 ^ 32.

Definition record_of (e : list byte * doc) : list byte * list byte := (e.1, encode_doc e.2).

(** What the index has for a document. *)
Definition entry_of (e : list byte * doc) : index_entry := (le_bytes 8 (d_seq e.2), record_of e).

(** One step: the first of the remaining records, or the end. *)
Lemma wp_iterator_next it l w v
  (Q : la_storage_object_iterator_result * option la_storage_object * la_storage_object_iterator ->
       world D -> Prop) :
  at_view w v None -> healthy_w w -> mem_ok w ->
  cursor_rest (it_cursor it) = map entry_of l ->
  Forall (fun e => key_ok e.1 /\ doc_wf e.2) l ->
  (forall w' it', at_view w' v None -> healthy_w w' -> mem_ok w' ->
     match l with
     | [] => Q (LA_STORAGE_OBJECT_ITERATOR_END, None, it') w'
     | (k, d) :: l => forall o, object_holds o k d ->
         cursor_rest (it_cursor it') = map entry_of l ->
         Q (LA_STORAGE_OBJECT_ITERATOR_GOT_NEXT, Some o, it') w'
     end) ->
  wp (bdb_la_storage_iterator_next it) w Q.
Proof.
  intros (Hc & Ht) Hy Hok Hcur Hl HQ. unfold bdb_la_storage_iterator_next. wp_step.
  apply wp_call. intros [[rc [pk value]] c] d w1 E Hw1 Hh1.
  pose proof (cursor_next_law (it_cursor it) (w_ext w)) as HL. rewrite E in HL.
  destruct HL as (H1 & H2 & H3 & H4 & H5). destruct (H5 Hy) as [Hrc Hy1].
  assert (at_view w1 v None) as Hv1 by (split; rewrite Hw1; congruence).
  assert (healthy_w w1) as Hyw1 by (unfold healthy_w; by rewrite Hw1).
  assert (mem_ok w1) as Hok1 by (by eapply heap_mem_ok).
  rewrite Hcur in H3, H4. cbv zeta. destruct Hrc as [->| ->].
  2: { specialize (H4 eq_refl). code. apply wp_ret.
       specialize (HQ w1 (BdbIterator (it_store it) c) Hv1 Hyw1 Hok1).
       by destruct l. }
  specialize (H3 eq_refl) as [sk H3]. destruct l as [|[k d0] l]; [done|].
  injection H3 as _ <- <- Hrest. apply Forall_cons_1 in Hl as [[[Hk Hkl] Hd0] Hl]. cbn [fst snd] in *.
  code. wp_step. apply wp_lib_alloc. intros w2 Hf2. wp_step. apply wp_lib_alloc. intros w3 Hf3.
  wp_step. apply wp_lib_alloc. intros w4 Hf4. wp_step. wp_step.
  match goal with H : frame (-1) w4 ?w' |- _ => rename H into Hf5; rename w' into w5 end.
  assert (frame 2 w1 w5) as Hf by solve_frame.
  assert (mem_ok w5) as Hok5 by (by eapply frame_mem_ok).
  wp_step. apply wp_malloc; [unfold SIZEOF_OBJECT; lia| |].
  2: { intros w' Hno _ _. exfalso. by apply Hno. }
  intros p w6 _ _ Hf6 _. cbv beta iota. wp_step. unfold keycpy. wp_step.
  unfold u32. rewrite Z.mod_small by lia. apply wp_malloc; [lia| |].
  2: { intros w' Hno _ _. exfalso. apply Hno. split; [by eapply frame_mem_ok|].
       unfold PTRDIFF_MAX. lia. }
  intros q w7 _ _ Hf7 _. cbv beta iota. rewrite cstr_app by done. apply wp_lift.
  wp_step. wp_step. match goal with H : frame (-1) w7 ?w' |- _ => rename H into Hf8; rename w' into w8 end.
  wp_step. destruct (object_of_record_doc k d0 Hd0) as (o & -> & Ho). apply wp_lift. apply wp_ret.
  assert (frame 3 w1 w8) as Hf' by solve_frame.
  specialize (HQ w8 (BdbIterator (it_store it) c)). cbn beta iota in HQ.
  apply HQ; [by eapply frame_at_view|by eapply frame_healthy|by eapply frame_mem_ok|done|done].
Qed.

Lemma wp_drain l : forall it w v,
  at_view w v None -> healthy_w w -> mem_ok w ->
  cursor_rest (it_cursor it) = map entry_of l ->
  Forall (fun e => key_ok e.1 /\ doc_wf e.2) l ->
  wp (drain (S (length l)) it) w (fun '(os, r) w' =>
    at_view w' v None /\ healthy_w w' /\ r = LA_STORAGE_OBJECT_ITERATOR_END /\
    Forall2 (fun o e => object_holds o e.1 e.2) os l).
Proof.
  induction l as [|[k d] l IH]; intros it w v Hv Hy Hok Hcur Hl; cbn [drain length]; wp_step.
  - eapply (wp_iterator_next it []); [done..|]. intros w' it' Hv' Hy' Hok'.
    apply wp_ret. do 3 (split; [done|]). constructor.
  - eapply (wp_iterator_next it ((k, d) :: l)); [done..|].
    intros w' it' Hv' Hy' Hok' o Ho Hcur'. wp_step.
    apply Forall_cons_1 in Hl as [_ Hl].
    eapply wp_mono; [by apply IH|]. intros [os r] w2 (? & ? & ? & ?). apply wp_ret.
    do 3 (split; [done|]). by constructor.
Qed.
End laws.

#[export] Hint Resolve heap_refl : cmem.

(** Two documents in the order of their sequence numbers. *)
Definition doc_le (e1 e2 : list byte * doc) : Prop := d_seq e1.2 <= d_seq e2.2.

(** ** The index of the documents *)

(** [seqindex] takes the sequence number out of a record, and leaves out that of the sequence. *)
Lemma seqindex_doc k d :
  cstring k -> k <> [] -> doc_wf d -> seqindex k (encode_doc d) = Ret (Some (le_bytes 8 (d_seq d))).
Proof.
  intros Hk Hne Hd. pose proof (length_encode_doc d Hd) as HL. unfold seqindex.
  destruct k as [|c k]; [done|]. unfold cstring in Hk. apply not_elem_of_cons in Hk as [Hc _].
  rewrite mem_read_ok by (cbn [length]; lia). change (take _ _) with [c].
  rewrite decide_False by congruence. rewrite mem_read_ok by lia. do 2 f_equal.
Qed.

Lemma seqindex_own v : seqindex SEQ_KEY v = Ret None.
Proof. reflexivity. Qed.

Lemma compare_seq_docs a b :
  0 <= a < 2 ^ 64 -> 0 <= b < 2 ^ 64 ->
  exists z, compare_seq (le_bytes 8 a) (le_bytes 8 b) = Ret z /\ (z <= 0 <-> a <= b).
Proof.
  intros Ha Hb. unfold compare_seq. rewrite !length_le_bytes, Nat.ltb_irrefl.
  assert (R : forall x, mem_read (le_bytes 8 x) 0 8 = Ret (le_bytes 8 x)).
  { intros x. rewrite mem_read_ok by (rewrite ?length_le_bytes; lia). by rewrite drop_0, take_ge. }
  rewrite !R, !le_value_bytes_small by lia.
  destruct (Z.ltb_spec a b); [|destruct (Z.ltb_spec b a)]; eexists; (split; [done|lia]).
Qed.

Lemma entry_le e1 e2 :
  doc_wf e1.2 -> doc_wf e2.2 -> index_le compare_seq (entry_of e1) (entry_of e2) <-> doc_le e1 e2.
Proof.
  intros ((H1 & _) & _) ((H2 & _) & _). unfold index_le, doc_le. cbn [entry_of fst].
  destruct (compare_seq_docs (d_seq e1.2) (d_seq e2.2)) as (z & -> & Hz); [done..|].
  rewrite <- Hz. split; [by intros (? & [= <-] & ?)|]. intros ?. by exists z.
Qed.

Lemma sorted_entries l :
  Forall (fun e => doc_wf e.2) l ->
  StronglySorted (index_le compare_seq) (map entry_of l) -> StronglySorted doc_le l.
Proof.
  induction l as [|e l IH]; intros Hl Hs; [constructor|].
  apply Forall_cons_1 in Hl as [He Hl]. cbn [map] in Hs.
  apply StronglySorted_inv in Hs as [Hs Hf]. constructor; [auto|].
  apply Forall_forall. intros e' He'. rewrite Forall_forall in Hf, Hl.
  apply entry_le; [done|by apply Hl|]. apply Hf, in_map, He'.
Qed.

Lemma indexed_docs l :
  Forall (fun e => (cstring e.1 /\ e.1 <> []) /\ doc_wf e.2) l ->
  indexed seqindex (map record_of l) = map entry_of l.
Proof.
  induction 1 as [|[k d] l ((Hk & Hne) & Hd) _ IH]; [done|]. cbn [fst snd] in *.
  unfold indexed in *. cbn [map omap list_omap record_of fst snd].
  rewrite seqindex_doc by done. cbv iota. f_equal. exact IH.
Qed.

(** Documents with distinct sequence numbers meet what Berkeley DB asks for. *)
Lemma seq_index_ready l v :
  Forall (fun e => (cstring e.1 /\ e.1 <> []) /\ doc_wf e.2) l -> NoDup (map (fun e => d_seq e.2) l) ->
  index_ready seqindex compare_seq ((SEQ_KEY, v) :: map record_of l) /\
  indexed seqindex ((SEQ_KEY, v) :: map record_of l) = map entry_of l.
Proof.
  intros Hl Hn.
  assert (E : indexed seqindex ((SEQ_KEY, v) :: map record_of l) = map entry_of l).
  { rewrite <- (indexed_docs l Hl). reflexivity. }
  assert (W : forall x, x ∈ map entry_of l -> exists e, x = entry_of e /\ doc_wf e.2).
  { intros x Hx. apply list_elem_of_fmap in Hx as (e & -> & He). exists e. split; [done|].
    eapply list.Forall_forall in Hl; [|exact He]. by destruct Hl. }
  split; [|exact E]. split; rewrite ?E.
  - constructor; [by eexists|]. apply Forall_map. eapply Forall_impl; [|exact Hl].
    intros [k d] ((Hk & Hne) & Hd). cbn [fst snd record_of] in *. rewrite seqindex_doc by done. eauto.
  - rewrite map_map. cbn [entry_of fst].
    assert (P : forall x y, x ∈ map (fun e => d_seq e.2) l -> y ∈ map (fun e => d_seq e.2) l ->
              le_bytes 8 x = le_bytes 8 y -> x = y).
    { intros x y Hx Hy Exy. apply list_elem_of_fmap in Hx as (e & -> & He), Hy as (e' & -> & He').
      rewrite list.Forall_forall in Hl. apply Hl in He as (_ & (Hs & _) & _), He' as (_ & (Hs' & _) & _).
      apply (f_equal le_value) in Exy. cbn [doc_header seq] in *.
      by rewrite !le_value_bytes_small in Exy by done. }
    rewrite <- (map_map (fun e : list byte * doc => d_seq e.2) (le_bytes 8)).
    revert P Hn. generalize (map (fun e : list byte * doc => d_seq e.2) l). clear.
    induction l as [|x l IH]; intros P Hn; [constructor|]. cbn [map].
    apply list.NoDup_cons in Hn as [Hx Hn]. apply list.NoDup_cons. split.
    + intros M. apply list_elem_of_fmap in M as (y & Ey & Hy). apply P in Ey; [by subst|by left|by right].
    + apply IH; [|done]. intros a b Ha Hb. apply P; by right.
  - intros e1 e2 (x & -> & (Hx & _) & _)%W (y & -> & (Hy & _) & _)%W.
    destruct (compare_seq_docs (d_seq x.2) (d_seq y.2) Hx Hy) as (z & Ez & _). by exists z.
  - intros e1 e2 (x & -> & Hx)%W (y & -> & Hy)%W. rewrite !entry_le by done. unfold doc_le. lia.
  - intros e1 e2 e3 (x & -> & Hx)%W (y & -> & Hy)%W (z & -> & Hz)%W. rewrite !entry_le by done.
    unfold doc_le. lia.
Qed.

(** ** A concrete database

    A finite map with one transaction; [md_codes] are the result codes of the next calls,
    0 (success) once the list is used up. *)
Record mapdb := MapDB {
  md_view : view;
  md_txn : option view;
  md_codes : list Z;
}.

Definition md_step (d : mapdb) : Z * mapdb :=
  match md_codes d with
  | [] => (0, d)
  | c :: cs => (c, MapDB (md_view d) (md_txn d) cs)
  end.

(** Success, for codes that a lookup decides itself. *)
Definition md_ok (rc : Z) : bool := (rc =? 0) || (rc =? DB_NOTFOUND).

Fixpoint md_seek (s : list byte) (l : list index_entry) : option (list index_entry) :=
  match l with
  | [] => None
  | e :: l => if decide (e.1 = s) then Some l else md_seek s l
  end.

(** The entries of an index in order, by insertion. *)
Fixpoint md_insert (cmp : list byte -> list byte -> outcome Z) (x : index_entry)
  (l : list index_entry) : list index_entry :=
  match l with
  | [] => [x]
  | y :: l' =>
      match cmp x.1 y.1 with
      | Ret z => if z <=? 0 then x :: l else y :: md_insert cmp x l'
      | Undef _ => x :: l
      end
  end.

Definition md_sort (cmp : list byte -> list byte -> outcome Z) (l : list index_entry)
  : list index_entry := foldr (md_insert cmp) [] l.

Definition md_get (b : bool) (k : list byte) (d : mapdb) : Z * list byte * mapdb :=
  let '(rc, d) := md_step d in
  if md_ok rc then
    match docs (if b then default (md_view d) (md_txn d) else md_view d) !! k with
    | Some v => (0, v, d)
    | None => (DB_NOTFOUND, [], d)
    end
  else (rc, [], d).

Definition md_put (k v : list byte) (d : mapdb) : Z * mapdb :=
  let '(rc, d) := md_step d in
  (rc, match md_txn d with
       | Some t =>
           if rc =? 0
           then MapDB (md_view d) (Some (View (<[k := v]> (docs t)) (next_seq t))) (md_codes d)
           else d
       | None => d
       end).

Definition md_commit (d : mapdb) : Z * mapdb :=
  let '(rc, d) := md_step d in
  (rc, MapDB (match md_txn d with Some t => if rc =? 0 then t else md_view d | None => md_view d end)
         None (md_codes d)).

Definition md_seq_get (d : mapdb) : Z * Z * mapdb :=
  match md_txn d with
  | Some t => (0, next_seq t, MapDB (md_view d) (Some (View (docs t) (next_seq t + 1))) (md_codes d))
  | None => (0, next_seq (md_view d), d)
  end.

(** The record of the sequence. *)
Definition md_seq_record (d : mapdb) : list byte := le_bytes 8 (next_seq (md_view d)).

#[export] Instance mapdb_ops : BerkeleyDB mapdb (list index_entry) := {|
  bdb_call _ d := md_step d;
  bdb_path _ _ := IsDirectory;
  bdb_get_dbname b d := let '(rc, d) := md_step d in (rc, lit (if b then "t.seq" else "t"), d);
  bdb_get_home d := let '(rc, d) := md_step d in (rc, lit "home", d);
  bdb_txn_begin d :=
    let '(rc, d) := md_step d in
    (rc, MapDB (md_view d) (if rc =? 0 then Some (md_view d) else None) (md_codes d));
  bdb_txn_abort d := MapDB (md_view d) None (md_codes d);
  bdb_txn_commit := md_commit;
  bdb_get := md_get;
  bdb_put := md_put;
  bdb_seq_get := md_seq_get;
  bdb_seq_stat d := let '(rc, d) := md_step d in (rc, next_seq (md_view d), d);
  bdb_stat _ d :=
    let '(rc, d) := md_step d in (rc, (Z.of_nat (size (docs (md_view d))), 1, 4096), d);
  bdb_cursor_open index cmp d :=
    let '(rc, d) := md_step d in
    (rc, md_sort cmp (indexed index ((SEQ_KEY, md_seq_record d) :: map_to_list (docs (md_view d)))), d);
  bdb_cursor_set c s d :=
    let '(rc, d) := md_step d in
    if md_ok rc then
      match md_seek s c with Some l => (0, l, d) | None => (DB_NOTFOUND, c, d) end
    else (rc, c, d);
  bdb_cursor_next c d :=
    let '(rc, d) := md_step d in
    if md_ok rc then
      match c with [] => (DB_NOTFOUND, ([], []), c, d) | e :: l => (0, e.2, l, d) end
    else (rc, ([], []), c, d);
  bdb_cursor_close _ d := d;
|}.

Lemma md_step_spec d :
  let '(rc, d') := md_step d in
  md_view d' = md_view d /\ md_txn d' = md_txn d /\
  (md_codes d = [] -> rc = 0 /\ md_codes d' = []).
Proof. unfold md_step. destruct (md_codes d) eqn:E; [done|]. by split_and!. Qed.

Lemma md_seek_spec s l :
  match md_seek s l with
  | Some l' => exists l1 e, e.1 = s /\ l = l1 ++ e :: l'
  | None => forall e, e ∈ l -> e.1 <> s
  end.
Proof.
  induction l as [|e l IH]; cbn [md_seek]; [by intros e ?%elem_of_nil|].
  case_decide as E; [by exists [], e|]. destruct (md_seek s l) as [l'|].
  - destruct IH as (l1 & e' & ? & ->). by exists (e :: l1), e'.
  - intros e' [->|He]%elem_of_cons; [done|by apply IH].
Qed.

Lemma md_ok_false rc : md_ok rc = false -> rc <> 0 /\ rc <> DB_NOTFOUND.
Proof. unfold md_ok. lia. Qed.

Ltac md d :=
  pose proof (md_step_spec d) as HM; unfold bdb_txn_begin, bdb_txn_commit, bdb_get, bdb_put,
    bdb_seq_get, bdb_seq_stat, bdb_cursor_open, bdb_cursor_set, bdb_cursor_next, mapdb_ops,
    md_commit, md_get, md_put, md_seq_get;
  destruct (md_step d) as [rc d'] eqn:Estep; destruct HM as (HM1 & HM2 & HM3).

Lemma md_insert_perm cmp x l : md_insert cmp x l ≡ₚ x :: l.
Proof.
  induction l as [|y l IH]; [done|]. cbn [md_insert]. destruct (cmp x.1 y.1) as [z|]; [|done].
  destruct (z <=? 0); [done|]. rewrite IH. apply Permutation_swap.
Qed.

Lemma md_sort_perm cmp l : md_sort cmp l ≡ₚ l.
Proof.
  induction l as [|x l IH]; [done|]. change (md_insert cmp x (md_sort cmp l) ≡ₚ x :: l).
  by rewrite md_insert_perm, IH.
Qed.

Section sorted.
Context (cmp : list byte -> list byte -> outcome Z) (K : list index_entry).
Hypothesis compared : forall e1 e2, e1 ∈ K -> e2 ∈ K -> exists z, cmp e1.1 e2.1 = Ret z.
Hypothesis total : forall e1 e2, e1 ∈ K -> e2 ∈ K -> index_le cmp e1 e2 \/ index_le cmp e2 e1.
Hypothesis trans : forall e1 e2 e3, e1 ∈ K -> e2 ∈ K -> e3 ∈ K ->
  index_le cmp e1 e2 -> index_le cmp e2 e3 -> index_le cmp e1 e3.

Lemma md_insert_sorted x l :
  x ∈ K -> (forall y, y ∈ l -> y ∈ K) -> StronglySorted (index_le cmp) l ->
  StronglySorted (index_le cmp) (md_insert cmp x l).
Proof.
  intros Hx. induction l as [|y l IH]; intros Hl Hs; cbn [md_insert]; [by repeat constructor|].
  apply StronglySorted_inv in Hs as [Hs Hy]. assert (Hy0 : y ∈ K) by (apply Hl; by left).
  assert (Hlt : index_le cmp x y -> StronglySorted (index_le cmp) (x :: y :: l)).
  { intros L. constructor; [by constructor|]. constructor; [done|]. rewrite Forall_forall in *.
    intros z Hz. apply (trans x y z); auto. apply Hl. right. by apply list_elem_of_In. }
  assert (Hge : ~ index_le cmp x y -> StronglySorted (index_le cmp) (y :: md_insert cmp x l)).
  { intros L. constructor; [apply IH; [intros z Hz; apply Hl; by right|done]|].
    assert (index_le cmp y x) by (destruct (total x y Hx Hy0); tauto).
    rewrite Forall_forall in *. intros z Hz%list_elem_of_In. rewrite md_insert_perm in Hz.
    apply list.elem_of_cons in Hz as [->|Hz]; [done|]. by apply Hy, list_elem_of_In. }
  destruct (compared x y Hx Hy0) as [z E]. unfold index_le in Hlt, Hge. rewrite E in *.
  destruct (Z.leb_spec z 0); [apply Hlt; eauto|apply Hge; intros (? & [= <-] & ?); lia].
Qed.

Lemma md_sort_sorted l : (forall y, y ∈ l -> y ∈ K) -> StronglySorted (index_le cmp) (md_sort cmp l).
Proof.
  induction l as [|x l IH]; intros Hl; [constructor|].
  apply (md_insert_sorted x (md_sort cmp l)).
  - apply Hl. by left.
  - intros y Hy. rewrite md_sort_perm in Hy. apply Hl. by right.
  - apply IH. intros y Hy. apply Hl. by right.
Qed.
End sorted.

#[export] Instance mapdb_laws : BerkeleyDBLaws mapdb (list index_entry).
Proof.
  refine {| committed := md_view; in_txn := md_txn; healthy d := md_codes d = [];
            seq_record := md_seq_record; cursor_rest c := c |}.
  - intros d Ht. md d. cbn. rewrite HM1. naive_solver.
  - intros d. cbn. done.
  - intros d t Ht. md d. cbn. rewrite HM1, HM2, Ht. naive_solver.
  - intros b k d v0 Hb. md d. rewrite HM1, HM2.
    assert ((if b then default (md_view d) (md_txn d) else md_view d) = v0) as ->
      by (destruct b; [by rewrite Hb|congruence]).
    destruct (md_ok rc) eqn:Eok.
    + destruct (docs v0 !! k) eqn:Ek; (split; [done|]; split; [done|]); naive_solver.
    + apply md_ok_false in Eok as [? ?]. naive_solver.
  - intros k v d t Ht. md d. rewrite HM2, Ht. destruct (rc =? 0) eqn:E; cbn; [naive_solver|].
    apply Z.eqb_neq in E. rewrite HM1, HM2. naive_solver.
  - intros d t Ht. cbn. unfold md_seq_get. rewrite Ht. cbn. naive_solver.
  - intros d. md d. rewrite HM1. naive_solver.
  - intros index cmp d. md d. unfold md_seq_record. rewrite HM1, HM2. cbv zeta.
    split; [done|]. split; [done|]. split; [|done].
    intros _ [_ _ Hc Ht Hr]. split; [apply md_sort_perm|].
    apply (md_sort_sorted cmp (indexed index ((SEQ_KEY, le_bytes 8 (next_seq (md_view d))) ::
      map_to_list (docs (md_view d))))); done.
  - intros c s d. md d. pose proof (md_seek_spec s c) as Hs. destruct (md_ok rc) eqn:Eok.
    + destruct (md_seek s c) as [l|]; cbn; split_and!; try done; try naive_solver.
    + apply md_ok_false in Eok as [? ?]. cbn. naive_solver.
  - intros c d. md d. destruct (md_ok rc) eqn:Eok.
    + destruct c as [|[k e] l]; cbn; (split; [done|]); (split; [done|]).
      * split; [done|]. split; [done|]. intros Hc. split; [by right|]. by apply HM3.
      * split; [by exists k|]. split; [done|]. intros Hc. split; [by left|]. by apply HM3.
    + apply md_ok_false in Eok as [? ?]. cbn. naive_solver.
  - done.
Defined.

(** ** Overruns *)

(** What [push_revision] does to an object without old revisions: it runs over its end, or
    it leaves a block of the data's length and one revision. *)
Lemma push_overrun {X} h o w :
  rev_count (header o) = 0 -> 0 < rev_count h < LA_OBJECT_MAX_REVISION_COUNT ->
  0 <= data_length o < 2 ^ 31 -> data_length o <= Z.of_nat (length (revs_data o)) ->
  length (rev h) = 16%nat -> mem_ok w ->
  @push_revision X h o w = Undef OutOfBounds \/
  wp (push_revision h o) w (fun o' w' => frame 0 w w' /\
    Z.of_nat (length (revs_data o')) = data_length o + 16 /\
    data_length o' = data_length o /\ rev_count (header o') = rev_count h + 1 /\
    rev (header o') = rev (header o)).
Proof.
  intros H0 Hc Hl Hlen Hr Hm. unfold push_revision. cbv zeta.
  unfold LA_OBJECT_MAX_REVISION_COUNT in *. rewrite (proj2 (Z.ltb_lt (rev_count h) 1024)) by lia.
  set (c := rev_count h) in *. set (n := data_length o) in *.
  destruct (decide (16 * c <= n)) as [Hin|Hin].
  - right. wp_step. wp_step.
    unfold la_storage_object_total_size, get_data_offset, SIZEOF_HEADER, REV_LEN.
    cbn [header rev_count data_length revs_data with_header set_doc_seq]. rewrite H0. fold n.
    apply wp_realloc; [lia| |].
    2: { intros w' Hno _ _. exfalso. apply Hno. split; [done|]. unfold PTRDIFF_MAX. lia. }
    intros blk w' Hbl _ _ Hf _. cbv beta iota zeta. wp_step. unfold mem_move.
    rewrite mem_read_ok by lia. rewrite mem_write_ok by (rewrite ?length_take, ?length_drop; lia).
    set (blk' := _ ++ _). assert (Z.of_nat (length blk') = n + 16) as Hb'.
    { unfold blk'. rewrite length_splice by (rewrite length_take, length_drop; lia). lia. }
    clearbody blk'. apply wp_lift. apply wp_ret. wp_step.
    cbn [revs_data with_header with_revs_data header set_rev_count rev_count].
    rewrite (Z.mod_small (c + 1)) by lia. replace (16 * (c + 1 - 1)) with (16 * c) by lia.
    rewrite mem_read_ok by lia. rewrite mem_write_ok by (rewrite ?length_take, ?length_drop; lia).
    set (b2 := _ ++ _). assert (Z.of_nat (length b2) = n + 16) as Hb2.
    { unfold b2. rewrite length_splice by (rewrite length_take, length_drop; lia). lia. }
    clearbody b2. apply wp_lift. wp_step. rewrite mem_write_ok by lia. apply wp_lift. apply wp_ret.
    split; [done|]. cbn [revs_data with_revs_data header with_header data_length].
    split; [rewrite length_splice by lia; lia|].
    split; [done|]. split; [|done]. cbn [set_rev_count rev_count]. by rewrite Z.mod_small by lia.
  - left. apply undef_bind. wp_step.
    unfold la_storage_object_total_size, get_data_offset, SIZEOF_HEADER, REV_LEN.
    cbn [header rev_count data_length revs_data with_header set_doc_seq]. rewrite H0. fold n.
    apply wp_realloc; [lia| |].
    2: { intros w' Hno _ _. exfalso. apply Hno. split; [done|]. unfold PTRDIFF_MAX. lia. }
    intros blk w' Hbl _ _ Hf _. cbv beta iota zeta. wp_step. unfold mem_move.
    rewrite mem_read_ok by lia. rewrite mem_write_ok by (rewrite ?length_take, ?length_drop; lia).
    set (blk' := _ ++ _). assert (Z.of_nat (length blk') = n + 16) as Hb'.
    { unfold blk'. rewrite length_splice by (rewrite length_take, length_drop; lia). lia. }
    clearbody blk'. apply wp_lift. apply wp_ret. apply undef_head.
    cbn [revs_data with_header with_revs_data header set_rev_count rev_count].
    rewrite (Z.mod_small (c + 1)) by lia. replace (16 * (c + 1 - 1)) with (16 * c) by lia.
    unfold lift. destruct (decide (16 * c <= n + 16)).
    + rewrite mem_read_ok by lia. rewrite mem_write_oob; [done|].
      rewrite length_take, length_drop. lia.
    + by rewrite mem_read_oob by lia.
Qed.

(** ** Opening and revision arguments *)

Section limits.
Context {D C : Type} `{BerkeleyDBLaws D C}.
Implicit Types w : world D.

Lemma fail_open r w : forall (res : la_storage_open_result_t * option la_storage_object_store) w',
  (free ;;; ret (r, @None la_storage_object_store)) w = Ret (res, w') -> res.2 = None.
Proof. unfold bind, free, ret. by intros res w' [= <- _]. Qed.

Lemma bind_inv {A B} (m : M D A) (f : A -> M D B) w b w' :
  bind m f w = Ret (b, w') -> exists a w1, m w = Ret (a, w1) /\ f a w1 = Ret (b, w').
Proof. unfold bind. destruct (m w) as [[a w1]|]; [eauto|done]. Qed.

(** No run of the delete function deletes: it fails before it has closed the store, or its
    behaviour is undefined. *)
Lemma bdb_delete_never st w rc w' :
  bdb_la_storage_object_store_delete st w = Ret (rc, w') -> rc = -1.
Proof.
  intros E. unfold bdb_la_storage_object_store_delete in E.
  apply bind_inv in E as ([rc1 n1] & w1 & _ & E). destruct (negb _); [by injection E as <- _|].
  apply bind_inv in E as ([rc2 n2] & w2 & _ & E). destruct (negb _); [by injection E as <- _|].
  apply bind_inv in E as ([rc3 h] & w3 & _ & E). destruct (negb _); [by injection E as <- _|].
  apply bind_inv in E as (s1 & w4 & _ & E). apply bind_inv in E as (s2 & w5 & _ & E).
  by apply bind_inv in E as (? & ? & E & _).
Qed.

(** No run of the open function yields a store: it has no defined behaviour from where the
    name of the sequence database is built, see [string_append_oob]. *)
Lemma bdb_open_never env path flags w res w' :
  cstring path -> bdb_la_storage_open env path flags w = Ret (res, w') -> res.2 = None.
Proof.
  intros Hp E. unfold bdb_la_storage_open in E. cbv zeta in E.
  apply bind_inv in E as ([p|] & w1 & _ & E); [|by injection E as <- _].
  apply bind_inv in E as (env' & w2 & _ & E).
  apply bind_inv in E as (rc1 & w3 & _ & E). destruct (negb _); [by eapply fail_open|].
  apply bind_inv in E as (rc2 & w4 & _ & E).
  destruct (negb _); [apply bind_inv in E as (? & ? & _ & E); by eapply fail_open|].
  apply bind_inv in E as (rc3 & w5 & _ & E).
  destruct (negb _); [apply bind_inv in E as (? & ? & _ & E); by eapply fail_open|].
  apply bind_inv in E as (rc4 & w6 & _ & E).
  destruct (negb _); [apply bind_inv in E as (? & ? & _ & E); by eapply fail_open|].
  apply bind_inv in E as (sp & w7 & E7 & _).
  destruct (string_append_oob path (lit ".seq") w6) as [u Hu]; [done| |congruence].
  apply (bool_decide_unpack _). reflexivity.
Qed.

(** Given a revision and an object to fill, the get compares with a header of zeros. *)
Lemma bdb_get_with_rev k r w m n :
  repr w m n -> mem_ok w -> cstring k -> r <> replicate 16 x00 ->
  wp (bdb_la_storage_get k (Some r) true) w (fun '(res, _) _ => res <> LA_STORAGE_OBJECT_GET_OK).
Proof.
  intros Hr Hok Hk Hne. unfold bdb_la_storage_get. wp_step.
  eapply wp_read; [done|]. intros rc value w1 _ _ _ _.
  destruct (rc =? 0); cbn [negb].
  - wp_step. apply wp_lib_alloc. intros w2 _. cbv zeta.
    change (rev (decode_header zero_header)) with (replicate 16 x00).
    rewrite bool_decide_false by done. by apply wp_ret.
  - apply wp_ret. by destruct (rc =? DB_NOTFOUND).
Qed.
End limits.

(** ** The driver meets the contract *)

#[export] Instance bdb_docstore {D C} `{BerkeleyDBLaws D C} (Hseq : seq_available) st :
  DocStore bdb_driver st.
Proof.
  refine {| ds_repr := repr; ds_healthy := healthy_w |}; cbn [bdb_driver drv_get drv_put
    drv_replace drv_get_all_revs].
  - by intros w m n [_ Hm].
  - apply repr_ext.
  - unfold healthy_w. by intros w w' ->.
  - intros. by apply wp_bdb_get.
  - intros. by apply wp_bdb_get_all_revs.
  - intros. by apply wp_bdb_put.
  - intros. by apply wp_bdb_replace.
Defined.

Section correctness.
Context {D C : Type} `{BerkeleyDBLaws D C}.
Implicit Types w : world D.

(** C1 (refinement): against a database that holds the documents [m], when calls of the
    sequence do not fail and the object brings as many old revisions as the stored document has
    (none for a new key; see [bdb_put_history_overrun] for the others), a put answers and stores
    what the specification [put_doc] says: a first version for a new key, a new version with
    the stored revision pushed on the history when the caller names the current revision, and a
    conflict otherwise.  When a library call fails the committed documents stay as they were:
    the answer is then an error, a conflict, or, when it is the commit that fails, a success
    all the same.  No transaction is left open and no memory is leaked. *)
Theorem bdb_put_correct (r : option rev_t) (o : la_storage_object) (k : list byte) (d : doc)
  (m : gmap (list byte) doc) (n : Z) w
  (Hseq : seq_available) (Hw : repr w m n) (Hm : mem_ok w) (Ho : object_holds o k d)
  (Hd : put_ready m n k d) :
  exists res o' w', bdb_la_storage_put r o w = Ret ((res, o'), w') /\ heap 0 w w' /\
    match res with
    | LA_STORAGE_OBJECT_PUT_SUCCESS =>
        exists d', put_doc m n k r d = Some d' /\ object_holds o' k d' /\
          (repr w' (<[k := d']> m) (n + 1) \/ ~ healthy_w w /\ repr w' m n)
    | LA_STORAGE_OBJECT_PUT_CONFLICT =>
        repr w' m n /\ (put_doc m n k r d = None \/ ~ healthy_w w)
    | LA_STORAGE_OBJECT_PUT_ERROR => repr w' m n /\ ~ healthy_w w
    end.
Proof.
  pose proof (wp_bdb_put r o k d m n w Hseq Hw Hm Ho Hd) as HP.
  apply wp_run in HP as ([res o'] & w' & Hrun & Hh & _ & HP). by exists res, o', w'.
Qed.

(** A cursor over the index starts before the entries of all documents, in order. *)
Lemma wp_iterator_open_start (st : la_storage_object_store) w m n :
  at_view w (View (encode_doc <$> m) n) None -> healthy_w w -> mem_ok w ->
  map_Forall (fun _ => doc_wf) m ->
  (forall k d, m !! k = Some d -> key_ok k /\ k <> []) ->
  NoDup (map (fun e => d_seq e.2) (map_to_list m)) ->
  wp (bdb_la_storage_iterator_open st 0) w (fun it w1 =>
    exists i l, it = Some i /\ at_view w1 (View (encode_doc <$> m) n) None /\
      healthy_w w1 /\ mem_ok w1 /\ cursor_rest (it_cursor i) = map entry_of l /\
      l ≡ₚ map_to_list m /\ StronglySorted doc_le l).
Proof.
  intros Hv Hy Hm Hwf Hk Hs. unfold bdb_la_storage_iterator_open. wp_step.
  apply wp_malloc; [lia| |]. 2: { intros w' Hno _ _. exfalso. by apply Hno. }
  intros p w1 _ _ Hf _. wp_step. apply wp_call. intros [rc c] dd w2 E Hw2 Hh2.
  pose proof (cursor_open_law seqindex compare_seq (w_ext w1)) as HL. rewrite E in HL.
  destruct HL as (H1 & H2 & H3 & H4). destruct (H4 (frame_healthy _ _ _ Hf Hy)) as [-> Hy2].
  destruct (frame_at_view _ _ _ _ _ Hf Hv) as [Hc Ht]. rewrite Hc in *. cbn [docs] in H3.
  rewrite map_to_list_fmap in H3. change (prod_map id encode_doc <$> map_to_list m)
    with (map record_of (map_to_list m)) in H3.
  assert (Hl : Forall (fun e => (cstring e.1 /\ e.1 <> []) /\ doc_wf e.2) (map_to_list m)).
  { apply Forall_forall. intros [k d] Hin%list_elem_of_In. apply elem_of_map_to_list in Hin.
    destruct (Hk k d Hin) as [[? _] ?]. split; [done|by apply (Hwf k)]. }
  destruct (seq_index_ready (map_to_list m) (seq_record (w_ext w1)) Hl Hs) as [Hrd Hix].
  destruct (H3 eq_refl Hrd) as [HP HS]. rewrite Hix in HP.
  apply Permutation_map_inv in HP as (l & Hcl & Hlp). code. rewrite Z.ltb_irrefl. apply wp_ret.
  exists (BdbIterator st c), l. cbn [it_cursor]. rewrite Hcl in HS.
  split_and!; [done|split; congruence|unfold healthy_w; congruence| |done|done|].
  - eapply heap_mem_ok; [done|]. by eapply frame_mem_ok.
  - apply sorted_entries; [|done]. rewrite <- Hlp. eapply Forall_impl; [|exact Hl]. by intros e [_ ?].
Qed.

(** C2 (roundtrip): in a healthy database a put is answered by [put_doc], and reading the
    key back gives the document it stored; after a conflict it gives the one that was
    there. *)
Theorem bdb_put_get (r : option rev_t) (o : la_storage_object) (k : list byte) (d : doc)
  (m : gmap (list byte) doc) (n : Z) w
  (Hseq : seq_available) (Hw : repr w m n) (Hy : healthy_w w) (Hm : mem_ok w)
  (Ho : object_holds o k d) (Hd : put_ready m n k d)
  (Hk : cstring k) (Hkl : Z.of_nat (length k) < PTRDIFF_MAX) :
  exists w1 o1 w2 o2 d2,
    bdb_la_storage_put r o w =
      Ret ((match put_doc m n k r d with
            | Some _ => LA_STORAGE_OBJECT_PUT_SUCCESS
            | None => LA_STORAGE_OBJECT_PUT_CONFLICT
            end, o1), w1) /\
    bdb_la_storage_get k None true w1 = Ret ((LA_STORAGE_OBJECT_GET_OK, Some o2), w2) /\
    object_holds o2 k d2 /\
    (put_doc m n k r d = Some d2 \/ put_doc m n k r d = None /\ m !! k = Some d2).
Proof.
  pose proof (wp_bdb_put r o k d m n w Hseq Hw Hm Ho Hd) as HP.
  apply wp_run in HP as ([res o1] & w1 & Hrun & Hh & Hy1 & HP). specialize (Hy1 Hy).
  assert (mem_ok w1) as Hm1 by (by eapply heap_mem_ok).
  assert (exists m' n' d2, repr w1 m' n' /\ m' !! k = Some d2 /\
            match put_doc m n k r d with
            | Some d' => res = LA_STORAGE_OBJECT_PUT_SUCCESS /\ d' = d2
            | None => res = LA_STORAGE_OBJECT_PUT_CONFLICT /\ m !! k = Some d2
            end) as (m' & n' & d2 & Hr' & Hd2 & Hres).
  { destruct res; [|destruct HP as [HP [Hnone|?]]; [|done]|tauto].
    - destruct HP as (d' & -> & _ & [HP|[? _]]); [|done].
      exists (<[k := d']> m), (n + 1), d'. split; [done|]. by rewrite lookup_insert_eq.
    - rewrite Hnone. unfold put_doc in Hnone. destruct (m !! k) as [old|] eqn:E; [|done].
      by exists m, n, old. }
  pose proof (wp_bdb_get k w1 m' n' Hr' Hm1 Hk Hkl) as HG.
  apply wp_run in HG as ([res2 o2] & w2 & Hrun2 & _ & _ & HG).
  rewrite Hd2 in HG. destruct res2; [|naive_solver|done|naive_solver].
  destruct HG as (d3 & o3 & [= <-] & -> & Hh3 & _).
  exists w1, o1, w2, o3, d2. destruct (put_doc m n k r d); naive_solver.
Qed.

(** C8 (functional): in a healthy database whose documents have distinct sequence numbers and
    keys that are not empty, iterating from the start over the index that [seqindex] and
    [compare_seq] define gives every document once, in the order of sequence numbers, without
    the record of the sequence itself, and then ends. *)
Theorem bdb_iterate_all (st : la_storage_object_store) (m : gmap (list byte) doc) (n : Z) w
  (Hw : repr w m n) (Hy : healthy_w w) (Hm : mem_ok w)
  (Hk : forall k d, m !! k = Some d -> key_ok k /\ k <> [])
  (Hs : NoDup (map (fun e => d_seq e.2) (map_to_list m))) :
  exists it w1 os w2 l,
    bdb_la_storage_iterator_open st 0 w = Ret (Some it, w1) /\
    drain (S (size m)) it w1 = Ret ((os, LA_STORAGE_OBJECT_ITERATOR_END), w2) /\
    Forall2 (fun o e => object_holds o e.1 e.2) os l /\
    l ≡ₚ map_to_list m /\ StronglySorted doc_le l /\ repr w2 m n.
Proof.
  destruct Hw as [Hv Hwf].
  assert (Hlw : Forall (fun e => key_ok e.1 /\ doc_wf e.2) (map_to_list m)).
  { apply Forall_forall. intros [k d] Hin%list_elem_of_In. apply elem_of_map_to_list in Hin.
    split; [by eapply Hk|by eapply (Hwf k)]. }
  pose proof (wp_iterator_open_start st w m n Hv Hy Hm Hwf Hk Hs) as HO.
  apply wp_run in HO as (it & w1 & Hrun & i & l & -> & Hv1 & Hy1 & Hm1 & Hl & Hlp & HS).
  assert (length l = size m) as Hlen by (by rewrite Hlp, length_map_to_list).
  rewrite <- Hlp in Hlw.
  pose proof (wp_drain l i w1 _ Hv1 Hy1 Hm1 Hl Hlw) as HD. rewrite Hlen in HD.
  apply wp_run in HD as ([os r] & w2 & Hrun2 & Hv2 & _ & -> & Hos).
  by exists i, w1, os, w2, l.
Qed.

(** C10 (safety): an object created without old revisions, as the database API makes them,
    cannot be put over a document that has some: the driver counts one revision more than
    the stored document has, and reads past the end of the object. *)
Theorem bdb_put_history_overrun (o : la_storage_object) (k : list byte) (d old : doc)
  (m : gmap (list byte) doc) (n : Z) w
  (Hseq : seq_available) (Hw : repr w m n) (Hy : healthy_w w) (Hm : mem_ok w)
  (Ho : object_holds o k d) (Hd : doc_wf d) (Hsz : Z.of_nat (length (encode_doc d)) < 2 ^ 31)
  (Hnew : d_revs d = []) (Hold : m !! k = Some old) (Hhist : d_revs old <> [])
  (Hroom : Z.of_nat (length (d_revs old)) < LA_OBJECT_MAX_REVISION_COUNT) :
  bdb_la_storage_put (Some (d_rev old)) o w = Undef OutOfBounds.
Proof.
  destruct Hw as [Hv Hwf]. pose proof (Hwf _ _ Hold) as Hdo.
  pose proof (length_encode_doc d Hd) as HL. rewrite Hnew in HL.
  destruct Ho as (Hk & Hh & Hl & pad & Hp).
  unfold bdb_la_storage_put. apply undef_bind. unfold object_key. rewrite Hk. apply wp_ret.
  apply undef_bind. eapply wp_txn_begin; [done|]. intros rc w1 Hh1 Hv1 Hy1.
  destruct (Hy1 Hy) as [-> Hyw1]. code.
  apply undef_bind. eapply (wp_get true); [done..|]. intros rc2 value w2 Hh2 Hv2 Hfd Hnf Hy2.
  cbn [docs] in *. rewrite lookup_fmap, Hold in Hfd, Hnf. destruct (Hy2 Hyw1) as [Hrc Hyw2].
  destruct Hrc as [->| ->]; [|by specialize (Hnf eq_refl)].
  specialize (Hfd eq_refl). injection Hfd as <-. code.
  apply undef_bind. rewrite user_header_doc by done. apply wp_lift. cbn [doc_header rev].
  rewrite bool_decide_true by done. cbn [negb].
  assert (mem_ok w2) as Hm2 by (by do 2 (eapply heap_mem_ok; [eassumption|])).
  assert (0 < length (d_revs old))%nat by (destruct (d_revs old); [done|simpl; lia]).
  destruct (push_overrun (doc_header old) o w2) as [Hu|Hw3].
  { rewrite Hh. cbn [doc_header rev_count]. by rewrite Hnew. }
  { cbn [doc_header rev_count]. lia. }
  { cbn [length] in HL. lia. }
  { rewrite Hp, !length_app. lia. }
  { destruct Hdo as ((_ & _ & _ & _ & ?) & _). done. }
  { done. }
  { by apply undef_head. }
  apply undef_bind. eapply wp_mono; [exact Hw3|]. intros o' w3 (Hf & Hlen & Hdl & Hrc' & Hrv).
  cbn [doc_header rev_count] in Hrc'.
  apply undef_bind. eapply (wp_next_seq w3); [done|eapply frame_at_view; [exact Hf|exact Hv2]|].
  intros w4 _ _ _. cbv zeta. apply undef_head. unfold lift.
  rewrite mem_read_oob; [done|]. unfold header_memory, encode_header. cbn [with_header header set_seq].
  rewrite !length_app, !length_le_bytes. unfold set_seq. cbn [rev with_header revs_data seq doc_seq].
  unfold la_storage_object_total_size, u32, SIZEOF_HEADER, REV_LEN.
  cbn [with_header header data_length rev_count set_seq]. rewrite Hrc', Hdl, Hl, Hrv, Hh.
  destruct Hd as ((_ & _ & _ & _ & Hdr) & _). cbn [doc_header rev] in *. rewrite Hdr.
  cbn [length] in HL. unfold LA_OBJECT_MAX_REVISION_COUNT in *. rewrite Z.mod_small by lia.
  lia.
Qed.
End correctness.

(** ** Concrete runs *)

Lemma mapdb_seq : seq_available (D := mapdb).
Proof. intros d. cbn. unfold md_seq_get. by destruct (md_txn d). Qed.

Definition md_world (m : gmap (list byte) doc) (n : Z) (codes : list Z) : world mapdb :=
  world0 (MapDB (View (encode_doc <$> m) n) None codes).

Lemma md_world_repr m n codes :
  map_Forall (fun _ => doc_wf) m -> repr (md_world m n codes) m n.
Proof. intros Hm. split; [by split|done]. Qed.

Lemma put_ready_a : put_ready m12 3 (lit "a") new_doc.
Proof.
  split; [apply (bool_decide_unpack _); vm_compute; reflexivity|].
  split; [done|]. split; [vm_compute; reflexivity|]. vm_compute. by split.
Qed.

Lemma bdb_put_correct_witness :
  exists res o' w', bdb_la_storage_put (Some (rv 1)) (object_of (lit "a") new_doc)
                      (md_world m12 3 []) = Ret ((res, o'), w') /\
    heap 0 (md_world m12 3 []) w' /\
    match res with
    | LA_STORAGE_OBJECT_PUT_SUCCESS =>
        exists d', put_doc m12 3 (lit "a") (Some (rv 1)) new_doc = Some d' /\
          object_holds o' (lit "a") d' /\
          (repr w' (<[lit "a" := d']> m12) (3 + 1) \/
           ~ healthy_w (md_world m12 3 []) /\ repr w' m12 3)
    | LA_STORAGE_OBJECT_PUT_CONFLICT =>
        repr w' m12 3 /\ (put_doc m12 3 (lit "a") (Some (rv 1)) new_doc = None \/
                          ~ healthy_w (md_world m12 3 []))
    | LA_STORAGE_OBJECT_PUT_ERROR => repr w' m12 3 /\ ~ healthy_w (md_world m12 3 [])
    end.
Proof.
  apply (bdb_put_correct (Some (rv 1)) (object_of (lit "a") new_doc) (lit "a") new_doc m12 3
           (md_world m12 3 [])).
  - apply mapdb_seq.
  - apply md_world_repr, m12_wf.
  - reflexivity.
  - apply object_of_holds.
  - apply put_ready_a.
Defined.

Lemma bdb_put_get_witness :
  exists w1 o1 w2 o2 d2,
    bdb_la_storage_put (Some (rv 7)) (object_of (lit "a") new_doc) (md_world m12 3 []) =
      Ret ((LA_STORAGE_OBJECT_PUT_CONFLICT, o1), w1) /\
    bdb_la_storage_get (lit "a") None true w1 = Ret ((LA_STORAGE_OBJECT_GET_OK, Some o2), w2) /\
    object_holds o2 (lit "a") d2 /\
    (None = Some d2 \/ @None doc = None /\ m12 !! lit "a" = Some d2).
Proof.
  apply (bdb_put_get (Some (rv 7)) (object_of (lit "a") new_doc) (lit "a") new_doc m12 3
           (md_world m12 3 [])).
  - apply mapdb_seq.
  - apply md_world_repr, m12_wf.
  - reflexivity.
  - reflexivity.
  - apply object_of_holds.
  - apply put_ready_a.
  - apply (bool_decide_unpack _). reflexivity.
  - reflexivity.
Defined.

Lemma bdb_iterate_all_witness :
  exists it w1 os w2 l,
    bdb_la_storage_iterator_open (BdbStore (Env [])) 0 (md_world m12 3 []) = Ret (Some it, w1) /\
    drain (S (size m12)) it w1 = Ret ((os, LA_STORAGE_OBJECT_ITERATOR_END), w2) /\
    Forall2 (fun o e => object_holds o e.1 e.2) os l /\
    l ≡ₚ map_to_list m12 /\ StronglySorted doc_le l /\ repr w2 m12 3.
Proof.
  apply (bdb_iterate_all (BdbStore (Env [])) m12 3 (md_world m12 3 [])).
  - apply md_world_repr, m12_wf.
  - reflexivity.
  - reflexivity.
  - intros k d H. unfold m12 in H.
    apply lookup_insert_Some in H as [[<- _]|[_ H]]; [|apply lookup_singleton_Some in H as [<- _]];
      (split; [split; [apply (bool_decide_unpack _); reflexivity|reflexivity]|done]).
  - apply (bool_decide_unpack _). vm_compute. reflexivity.
Defined.

Lemma bdb_put_history_overrun_witness :
  bdb_la_storage_put (Some (rv 3)) (object_of (lit "b") new_doc) (md_world m12 3 []) =
    Undef OutOfBounds.
Proof.
  apply (bdb_put_history_overrun (object_of (lit "b") new_doc) (lit "b") new_doc doc2 m12 3
           (md_world m12 3 [])).
  - apply mapdb_seq.
  - apply md_world_repr, m12_wf.
  - reflexivity.
  - reflexivity.
  - apply object_of_holds.
  - apply (bool_decide_unpack _). vm_compute. reflexivity.
  - vm_compute. reflexivity.
  - reflexivity.
  - vm_compute. reflexivity.
  - discriminate.
  - reflexivity.
Defined.
