(* ===== verification/SqliteStore.v ===== *)
(** * The SQLite driver (sqlite-storage/ObjectStore-sqlite.c)

    SQLite is a parameter: a class of its operations on statements, and a class of laws for
    the SQL texts of the driver over a table of documents and the number in [meta].  The
    driver's functions are modelled whole.  The theorems say what a put and a replacement do
    to the table, when a get gives the stored document, and that a document is unreadable
    once it has been updated. *)

From S2P Require Import Prelude StringUtils Revision ObjectStore DocStore.
From Stdlib Require Import Init.Byte.

#[local] Open Scope c_scope.

(** ** SQL texts *)

Definition initsql : list byte := lit
"BEGIN TRANSACTION; CREATE TABLE IF NOT EXISTS meta ( id TEXT UNIQUE PRIMARY KEY NOT NULL, seq INTEGER DEFAULT (1) ); INSERT OR IGNORE INTO meta VALUES ( 'meta', 1 ); CREATE TABLE IF NOT EXISTS docs (   id TEXT UNIQUE PRIMARY KEY NOT NULL,  deleted INTEGER NOT NULL default (0),  rev BLOB NOT NULL,  oldrevs BLOB NOT NULL,  seq INTEGER NOT NULL,  doc_seq INTEGER NOT NULL,  doc BLOB NOT NULL );CREATE TRIGGER IF NOT EXISTS onupdate AFTER UPDATE ON docs BEGIN  UPDATE meta SET seq = seq + 1 WHERE id = 'meta'; END;CREATE TRIGGER IF NOT EXISTS oninsert AFTER INSERT ON docs BEGIN  UPDATE meta SET seq = seq + 1 WHERE id = 'meta'; END;CREATE TRIGGER IF NOT EXISTS ondelete AFTER DELETE ON docs BEGIN  UPDATE meta SET seq = seq + 1 WHERE id = 'meta'; END; CREATE INDEX IF NOT EXISTS seqindex ON docs ( seq ASC ); COMMIT;".

Definition COLUMN_ID : Z := 1.
Definition COLUMN_DELETED : Z := 2.
Definition COLUMN_REV : Z := 3.
Definition COLUMN_OLDREVS : Z := 4.
Definition COLUMN_SEQ : Z := 5.
Definition COLUMN_DOCSEQ : Z := 6.
Definition COLUMN_DOC : Z := 7.

Definition RCOLUMN_ID : Z := 0.
Definition RCOLUMN_DELETED : Z := 1.
Definition RCOLUMN_REV : Z := 2.
Definition RCOLUMN_OLDREVS : Z := 3.
Definition RCOLUMN_SEQ : Z := 4.
Definition RCOLUMN_DOCSEQ : Z := 5.
Definition RCOLUMN_DOC : Z := 6.

Definition begintxn : list byte := lit "BEGIN EXCLUSIVE TRANSACTION".
Definition endtxn : list byte := lit "COMMIT TRANSACTION".
Definition rollback : list byte := lit "ROLLBACK".
Definition getbyid : list byte := lit "SELECT * FROM docs WHERE id = ?;".
Definition getbyidrev : list byte := lit "SELECT * FROM docs WHERE id = ? AND rev = ?;".
Definition getrev : list byte := lit "SELECT rev FROM docs WHERE id = ?;".
Definition getmeta : list byte := lit "SELECT rev, oldrevs, seq, doc_seq FROM docs WHERE id = ?".
Definition getall : list byte := lit "SELECT * FROM docs;".
Definition getsince : list byte := lit "SELECT * FROM docs WHERE seq >= ?".
Definition putdoc : list byte := lit "INSERT OR REPLACE INTO docs VALUES (?, ?, ?, ?, ?, ?, ?);".
Definition getseq : list byte := lit "SELECT seq FROM meta".

(** ** SQLite *)

Definition SQLITE_OK : Z := 0.
Definition SQLITE_ROW : Z := 100.
Definition SQLITE_DONE : Z := 101.

(** Values bound to parameters and read from columns. *)
Inductive sql_value :=
| SqlText (s : list byte)
| SqlBlob (b : list byte)
| SqlInt (z : Z).

(** The operations, over the state [D] of the connection and the file system, and prepared
    statements [ST].  A statement is given back in its new state. *)
Class SQLite (D ST : Type) := {
  fs_stat : list byte -> D -> path_status;
  fs_mkdir : list byte -> D -> Z * D;
  sqlite3_open_v2 : list byte -> D -> Z * D;
  sqlite3_close : D -> D;
  sqlite3_exec : list byte -> D -> Z * D;
  sqlite3_prepare : list byte -> D -> Z * ST * D;
  sqlite3_bind : Z -> sql_value -> ST -> D -> Z * ST * D;
  sqlite3_step : ST -> D -> Z * ST * D;
  sqlite3_column_text : ST -> Z -> list byte;
  sqlite3_column_blob : ST -> Z -> list byte;
  sqlite3_column_int64 : ST -> Z -> Z;
  sqlite3_finalize : ST -> D -> D;
}.

Section driver.
Context {D ST : Type} `{SQLite D ST}.

Definition sqlite3_column_bytes (st : ST) (i : Z) : Z :=
  s32 (Z.of_nat (length (sqlite3_column_blob st i))).

Definition sqlite3_column_int (st : ST) (i : Z) : Z := s32 (sqlite3_column_int64 st i).

(** A call of [sqlite3_exec] whose result is dropped. *)
Definition exec (sql : list byte) : M D unit := let* _ := call (sqlite3_exec sql) in ret tt.

Definition finalize (st : ST) : M D unit := call_ (sqlite3_finalize st).

Record la_storage_env := Env { env_name : option (list byte) }.
Record la_storage_object_store := SqliteStore { store_env : la_storage_env }.
Record la_storage_object_iterator := SqliteIterator {
  it_store : la_storage_object_store;
  it_stmt : ST;
}.

(** ** Environments and stores *)

(** The name is copied without a look at the result, and kept when the rest fails. *)
Definition sqlite_la_storage_open_env (name : list byte) : M D (option la_storage_env) :=
  let* env := malloc 8 in
  match env with
  | None => ret None
  | Some _ =>
      let* copy := strdup name in
      let* d := get_ext in
      match fs_stat name d with
      | IsDirectory => ret (Some (Env copy))
      | NotDirectory | StatFails => free ;;; ret None
      | NoEntry =>
          let* rc := call (fs_mkdir name) in
          if negb (rc =? 0) then free ;;; ret None else ret (Some (Env copy))
      end
  end.

Definition sqlite_la_storage_close_env (env : la_storage_env) : M D unit :=
  match env_name env with Some _ => free | None => ret tt end ;;; free.

Definition sqlite_la_storage_open (env : la_storage_env) (name : list byte)
  : M D (option la_storage_object_store) :=
  let* store := malloc 16 in
  match store with
  | None => ret None
  | Some _ =>
      let* dir := match env_name env with Some n => ret n | None => undef NullDeref end in
      let* path := string_join (lit "/") [dir; name] in
      match path with
      | None => free ;;; ret None
      | Some path =>
          let* path := lift (cstr path) in
          let* rc := call (sqlite3_open_v2 path) in
          if negb (rc =? 0) then free ;;; free ;;; ret None
          else exec initsql ;;; ret (Some (SqliteStore env))
      end
  end.

Definition sqlite_la_storage_close : M D unit := call_ sqlite3_close ;;; free.

(** ** Reading *)

(** The object made of the current row; the number of bytes of the old revisions is taken
    for their number. *)
Definition object_of_row (st : ST) : M D la_storage_object :=
  let oldrev := sqlite3_column_blob st RCOLUMN_OLDREVS in
  let oldrev_count := u64 (sqlite3_column_bytes st RCOLUMN_OLDREVS) in
  let* p := malloc SIZEOF_OBJECT in
  match p with
  | None => undef NullDeref
  | Some _ =>
      let* k := strdup (sqlite3_column_text st RCOLUMN_ID) in
      let len := u32 (sqlite3_column_bytes st RCOLUMN_DOC) in
      let* blk := malloc (u64 (SIZEOF_HEADER + oldrev_count * REV_LEN + len)) in
      match blk with
      | None => undef NullDeref
      | Some blk =>
          let* r := lift (mem_read (sqlite3_column_blob st RCOLUMN_REV) 0 REV_LEN) in
          let h := Header (u64 (sqlite3_column_int64 st RCOLUMN_SEQ))
                     (u64 (sqlite3_column_int64 st RCOLUMN_DOCSEQ))
                     (sqlite3_column_int st RCOLUMN_DELETED mod 2) (oldrev_count mod 2 ^ 15) r in
          let blk := drop 34 blk in
          let* revs := lift (mem_read oldrev 0 (oldrev_count * REV_LEN)) in
          let* blk := lift (mem_write blk 0 revs) in
          let* data := lift (mem_read (sqlite3_column_blob st RCOLUMN_DOC) 0 len) in
          let* blk := lift (mem_write blk (REV_LEN * rev_count h) data) in
          ret (Object k h blk len)
      end
  end.

(** The statement with the key bound to its first parameter, unless a call fails. *)
Definition prepare_key (sql k : list byte) : M D (option ST) :=
  let* '(rc, st) := call (sqlite3_prepare sql) in
  if negb (rc =? SQLITE_OK) then ret None
  else
    let* '(rc, st) := call (sqlite3_bind 1 (SqlText k) st) in
    if negb (rc =? SQLITE_OK) then finalize st ;;; ret None else ret (Some st).

(** [want] says whether the caller passes an [obj]. *)
Definition sqlite_la_storage_get (k : list byte) (r : option rev_t) (want : bool)
  : M D (la_storage_object_get_result * option la_storage_object) :=
  let* st := prepare_key (match r with None => getbyid | Some _ => getbyidrev end) k in
  match st with
  | None => ret (LA_STORAGE_OBJECT_GET_ERROR, None)
  | Some st =>
      let* '(rc, st) := match r with
                        | Some r => call (sqlite3_bind 2 (SqlBlob r) st)
                        | None => ret (SQLITE_OK, st)
                        end in
      if negb (rc =? SQLITE_OK) then finalize st ;;; ret (LA_STORAGE_OBJECT_GET_ERROR, None)
      else
        let* '(rc, st) := call (sqlite3_step st) in
        if rc =? SQLITE_ROW then
          let* o := if want then (let* o := object_of_row st in ret (Some o)) else ret None in
          finalize st ;;; ret (LA_STORAGE_OBJECT_GET_OK, o)
        else
          finalize st ;;;
          ret (if rc =? SQLITE_DONE then LA_STORAGE_OBJECT_GET_NOT_FOUND
               else LA_STORAGE_OBJECT_GET_ERROR, None)
  end.

Definition sqlite_la_storage_get_rev (k : list byte)
  : M D (la_storage_object_get_result * option rev_t) :=
  let* st := prepare_key getrev k in
  match st with
  | None => ret (LA_STORAGE_OBJECT_GET_ERROR, None)
  | Some st =>
      let* '(rc, st) := call (sqlite3_step st) in
      if rc =? SQLITE_ROW then
        let* r := lift (mem_read (sqlite3_column_blob st 0) 0 REV_LEN) in
        finalize st ;;; ret (LA_STORAGE_OBJECT_GET_OK, Some r)
      else
        finalize st ;;;
        ret (if rc =? SQLITE_DONE then LA_STORAGE_OBJECT_GET_NOT_FOUND
             else LA_STORAGE_OBJECT_GET_ERROR, None)
  end.

(** The integers of the results the function below gives, where its callers expect a
    count. *)
Definition get_code (r : la_storage_object_get_result) : Z :=
  match r with
  | LA_STORAGE_OBJECT_GET_OK => 0
  | LA_STORAGE_OBJECT_GET_NOT_FOUND => 1
  | LA_STORAGE_OBJECT_GET_REVISION_NOT_FOUND => 2
  | LA_STORAGE_OBJECT_GET_ERROR => 3
  end.

(** For callers that pass both [start] and [revs].  The old revisions go to
    [*revs + sizeof(la_storage_rev_t)], sixteen revisions behind the start of the block; a
    copy of no bytes does nothing. *)
Definition sqlite_la_storage_get_all_revs (k : list byte)
  : M D (Z * option (Z * list byte)) :=
  let* st := prepare_key getmeta k in
  match st with
  | None => ret (get_code LA_STORAGE_OBJECT_GET_ERROR, None)
  | Some st =>
      let* '(rc, st) := call (sqlite3_step st) in
      if rc =? SQLITE_ROW then
        let oldrevs := sqlite3_column_blob st 1 in
        let oldrevs_len := sqlite3_column_bytes st 1 in
        let* revs := malloc (u64 (oldrevs_len + REV_LEN)) in
        match revs with
        | None => finalize st ;;; ret (get_code LA_STORAGE_OBJECT_GET_ERROR, None)
        | Some revs =>
            let* r := lift (mem_read (sqlite3_column_blob st 0) 0 REV_LEN) in
            let* revs := lift (mem_write revs 0 r) in
            let* revs := if oldrevs_len =? 0 then ret revs
                         else lift (mem_write revs (REV_LEN * REV_LEN) oldrevs) in
            let start := u64 (sqlite3_column_int64 st 3) in
            finalize st ;;; ret (get_code LA_STORAGE_OBJECT_GET_OK, Some (start, revs))
        end
      else ret (get_code LA_STORAGE_OBJECT_GET_NOT_FOUND, None)
  end.

(** ** Writing *)

(** The key, a C string, as the driver passes it. *)
Definition object_key (o : la_storage_object) : M D (list byte) :=
  match key o with Some k => ret k | None => undef NullDeref end.

(** The object's memory after an update over the current row: room for the old revisions of
    the row and its revision, the data moved there, the revisions copied in front.  [None]
    when the block cannot grow. *)
Definition take_history (st : ST) (o : la_storage_object)
  : M D (bool * la_storage_object) :=
  let oldrev_bytes := u32 (sqlite3_column_bytes st 1) in
  let oldrev_count := oldrev_bytes / REV_LEN in
  let oldrev_count :=
    if oldrev_count <? LA_OBJECT_MAX_REVISION_COUNT then oldrev_count + 1 else oldrev_count in
  let rc := rev_count (header o) in
  let o := with_header (set_rev_count oldrev_count (header o)) o in
  let* p := realloc (revs_data o) (la_storage_object_total_size o - SIZEOF_HEADER) in
  match p with
  | None => ret (false, o)
  | Some d =>
      let* d := lift (mem_move d (get_data_offset o) (rc * REV_LEN) (data_length o)) in
      let* revs := lift (mem_read (sqlite3_column_blob st 1) 0
                           (la_min oldrev_bytes (LA_OBJECT_MAX_REVISION_COUNT * REV_LEN))) in
      let* d := lift (mem_write d REV_LEN revs) in
      let* r := lift (mem_read (sqlite3_column_blob st 0) 0 REV_LEN) in
      let* d := lift (mem_write d 0 r) in
      ret (true, with_revs_data d o)
  end.

(** A binding of the insertion; when it fails the rest [k] is not done. *)
Definition bind_or_fail (i : Z) (v : sql_value) (o : la_storage_object) (st : ST)
  (k : ST -> M D (la_storage_object_put_result * la_storage_object))
  : M D (la_storage_object_put_result * la_storage_object) :=
  let* '(rc, st) := call (sqlite3_bind i v st) in
  if negb (rc =? SQLITE_OK) then
    exec rollback ;;; finalize st ;;; ret (LA_STORAGE_OBJECT_PUT_ERROR, o)
  else k st.

(** The common end of a put and a replacement, which does not finalize its statement. *)
Definition insert_object (done_finalizes : bool) (o : la_storage_object)
  : M D (la_storage_object_put_result * la_storage_object) :=
  let* '(rc, st) := call (sqlite3_prepare putdoc) in
  if negb (rc =? SQLITE_OK) then exec rollback ;;; ret (LA_STORAGE_OBJECT_PUT_ERROR, o) else
  let* k := object_key o in
  bind_or_fail COLUMN_ID (SqlText k) o st (fun st =>
  bind_or_fail COLUMN_DELETED (SqlInt (deleted (header o))) o st (fun st =>
  bind_or_fail COLUMN_REV (SqlBlob (rev (header o))) o st (fun st =>
  let* revs := lift (mem_read (revs_data o) 0 (REV_LEN * rev_count (header o))) in
  bind_or_fail COLUMN_OLDREVS (SqlBlob revs) o st (fun st =>
  bind_or_fail COLUMN_SEQ (SqlInt (s64 (seq (header o)))) o st (fun st =>
  bind_or_fail COLUMN_DOCSEQ (SqlInt (s64 (doc_seq (header o)))) o st (fun st =>
  let* data := lift (mem_read (revs_data o) (get_data_offset o) (s32 (data_length o))) in
  bind_or_fail COLUMN_DOC (SqlBlob data) o st (fun st =>
  let* '(rc, st) := call (sqlite3_step st) in
  if negb (rc =? SQLITE_DONE) then
    exec rollback ;;; finalize st ;;; ret (LA_STORAGE_OBJECT_PUT_ERROR, o)
  else
    (if done_finalizes then finalize st else ret tt) ;;;
    exec endtxn ;;;
    ret (LA_STORAGE_OBJECT_PUT_SUCCESS, o)))))))).

(** The number in [meta]; when the statement cannot be prepared the transaction stays
    open. *)
Definition read_seq : M D (option Z) :=
  let* '(rc, st) := call (sqlite3_prepare getseq) in
  if negb (rc =? SQLITE_OK) then ret None
  else
    let* '(rc, st) := call (sqlite3_step st) in
    if negb (rc =? SQLITE_ROW) then finalize st ;;; exec rollback ;;; ret None
    else finalize st ;;; ret (Some (u64 (sqlite3_column_int64 st 0))).

Definition sqlite_la_storage_put (r : option rev_t) (o : la_storage_object)
  : M D (la_storage_object_put_result * la_storage_object) :=
  exec begintxn ;;;
  let* n := read_seq in
  match n with
  | None => ret (LA_STORAGE_OBJECT_PUT_ERROR, o)
  | Some n =>
      let* '(rc, st) := call (sqlite3_prepare getmeta) in
      if negb (rc =? SQLITE_OK) then exec rollback ;;; ret (LA_STORAGE_OBJECT_PUT_ERROR, o) else
      let leave st o res := finalize st ;;; exec rollback ;;; ret (res, o) in
      let* k := object_key o in
      let* '(rc, st) := call (sqlite3_bind 1 (SqlText k) st) in
      if negb (rc =? SQLITE_OK) then leave st o LA_STORAGE_OBJECT_PUT_ERROR else
      let* '(rc, st) := call (sqlite3_step st) in
      if rc =? SQLITE_ROW then
        let* conflict :=
          match r with
          | None => ret true
          | Some r =>
              let* stored := lift (mem_read (sqlite3_column_blob st 0) 0 REV_LEN) in
              ret (negb (bool_decide (r = stored)))
          end in
        if conflict : bool then leave st o LA_STORAGE_OBJECT_PUT_CONFLICT
        else
          let* '(grown, o) := take_history st o in
          if negb grown then leave st o LA_STORAGE_OBJECT_PUT_ERROR
          else
            finalize st ;;;
            insert_object true (with_header (set_seq n (header o)) o)
      else if negb (rc =? SQLITE_DONE) then leave st o LA_STORAGE_OBJECT_PUT_ERROR
      else
        finalize st ;;;
        insert_object true (with_header (set_seq n (set_rev_count 0 (header o))) o)
  end.

Definition sqlite_la_storage_replace (o : la_storage_object)
  : M D (la_storage_object_put_result * la_storage_object) :=
  let* rc := call (sqlite3_exec begintxn) in
  if negb (rc =? SQLITE_OK) then ret (LA_STORAGE_OBJECT_PUT_ERROR, o)
  else insert_object false o.

Definition sqlite_la_storage_lastseq : M D Z :=
  let* '(rc, st) := call (sqlite3_prepare getseq) in
  if negb (rc =? SQLITE_OK) then ret 0
  else
    let* '(rc, st) := call (sqlite3_step st) in
    if negb (rc =? SQLITE_ROW) then finalize st ;;; ret 0
    else finalize st ;;; ret (u64 (sqlite3_column_int64 st 0)).

(** ** Iterating *)

Definition sqlite_la_storage_iterator_open (store : la_storage_object_store) (since : Z)
  : M D (option la_storage_object_iterator) :=
  let* p := malloc 16 in
  match p with
  | None => ret None
  | Some _ =>
      if 0 <? since then
        let* '(rc, st) := call (sqlite3_prepare getsince) in
        if negb (rc =? SQLITE_OK) then free ;;; ret None
        else
          let* '(rc, st) := call (sqlite3_bind 1 (SqlInt (s64 since)) st) in
          if negb (rc =? SQLITE_OK) then finalize st ;;; free ;;; ret None
          else ret (Some (SqliteIterator store st))
      else
        let* '(rc, st) := call (sqlite3_prepare getall) in
        if negb (rc =? SQLITE_OK) then free ;;; ret None
        else ret (Some (SqliteIterator store st))
  end.

(** For callers that pass an [obj]. *)
Definition sqlite_la_storage_iterator_next (it : la_storage_object_iterator)
  : M D (la_storage_object_iterator_result * option la_storage_object *
         la_storage_object_iterator) :=
  let* '(rc, st) := call (sqlite3_step (it_stmt it)) in
  let it := SqliteIterator (it_store it) st in
  if rc =? SQLITE_DONE then ret (LA_STORAGE_OBJECT_ITERATOR_END, None, it)
  else if rc =? SQLITE_ROW then
    let* o := object_of_row st in ret (LA_STORAGE_OBJECT_ITERATOR_GOT_NEXT, Some o, it)
  else ret (LA_STORAGE_OBJECT_ITERATOR_ERROR, None, it).

Definition sqlite_la_storage_iterator_close (it : la_storage_object_iterator) : M D unit :=
  finalize (it_stmt it) ;;; free.
End driver.

(** ** The laws of SQLite the driver relies on *)

(** A row of [docs] without its key, and the contents of the two tables. *)
Record row := Row {
  r_deleted : Z;
  r_rev : list byte;
  r_oldrevs : list byte;
  r_seq : Z;
  r_doc_seq : Z;
  r_doc : list byte;
}.

Record contents := Contents {
  rows : gmap (list byte) row;
  meta_seq : Z;
}.

Definition columns (e : list byte * row) : list sql_value :=
  let '(k, r) := e in
  [SqlText k; SqlInt (r_deleted r); SqlBlob (r_rev r); SqlBlob (r_oldrevs r);
   SqlInt (r_seq r); SqlInt (r_doc_seq r); SqlBlob (r_doc r)].

Definition row_at (c : contents) (k : list byte) (f : row -> list sql_value)
  : list (list sql_value) :=
  match rows c !! k with Some r => [f r] | None => [] end.

(** The rows a query may give: SQL leaves the order of a whole table open. *)
Inductive answer (b : gmap Z sql_value) (c : contents) : list byte -> list (list sql_value) -> Prop :=
| answer_getbyid k :
    b !! 1 = Some (SqlText k) -> answer b c getbyid (row_at c k (fun r => columns (k, r)))
| answer_getbyidrev k v :
    b !! 1 = Some (SqlText k) -> b !! 2 = Some (SqlBlob v) ->
    answer b c getbyidrev
      (match rows c !! k with
       | Some r => if decide (r_rev r = v) then [columns (k, r)] else []
       | None => []
       end)
| answer_getrev k :
    b !! 1 = Some (SqlText k) -> answer b c getrev (row_at c k (fun r => [SqlBlob (r_rev r)]))
| answer_getmeta k :
    b !! 1 = Some (SqlText k) ->
    answer b c getmeta
      (row_at c k (fun r => [SqlBlob (r_rev r); SqlBlob (r_oldrevs r); SqlInt (r_seq r);
                             SqlInt (r_doc_seq r)]))
| answer_getseq : answer b c getseq [[SqlInt (meta_seq c)]]
| answer_getall l : l ≡ₚ map_to_list (rows c) -> answer b c getall (map columns l)
| answer_getsince s l :
    b !! 1 = Some (SqlInt s) ->
    l ≡ₚ filter (fun e => s <= r_seq e.2) (map_to_list (rows c)) ->
    answer b c getsince (map columns l).

(** What the insertion stores, when its parameters are the columns of a row. *)
Definition inserts (b : gmap Z sql_value) (e : list byte * row) : Prop :=
  forall i, b !! (1 + Z.of_nat i) = columns e !! i.

Definition with_row (e : list byte * row) (c : contents) : contents :=
  Contents (<[e.1 := e.2]> (rows c)) (meta_seq c + 1).

(** A statement has as many parameters as its text has question marks. *)
Definition parameters (sql : list byte) : Z :=
  Z.of_nat (length (filter (fun c => c = x3f) sql)).

(** What a query that gives [l] leaves behind after a step with code [rc]. *)
Definition yields {ST} (row : ST -> list sql_value)
  (rest : ST -> option (contents * list (list sql_value)))
  (c : contents) (l : list (list sql_value)) (rc : Z) (st : ST) : Prop :=
  match l with
  | [] => rc = SQLITE_DONE
  | v :: l => rc = SQLITE_ROW /\ row st = v /\ rest st = Some (c, l)
  end.

(** [in_txn] is what an open transaction sees.  [healthy] states have no failing calls ahead.
    A step that fails may roll the transaction back; a failed commit may leave it open. *)
Class SQLiteLaws (D ST : Type) `{SQLite D ST} := {
  committed : D -> contents;
  in_txn : D -> option contents;
  healthy : D -> Prop;
  stmt_sql : ST -> list byte;
  stmt_binds : ST -> gmap Z sql_value;
  stmt_rest : ST -> option (contents * list (list sql_value));
  stmt_row : ST -> list sql_value;
  begin_law (d : D) :
    let '(rc, d') := sqlite3_exec begintxn d in
    committed d' = committed d /\
    in_txn d' = match in_txn d with
                | Some t => Some t
                | None => if rc =? SQLITE_OK then Some (committed d) else None
                end /\
    (rc = SQLITE_OK -> in_txn d = None) /\
    (healthy d -> healthy d' /\ (in_txn d = None -> rc = SQLITE_OK));
  commit_law (d : D) :
    let '(rc, d') := sqlite3_exec endtxn d in
    match in_txn d with
    | None => committed d' = committed d /\ in_txn d' = None
    | Some t =>
        rc = SQLITE_OK /\ committed d' = t /\ in_txn d' = None \/
        rc <> SQLITE_OK /\ ~ healthy d /\ committed d' = committed d /\
          (in_txn d' = Some t \/ in_txn d' = None)
    end /\ (healthy d -> healthy d');
  rollback_law (d : D) :
    let '(rc, d') := sqlite3_exec rollback d in
    committed d' = committed d /\ (in_txn d' = None \/ in_txn d' = in_txn d /\ ~ healthy d) /\
    (healthy d -> healthy d');
  prepare_law sql (d : D) :
    let '(rc, st, d') := sqlite3_prepare sql d in
    committed d' = committed d /\ in_txn d' = in_txn d /\
    (rc = SQLITE_OK -> stmt_sql st = sql /\ stmt_binds st = ∅ /\ stmt_rest st = None) /\
    (healthy d -> rc = SQLITE_OK /\ healthy d');
  bind_law i v st (d : D) :
    stmt_rest st = None -> 1 <= i <= parameters (stmt_sql st) ->
    let '(rc, st', d') := sqlite3_bind i v st d in
    committed d' = committed d /\ in_txn d' = in_txn d /\
    (rc = SQLITE_OK -> stmt_sql st' = stmt_sql st /\
       stmt_binds st' = <[i := v]> (stmt_binds st) /\ stmt_rest st' = None) /\
    (healthy d -> rc = SQLITE_OK /\ healthy d');
  select_law st (d : D) l0 :
    let c := default (committed d) (in_txn d) in
    stmt_rest st = None -> answer (stmt_binds st) c (stmt_sql st) l0 ->
    let '(rc, st', d') := sqlite3_step st d in
    committed d' = committed d /\
    (in_txn d' = in_txn d /\ (healthy d -> healthy d') /\
       (exists l, answer (stmt_binds st) c (stmt_sql st) l /\
                  yields stmt_row stmt_rest c l rc st') \/
     (in_txn d' = in_txn d \/ in_txn d' = None) /\ ~ healthy d /\
       rc <> SQLITE_ROW /\ rc <> SQLITE_DONE);
  next_law st (d : D) l :
    let c := default (committed d) (in_txn d) in
    stmt_rest st = Some (c, l) ->
    let '(rc, st', d') := sqlite3_step st d in
    committed d' = committed d /\
    (in_txn d' = in_txn d /\ (healthy d -> healthy d') /\
       yields stmt_row stmt_rest c l rc st' \/
     (in_txn d' = in_txn d \/ in_txn d' = None) /\ ~ healthy d /\
       rc <> SQLITE_ROW /\ rc <> SQLITE_DONE);
  insert_law st (d : D) e :
    stmt_rest st = None -> stmt_sql st = putdoc -> inserts (stmt_binds st) e ->
    let '(rc, st', d') := sqlite3_step st d in
    rc = SQLITE_DONE /\ (healthy d -> healthy d') /\
      match in_txn d with
      | Some t => committed d' = committed d /\ in_txn d' = Some (with_row e t)
      | None => committed d' = with_row e (committed d) /\ in_txn d' = None
      end \/
    rc <> SQLITE_DONE /\ ~ healthy d /\ committed d' = committed d /\
      (in_txn d' = in_txn d \/ in_txn d' = None);
  finalize_law st (d : D) :
    committed (sqlite3_finalize st d) = committed d /\
    in_txn (sqlite3_finalize st d) = in_txn d /\
    (healthy d -> healthy (sqlite3_finalize st d));
  column_text_law st i s :
    stmt_row st !! i = Some (SqlText s) -> sqlite3_column_text st (Z.of_nat i) = s;
  column_blob_law st i b :
    stmt_row st !! i = Some (SqlBlob b) -> sqlite3_column_blob st (Z.of_nat i) = b;
  column_int_law st i z :
    stmt_row st !! i = Some (SqlInt z) -> sqlite3_column_int64 st (Z.of_nat i) = z;
}.

Section laws.
Context {D ST : Type} `{SQLiteLaws D ST}.
Implicit Types w : world D.

(** ** Runs against the laws *)

(** A step that changes neither the tables nor the transaction. *)
Definition steady w w' : Prop :=
  heap 0 w w' /\ committed (w_ext w') = committed (w_ext w) /\
  in_txn (w_ext w') = in_txn (w_ext w) /\ (healthy (w_ext w) -> healthy (w_ext w')).

(** Nothing is changed, neither committed nor in an open transaction. *)
Definition clean w (c : contents) : Prop :=
  committed (w_ext w) = c /\ (in_txn (w_ext w) = None \/ in_txn (w_ext w) = Some c).

Lemma steady_refl w : steady w w.
Proof. split; [apply heap_refl|done]. Qed.

Lemma steady_trans w1 w2 w3 : steady w1 w2 -> steady w2 w3 -> steady w1 w3.
Proof.
  intros (Hh1 & Hc1 & Ht1 & Hy1) (Hh2 & Hc2 & Ht2 & Hy2).
  split; [eapply heap_eq; [by eapply heap_trans|lia]|]. split; [congruence|].
  split; [congruence|tauto].
Qed.

Lemma steady_clean w w' c : steady w w' -> clean w c -> clean w' c.
Proof. unfold clean. by intros (_ & -> & -> & _). Qed.

Lemma clean_current w c : clean w c -> default (committed (w_ext w)) (in_txn (w_ext w)) = c.
Proof. by intros [<- [-> | ->]]. Qed.

Lemma wp_prepare sql w (Q : Z * ST -> world D -> Prop) :
  (forall rc st w', steady w w' ->
     (rc = SQLITE_OK -> stmt_sql st = sql /\ stmt_binds st = ∅ /\ stmt_rest st = None) ->
     (healthy (w_ext w) -> rc = SQLITE_OK) -> Q (rc, st) w') ->
  wp (call (sqlite3_prepare sql)) w Q.
Proof.
  intros HQ. apply wp_call. intros [rc st] d w' E Hw' Hh.
  pose proof (prepare_law sql (w_ext w)) as HL. rewrite E in HL.
  destruct HL as (H1 & H2 & H3 & H4). rewrite <- Hw' in H1, H2, H4.
  apply HQ; [split_and!; tauto|done|tauto].
Qed.

Lemma wp_sqlite3_bind i v st w (Q : Z * ST -> world D -> Prop) :
  stmt_rest st = None -> 1 <= i <= parameters (stmt_sql st) ->
  (forall rc st' w', steady w w' ->
     (rc = SQLITE_OK -> stmt_sql st' = stmt_sql st /\
        stmt_binds st' = <[i := v]> (stmt_binds st) /\ stmt_rest st' = None) ->
     (healthy (w_ext w) -> rc = SQLITE_OK) -> Q (rc, st') w') ->
  wp (call (sqlite3_bind i v st)) w Q.
Proof.
  intros Hr Hi HQ. apply wp_call. intros [rc st'] d w' E Hw' Hh.
  pose proof (bind_law i v st (w_ext w) Hr Hi) as HL. rewrite E in HL.
  destruct HL as (H1 & H2 & H3 & H4). rewrite <- Hw' in H1, H2, H4.
  apply HQ; [split_and!; tauto|done|tauto].
Qed.

Lemma wp_finalize st w (Q : unit -> world D -> Prop) :
  (forall w', steady w w' -> Q tt w') -> wp (finalize st) w Q.
Proof.
  intros HQ. apply wp_call. intros [] d w' [= <-] Hw' Hh.
  pose proof (finalize_law st (w_ext w)) as (H1 & H2 & H3). rewrite <- Hw' in H1, H2, H3.
  apply HQ. by split_and!.
Qed.

(** What a failed step may do. *)
Definition slipped w w' : Prop :=
  heap 0 w w' /\ committed (w_ext w') = committed (w_ext w) /\
  (in_txn (w_ext w') = in_txn (w_ext w) \/ in_txn (w_ext w') = None) /\ ~ healthy (w_ext w).

Lemma slipped_clean w w' c : slipped w w' -> clean w c -> clean w' c.
Proof. unfold clean. intros (_ & -> & [-> | ->] & _); tauto. Qed.

Lemma wp_select st l0 c w (Q : Z * ST -> world D -> Prop) :
  clean w c -> stmt_rest st = None -> answer (stmt_binds st) c (stmt_sql st) l0 ->
  (forall l rc st' w', steady w w' -> answer (stmt_binds st) c (stmt_sql st) l ->
     yields stmt_row stmt_rest c l rc st' -> Q (rc, st') w') ->
  (forall rc st' w', slipped w w' -> rc <> SQLITE_ROW -> rc <> SQLITE_DONE -> Q (rc, st') w') ->
  wp (call (sqlite3_step st)) w Q.
Proof.
  intros Hc Hr Ha HQ HF. apply wp_call. intros [rc st'] d w' E Hw' Hh.
  rewrite <- (clean_current w c Hc) in Ha.
  pose proof (select_law st (w_ext w) l0 Hr Ha) as HL. rewrite E in HL.
  rewrite (clean_current w c Hc), <- Hw' in HL.
  destruct HL as (H1 & [(H2 & H3 & l & H4 & H5)|(H2 & H3 & H4 & H5)]).
  - by eapply HQ.
  - by apply HF.
Qed.

Definition settled w : Prop := healthy (w_ext w) /\ in_txn (w_ext w) = None.

(** The end of an operation that reports a failure. *)
Definition failed w w' (c : contents) : Prop :=
  heap 0 w w' /\ clean w' c /\ ~ healthy (w_ext w).

Lemma steady_failed w1 w2 w3 c : steady w1 w2 -> failed w2 w3 c -> failed w1 w3 c.
Proof.
  intros (Hh1 & _ & _ & Hy1) (Hh2 & Hc & Hn).
  split; [eapply heap_eq; [by eapply heap_trans|lia]|]. split; [done|tauto].
Qed.

Lemma failed_steady w1 w2 w3 c : failed w1 w2 c -> steady w2 w3 -> failed w1 w3 c.
Proof.
  intros (Hh1 & Hc & Hn) Hs. pose proof Hs as (Hh2 & _).
  split; [eapply heap_eq; [by eapply heap_trans|lia]|]. split; [by eapply steady_clean|done].
Qed.

Lemma wp_rollback w c (Q : unit -> world D -> Prop) :
  clean w c ->
  (forall w', heap 0 w w' -> clean w' c -> (healthy (w_ext w) -> settled w') -> Q tt w') ->
  wp (exec rollback) w Q.
Proof.
  intros Hc HQ. unfold exec. wp_step. apply wp_call. intros rc d w' E Hw' Hh.
  pose proof (rollback_law (w_ext w)) as HL. rewrite E, <- Hw' in HL.
  destruct HL as (H1 & H2 & H3). apply wp_ret. apply HQ; [done| |unfold settled; tauto].
  destruct Hc as [Hc1 Hc2]. split; [congruence|].
  destruct H2 as [->|[-> _]]; tauto.
Qed.

Lemma wp_rollback_failed w0 w c (Q : unit -> world D -> Prop) :
  failed w0 w c -> (forall w', failed w0 w' c -> Q tt w') -> wp (exec rollback) w Q.
Proof.
  intros (Hh & Hc & Hn) HQ. eapply wp_rollback; [done|]. intros w' Hh' Hc' _. apply HQ.
  split; [eapply heap_eq; [by eapply heap_trans|lia]|done].
Qed.

Lemma wp_finalize_failed st w0 w c (Q : unit -> world D -> Prop) :
  failed w0 w c -> (forall w', failed w0 w' c -> Q tt w') -> wp (finalize st) w Q.
Proof.
  intros Hf HQ. apply wp_finalize. intros w' Hs. apply HQ. by eapply failed_steady.
Qed.

Lemma unhealthy_failed w c : clean w c -> ~ healthy (w_ext w) -> failed w w c.
Proof. intros. split; [apply heap_refl|done]. Qed.

Lemma slipped_failed w w' c : slipped w w' -> clean w c -> failed w w' c.
Proof.
  intros Hs Hc. split; [apply Hs|]. split; [by eapply slipped_clean|apply Hs].
Qed.

(** Leaving after a failure: what follows are rollbacks and finalizations, in any order. *)
Ltac leave_failed :=
  repeat lazymatch goal with
  | |- wp (bind _ _) _ _ => apply wp_bind
  | |- wp (exec rollback) _ _ => eapply wp_rollback_failed; [eassumption|]; intros ? ?
  | |- wp (finalize _) _ _ => eapply wp_finalize_failed; [eassumption|]; intros ? ?
  | |- wp (ret _) _ _ => apply wp_ret
  end.

(** A statement that has not been stepped, with its text and parameters. *)
Definition prepared (st : ST) (sql : list byte) (b : gmap Z sql_value) : Prop :=
  stmt_sql st = sql /\ stmt_binds st = b /\ stmt_rest st = None.

(** Calls since [w0] that changed nothing, and one more that may fail. *)
Lemma wp_prepare_from sql c w0 w (Q : Z * ST -> world D -> Prop) :
  clean w0 c -> steady w0 w ->
  (forall st w', failed w0 w' c -> forall rc, rc <> SQLITE_OK -> Q (rc, st) w') ->
  (forall st w', steady w0 w' -> prepared st sql ∅ -> Q (SQLITE_OK, st) w') ->
  wp (call (sqlite3_prepare sql)) w Q.
Proof.
  intros Hc Hs HF HQ. apply wp_prepare. intros rc st w1 Hs1 Hp Hy.
  assert (steady w0 w1) by (by eapply steady_trans).
  destruct (decide (rc = SQLITE_OK)) as [->|Hrc]; [apply HQ; [done|by apply Hp]|].
  apply HF; [|done]. eapply steady_failed; [exact Hs|].
  split; [apply Hs1|]. split; [by eapply steady_clean|tauto].
Qed.

Lemma wp_bind_from i v st sql b c w0 w (Q : Z * ST -> world D -> Prop) :
  clean w0 c -> steady w0 w -> prepared st sql b -> 1 <= i <= parameters sql ->
  (forall st w', failed w0 w' c -> forall rc, rc <> SQLITE_OK -> Q (rc, st) w') ->
  (forall st w', steady w0 w' -> prepared st sql (<[i := v]> b) -> Q (SQLITE_OK, st) w') ->
  wp (call (sqlite3_bind i v st)) w Q.
Proof.
  intros Hc Hs (<- & <- & Hr) Hi HF HQ. apply wp_sqlite3_bind; [done..|].
  intros rc st' w1 Hs1 Hp Hy. assert (steady w0 w1) by (by eapply steady_trans).
  destruct (decide (rc = SQLITE_OK)) as [->|Hrc]; [apply HQ; [done|by apply Hp]|].
  apply HF; [|done]. eapply steady_failed; [exact Hs|].
  split; [apply Hs1|]. split; [by eapply steady_clean|tauto].
Qed.

Lemma wp_bind_or_fail i v o st k sql b c w0 w
  (Q : la_storage_object_put_result * la_storage_object -> world D -> Prop) :
  clean w0 c -> steady w0 w -> prepared st sql b -> 1 <= i <= parameters sql ->
  (forall w', failed w0 w' c -> Q (LA_STORAGE_OBJECT_PUT_ERROR, o) w') ->
  (forall st' w', steady w0 w' -> prepared st' sql (<[i := v]> b) -> wp (k st') w' Q) ->
  wp (bind_or_fail i v o st k) w Q.
Proof.
  intros Hc Hs Hp Hi HF HQ. unfold bind_or_fail. wp_step.
  eapply wp_bind_from; [done..| |]; [|by apply HQ].
  intros st' w1 Hf rc Hrc. rewrite (proj2 (Z.eqb_neq _ _) Hrc). cbn [negb].
  leave_failed. by apply HF.
Qed.

(** ** Documents in the table *)

(** The row of a document.  The columns are signed. *)
Definition row_of (d : doc) : row :=
  Row (d_deleted d) (d_rev d) (concat (d_revs d)) (d_seq d) (d_doc_seq d) (d_data d).

Definition row_wf (d : doc) : Prop :=
  doc_wf d /\ d_seq d < 2 ^ 63 /\ d_doc_seq d < 2 ^ 63 /\
  Z.of_nat (length (d_data d)) < 2 ^ 31.

Definition table (m : gmap (list byte) doc) (n : Z) : contents := Contents (row_of <$> m) n.

Lemma with_row_table k d m n : with_row (k, row_of d) (table m n) = table (<[k := d]> m) (n + 1).
Proof. unfold with_row, table. cbn. by rewrite fmap_insert. Qed.

(** What the driver reads from an object when it stores it. *)
Lemma object_parts o k d :
  object_holds o k d -> row_wf d ->
  mem_read (revs_data o) 0 (REV_LEN * rev_count (header o)) = Ret (concat (d_revs d)) /\
  mem_read (revs_data o) (get_data_offset o) (s32 (data_length o)) = Ret (d_data d) /\
  s64 (seq (header o)) = d_seq d /\ s64 (doc_seq (header o)) = d_doc_seq d /\
  deleted (header o) = d_deleted d /\ rev (header o) = d_rev d.
Proof.
  intros (_ & Hh & Hl & pad & Hp) (((H1 & H2 & _) & Hr & _) & Hs & Hds & Hd).
  pose proof (length_concat_revs _ Hr) as HC. unfold get_data_offset, REV_LEN.
  rewrite Hh, Hl, Hp. cbn [doc_header rev_count seq doc_seq deleted rev] in *.
  rewrite s32_small, !s64_small by lia. split_and!; try done.
  - rewrite mem_read_ok by (rewrite ?length_app; lia). rewrite drop_0.
    by rewrite take_app_exact by lia.
  - rewrite mem_read_ok by (rewrite ?length_app; lia).
    rewrite drop_app_exact by lia. by rewrite take_app_exact by lia.
Qed.

Lemma inserts_row k d :
  inserts (<[COLUMN_DOC := SqlBlob (d_data d)]> (<[COLUMN_DOCSEQ := SqlInt (d_doc_seq d)]>
    (<[COLUMN_SEQ := SqlInt (d_seq d)]> (<[COLUMN_OLDREVS := SqlBlob (concat (d_revs d))]>
    (<[COLUMN_REV := SqlBlob (d_rev d)]> (<[COLUMN_DELETED := SqlInt (d_deleted d)]>
    (<[COLUMN_ID := SqlText k]> ∅))))))) (k, row_of d).
Proof.
  intros i. do 7 (destruct i as [|i]; [reflexivity|]).
  rewrite !lookup_insert_ne by (unfold COLUMN_DOC, COLUMN_DOCSEQ, COLUMN_SEQ, COLUMN_OLDREVS,
    COLUMN_REV, COLUMN_DELETED, COLUMN_ID; lia). reflexivity.
Qed.

Lemma wp_commit w c c' (Q : unit -> world D -> Prop) :
  (committed (w_ext w) = c /\ in_txn (w_ext w) = Some c') \/
  (committed (w_ext w) = c' /\ in_txn (w_ext w) = None) ->
  (forall w', heap 0 w w' -> (healthy (w_ext w) -> settled w') ->
     committed (w_ext w') = c' /\ in_txn (w_ext w') = None \/
     ~ healthy (w_ext w) /\ committed (w_ext w') = c -> Q tt w') ->
  wp (exec endtxn) w Q.
Proof.
  intros Hw HQ. unfold exec. wp_step. apply wp_call. intros rc d w' E Hw' Hh.
  pose proof (commit_law (w_ext w)) as HL. rewrite E, <- Hw' in HL. apply wp_ret.
  unfold settled in *. destruct Hw as [[Hc Ht]|[Hc Ht]]; rewrite Ht in HL; subst.
  - apply HQ; [done|tauto|]. destruct HL as [[(?&?&?)|(?&?&?&?)] ?]; [left|right]; done.
  - apply HQ; [done|tauto|]. destruct HL as [[-> ?] ?]. by left.
Qed.

(** The step of the insertion, and its end. *)
Lemma wp_insert_step fin st o k d c w0 w
  (Q : la_storage_object_put_result * la_storage_object -> world D -> Prop) :
  clean w0 c -> steady w0 w ->
  stmt_sql st = putdoc -> inserts (stmt_binds st) (k, row_of d) -> stmt_rest st = None ->
  (forall w', failed w0 w' c -> Q (LA_STORAGE_OBJECT_PUT_ERROR, o) w') ->
  (forall w', heap 0 w0 w' -> (healthy (w_ext w0) -> settled w') ->
     committed (w_ext w') = with_row (k, row_of d) c /\ in_txn (w_ext w') = None \/
     ~ healthy (w_ext w0) /\ committed (w_ext w') = c ->
     Q (LA_STORAGE_OBJECT_PUT_SUCCESS, o) w') ->
  wp (let* '(rc, st) := call (sqlite3_step st) in
      if negb (rc =? SQLITE_DONE) then
        exec rollback ;;; finalize st ;;; ret (LA_STORAGE_OBJECT_PUT_ERROR, o)
      else
        (if fin : bool then finalize st else ret tt) ;;;
        exec endtxn ;;;
        ret (LA_STORAGE_OBJECT_PUT_SUCCESS, o)) w Q.
Proof.
  intros [Hcm0 Htx0] (Hh & Hcm1 & Htx1 & Hy1) Hsql Hi Hr HF HQ.
  wp_step. apply wp_call. intros [rc st'] x w2 E Hw2 Hh2.
  pose proof (insert_law st (w_ext w) (k, row_of d) Hr Hsql Hi) as HL.
  rewrite E, <- Hw2, Hcm1, Htx1 in HL. destruct HL as [(-> & Hy & HL)|(Hrc & Hn & Hcm & Htx)].
  - assert (committed (w_ext w2) = c /\ in_txn (w_ext w2) = Some (with_row (k, row_of d) c) \/
            committed (w_ext w2) = with_row (k, row_of d) c /\ in_txn (w_ext w2) = None) as Hwr.
    { destruct Htx0 as [Htx0|Htx0]; rewrite Htx0 in HL; [right|left];
        destruct HL; split; congruence. }
    rewrite Z.eqb_refl. cbn [negb]. wp_step.
    assert (forall w3, steady w2 w3 -> wp (exec endtxn ;;;
              ret (LA_STORAGE_OBJECT_PUT_SUCCESS, o)) w3 Q) as Hend.
    { intros w3 (Hh3 & Hcm3 & Htx3 & Hy3). rewrite <- Hcm3, <- Htx3 in Hwr.
      wp_step. eapply wp_commit; [exact Hwr|]. intros w4 Hh4 Hy4 Hres. apply wp_ret.
      apply HQ; [solve_heap|unfold settled in *; tauto|tauto]. }
    destruct fin; [apply wp_finalize; apply Hend|apply wp_ret; by apply Hend, steady_refl].
  - rewrite (proj2 (Z.eqb_neq _ _) Hrc). cbn [negb].
    assert (failed w0 w2 c) as Hf.
    { split; [solve_heap|]. split; [|tauto]. split; [congruence|].
      destruct Htx as [-> | ->]; tauto. }
    leave_failed. by apply HF.
Qed.

Lemma wp_insert_object fin o k d c w
  (Q : la_storage_object_put_result * la_storage_object -> world D -> Prop) :
  clean w c -> object_holds o k d -> row_wf d ->
  (forall w', failed w w' c -> Q (LA_STORAGE_OBJECT_PUT_ERROR, o) w') ->
  (forall w', heap 0 w w' -> (healthy (w_ext w) -> settled w') ->
     committed (w_ext w') = with_row (k, row_of d) c /\ in_txn (w_ext w') = None \/
     ~ healthy (w_ext w) /\ committed (w_ext w') = c -> Q (LA_STORAGE_OBJECT_PUT_SUCCESS, o) w') ->
  wp (insert_object fin o) w Q.
Proof.
  intros Hc Ho Hd HF HQ. pose proof Ho as (Hk & _).
  destruct (object_parts o k d Ho Hd) as (Hrevs & Hdata & Hseq & Hds & Hdel & Hrev).
  unfold insert_object. wp_step. eapply wp_prepare_from; [done|apply steady_refl| |].
  { intros st w1 Hf rc Hrc. rewrite (proj2 (Z.eqb_neq _ _) Hrc). cbn [negb].
    leave_failed. by apply HF. }
  intros st w1 Hs Hp. rewrite Z.eqb_refl. cbn [negb]. wp_step. unfold object_key. rewrite Hk.
  apply wp_ret.
  repeat first
    [ eapply wp_bind_or_fail;
        [exact Hc|eassumption|eassumption|vm_compute; by split|exact HF|];
      clear dependent st; clear dependent w1; intros st w1 Hs Hp
    | wp_step; rewrite ?Hrevs, ?Hdata; apply wp_lift ].
  rewrite Hseq, Hds, Hdel, Hrev in Hp. destruct Hp as (Hsql & Hb & Hr).
  eapply wp_insert_step; [exact Hc|exact Hs|exact Hsql| |exact Hr|exact HF|exact HQ].
  rewrite Hb. apply inserts_row.
Qed.

(** ** Putting *)

(** The document an update stores: the stored revision goes in front of the stored history.
    When that is one revision too many the last one is not dropped: it lands on the start of
    the data.  The document's own sequence number is not counted up. *)
Definition update_doc (n : Z) (old d : doc) : doc :=
  let history := d_rev old :: d_revs old in
  let rest := drop (Z.to_nat LA_OBJECT_MAX_REVISION_COUNT) history in
  Doc n (d_doc_seq d) (d_deleted d) (d_rev d) (push_revs (d_rev old) (d_revs old))
    (concat rest ++ drop (16 * length rest) (d_data d)).

Definition sqlite_put_doc (m : gmap (list byte) doc) (n : Z) (k : list byte)
  (r : option rev_t) (d : doc) : option doc :=
  match m !! k with
  | None => Some (Doc n (d_doc_seq d) (d_deleted d) (d_rev d) [] (d_data d))
  | Some old => if decide (r = Some (d_rev old)) then Some (update_doc n old d) else None
  end.

(** The object brings no revisions for a new document, and no more than an update leaves;
    a full history needs sixteen bytes of data to land on. *)
Definition update_ready (old d : doc) : Prop :=
  (length (d_revs d) <= length (push_revs (d_rev old) (d_revs old)))%nat /\
  (16 * length (drop (Z.to_nat LA_OBJECT_MAX_REVISION_COUNT) (d_rev old :: d_revs old))
     <= length (d_data d))%nat.

(** The block of an object, grown to [nc] revisions in front of its data, with the history
    [h] copied over its start. *)
Lemma history_block (revs : list rev_t) (data pad blk r old : list byte) (nc : nat) :
  revs_wf revs -> (length revs <= nc)%nat -> length r = 16%nat -> (1 <= nc)%nat ->
  (16 * nc <= 16 + length old <= 16 * nc + length data)%nat ->
  length blk = (16 * nc + length data)%nat ->
  take (Nat.min (length (concat revs ++ data ++ pad)) (16 * nc + length data)) blk =
    take (16 * nc + length data) (concat revs ++ data ++ pad) ->
  exists y z,
    mem_move blk (16 * Z.of_nat nc) (16 * Z.of_nat (length revs)) (Z.of_nat (length data)) =
      Ret y /\
    mem_write y 16 old = Ret z /\
    mem_write z 0 r = Ret (r ++ old ++ drop (16 + length old - 16 * nc) data).
Proof.
  intros Hr Hnc Hl H1 Hfit HL HT. pose proof (length_concat_revs _ Hr) as HC.
  assert (take (length data) (drop (16 * length revs) blk) = data) as Hdata.
  { rewrite <- (take_app_exact data pad (length data)) at 2 by done.
    rewrite <- (drop_app_exact (concat revs) (data ++ pad) (16 * length revs)) by lia.
    apply (f_equal (fun l => take (length data) (drop (16 * length revs) l))) in HT.
    rewrite !take_drop_commute, !take_take in *. rewrite !length_app in HT.
    rewrite !Nat.min_l in HT by lia. done. }
  assert (exists y, mem_move blk (16 * Z.of_nat nc) (16 * Z.of_nat (length revs))
            (Z.of_nat (length data)) = Ret y /\ length y = length blk /\
            exists x, y = x ++ data /\ length x = (16 * nc)%nat) as (y & Hy & HLy & x & -> & Hx).
  { unfold mem_move. rewrite mem_read_ok by lia.
    replace (Z.to_nat (16 * Z.of_nat (length revs))) with (16 * length revs)%nat by lia.
    rewrite Nat2Z.id, Hdata. rewrite mem_write_ok by lia.
    eexists. split; [done|]. rewrite drop_ge by lia. rewrite app_nil_r.
    split; [rewrite length_app, length_take; lia|].
    eexists. split; [done|]. rewrite length_take. lia. }
  do 2 eexists. split; [exact Hy|]. split; [apply mem_write_ok; rewrite ?length_app in *; lia|].
  rewrite mem_write_ok by (rewrite ?length_app, ?length_take, ?length_drop, ?length_app; lia).
  change (Z.to_nat 0) with 0%nat. rewrite take_0. cbn [app plus]. f_equal. f_equal.
  rewrite Hl, drop_app_ge by (rewrite length_take; lia).
  rewrite length_take, Nat.min_l by (rewrite length_app in *; lia).
  change (Z.to_nat 16) with 16%nat. cbn [plus Nat.sub]. rewrite drop_0. f_equal.
  rewrite drop_app_ge by (rewrite ?length_app in *; lia).
  f_equal. lia.
Qed.

Lemma update_doc_parts n old d :
  doc_wf old -> length (d_rev old) = 16%nat ->
  concat (d_revs (update_doc n old d)) ++ d_data (update_doc n old d) =
    d_rev old ++ concat (d_revs old) ++
      drop (16 * S (length (d_revs old)) - 16 * length (d_revs (update_doc n old d))) (d_data d).
Proof.
  intros Ho Hl. unfold update_doc, push_revs. cbn [d_revs d_data].
  rewrite app_assoc, <- concat_app, take_drop. cbn [concat]. rewrite <- app_assoc.
  do 3 f_equal. rewrite length_drop, length_take. cbn [length]. lia.
Qed.

Lemma wp_take_history st n o k d old w (Q : bool * la_storage_object -> world D -> Prop) :
  object_holds o k d -> row_wf d -> doc_wf old -> update_ready old d ->
  sqlite3_column_blob st 0 = d_rev old -> sqlite3_column_blob st 1 = concat (d_revs old) ->
  (forall o' w', ~ mem_ok w -> frame 0 w w' -> Q (false, o') w') ->
  (forall o' w', frame 0 w w' ->
     object_holds (with_header (set_seq n (header o')) o') k (update_doc (u64 n) old d) ->
     Q (true, o') w') ->
  wp (take_history st o) w Q.
Proof.
  intros (Hk & Hh & Hlen & pad & Hpad) (Hd & _ & _ & Hdl) Ho [Hready Hroom] Hc0 Hc1 HF HQ.
  pose proof Hd as (_ & Hrw & _). pose proof Ho as ((_ & _ & _ & _ & Hl) & Hro & _ & Hmax).
  cbn [doc_header rev] in Hl. pose proof (length_concat_revs _ Hro) as HC.
  unfold push_revs in Hready. rewrite length_take in Hready. rewrite length_drop in Hroom.
  unfold LA_OBJECT_MAX_REVISION_COUNT in *. cbn [length] in Hready, Hroom.
  set (nc := Nat.min (Z.to_nat 1024) (S (length (d_revs old)))) in *.
  unfold take_history. cbv zeta. unfold sqlite3_column_bytes. rewrite Hc0, Hc1, HC.
  rewrite s32_small by lia.
  assert (u32 (Z.of_nat (16 * length (d_revs old))) = 16 * Z.of_nat (length (d_revs old))) as ->
    by (unfold u32; rewrite Z.mod_small; lia).
  assert ((if 16 * Z.of_nat (length (d_revs old)) / REV_LEN <? LA_OBJECT_MAX_REVISION_COUNT
           then 16 * Z.of_nat (length (d_revs old)) / REV_LEN + 1
           else 16 * Z.of_nat (length (d_revs old)) / REV_LEN) = Z.of_nat nc) as ->.
  { unfold REV_LEN, LA_OBJECT_MAX_REVISION_COUNT. rewrite Z.mul_comm, Z.div_mul by lia.
    destruct (Z.ltb_spec (Z.of_nat (length (d_revs old))) 1024); lia. }
  wp_step. unfold la_storage_object_total_size, get_data_offset, SIZEOF_HEADER, REV_LEN.
  cbn [header with_header set_rev_count rev_count revs_data data_length].
  rewrite Hh, Hlen, Hpad. cbn [doc_header rev_count]. rewrite Z.mod_small by lia.
  apply wp_realloc; [lia| |].
  2: { intros w' Hno Hf _. apply wp_ret. apply HF; [|done]. intros Hok. apply Hno.
       split; [done|]. unfold PTRDIFF_MAX. lia. }
  intros blk w' Hbl Hbt _ Hf _. cbv beta iota.
  replace (Z.to_nat (34 + 16 * Z.of_nat nc + Z.of_nat (length (d_data d)) - 34))
    with (16 * nc + length (d_data d))%nat in * by lia.
  destruct (history_block (d_revs d) (d_data d) pad blk (d_rev old) (concat (d_revs old)) nc)
    as (y & z & Hy & Hz & Hx); [done|lia|done|lia|rewrite HC; lia|done|done|].
  wp_step. rewrite (Z.mul_comm (Z.of_nat (length (d_revs d)))), Hy. apply wp_lift.
  wp_step. unfold la_min, LA_OBJECT_MAX_REVISION_COUNT.
  replace (if 16 * Z.of_nat (length (d_revs old)) <? 1024 * 16
           then 16 * Z.of_nat (length (d_revs old)) else 1024 * 16)
    with (Z.of_nat (length (concat (d_revs old))))
    by (destruct (Z.ltb_spec (16 * Z.of_nat (length (d_revs old))) (1024 * 16)); lia).
  rewrite mem_read_ok by lia. rewrite Nat2Z.id, drop_0, firstn_all. apply wp_lift.
  wp_step. rewrite Hz. apply wp_lift. wp_step.
  rewrite mem_read_ok by lia. rewrite drop_0, take_ge by lia. apply wp_lift.
  wp_step. rewrite Hx. apply wp_lift. apply wp_ret. apply HQ; [done|].
  assert (length (push_revs (d_rev old) (d_revs old)) = nc) as Hpl
    by (unfold push_revs, LA_OBJECT_MAX_REVISION_COUNT; rewrite length_take; cbn [length]; lia).
  pose proof (update_doc_parts (u64 n) old d Ho Hl) as Hparts.
  repeat split; cbn [key header data_length revs_data with_revs_data with_header]; [done| | |].
  - unfold set_seq, set_rev_count, doc_header, update_doc.
    cbn [seq doc_seq deleted rev_count rev d_seq d_doc_seq d_deleted d_rev d_revs].
    rewrite Hpl, Z.mod_small by lia. done.
  - unfold update_doc. cbn [d_data]. rewrite length_app, length_drop.
    rewrite length_concat_revs by (apply revs_wf_drop; by constructor).
    rewrite length_drop. unfold LA_OBJECT_MAX_REVISION_COUNT. cbn [length]. lia.
  - exists []. rewrite app_nil_r. rewrite Hparts. do 3 f_equal.
    unfold update_doc. cbn [d_revs]. rewrite Hpl, HC. lia.
Qed.

(** Each query text has one meaning. *)
Ltac one_answer :=
  let q := fresh "q" in let E := fresh "E" in let Ha := fresh "Ha" in
  match goal with |- answer _ _ ?sql _ -> _ => remember sql as q eqn:E end;
  intros Ha; destruct Ha;
  match goal with E : @eq (list byte) _ _ |- _ => try (exfalso; vm_compute in E; discriminate E) end.

Lemma answer_getseq_inv b c l : answer b c getseq l -> l = [[SqlInt (meta_seq c)]].
Proof. one_answer. done. Qed.

Lemma answer_getmeta_inv b c k l :
  b !! 1 = Some (SqlText k) -> answer b c getmeta l ->
  l = row_at c k (fun r => [SqlBlob (r_rev r); SqlBlob (r_oldrevs r); SqlInt (r_seq r);
                            SqlInt (r_doc_seq r)]).
Proof. intros Hb. one_answer. congruence. Qed.

Lemma answer_getbyid_inv b c k l :
  b !! 1 = Some (SqlText k) -> answer b c getbyid l -> l = row_at c k (fun r => columns (k, r)).
Proof. intros Hb. one_answer. by simplify_map_eq. Qed.

Lemma answer_getall_inv b c l :
  answer b c getall l -> exists es, es ≡ₚ map_to_list (rows c) /\ l = map columns es.
Proof. one_answer. eauto. Qed.

(** Outside of a transaction or in one that has changed nothing, the table holds the
    documents [m]; [n] is the number in [meta]. *)
Definition repr w (m : gmap (list byte) doc) (n : Z) : Prop :=
  clean w (table m n) /\ map_Forall (fun _ => row_wf) m.

Definition sqlite_put_ready (m : gmap (list byte) doc) (n : Z) (k : list byte) (d : doc)
  : Prop :=
  row_wf d /\ 0 <= n < 2 ^ 63 /\
  match m !! k with None => d_revs d = [] | Some old => update_ready old d end.

Lemma row_at_table (m : gmap (list byte) doc) n k (f : row -> list sql_value) :
  row_at (table m n) k f = match m !! k with Some d => [f (row_of d)] | None => [] end.
Proof. unfold row_at, table. cbn. rewrite lookup_fmap. by destruct (m !! k). Qed.

Lemma wp_read_seq c w (Q : option Z -> world D -> Prop) :
  clean w c ->
  (forall w', failed w w' c -> Q None w') ->
  (forall w', steady w w' -> Q (Some (u64 (meta_seq c))) w') ->
  wp read_seq w Q.
Proof.
  intros Hc HF HQ. unfold read_seq. wp_step.
  eapply wp_prepare_from; [done|apply steady_refl| |].
  { intros st w1 Hf rc Hrc. rewrite (proj2 (Z.eqb_neq _ _) Hrc). cbn [negb].
    apply wp_ret. by apply HF. }
  intros st w1 Hs1 (Hsql & _ & Hr). rewrite Z.eqb_refl. cbn [negb]. wp_step.
  eapply wp_select; [by eapply steady_clean|done|rewrite Hsql; constructor| |].
  - intros l rc st' w2 Hs2 Ha Hy. rewrite Hsql in Ha. rewrite (answer_getseq_inv _ _ _ Ha) in Hy.
    destruct Hy as (-> & Hrow & _). rewrite Z.eqb_refl. cbn [negb]. wp_step.
    apply wp_finalize. intros w3 Hs3. apply wp_ret.
    rewrite (column_int_law st' 0 (meta_seq c)) by (by rewrite Hrow).
    apply HQ. by do 2 (eapply steady_trans; [eassumption|]).
  - intros rc st' w2 Hs2 Hrc _. rewrite (proj2 (Z.eqb_neq _ _) Hrc). cbn [negb].
    assert (failed w w2 c) as Hf.
    { eapply steady_failed; [exact Hs1|]. eapply slipped_failed; [done|by eapply steady_clean]. }
    leave_failed. by apply HF.
Qed.

Lemma wp_begin w c (Q : unit -> world D -> Prop) :
  clean w c ->
  (forall w', heap 0 w w' -> clean w' c -> (healthy (w_ext w) -> healthy (w_ext w')) ->
     Q tt w') ->
  wp (exec begintxn) w Q.
Proof.
  intros [Hc Ht] HQ. unfold exec. wp_step. apply wp_call. intros rc d w' E Hw' Hh.
  pose proof (begin_law (w_ext w)) as HL. rewrite E, <- Hw' in HL.
  destruct HL as (H1 & H2 & _ & H4). apply wp_ret. apply HQ; [done| |tauto].
  split; [congruence|]. destruct Ht as [Ht|Ht]; rewrite Ht, ?Hc in *; [|tauto].
  rewrite H2. destruct (rc =? SQLITE_OK); tauto.
Qed.

Lemma new_doc_wf n d :
  row_wf d -> 0 <= n < 2 ^ 63 ->
  row_wf (Doc n (d_doc_seq d) (d_deleted d) (d_rev d) [] (d_data d)).
Proof.
  intros (Hd & H1 & H2 & H3) Hn. pose proof (length_encode_doc d Hd) as HL.
  pose proof Hd as ((Hs & Hds & Hdel & _ & Hl) & _ & Hsz & _).
  cbn [doc_header seq doc_seq deleted rev_count rev] in *.
  assert (header_wf (doc_header (Doc n (d_doc_seq d) (d_deleted d) (d_rev d) [] (d_data d)))) as Hh
    by (repeat split; cbn [doc_header seq doc_seq deleted rev_count rev d_seq d_doc_seq
          d_deleted d_rev d_revs length]; lia).
  split; [|cbn [d_seq d_doc_seq d_data]; lia]. split; [done|]. split; [constructor|].
  split; [|done]. unfold encode_doc. rewrite !length_app, length_encode_header by done.
  cbn [d_revs d_data concat length]. lia.
Qed.

Lemma update_doc_wf n old d :
  doc_wf old -> row_wf d -> update_ready old d -> 0 <= n < 2 ^ 63 -> row_wf (update_doc n old d).
Proof.
  intros Ho (Hd & H1 & H2 & H3) [_ Hroom] Hn.
  pose proof Hd as ((Hs & Hds & Hdel & _ & Hl) & _ & Hsz & _).
  pose proof Ho as ((_ & _ & _ & _ & Hlo) & Hro & _ & Hmax).
  cbn [doc_header seq doc_seq deleted rev_count rev] in *.
  pose proof (length_push_revs (d_rev old) (d_revs old)) as [HP1 HP2].
  pose proof (push_revs_wf (d_rev old) (d_revs old) Hlo Hro) as HPW.
  unfold LA_OBJECT_MAX_REVISION_COUNT in *.
  assert (header_wf (doc_header (update_doc n old d))) as Hh.
  { unfold update_doc, doc_header. cbn [d_seq d_doc_seq d_deleted d_rev d_revs].
    repeat split; cbn [seq doc_seq deleted rev_count rev]; lia. }
  assert (length (d_data (update_doc n old d)) = length (d_data d)) as HD.
  { unfold update_doc, LA_OBJECT_MAX_REVISION_COUNT. cbn [d_data].
    rewrite length_app, length_drop, length_concat_revs by (apply revs_wf_drop; by constructor).
    lia. }
  unfold row_wf. rewrite HD. split; [|cbn [update_doc d_seq d_doc_seq]; lia]. split; [done|].
  unfold LA_OBJECT_MAX_REVISION_COUNT. split; [done|].
  split; [|done]. unfold encode_doc. rewrite !length_app, length_encode_header by done.
  rewrite HD, length_concat_revs by done. cbn [update_doc d_revs]. lia.
Qed.

(** What a put leaves behind: the specification's document stored, or not committed although
    success is reported; the reported conflict; or a failure that changes nothing. *)
Definition put_outcome (m : gmap (list byte) doc) (n : Z) (k : list byte) (r : option rev_t)
  (d : doc) w (res : la_storage_object_put_result * la_storage_object) w' : Prop :=
  heap 0 w w' /\ (healthy (w_ext w) /\ mem_ok w -> settled w') /\
  match res.1 with
  | LA_STORAGE_OBJECT_PUT_SUCCESS =>
      exists d', sqlite_put_doc m n k r d = Some d' /\ object_holds res.2 k d' /\
        (repr w' (<[k := d']> m) (n + 1) \/
         ~ healthy (w_ext w) /\ committed (w_ext w') = table m n)
  | LA_STORAGE_OBJECT_PUT_CONFLICT => repr w' m n /\ sqlite_put_doc m n k r d = None
  | LA_STORAGE_OBJECT_PUT_ERROR => repr w' m n /\ ~ (healthy (w_ext w) /\ mem_ok w)
  end.

Lemma failed_put m n k r d w0 w w' o :
  heap 0 w0 w -> (healthy (w_ext w0) -> healthy (w_ext w)) ->
  map_Forall (fun _ => row_wf) m -> failed w w' (table m n) ->
  put_outcome m n k r d w0 (LA_STORAGE_OBJECT_PUT_ERROR, o) w'.
Proof.
  intros Hh Hy Hm (Hh' & Hc & Hn). split; [solve_heap|]. split; [tauto|].
  split; [by split|tauto].
Qed.

Lemma wp_store_row fin o k d' d m n r w0 w :
  heap 0 w0 w -> (healthy (w_ext w0) -> healthy (w_ext w)) -> clean w (table m n) ->
  map_Forall (fun _ => row_wf) m -> row_wf d' -> object_holds o k d' ->
  sqlite_put_doc m n k r d = Some d' ->
  wp (insert_object fin o) w (put_outcome m n k r d w0).
Proof.
  intros Hh Hy Hc Hm Hd' Ho Hput. eapply wp_insert_object; [done..| |].
  - intros w' Hf. by eapply failed_put.
  - intros w' Hh' Hs Hres. split; [solve_heap|]. split; [tauto|]. cbn [fst snd].
    exists d'. split; [done|]. split; [done|]. rewrite with_row_table in Hres.
    destruct Hres as [[H1 H2]|[Hn H2]]; [left|right; tauto].
    split; [by split; [|left]|]. by apply map_Forall_insert_2.
Qed.

Lemma frame_steady w w' : frame 0 w w' -> steady w w'.
Proof.
  intros Hf. split; [by apply frame_heap|]. destruct Hf as (-> & _). done.
Qed.

(** The put over the row of [old], once its revision is the expected one. *)
Lemma wp_put_update st o k d old m n r w0 w1 w :
  heap 0 w0 w1 -> (healthy (w_ext w0) -> healthy (w_ext w1)) -> steady w1 w ->
  clean w1 (table m n) -> map_Forall (fun _ => row_wf) m -> object_holds o k d -> row_wf d ->
  0 <= n < 2 ^ 63 -> m !! k = Some old -> update_ready old d -> r = Some (d_rev old) ->
  sqlite3_column_blob st 0 = d_rev old -> sqlite3_column_blob st 1 = concat (d_revs old) ->
  wp (let* '(grown, o) := take_history st o in
      if negb grown then finalize st ;;; exec rollback ;;; ret (LA_STORAGE_OBJECT_PUT_ERROR, o)
      else finalize st ;;; insert_object true (with_header (set_seq n (header o)) o)) w
    (put_outcome m n k r d w0).
Proof.
  intros Hh Hy Hs Hc Hm Ho Hd Hn Hold Hrd Hr Hc0 Hc1. pose proof (Hm _ _ Hold) as (Hwo & _).
  assert (clean w (table m n)) as Hcw by (by eapply steady_clean).
  pose proof Hs as (Hhs & _ & _ & Hys). wp_step.
  eapply (wp_take_history st n o k d old); [done..| |].
  - intros o' w' Hmem Hf. cbn [negb]. apply frame_steady in Hf. wp_step.
    apply wp_finalize. intros w2 Hs2. wp_step.
    eapply wp_rollback; [do 2 (eapply steady_clean; [eassumption|]); done|].
    intros w3 Hh3 Hc3 Hy3. apply wp_ret.
    destruct Hf as (Hh' & _ & _ & Hy'), Hs2 as (Hh2 & _ & _ & Hy2).
    assert (~ mem_ok w0) by (intros Hok; apply Hmem; apply Hhs; by apply Hh).
    split; [solve_heap|]. split; [tauto|]. split; [by split|tauto].
  - intros o' w' Hf Ho'. rewrite u64_small in Ho' by (unfold SIZE_MAX; lia). cbn [negb].
    apply frame_steady in Hf. wp_step. apply wp_finalize. intros w2 Hs2.
    assert (steady w w2) as Hs' by (by eapply steady_trans).
    pose proof Hs' as (Hh2 & _ & _ & Hy2).
    eapply wp_store_row; [solve_heap|tauto|by eapply steady_clean|done| |exact Ho'|].
    + by apply update_doc_wf.
    + unfold sqlite_put_doc. by rewrite Hold, decide_True.
Qed.

(** The comparison of the revisions, and what follows it. *)
Lemma wp_put_over st o k d old m n r w0 w1 w :
  heap 0 w0 w1 -> (healthy (w_ext w0) -> healthy (w_ext w1)) -> steady w1 w ->
  clean w1 (table m n) -> map_Forall (fun _ => row_wf) m -> object_holds o k d -> row_wf d ->
  0 <= n < 2 ^ 63 -> m !! k = Some old -> update_ready old d ->
  sqlite3_column_blob st 0 = d_rev old -> sqlite3_column_blob st 1 = concat (d_revs old) ->
  wp (let* conflict :=
        match r with
        | None => ret true
        | Some r =>
            let* stored := lift (mem_read (sqlite3_column_blob st 0) 0 REV_LEN) in
            ret (negb (bool_decide (r = stored)))
        end in
      if conflict : bool then
        finalize st ;;; exec rollback ;;; ret (LA_STORAGE_OBJECT_PUT_CONFLICT, o)
      else
        let* '(grown, o) := take_history st o in
        if negb grown then
          finalize st ;;; exec rollback ;;; ret (LA_STORAGE_OBJECT_PUT_ERROR, o)
        else finalize st ;;; insert_object true (with_header (set_seq n (header o)) o)) w
    (put_outcome m n k r d w0).
Proof.
  intros Hh Hy Hs Hc Hm Ho Hd Hn Hold Hrd Hc0 Hc1.
  pose proof (Hm _ _ Hold) as (((_ & _ & _ & _ & Hlo) & _) & _). cbn [doc_header rev] in Hlo.
  wp_step. eapply (wp_mono _ _ (fun b w' => w' = w /\ b = negb (bool_decide (r = Some (d_rev old))))).
  { destruct r as [r|]; [|by apply wp_ret]. wp_step. rewrite Hc0.
    rewrite mem_read_ok by (unfold REV_LEN; lia). apply wp_lift. apply wp_ret.
    split; [done|]. rewrite drop_0, take_ge by (unfold REV_LEN; lia). f_equal.
    apply bool_decide_ext. split; congruence. }
  intros b w' [-> ->]. case_bool_decide as Hrev; cbn [negb]; [by eapply wp_put_update|].
  wp_step. apply wp_finalize. intros w6 Hs6. wp_step.
  eapply wp_rollback; [do 2 (eapply steady_clean; [eassumption|]); done|].
  intros w7 Hh7 Hc7 Hy7. apply wp_ret. destruct Hs6 as (Hh6 & _ & _ & Hy6), Hs as (Hhs & _ & _ & Hys).
  split; [solve_heap|]. split; [tauto|]. split; [by split|].
  unfold sqlite_put_doc. by rewrite Hold, decide_False.
Qed.

(** The put of a key that has no row. *)
Lemma wp_put_new st o k d m n r w0 w1 w :
  heap 0 w0 w1 -> (healthy (w_ext w0) -> healthy (w_ext w1)) -> steady w1 w ->
  clean w1 (table m n) -> map_Forall (fun _ => row_wf) m -> object_holds o k d -> row_wf d ->
  0 <= n < 2 ^ 63 -> m !! k = None -> d_revs d = [] ->
  wp (finalize st ;;; insert_object true (with_header (set_seq n (set_rev_count 0 (header o))) o))
    w (put_outcome m n k r d w0).
Proof.
  intros Hh Hy Hs Hc Hm Ho Hd Hn Hnone Hrd. wp_step. apply wp_finalize. intros w6 Hs6.
  pose proof Hs6 as (Hh6 & _ & _ & Hy6). pose proof Hs as (Hhs & _ & _ & Hys).
  eapply wp_store_row; [solve_heap|tauto| |done|by eapply new_doc_wf| |].
  - by do 2 (eapply steady_clean; [eassumption|]).
  - destruct Ho as (Hk & Hhd & Hl & pad & Hp). repeat split; [done| |done|].
    + cbn [with_header header]. rewrite Hhd. unfold set_seq, set_rev_count, doc_header.
      cbn [seq doc_seq deleted rev_count rev d_seq d_doc_seq d_deleted d_rev d_revs length].
      by rewrite u64_small by (unfold SIZE_MAX; lia).
    + exists pad. cbn [with_header revs_data d_revs d_data]. by rewrite Hp, Hrd.
  - unfold sqlite_put_doc. by rewrite Hnone.
Qed.

Lemma wp_sqlite_put r o k d m n w :
  repr w m n -> object_holds o k d -> sqlite_put_ready m n k d ->
  wp (sqlite_la_storage_put r o) w (put_outcome m n k r d w).
Proof.
  intros [Hc Hm] Ho (Hd & Hn & Hrd). pose proof Ho as (Hk & _).
  assert (u64 (meta_seq (table m n)) = n) as Hu by (cbn; unfold u64; rewrite Z.mod_small; lia).
  unfold sqlite_la_storage_put. wp_step. eapply wp_begin; [done|]. intros w1 Hh1 Hc1 Hy1.
  assert (forall o w', failed w1 w' (table m n) ->
            put_outcome m n k r d w (LA_STORAGE_OBJECT_PUT_ERROR, o) w') as HF
    by (intros; by eapply failed_put).
  wp_step. eapply wp_read_seq; [done| |].
  { intros w2 Hf. apply wp_ret. by apply HF. }
  intros w2 Hs2. rewrite Hu. wp_step. eapply wp_prepare_from; [exact Hc1|exact Hs2| |].
  { intros st w3 Hf rc Hrc. rewrite (proj2 (Z.eqb_neq _ _) Hrc). cbn [negb].
    leave_failed. by apply HF. }
  intros st w3 Hs3 Hp3. rewrite Z.eqb_refl. cbn [negb]. cbv zeta. wp_step.
  unfold object_key. rewrite Hk. apply wp_ret. wp_step.
  eapply wp_bind_from; [exact Hc1|exact Hs3|exact Hp3|vm_compute; by split| |].
  { intros st' w4 Hf rc Hrc. rewrite (proj2 (Z.eqb_neq _ _) Hrc). cbn [negb].
    leave_failed. by apply HF. }
  intros st' w4 Hs4 (Hsql & Hb & Hr). rewrite Z.eqb_refl. cbn [negb]. wp_step.
  assert (stmt_binds st' !! 1 = Some (SqlText k)) as Hb1 by (rewrite Hb; by simplify_map_eq).
  assert (clean w4 (table m n)) as Hc4 by (by eapply steady_clean).
  eapply wp_select; [exact Hc4|exact Hr|rewrite Hsql; by constructor| |].
  2: { intros rc st2 w5 Hs5 Hrc1 Hrc2.
       rewrite (proj2 (Z.eqb_neq _ _) Hrc1), (proj2 (Z.eqb_neq _ _) Hrc2). cbn [negb].
       assert (failed w1 w5 (table m n)) as Hf
         by (eapply steady_failed; [exact Hs4|]; by apply slipped_failed).
       leave_failed. by apply HF. }
  intros l rc st2 w5 Hs5 Ha Hres. rewrite Hsql in Ha.
  rewrite (answer_getmeta_inv _ _ _ _ Hb1 Ha), row_at_table in Hres.
  assert (steady w1 w5) as Hs by (by eapply steady_trans).
  destruct (m !! k) as [old|] eqn:Hold.
  - destruct Hres as (-> & Hrow & _). rewrite Z.eqb_refl.
    eapply wp_put_over; [done..| |]; (apply (column_blob_law st2 0) || apply (column_blob_law st2 1));
      by rewrite Hrow.
  - cbn in Hres. subst rc. change (SQLITE_DONE =? SQLITE_ROW) with false.
    rewrite Z.eqb_refl. by eapply wp_put_new.
Qed.

(** ** Reading *)

(** The columns of a row as the driver reads them. *)
Lemma row_columns st k d :
  stmt_row st = columns (k, row_of d) ->
  sqlite3_column_text st RCOLUMN_ID = k /\ sqlite3_column_int64 st RCOLUMN_DELETED = d_deleted d /\
  sqlite3_column_blob st RCOLUMN_REV = d_rev d /\
  sqlite3_column_blob st RCOLUMN_OLDREVS = concat (d_revs d) /\
  sqlite3_column_int64 st RCOLUMN_SEQ = d_seq d /\
  sqlite3_column_int64 st RCOLUMN_DOCSEQ = d_doc_seq d /\
  sqlite3_column_blob st RCOLUMN_DOC = d_data d.
Proof.
  intros Hrow. split_and!;
    [ apply (column_text_law st 0) | apply (column_int_law st 1) | apply (column_blob_law st 2)
    | apply (column_blob_law st 3) | apply (column_int_law st 4) | apply (column_int_law st 5)
    | apply (column_blob_law st 6) ]; by rewrite Hrow.
Qed.

Lemma wp_object_of_row st k d w (Q : la_storage_object -> world D -> Prop) :
  stmt_row st = columns (k, row_of d) -> row_wf d -> d_revs d = [] -> mem_ok w ->
  cstring k -> Z.of_nat (length k) < PTRDIFF_MAX ->
  (forall o w', frame 3 w w' -> object_holds o k d -> Q o w') ->
  wp (object_of_row st) w Q.
Proof.
  intros Hrow (Hd & Hs & Hds & Hdl) Hnil Hok Hk Hkl HQ.
  pose proof Hd as ((Hs0 & Hds0 & Hdel & _ & Hl) & _).
  cbn [doc_header seq doc_seq deleted rev_count rev] in *.
  destruct (row_columns st k d Hrow) as (H1 & H2 & H3 & H4 & H5 & H6 & H7).
  unfold object_of_row, sqlite3_column_bytes, sqlite3_column_int.
  rewrite H1, H2, H3, H4, H5, H6, H7, Hnil. cbn [concat length].
  change (Z.of_nat 0) with 0. rewrite (s32_small 0), (s32_small (d_deleted d)), s32_small by lia.
  rewrite (u64_small 0) by (unfold SIZE_MAX; lia). cbv zeta.
  assert (u32 (Z.of_nat (length (d_data d))) = Z.of_nat (length (d_data d))) as ->
    by (unfold u32; rewrite Z.mod_small; lia).
  wp_step. apply wp_malloc; [unfold SIZEOF_OBJECT; lia| |].
  2: { intros w' Hno _ _. exfalso. by apply Hno. }
  intros p w1 _ _ Hf1 _. cbv beta iota. wp_step.
  assert (mem_ok w1) by (by eapply frame_mem_ok).
  apply wp_strdup; [done|done| |].
  2: { intros w' Hno. exfalso. by apply Hno. }
  intros w2 Hf2. assert (mem_ok w2) by (by eapply frame_mem_ok).
  unfold SIZEOF_HEADER, REV_LEN. rewrite u64_small by (unfold SIZE_MAX; lia).
  wp_step. apply wp_malloc; [lia| |].
  2: { intros w' Hno _ _. exfalso. apply Hno. split; [done|]. unfold PTRDIFF_MAX. lia. }
  intros blk w3 Hbl _ Hf3 _. cbv beta iota. wp_step.
  rewrite mem_read_ok by lia. rewrite drop_0, take_ge by lia. apply wp_lift.
  cbn [rev_count]. wp_step. rewrite mem_read_ok by (cbn; lia). apply wp_lift.
  change (take (Z.to_nat (0 * 16)) (drop (Z.to_nat 0) [])) with (@nil byte).
  change (16 * (0 mod 2 ^ 15)) with 0.
  assert (length (drop 34 blk) = length (d_data d)) as Hdb by (rewrite length_drop; lia).
  wp_step. rewrite mem_write_ok by (cbn [length]; lia). apply wp_lift.
  change (Z.to_nat 0) with 0%nat. cbn [length plus]. rewrite take_0, drop_0. cbn [app].
  wp_step. rewrite mem_read_ok by lia. apply wp_lift. wp_step.
  change (Z.to_nat 0) with 0%nat. rewrite drop_0, Nat2Z.id, firstn_all.
  rewrite mem_write_ok by lia. apply wp_lift. apply wp_ret.
  apply HQ; [solve_frame|].
  rewrite take_0. cbn [app plus]. rewrite drop_ge by lia. rewrite app_nil_r.
  repeat split; cbn [key header data_length revs_data].
  - unfold doc_header. rewrite Hnil, !u64_small, (Z.mod_small (d_deleted d)) by (unfold SIZE_MAX; lia). done.
  - exists []. by rewrite Hnil, app_nil_r.
Qed.

Lemma wp_prepare_key sql k c w (Q : option ST -> world D -> Prop) :
  1 <= parameters sql -> clean w c ->
  (forall w', failed w w' c -> Q None w') ->
  (forall st w', steady w w' -> prepared st sql {[1 := SqlText k]} -> Q (Some st) w') ->
  wp (prepare_key sql k) w Q.
Proof.
  intros Hp Hc HF HQ. unfold prepare_key. wp_step.
  eapply wp_prepare_from; [done|apply steady_refl| |].
  { intros st w1 Hf rc Hrc. rewrite (proj2 (Z.eqb_neq _ _) Hrc). cbn [negb].
    apply wp_ret. by apply HF. }
  intros st w1 Hs Hst. rewrite Z.eqb_refl. cbn [negb]. wp_step.
  eapply wp_bind_from; [done|done|done|lia| |].
  { intros st' w2 Hf rc Hrc. rewrite (proj2 (Z.eqb_neq _ _) Hrc). cbn [negb].
    leave_failed. by apply HF. }
  intros st' w2 Hs2 Hst2. rewrite Z.eqb_refl. cbn [negb]. apply wp_ret. by apply HQ.
Qed.

(** The current row of a query by key: the world of [get] when the object is made. *)
Lemma wp_get_row st k m n w0 w (Q : Z * ST -> world D -> Prop) :
  clean w0 (table m n) -> steady w0 w -> prepared st getbyid {[1 := SqlText k]} ->
  (forall rc st' w', failed w0 w' (table m n) -> rc <> SQLITE_ROW -> rc <> SQLITE_DONE ->
     Q (rc, st') w') ->
  (forall st' w', steady w0 w' ->
     match m !! k with
     | Some d => stmt_row st' = columns (k, row_of d) -> Q (SQLITE_ROW, st') w'
     | None => Q (SQLITE_DONE, st') w'
     end) ->
  wp (call (sqlite3_step st)) w Q.
Proof.
  intros Hc Hs (Hsql & Hb & Hr) HF HQ.
  assert (stmt_binds st !! 1 = Some (SqlText k)) as Hb1 by (rewrite Hb; by simplify_map_eq).
  assert (clean w (table m n)) as Hcw by (by eapply steady_clean).
  eapply wp_select; [exact Hcw|exact Hr|rewrite Hsql; by constructor| |].
  - intros l rc st' w' Hs' Ha Hy. rewrite Hsql in Ha.
    rewrite (answer_getbyid_inv _ _ _ _ Hb1 Ha), row_at_table in Hy.
    specialize (HQ st' w' (steady_trans _ _ _ Hs Hs')). destruct (m !! k) as [d|].
    + destruct Hy as (-> & Hrow & _). by apply HQ.
    + cbn in Hy. by subst rc.
  - intros rc st' w' Hs' Hrc1 Hrc2. apply HF; [|done..].
    eapply steady_failed; [exact Hs|]. by apply slipped_failed.
Qed.

Lemma steady_repr w w' m n : steady w w' -> repr w m n -> repr w' m n.
Proof. intros Hs [Hc Hm]. split; [by eapply steady_clean|done]. Qed.

Lemma wp_sqlite_get k w m n :
  repr w m n -> mem_ok w -> cstring k -> Z.of_nat (length k) < PTRDIFF_MAX ->
  (forall d, m !! k = Some d -> d_revs d = []) ->
  wp (sqlite_la_storage_get k None true) w (fun '(res, o) w' =>
    repr w' m n /\ (healthy (w_ext w) -> healthy (w_ext w')) /\
    match res with
    | LA_STORAGE_OBJECT_GET_OK =>
        exists d o', m !! k = Some d /\ o = Some o' /\ object_holds o' k d /\ heap 3 w w'
    | LA_STORAGE_OBJECT_GET_NOT_FOUND => m !! k = None /\ o = None /\ heap 0 w w'
    | LA_STORAGE_OBJECT_GET_REVISION_NOT_FOUND => False
    | LA_STORAGE_OBJECT_GET_ERROR => ~ healthy (w_ext w) /\ o = None /\ heap 0 w w'
    end).
Proof.
  intros [Hc Hm] Hok Hk Hkl Hnil. unfold sqlite_la_storage_get. wp_step.
  eapply wp_prepare_key; [by vm_compute|exact Hc| |].
  { intros w1 (Hh & Hc1 & Hn). apply wp_ret. split; [by split|]. split; [tauto|done]. }
  intros st w1 Hs1 Hst. wp_step. apply wp_ret. rewrite Z.eqb_refl. cbn [negb].
  wp_step. eapply wp_get_row; [exact Hc|exact Hs1|exact Hst| |].
  - intros rc st' w2 Hf Hrc1 Hrc2.
    rewrite (proj2 (Z.eqb_neq _ _) Hrc1), (proj2 (Z.eqb_neq _ _) Hrc2).
    leave_failed. destruct H1 as (Hh & Hc' & Hn).
    split; [by split|]. split; [tauto|done].
  - intros st' w2 Hs2. destruct (m !! k) as [d|] eqn:Ek.
    + intros Hrow. rewrite Z.eqb_refl. wp_step. wp_step.
      assert (mem_ok w2) by (destruct Hs2 as (Hh2 & _); by apply Hh2).
      eapply wp_object_of_row; [exact Hrow|by apply (Hm k)|by apply Hnil|done..|].
      intros o w3 Hf Ho. apply wp_ret. wp_step. apply wp_finalize. intros w4 Hs4. apply wp_ret.
      pose proof (frame_heap _ _ _ Hf) as Hh3. destruct Hs2 as (Hh2 & Hcm2 & Htx2 & Hy2).
      destruct Hs4 as (Hh4 & Hcm4 & Htx4 & Hy4). destruct Hf as (He & _).
      rewrite He in *. split; [split; [unfold clean in *; congruence|done]|]. split; [tauto|].
      exists d, o. split; [done|]. split; [done|]. split; [done|solve_heap].
    + change (SQLITE_DONE =? SQLITE_ROW) with false. rewrite Z.eqb_refl. wp_step.
      apply wp_finalize. intros w3 Hs3. apply wp_ret.
      assert (steady w w3) as Hs by (by eapply steady_trans).
      split; [by eapply steady_repr; [exact Hs|split]|]. split; [apply Hs|].
      split; [done|]. split; [done|apply Hs].
Qed.

(** A row with old revisions: their bytes are counted as revisions and copied as many. *)
Lemma object_of_row_overrun st k d w :
  stmt_row st = columns (k, row_of d) -> row_wf d -> d_revs d <> [] -> mem_ok w ->
  cstring k -> Z.of_nat (length k) < PTRDIFF_MAX ->
  object_of_row st w = Undef OutOfBounds.
Proof.
  intros Hrow (Hd & Hs & Hds & Hdl) Hne Hok Hk Hkl.
  pose proof Hd as ((_ & _ & _ & _ & Hl) & Hr & _ & Hmax). cbn [doc_header rev] in Hl.
  pose proof (length_concat_revs _ Hr) as HC. unfold LA_OBJECT_MAX_REVISION_COUNT in Hmax.
  assert (0 < length (d_revs d))%nat as Hpos by (destruct (d_revs d); [done|simpl; lia]).
  destruct (row_columns st k d Hrow) as (H1 & _ & H3 & H4 & _ & _ & H7).
  unfold object_of_row, sqlite3_column_bytes, sqlite3_column_int. rewrite H1, H3, H4, H7, HC.
  rewrite !s32_small, (u64_small (Z.of_nat (16 * length (d_revs d)))) by (unfold SIZE_MAX; lia). cbv zeta.
  assert (u32 (Z.of_nat (length (d_data d))) = Z.of_nat (length (d_data d))) as ->
    by (unfold u32; rewrite Z.mod_small; lia).
  apply undef_bind. apply wp_malloc; [unfold SIZEOF_OBJECT; lia| |].
  2: { intros w' Hno _ _. exfalso. by apply Hno. }
  intros p w1 _ _ Hf1 _. cbv beta iota. assert (mem_ok w1) by (by eapply frame_mem_ok).
  apply undef_bind. apply wp_strdup; [done|done| |].
  2: { intros w' Hno. exfalso. by apply Hno. }
  intros w2 Hf2. assert (mem_ok w2) by (by eapply frame_mem_ok).
  unfold SIZEOF_HEADER, REV_LEN. rewrite u64_small by (unfold SIZE_MAX; lia).
  apply undef_bind. apply wp_malloc; [lia| |].
  2: { intros w' Hno _ _. exfalso. apply Hno. split; [done|]. unfold PTRDIFF_MAX. lia. }
  intros blk w3 _ _ _ _. cbv beta iota.
  apply undef_bind. rewrite mem_read_ok by lia. apply wp_lift.
  apply undef_head. unfold lift. by rewrite mem_read_oob by lia.
Qed.

Lemma sqlite_get_overrun k d m n w :
  repr w m n -> healthy (w_ext w) -> mem_ok w -> cstring k ->
  Z.of_nat (length k) < PTRDIFF_MAX -> m !! k = Some d -> d_revs d <> [] ->
  sqlite_la_storage_get k None true w = Undef OutOfBounds.
Proof.
  intros [Hc Hm] Hy Hok Hk Hkl Ek Hne. unfold sqlite_la_storage_get.
  apply undef_bind. eapply wp_prepare_key; [by vm_compute|exact Hc| |].
  { intros w1 (_ & _ & Hn). done. }
  intros st w1 Hs1 Hst. apply undef_bind. apply wp_ret. rewrite Z.eqb_refl. cbn [negb].
  apply undef_bind. eapply wp_get_row; [exact Hc|exact Hs1|exact Hst| |].
  { intros rc st' w2 (_ & _ & Hn) _ _. done. }
  intros st' w2 Hs2. rewrite Ek. intros Hrow. rewrite Z.eqb_refl.
  apply undef_head. apply undef_head.
  assert (mem_ok w2) by (destruct Hs2 as (Hh2 & _); by apply Hh2).
  eapply object_of_row_overrun; [exact Hrow|by apply (Hm k)|done..].
Qed.

(** ** Replacing *)

(** A replacement stores the object as it is, with the sequence number it came with. *)
Lemma wp_sqlite_replace k o d m n w :
  repr w m n -> in_txn (w_ext w) = None -> object_holds o k d -> row_wf d ->
  wp (sqlite_la_storage_replace o) w (fun '(res, o') w' =>
    heap 0 w w' /\ (healthy (w_ext w) -> settled w') /\ o' = o /\
    match res with
    | LA_STORAGE_OBJECT_PUT_SUCCESS =>
        repr w' (<[k := d]> m) (n + 1) \/
        ~ healthy (w_ext w) /\ committed (w_ext w') = table m n
    | LA_STORAGE_OBJECT_PUT_CONFLICT => False
    | LA_STORAGE_OBJECT_PUT_ERROR => repr w' m n /\ ~ healthy (w_ext w)
    end).
Proof.
  intros [[Hcm Htx] Hm] Hno Ho Hd. unfold sqlite_la_storage_replace. wp_step.
  apply wp_call. intros rc x w1 E Hw1 Hh1. pose proof (begin_law (w_ext w)) as HL.
  rewrite E, <- Hw1, Hno in HL. destruct HL as (H1' & H2' & _ & H4').
  assert (clean w1 (table m n)) as Hc1.
  { split; [congruence|]. rewrite H2', Hcm. destruct (rc =? SQLITE_OK); tauto. }
  destruct (rc =? SQLITE_OK) eqn:Erc; cbn [negb].
  2: { apply wp_ret. apply Z.eqb_neq in Erc.
       assert (~ healthy (w_ext w)) by tauto.
       split; [done|]. split; [tauto|]. split; [done|]. by split; [split|]. }
  eapply wp_insert_object; [exact Hc1|exact Ho|exact Hd| |].
  - intros w2 (Hh2 & Hc2 & Hn2). split; [solve_heap|]. split; [tauto|]. split; [done|].
    split; [by split|tauto].
  - intros w2 Hh2 Hs2 Hres. split; [solve_heap|]. split; [tauto|]. split; [done|].
    rewrite with_row_table in Hres. destruct Hres as [[H1 H2]|[Hn H2]]; [left|right; tauto].
    split; [by split; [|left]|]. by apply map_Forall_insert_2.
Qed.
End laws.

(** ** A SQLite with the two tables in memory and no failures *)

Record sq_state := SqState {
  sq_tables : contents;
  sq_txn : option contents;
}.

Record sq_stmt := SqStmt {
  sq_sql : list byte;
  sq_binds : gmap Z sql_value;
  sq_rest : option (contents * list (list sql_value));
  sq_row : list sql_value;
}.

Definition sq_exec (sql : list byte) (d : sq_state) : Z * sq_state :=
  if decide (sql = begintxn) then
    match sq_txn d with
    | Some _ => (1, d)
    | None => (SQLITE_OK, SqState (sq_tables d) (Some (sq_tables d)))
    end
  else if decide (sql = endtxn) then
    match sq_txn d with
    | Some t => (SQLITE_OK, SqState t None)
    | None => (1, d)
    end
  else if decide (sql = rollback) then
    (match sq_txn d with Some _ => SQLITE_OK | None => 1 end, SqState (sq_tables d) None)
  else (SQLITE_OK, d).

Definition bound_text (b : gmap Z sql_value) (i : Z) : option (list byte) :=
  match b !! i with Some (SqlText s) => Some s | _ => None end.

Definition bound_blob (b : gmap Z sql_value) (i : Z) : option (list byte) :=
  match b !! i with Some (SqlBlob s) => Some s | _ => None end.

Definition bound_int (b : gmap Z sql_value) (i : Z) : option Z :=
  match b !! i with Some (SqlInt z) => Some z | _ => None end.

Definition sq_query (sql : list byte) (b : gmap Z sql_value) (c : contents)
  : option (list (list sql_value)) :=
  if decide (sql = getbyid) then
    k ← bound_text b 1; Some (row_at c k (fun r => columns (k, r)))
  else if decide (sql = getbyidrev) then
    k ← bound_text b 1; v ← bound_blob b 2;
    Some (match rows c !! k with
          | Some r => if decide (r_rev r = v) then [columns (k, r)] else []
          | None => []
          end)
  else if decide (sql = getrev) then
    k ← bound_text b 1; Some (row_at c k (fun r => [SqlBlob (r_rev r)]))
  else if decide (sql = getmeta) then
    k ← bound_text b 1;
    Some (row_at c k (fun r => [SqlBlob (r_rev r); SqlBlob (r_oldrevs r); SqlInt (r_seq r);
                                SqlInt (r_doc_seq r)]))
  else if decide (sql = getseq) then Some [[SqlInt (meta_seq c)]]
  else if decide (sql = getall) then Some (map columns (map_to_list (rows c)))
  else if decide (sql = getsince) then
    s ← bound_int b 1;
    Some (map columns (filter (fun e => s <= r_seq e.2) (map_to_list (rows c))))
  else None.

Definition sq_inserted (b : gmap Z sql_value) : option (list byte * row) :=
  k ← bound_text b 1; del ← bound_int b 2; v ← bound_blob b 3; old ← bound_blob b 4;
  n ← bound_int b 5; dn ← bound_int b 6; data ← bound_blob b 7;
  Some (k, Row del v old n dn data).

Definition sq_current (d : sq_state) : contents := default (sq_tables d) (sq_txn d).

Definition sq_give (s : sq_stmt) (c : contents) (l : list (list sql_value)) : Z * sq_stmt :=
  match l with
  | [] => (SQLITE_DONE, SqStmt (sq_sql s) (sq_binds s) (Some (c, [])) [])
  | v :: l => (SQLITE_ROW, SqStmt (sq_sql s) (sq_binds s) (Some (c, l)) v)
  end.

Definition sq_step (s : sq_stmt) (d : sq_state) : Z * sq_stmt * sq_state :=
  match sq_rest s with
  | Some (c, l) => (sq_give s c l, d)
  | None =>
      if decide (sq_sql s = putdoc) then
        match sq_inserted (sq_binds s) with
        | Some e =>
            (SQLITE_DONE, s,
             match sq_txn d with
             | Some t => SqState (sq_tables d) (Some (with_row e t))
             | None => SqState (with_row e (sq_tables d)) None
             end)
        | None => (1, s, d)
        end
      else
        match sq_query (sq_sql s) (sq_binds s) (sq_current d) with
        | Some l => (sq_give s (sq_current d) l, d)
        | None => (1, s, d)
        end
  end.

Definition sq_column (s : sq_stmt) (i : Z) : option sql_value := sq_row s !! Z.to_nat i.

Definition tables_sqlite : SQLite sq_state sq_stmt := {|
  fs_stat _ _ := IsDirectory;
  fs_mkdir _ d := (0, d);
  sqlite3_open_v2 _ d := (SQLITE_OK, d);
  sqlite3_close d := d;
  sqlite3_exec := sq_exec;
  sqlite3_prepare sql d := (SQLITE_OK, SqStmt sql ∅ None [], d);
  sqlite3_bind i v s d := (SQLITE_OK, SqStmt (sq_sql s) (<[i := v]> (sq_binds s)) (sq_rest s) (sq_row s), d);
  sqlite3_step := sq_step;
  sqlite3_column_text s i := match sq_column s i with Some (SqlText t) => t | _ => [] end;
  sqlite3_column_blob s i := match sq_column s i with Some (SqlBlob b) => b | _ => [] end;
  sqlite3_column_int64 s i := match sq_column s i with Some (SqlInt z) => z | _ => 0 end;
  sqlite3_finalize _ d := d;
|}.

Lemma sq_query_answer sql b c l0 :
  answer b c sql l0 -> sql <> putdoc /\ exists l, sq_query sql b c = Some l /\ answer b c sql l.
Proof.
  intros Ha. split; [destruct Ha; vm_compute; discriminate|].
  unfold sq_query, bound_text, bound_blob, bound_int.
  destruct Ha; repeat (rewrite decide_False by (vm_compute; discriminate));
    rewrite decide_True by done; simplify_map_eq; eexists; (split; [done|]); by econstructor.
Qed.

Lemma sq_inserted_row b e : inserts b e -> sq_inserted b = Some e.
Proof.
  intros Hi. destruct e as [k r]. unfold sq_inserted, bound_text, bound_blob, bound_int.
  assert (forall i, b !! (1 + Z.of_nat i) = columns (k, r) !! i) as Hb by exact Hi.
  rewrite (Hb 0%nat : b !! 1 = _), (Hb 1%nat : b !! 2 = _), (Hb 2%nat : b !! 3 = _),
    (Hb 3%nat : b !! 4 = _), (Hb 4%nat : b !! 5 = _), (Hb 5%nat : b !! 6 = _),
    (Hb 6%nat : b !! 7 = _). cbn. by destruct r.
Qed.

Lemma sq_yields s c l rc s' : sq_give s c l = (rc, s') -> yields sq_row sq_rest c l rc s'.
Proof. destruct l; cbn; by intros [= <- <-]. Qed.

#[export] Program Instance tables_sqlite_laws :
  @SQLiteLaws sq_state sq_stmt tables_sqlite := {|
  committed := sq_tables;
  in_txn := sq_txn;
  healthy _ := True;
  stmt_sql := sq_sql;
  stmt_binds := sq_binds;
  stmt_rest := sq_rest;
  stmt_row := sq_row;
|}.
Next Obligation. intros [c [t|]]; cbn; naive_solver. Qed.
Next Obligation. intros [c [t|]]; cbn; naive_solver. Qed.
Next Obligation. intros [c [t|]]; cbn; naive_solver. Qed.
Next Obligation. done. Qed.
Next Obligation. intros i v s d Hr Hi. cbn. by rewrite Hr. Qed.
Next Obligation.
  intros s d l0 c Hr Ha. cbn. unfold sq_step. rewrite Hr.
  destruct (sq_query_answer _ _ _ _ Ha) as (Hne & l & Hq & Hl).
  rewrite decide_False by done. unfold c in Hq. cbn in Hq. unfold sq_current. rewrite Hq.
  destruct (sq_give s _ l) as [rc s'] eqn:E. cbn. split; [done|]. left.
  split; [done|]. split; [done|]. exists l. split; [done|].
  by apply (sq_yields s).
Qed.
Next Obligation.
  intros s d l c Hr. cbn. unfold sq_step. rewrite Hr.
  destruct (sq_give s _ l) as [rc s'] eqn:E. cbn. split; [done|]. left.
  split; [done|]. split; [done|]. by apply (sq_yields s).
Qed.
Next Obligation.
  intros s d e Hr Hsql Hi. cbn. unfold sq_step. rewrite Hr, decide_True by done.
  rewrite (sq_inserted_row _ _ Hi). left. by destruct (sq_txn d).
Qed.
Next Obligation. done. Qed.
Next Obligation. intros s i v E. cbn. unfold sq_column. by rewrite Nat2Z.id, E. Qed.
Next Obligation. intros s i v E. cbn. unfold sq_column. by rewrite Nat2Z.id, E. Qed.
Next Obligation. intros s i v E. cbn. unfold sq_column. by rewrite Nat2Z.id, E. Qed.

(** ** Properties *)

(** C9 (refinement): when a new document brings no old revisions and an updated one no more than
    the update leaves ([sqlite_put_ready]), a put has one of four outcomes: it stores what the
    specification says and counts the sequence number up; it reports the conflict the
    specification sees and changes nothing; it reports an error, when a call of SQLite or the
    allocator failed, and changes nothing; or it reports success although the statement that
    ends the transaction failed, whose result is not looked at, and the committed table is
    unchanged.  When no call fails it is the first or the second, and the transaction is closed. *)
Theorem sqlite_put_correct {D ST} `{SQLiteLaws D ST} (r : option rev_t)
  (o : la_storage_object) (k : list byte) (d : doc) (m : gmap (list byte) doc) (n : Z)
  (w : world D) (Hw : repr w m n) (Ho : object_holds o k d) (Hd : sqlite_put_ready m n k d) :
  exists res w', sqlite_la_storage_put r o w = Ret (res, w') /\ put_outcome m n k r d w res w'.
Proof.
  pose proof (wp_sqlite_put r o k d m n w Hw Ho Hd) as HW.
  apply wp_run in HW as (res & w' & ? & ?). eauto.
Qed.

Lemma healthy_put_succeeds {D ST} `{SQLiteLaws D ST} r o k d d' m n (w : world D) :
  repr w m n -> healthy (w_ext w) -> mem_ok w -> object_holds o k d ->
  sqlite_put_ready m n k d -> sqlite_put_doc m n k r d = Some d' ->
  exists o' w', sqlite_la_storage_put r o w = Ret ((LA_STORAGE_OBJECT_PUT_SUCCESS, o'), w') /\
    repr w' (<[k := d']> m) (n + 1) /\ healthy (w_ext w') /\ mem_ok w'.
Proof.
  intros Hw Hy Hok Ho Hd Hput. pose proof (wp_sqlite_put r o k d m n w Hw Ho Hd) as HW.
  apply wp_run in HW as ([res o'] & w' & Hrun & Hh & Hs & Hres). cbn [fst snd] in Hres.
  destruct res; [|exfalso; destruct Hres; congruence|exfalso; tauto].
  destruct Hres as (d'' & Hd'' & _ & Hres). replace d'' with d' in * by congruence.
  exists o', w'. split; [done|]. split; [tauto|]. destruct Hs as [? _]; [done|].
  split; [done|]. by apply Hh.
Qed.

(** A document put under a new key is stored with the next sequence number,
    and read back as it was put. *)
Theorem sqlite_create_get {D ST} `{SQLiteLaws D ST} (r : option rev_t)
  (o : la_storage_object) (k : list byte) (d : doc) (m : gmap (list byte) doc) (n : Z)
  (w : world D) (Hw : repr w m n) (Hy : healthy (w_ext w)) (Hm : mem_ok w)
  (Hk : cstring k) (Hkl : Z.of_nat (length k) < PTRDIFF_MAX)
  (Ho : object_holds o k d) (Hd : sqlite_put_ready m n k d) (Hnew : m !! k = None) :
  exists o1 w1 o2 w2,
    sqlite_la_storage_put r o w = Ret ((LA_STORAGE_OBJECT_PUT_SUCCESS, o1), w1) /\
    sqlite_la_storage_get k None true w1 = Ret ((LA_STORAGE_OBJECT_GET_OK, Some o2), w2) /\
    object_holds o2 k (Doc n (d_doc_seq d) (d_deleted d) (d_rev d) [] (d_data d)) /\
    heap 3 w1 w2.
Proof.
  set (d' := Doc n (d_doc_seq d) (d_deleted d) (d_rev d) [] (d_data d)).
  destruct (healthy_put_succeeds r o k d d' m n w) as (o1 & w1 & Hput & Hw1 & Hy1 & Hm1);
    [done..|by unfold sqlite_put_doc; rewrite Hnew|].
  exists o1, w1.
  pose proof (wp_sqlite_get k w1 (<[k := d']> m) (n + 1) Hw1 Hm1 Hk Hkl) as HW.
  apply wp_run in HW as ([res oo] & w2 & Hrun & _ & _ & Hres);
    [|intros d0; rewrite lookup_insert_eq; by intros [= <-]].
  destruct res; [|destruct Hres as [Hn _]; by rewrite lookup_insert_eq in Hn|done|tauto].
  destruct Hres as (d0 & o2 & Hd0 & -> & Ho2 & Hh). rewrite lookup_insert_eq in Hd0.
  injection Hd0 as <-. by exists o2, w2.
Qed.

(** C34 (safety): an accepted update leaves a document that cannot be read: its row has old
    revisions, and a get copies sixteen times as many bytes as they are. *)
Theorem sqlite_update_unreadable {D ST} `{SQLiteLaws D ST} (o : la_storage_object)
  (k : list byte) (d old : doc) (m : gmap (list byte) doc) (n : Z)
  (w : world D) (Hw : repr w m n) (Hy : healthy (w_ext w)) (Hm : mem_ok w)
  (Hk : cstring k) (Hkl : Z.of_nat (length k) < PTRDIFF_MAX)
  (Ho : object_holds o k d) (Hd : sqlite_put_ready m n k d) (Hold : m !! k = Some old) :
  exists o' w',
    sqlite_la_storage_put (Some (d_rev old)) o w =
      Ret ((LA_STORAGE_OBJECT_PUT_SUCCESS, o'), w') /\
    repr w' (<[k := update_doc n old d]> m) (n + 1) /\
    sqlite_la_storage_get k None true w' = Undef OutOfBounds.
Proof.
  destruct (healthy_put_succeeds (Some (d_rev old)) o k d (update_doc n old d) m n w)
    as (o1 & w1 & Hput & Hw1 & Hy1 & Hm1);
    [done..|by unfold sqlite_put_doc; rewrite Hold, decide_True|].
  exists o1, w1. split; [done|]. split; [done|].
  eapply sqlite_get_overrun; [exact Hw1|done..|by rewrite lookup_insert_eq|].
  unfold update_doc, push_revs, LA_OBJECT_MAX_REVISION_COUNT. cbn [d_revs].
  by change (Z.to_nat 1024) with (S (Z.to_nat 1023)).
Qed.

(** ** Concrete runs *)

#[export] Instance row_wf_dec d : Decision (row_wf d).
Proof. unfold row_wf. apply _. Defined.

#[export] Instance update_ready_dec old d : Decision (update_ready old d).
Proof. unfold update_ready. apply _. Defined.

Definition sq_world (m : gmap (list byte) doc) (n : Z) : world sq_state :=
  world0 (SqState (table m n) None).

Lemma sq_m12 : repr (H0 := tables_sqlite_laws) (sq_world m12 3) m12 3.
Proof.
  split; [by split; [|left]|]. apply (bool_decide_unpack _). vm_compute. reflexivity.
Qed.

Lemma sqlite_put_correct_witness :
  exists res w', @sqlite_la_storage_put _ _ tables_sqlite (Some (rv 3))
      (object_of (lit "b") new_doc) (sq_world m12 3) = Ret (res, w') /\
    put_outcome (H0 := tables_sqlite_laws) m12 3 (lit "b") (Some (rv 3)) new_doc
      (sq_world m12 3) res w'.
Proof.
  apply (sqlite_put_correct (H0 := tables_sqlite_laws) (Some (rv 3))
           (object_of (lit "b") new_doc) (lit "b") new_doc m12 3 (sq_world m12 3)).
  - apply sq_m12.
  - apply object_of_holds.
  - split; [apply (bool_decide_unpack _); vm_compute; reflexivity|]. split; [done|].
    apply (bool_decide_unpack _). vm_compute. reflexivity.
Defined.

Lemma sqlite_create_get_witness :
  exists o1 w1 o2 w2,
    @sqlite_la_storage_put _ _ tables_sqlite None (object_of (lit "c") new_doc)
      (sq_world m12 3) = Ret ((LA_STORAGE_OBJECT_PUT_SUCCESS, o1), w1) /\
    @sqlite_la_storage_get _ _ tables_sqlite (lit "c") None true w1 =
      Ret ((LA_STORAGE_OBJECT_GET_OK, Some o2), w2) /\
    object_holds o2 (lit "c") (Doc 3 0 0 (rv 9) [] (d_data new_doc)) /\ heap 3 w1 w2.
Proof.
  apply (sqlite_create_get (H0 := tables_sqlite_laws) None (object_of (lit "c") new_doc)
           (lit "c") new_doc m12 3 (sq_world m12 3)).
  - apply sq_m12.
  - exact I.
  - reflexivity.
  - apply (bool_decide_unpack _). reflexivity.
  - reflexivity.
  - apply object_of_holds.
  - split; [apply (bool_decide_unpack _); vm_compute; reflexivity|]. by split.
  - reflexivity.
Defined.

Lemma sqlite_update_unreadable_witness :
  exists o' w',
    @sqlite_la_storage_put _ _ tables_sqlite (Some (d_rev doc1)) (object_of (lit "a") new_doc)
      (sq_world m12 3) = Ret ((LA_STORAGE_OBJECT_PUT_SUCCESS, o'), w') /\
    repr (H0 := tables_sqlite_laws) w' (<[lit "a" := update_doc 3 doc1 new_doc]> m12) (3 + 1) /\
    @sqlite_la_storage_get _ _ tables_sqlite (lit "a") None true w' = Undef OutOfBounds.
Proof.
  apply (sqlite_update_unreadable (H0 := tables_sqlite_laws) (object_of (lit "a") new_doc)
           (lit "a") new_doc doc1 m12 3 (sq_world m12 3)).
  - apply sq_m12.
  - exact I.
  - reflexivity.
  - apply (bool_decide_unpack _). reflexivity.
  - reflexivity.
  - apply object_of_holds.
  - split; [apply (bool_decide_unpack _); vm_compute; reflexivity|]. split; [done|].
    apply (bool_decide_unpack _). vm_compute. reflexivity.
  - reflexivity.
Defined.

(** A first put, and what a get gives afterwards. *)
Example sqlite_created :
  match @sqlite_la_storage_put _ _ tables_sqlite None (object_of (lit "a") new_doc)
          (sq_world ∅ 1) with
  | Ret ((res, _), w) =>
      match @sqlite_la_storage_get _ _ tables_sqlite (lit "a") None true w with
      | Ret ((got, o), _) => Some (res, got, option_map revs_data o)
      | Undef _ => None
      end
  | Undef _ => None
  end = Some (LA_STORAGE_OBJECT_PUT_SUCCESS, LA_STORAGE_OBJECT_GET_OK, Some (lit "{'a':1}")).
Proof. vm_compute. reflexivity. Qed.
