(* ===== verification/Codec.v ===== *)
(** * Document values (Codec/Codec.h, codec-json/codec-json.c)

    The codec layer is a set of renamed calls into the jansson library, which is a parameter
    here: a class of its operations on an abstract type of values, and a class of the
    documented laws that tie them to a tree.  References are counted in [w_live]: a call that
    returns a new reference adds one, [la_codec_decref] drops one. *)

From S2P Require Import Prelude.
From Stdlib Require Import Init.Byte.

#[local] Open Scope c_scope.

(** ** Types of values *)

Inductive la_codec_type :=
| LA_CODEC_OBJECT
| LA_CODEC_ARRAY
| LA_CODEC_STRING
| LA_CODEC_INTEGER
| LA_CODEC_REAL
| LA_CODEC_TRUE
| LA_CODEC_FALSE
| LA_CODEC_NULL
| LA_CODEC_BIGNUM.

#[export] Instance la_codec_type_eq_dec : EqDecision la_codec_type.
Proof. solve_decision. Defined.

(** The enumeration of the jansson header. *)
Inductive json_type :=
| JSON_OBJECT
| JSON_ARRAY
| JSON_STRING
| JSON_INTEGER
| JSON_REAL
| JSON_TRUE
| JSON_FALSE
| JSON_NULL
| JSON_BIGNUM.

#[export] Instance json_type_eq_dec : EqDecision json_type.
Proof. solve_decision. Defined.

(** ** Jansson *)

(** The operations the program calls, over values [V] and object iterators [I].  A failing
    allocation inside the library is a [None].  The text of a real is what [snprintf] prints
    for it with ["%.20e"]; the bytes of a bignum are its magnitude, most significant first;
    [json_dump] is the sequence of chunks given to the callback, [None] when the value has no
    text. *)
Class Jansson (V I : Type) := {
  json_typeof : V -> json_type;
  json_integer_value : V -> Z;
  json_string_value : V -> option (list byte);
  json_real_text : V -> list byte;
  json_bignum_negative : V -> bool;
  json_bignum_bytes : V -> list byte;
  json_array_size : V -> Z;
  json_array_get : V -> Z -> option V;
  json_array_append : V -> V -> V;
  json_array_remove : V -> Z -> V;
  json_object_size : V -> Z;
  json_object_get : V -> list byte -> option V;
  json_object_set_new : V -> list byte -> V -> Z * V;
  json_object_del : V -> list byte -> V;
  json_object_iter : V -> option I;
  json_object_iter_next : V -> I -> option I;
  json_object_iter_key : I -> list byte;
  json_object_iter_value : I -> V;
  json_object : option V;
  json_array : option V;
  json_string : list byte -> option V;
  json_integer : Z -> option V;
  json_copy : V -> option V;
  json_loadb : list byte -> option V;
  json_dump : V -> option (list (list byte));
}.

(** ** The codec calls *)

Section codec.
Context {X V I : Type} `{Jansson V I}.

Definition la_codec_typeof (value : V) : la_codec_type :=
  match json_typeof value with
  | JSON_ARRAY => LA_CODEC_ARRAY
  | JSON_FALSE => LA_CODEC_FALSE
  | JSON_INTEGER => LA_CODEC_INTEGER
  | JSON_NULL => LA_CODEC_NULL
  | JSON_OBJECT => LA_CODEC_OBJECT
  | JSON_REAL => LA_CODEC_REAL
  | JSON_STRING => LA_CODEC_STRING
  | JSON_TRUE => LA_CODEC_TRUE
  | JSON_BIGNUM => LA_CODEC_BIGNUM
  end.

(** The type tests of jansson are false for NULL. *)
Definition json_is (t : json_type) (value : option V) : bool :=
  match value with Some v => bool_decide (json_typeof v = t) | None => false end.

Definition la_codec_is_object (value : option V) : bool := json_is JSON_OBJECT value.
Definition la_codec_is_array (value : option V) : bool := json_is JSON_ARRAY value.
Definition la_codec_is_string (value : option V) : bool := json_is JSON_STRING value.
Definition la_codec_is_integer (value : option V) : bool := json_is JSON_INTEGER value.
Definition la_codec_is_real (value : option V) : bool := json_is JSON_REAL value.
Definition la_codec_is_true (value : option V) : bool := json_is JSON_TRUE value.
Definition la_codec_is_false (value : option V) : bool := json_is JSON_FALSE value.
Definition la_codec_is_null (value : option V) : bool := json_is JSON_NULL value.
Definition la_codec_is_bignum (value : option V) : bool := json_is JSON_BIGNUM value.

Definition la_codec_integer_value (value : V) : Z := json_integer_value value.
Definition la_codec_string_value (value : V) : option (list byte) := json_string_value value.
Definition la_codec_array_size (array : V) : Z := json_array_size array.
Definition la_codec_array_get (array : V) (index : Z) : option V := json_array_get array index.
Definition la_codec_object_size (object : V) : Z := json_object_size object.
Definition la_codec_object_get (object : V) (key : list byte) : option V :=
  json_object_get object key.
Definition la_codec_object_iter (object : V) : option I := json_object_iter object.
Definition la_codec_object_iter_next (object : V) (iter : I) : option I :=
  json_object_iter_next object iter.
Definition la_codec_object_iter_key (iter : I) : list byte := json_object_iter_key iter.
Definition la_codec_object_iter_value (iter : I) : V := json_object_iter_value iter.

(** Updates of a value the caller alone refers to. *)
Definition la_codec_object_del (object : V) (key : list byte) : V := json_object_del object key.
Definition la_codec_object_set_new (object : V) (key : list byte) (value : V) : Z * V :=
  json_object_set_new object key value.
Definition la_codec_array_append (array value : V) : V := json_array_append array value.
Definition la_codec_array_remove (array : V) (index : Z) : V := json_array_remove array index.

(** A call that returns a new reference, or NULL. *)
Definition new_ref (v : option V) : M X (option V) := fun w =>
  Ret (v, World (w_alloc w) (w_junk w)
            (if v is Some _ then w_live w + 1 else w_live w) (w_errno w) (w_ext w)).

Definition la_codec_object : M X (option V) := new_ref json_object.
Definition la_codec_array : M X (option V) := new_ref json_array.
Definition la_codec_integer (i : Z) : M X (option V) := new_ref (json_integer (s64 i)).
Definition la_codec_string (s : list byte) : M X (option V) := new_ref (json_string s).
Definition la_codec_copy (value : V) : M X (option V) := new_ref (json_copy value).
Definition la_codec_incref (value : V) : M X (option V) := new_ref (Some value).
Definition la_codec_from_json (json : V) : M X (option V) := la_codec_incref json.
Definition la_codec_loadb (buffer : list byte) : M X (option V) := new_ref (json_loadb buffer).

(** Nothing happens for NULL. *)
Definition la_codec_decref (value : option V) : M X unit :=
  match value with Some _ => free | None => ret tt end.

(** The callback is called on each chunk, over a state [S], until it fails. *)
Fixpoint dump_chunks {S} (callback : S -> list byte -> M X (Z * S)) (chunks : list (list byte))
  (s : S) : M X (Z * S) :=
  match chunks with
  | [] => ret (0, s)
  | c :: chunks =>
      let* '(rc, s) := callback s c in
      if negb (rc =? 0) then ret (-1, s) else dump_chunks callback chunks s
  end.

Definition la_codec_dump_callback {S} (value : V) (callback : S -> list byte -> M X (Z * S))
  (s : S) : M X (Z * S) :=
  match json_dump value with
  | None => ret (-1, s)
  | Some chunks => dump_chunks callback chunks s
  end.
End codec.

(** ** Trees *)

(** What a value is. *)
Inductive tree :=
| TObject (members : list (list byte * tree))
| TArray (items : list tree)
| TString (s : list byte)
| TInteger (i : Z)
| TReal (text : list byte)
| TTrue
| TFalse
| TNull
| TBignum (negative : bool) (magnitude : list byte).

Definition tree_type (t : tree) : json_type :=
  match t with
  | TObject _ => JSON_OBJECT
  | TArray _ => JSON_ARRAY
  | TString _ => JSON_STRING
  | TInteger _ => JSON_INTEGER
  | TReal _ => JSON_REAL
  | TTrue => JSON_TRUE
  | TFalse => JSON_FALSE
  | TNull => JSON_NULL
  | TBignum _ _ => JSON_BIGNUM
  end.

Section tree_ind.
Variable P : tree -> Prop.
Hypothesis Pobj : forall l, Forall (fun e => P e.2) l -> P (TObject l).
Hypothesis Parr : forall l, Forall P l -> P (TArray l).
Hypothesis Pstr : forall s, P (TString s).
Hypothesis Pint : forall i, P (TInteger i).
Hypothesis Preal : forall s, P (TReal s).
Hypothesis Ptrue : P TTrue.
Hypothesis Pfalse : P TFalse.
Hypothesis Pnull : P TNull.
Hypothesis Pbig : forall n b, P (TBignum n b).

(** Induction with the hypothesis for every member and item. *)
Fixpoint tree_ind' (t : tree) : P t :=
  match t with
  | TObject l => Pobj l ((fix go l : Forall (fun e => P e.2) l :=
      match l with [] => Forall_nil_2 _ | e :: l => Forall_cons_2 _ _ _ (tree_ind' e.2) (go l) end) l)
  | TArray l => Parr l ((fix go l : Forall P l :=
      match l with [] => Forall_nil_2 _ | e :: l => Forall_cons_2 _ _ _ (tree_ind' e) (go l) end) l)
  | TString s => Pstr s
  | TInteger i => Pint i
  | TReal s => Preal s
  | TTrue => Ptrue
  | TFalse => Pfalse
  | TNull => Pnull
  | TBignum n b => Pbig n b
  end.
End tree_ind.

Fixpoint depth (t : tree) : nat :=
  match t with
  | TObject l => S (list_max (map (fun e => depth e.2) l))
  | TArray l => S (list_max (map depth l))
  | _ => 1
  end.

(** Members of an object. *)
Definition members (t : tree) : list (list byte * tree) :=
  match t with TObject l => l | _ => [] end.

Fixpoint assoc (k : list byte) (l : list (list byte * tree)) : option tree :=
  match l with
  | [] => None
  | (k', t) :: l => if decide (k = k') then Some t else assoc k l
  end.

Definition without (k : list byte) (l : list (list byte * tree)) : list (list byte * tree) :=
  filter (fun e => e.1 <> k) l.

(** Trees up to the order of members. *)
Inductive tree_eqv : tree -> tree -> Prop :=
| eqv_object l1 l2 l3 :
    l1 ≡ₚ l2 -> Forall2 (fun e2 e3 => e2.1 = e3.1 /\ tree_eqv e2.2 e3.2) l2 l3 ->
    tree_eqv (TObject l1) (TObject l3)
| eqv_array l1 l2 : Forall2 tree_eqv l1 l2 -> tree_eqv (TArray l1) (TArray l2)
| eqv_same t : tree_eqv t t.

(** ** The laws of jansson *)

(** [tree_of] is what a value is; an iterator stands before the rest of the members. *)
Class JanssonLaws (V I : Type) `{Jansson V I} := {
  tree_of : V -> tree;
  iter_rest : V -> option I -> list (list byte * V);
  typeof_law v : json_typeof v = tree_type (tree_of v);
  integer_law v i : tree_of v = TInteger i -> json_integer_value v = i;
  string_law v s : tree_of v = TString s -> json_string_value v = Some s;
  real_law v s : tree_of v = TReal s -> json_real_text v = s;
  bignum_law v n b : tree_of v = TBignum n b -> json_bignum_negative v = n /\ json_bignum_bytes v = b;
  array_law v l :
    tree_of v = TArray l ->
    json_array_size v = Z.of_nat (length l) /\
    forall i, 0 <= i < Z.of_nat (length l) ->
      exists v', json_array_get v i = Some v' /\ l !! Z.to_nat i = Some (tree_of v');
  object_law v l :
    tree_of v = TObject l ->
    json_object_size v = Z.of_nat (length l) /\
    map (fun e => (e.1, tree_of e.2)) (iter_rest v (json_object_iter v)) = l /\
    (forall k, option_map tree_of (json_object_get v k) = assoc k l);
  iter_law v it :
    match it with
    | None => iter_rest v it = []
    | Some i => iter_rest v it =
        (json_object_iter_key i, json_object_iter_value i) ::
          iter_rest v (json_object_iter_next v i)
    end;
  integer_new_law i v : json_integer i = Some v -> tree_of v = TInteger i;
  object_new_law v : json_object = Some v -> tree_of v = TObject [];
  array_new_law v : json_array = Some v -> tree_of v = TArray [];
  copy_law v v' : json_copy v = Some v' -> tree_eqv (tree_of v) (tree_of v');
  del_law v l k : tree_of v = TObject l -> tree_of (json_object_del v k) = TObject (without k l);
  append_law v l v' : tree_of v = TArray l -> tree_of (json_array_append v v') = TArray (l ++ [tree_of v']);
  remove_law v l : tree_of v = TArray l -> tree_of (json_array_remove v 0) = TArray (tail l);
  dump_load_law v chunks :
    (exists l, tree_of v = TObject l) -> json_dump v = Some chunks ->
    forall v', json_loadb (concat chunks) = Some v' -> tree_eqv (tree_of v) (tree_of v');
}.

(** ** A concrete library: values are trees *)

Inductive leaf := LBytes (s : list byte) | LInt (i : Z) | LBool (b : bool).

#[export] Instance leaf_eq_dec : EqDecision leaf.
Proof. solve_decision. Defined.

Definition leaf_sum (l : leaf) : list byte + (Z + bool) :=
  match l with LBytes s => inl s | LInt i => inr (inl i) | LBool b => inr (inr b) end.

#[export] Instance leaf_countable : Countable leaf.
Proof.
  refine (inj_countable' leaf_sum
    (fun x => match x with inl s => LBytes s | inr (inl i) => LInt i | inr (inr b) => LBool b end) _).
  by intros [].
Defined.

Fixpoint to_gen (t : tree) : gen_tree leaf :=
  match t with
  | TObject l => GenNode 0 (map (fun e => GenNode 0 [GenLeaf (LBytes e.1); to_gen e.2]) l)
  | TArray l => GenNode 1 (map to_gen l)
  | TString s => GenLeaf (LBytes s)
  | TInteger i => GenLeaf (LInt i)
  | TReal s => GenNode 2 [GenLeaf (LBytes s)]
  | TTrue => GenNode 3 []
  | TFalse => GenNode 4 []
  | TNull => GenNode 5 []
  | TBignum n b => GenNode 6 [GenLeaf (LBool n); GenLeaf (LBytes b)]
  end.

Fixpoint of_gen (g : gen_tree leaf) : tree :=
  match g with
  | GenLeaf (LBytes s) => TString s
  | GenLeaf (LInt i) => TInteger i
  | GenNode 0 l =>
      TObject (map (fun e => match e with
                             | GenNode _ [GenLeaf (LBytes k); t] => (k, of_gen t)
                             | _ => ([], TNull)
                             end) l)
  | GenNode 1 l => TArray (map of_gen l)
  | GenNode 2 [GenLeaf (LBytes s)] => TReal s
  | GenNode 3 _ => TTrue
  | GenNode 4 _ => TFalse
  | GenNode 6 [GenLeaf (LBool n); GenLeaf (LBytes b)] => TBignum n b
  | _ => TNull
  end.

Lemma of_to_gen t : of_gen (to_gen t) = t.
Proof.
  induction t as [l IH|l IH| | | | | | |] using tree_ind'; cbn [to_gen of_gen]; try done;
    f_equal; rewrite map_map; induction IH as [|e l He _ IHl]; cbn [map]; try done;
    rewrite IHl; f_equal; [|done]. rewrite He. by destruct e.
Qed.

#[export] Instance tree_eq_dec : EqDecision tree.
Proof.
  intros t1 t2. destruct (decide (to_gen t1 = to_gen t2)) as [E|E]; [left|right].
  - by rewrite <- (of_to_gen t1), E, of_to_gen.
  - congruence.
Defined.

#[export] Instance tree_countable : Countable tree.
Proof. refine (inj_countable' to_gen of_gen of_to_gen). Defined.

(** The text of a tree: the binary digits of its number, a byte each. *)
Fixpoint pos_text (p : positive) : list byte :=
  match p with
  | xH => []
  | xO p => x30 :: pos_text p
  | xI p => x31 :: pos_text p
  end.

Fixpoint text_pos (s : list byte) : positive :=
  match s with
  | [] => xH
  | b :: s => if Byte.eqb b x30 then xO (text_pos s) else xI (text_pos s)
  end.

Lemma text_pos_text p : text_pos (pos_text p) = p.
Proof. induction p as [p IH|p IH|]; simpl; by rewrite ?IH. Qed.

Definition tree_text (t : tree) : list byte := pos_text (encode t).

Definition tree_parse (s : list byte) : option tree := decode (text_pos s).

Lemma tree_parse_text t : tree_parse (tree_text t) = Some t.
Proof. unfold tree_parse, tree_text. by rewrite text_pos_text, decode_encode. Qed.

Definition tree_members (t : tree) : list (list byte * tree) :=
  match t with TObject l => l | _ => [] end.

Definition tree_items (t : tree) : list tree := match t with TArray l => l | _ => [] end.

(** An iterator is the member it stands at and those behind. *)
Definition first_member (l : list (list byte * tree))
  : option (list byte * tree * list (list byte * tree)) :=
  match l with [] => None | e :: l => Some (e, l) end.

#[export] Instance tree_jansson : Jansson tree (list byte * tree * list (list byte * tree)) := {|
  json_typeof := tree_type;
  json_integer_value t := match t with TInteger i => i | _ => 0 end;
  json_string_value t := match t with TString s => Some s | _ => None end;
  json_real_text t := match t with TReal s => s | _ => [] end;
  json_bignum_negative t := match t with TBignum n _ => n | _ => false end;
  json_bignum_bytes t := match t with TBignum _ b => b | _ => [] end;
  json_array_size t := Z.of_nat (length (tree_items t));
  json_array_get t i := if 0 <=? i then tree_items t !! Z.to_nat i else None;
  json_array_append t v := TArray (tree_items t ++ [v]);
  json_array_remove t i := TArray (delete (Z.to_nat i) (tree_items t));
  json_object_size t := Z.of_nat (length (tree_members t));
  json_object_get t k := assoc k (tree_members t);
  json_object_set_new t k v := (0, TObject (without k (tree_members t) ++ [(k, v)]));
  json_object_del t k := TObject (without k (tree_members t));
  json_object_iter t := first_member (tree_members t);
  json_object_iter_next _ i := first_member i.2;
  json_object_iter_key i := i.1.1;
  json_object_iter_value i := i.1.2;
  json_object := Some (TObject []);
  json_array := Some (TArray []);
  json_string s := Some (TString s);
  json_integer i := Some (TInteger i);
  json_copy t := Some t;
  json_loadb s := tree_parse s;
  json_dump t := Some [tree_text t];
|}.

#[export] Instance tree_laws : JanssonLaws tree (list byte * tree * list (list byte * tree)).
Proof.
  refine {| tree_of t := t;
            iter_rest _ it := match it with None => [] | Some i => i.1 :: i.2 end |}; cbn.
  - done.
  - by intros v i ->.
  - by intros v s ->.
  - by intros v s ->.
  - by intros v n b ->.
  - intros v l ->. cbn. split; [done|]. intros i Hi.
    destruct (lookup_lt_is_Some_2 l (Z.to_nat i)) as [x Hx]; [lia|].
    exists x. rewrite (proj2 (Z.leb_le 0 i)) by lia. done.
  - intros v l ->. cbn. split; [done|]. split.
    + destruct l as [|[k t] l]; cbn; [done|]. f_equal. rewrite <- (map_id l) at 2.
      apply map_ext. by intros [].
    + intros k. by destruct (assoc k l).
  - intros v [[[k t] l]|]; cbn; [|done]. by destruct l.
  - by intros i v [= <-].
  - by intros v [= <-].
  - by intros v [= <-].
  - intros v v' [= <-]. constructor.
  - by intros v l k ->.
  - by intros v l v' ->.
  - intros v l ->. by destruct l.
  - intros v chunks _ [= <-] v' Hv. cbn [concat] in Hv. rewrite app_nil_r, tree_parse_text in Hv.
    injection Hv as <-. constructor.
Defined.
