(* ===== verification/BsonCodec.v ===== *)
(** * Document values of the other codec (codec-bson/codec-bson.c)

    The second codec keeps values of its own: cells on the heap with a type, a union and a
    count of references.  The component's state is the heap of cells; the objects' tables are
    jansson's [hashtable_t], whose source is not part of the repository and which is a class of
    operations here, each with the members whose references it gives up.  The theorems say that
    the union is only ever read as what the type says, which calls are defined, and that
    nothing is ever freed, because the last release frees a cell twice.  The functions the file
    only declares and those that are not finished ([la_codec_dumps], the dumping of reals, arrays
    and objects) are left out. *)

From S2P Require Import Prelude StringUtils Revision ObjectStore Codec.
From Stdlib Require Import Init.Byte.

#[local] Open Scope c_scope.

(** ** Values *)

(** The three constants are static variables, the others cells [At n] of the heap. *)
Inductive ptr := the_true | the_false | the_null | At (n : Z).

#[export] Instance ptr_eq_dec : EqDecision ptr.
Proof. solve_decision. Defined.

(** The union: [R] is [double] and [T] the [hashtable_t] of an object, [None] when
    [hashtable_init] has failed and left it without buckets. *)
Inductive union (R T : Type) :=
| integer (i : Z)
| real (r : R)
| string (s : option (list byte))
| array (items : option (list (option ptr))) (count : Z)
| hash (t : option T).
Arguments integer {R T} i.
Arguments real {R T} r.
Arguments string {R T} s.
Arguments array {R T} items count.
Arguments hash {R T} t.

Record la_codec_value (R T : Type) := Value {
  type : la_codec_type;
  val : union R T;
  refcount : Z;
}.
Arguments Value {R T}.
Arguments type {R T}.
Arguments val {R T}.
Arguments refcount {R T}.

(** ** The tables of objects *)

(** [hashtable_set] and [hashtable_close] also give the values on which they call
    [HASH_DECREF], which the codec defines as [la_codec_decref].  [hashtable_init] and
    [hashtable_set] answer -1 when there is no memory for one of the blocks they ask for,
    [init_sizes] and [set_sizes]; what is given here is what they do otherwise. *)
Class Hashtable (T I : Type) := {
  sizeof_hashtable : Z;
  init_sizes : list Z;
  set_sizes : T -> list byte -> list Z;
  hashtable_init : T;
  hashtable_close : T -> list (option ptr);
  hashtable_get : T -> list byte -> option ptr;
  hashtable_set : T -> list byte -> option ptr -> T * list (option ptr);
  hashtable_iter : T -> option I;
  hashtable_iter_next : T -> I -> option I;
}.

(** Members in the order of the iterator; a key has one value, and setting it takes over the
    caller's reference and gives up the one to the value before. *)
Class HashtableLaws (T I : Type) `{Hashtable T I} := {
  entries : T -> list (list byte * option ptr);
  rest : T -> option I -> list (list byte * option ptr);
  size_law : 0 <= sizeof_hashtable < 2 ^ 62;
  init_law : entries hashtable_init = [];
  keys_law t : NoDup (map fst (entries t));
  close_law t : hashtable_close t ≡ₚ map snd (entries t);
  get_law t k : hashtable_get t k = None \/ (k, hashtable_get t k) ∈ entries t;
  set_law t k p : entries (hashtable_set t k p).1 ≡ₚ (k, p) :: filter (fun e => e.1 <> k) (entries t);
  set_releases t k p :
    (hashtable_set t k p).2 ≡ₚ map snd (filter (fun e => e.1 = k) (entries t));
  set_get t k p : hashtable_get (hashtable_set t k p).1 k = p;
  iter_start t : rest t (hashtable_iter t) = entries t;
  iter_step t i : exists e, rest t (Some i) = e :: rest t (hashtable_iter_next t i);
  iter_end t : rest t None = [];
}.

(** ** Calls *)

Section codec.
Context {R T I : Type} `{Hashtable T I}.
Abbreviation cell := (la_codec_value R T).
Abbreviation heap := (gmap Z cell).
Context (place : heap -> Z).

Definition set_refcount (n : Z) (v : cell) : cell := Value (type v) (val v) n.
Definition set_val (u : union R T) (v : cell) : cell := Value (type v) u (refcount v).

(** The initialisers of the constants. *)
Definition constant (t : la_codec_type) : cell := Value t (integer 0) SIZE_MAX.

Definition cell_at (h : heap) (p : ptr) : option cell :=
  match p with
  | the_true => Some (constant LA_CODEC_TRUE)
  | the_false => Some (constant LA_CODEC_FALSE)
  | the_null => Some (constant LA_CODEC_NULL)
  | At n => h !! n
  end.

Definition load (value : option ptr) : M heap cell :=
  match value with
  | None => undef NullDeref
  | Some p =>
      let* h := get_ext in
      match cell_at h p with Some v => ret v | None => undef UseAfterFree end
  end.

(** No call that is defined writes to a constant. *)
Definition store (p : ptr) (v : cell) : M heap unit :=
  match p with
  | At n => let* h := get_ext in put_ext (<[n := v]> h)
  | _ => undef WrongType
  end.

(** [free] of a cell. *)
Definition free_value (p : ptr) : M heap unit :=
  let* h := get_ext in
  match p with
  | At n => if decide (is_Some (h !! n)) then put_ext (delete n h) ;;; free else undef DoubleFree
  | _ => undef WrongType
  end.

Definition la_codec_typeof (value : option ptr) : M heap la_codec_type :=
  let* v := load value in
  ret (type v).

Definition has_type (t : la_codec_type) (value : option ptr) : M heap bool :=
  let* t' := la_codec_typeof value in
  ret (bool_decide (t' = t)).

Definition la_codec_is_object : option ptr -> M heap bool := has_type LA_CODEC_OBJECT.
Definition la_codec_is_array : option ptr -> M heap bool := has_type LA_CODEC_ARRAY.
Definition la_codec_is_string : option ptr -> M heap bool := has_type LA_CODEC_STRING.
Definition la_codec_is_integer : option ptr -> M heap bool := has_type LA_CODEC_INTEGER.
Definition la_codec_is_real : option ptr -> M heap bool := has_type LA_CODEC_REAL.
Definition la_codec_is_true : option ptr -> M heap bool := has_type LA_CODEC_TRUE.
Definition la_codec_is_false : option ptr -> M heap bool := has_type LA_CODEC_FALSE.
Definition la_codec_is_null : option ptr -> M heap bool := has_type LA_CODEC_NULL.

Definition la_codec_is_number (value : option ptr) : M heap bool :=
  let* b := la_codec_is_integer value in
  if b then ret true else la_codec_is_real value.

Definition la_codec_is_boolean (value : option ptr) : M heap bool :=
  let* b := la_codec_is_true value in
  if b then ret true else la_codec_is_false value.

(** Whether there is memory for the blocks a table asks for. *)
Fixpoint obtains (sizes : list Z) : M heap bool :=
  match sizes with
  | [] => ret true
  | n :: sizes =>
      let* blk := malloc n in
      match blk with Some _ => obtains sizes | None => ret false end
  end.

(** *** References *)

Definition la_codec_incref (value : option ptr) : M heap (option ptr) :=
  match value with
  | None => ret None
  | Some p =>
      let* v := load (Some p) in
      (if refcount v =? SIZE_MAX then ret tt
       else store p (set_refcount (u64 (refcount v + 1)) v)) ;;;
      ret (Some p)
  end.

(** The items from number [i] on, of the array as it is at each turn. *)
Fixpoint release_items (decref : option ptr -> M heap unit) (p : ptr) (fuel : nat) (i : Z)
  : M heap unit :=
  let* v := load (Some p) in
  match val v with
  | array items count =>
      if i <? count then
        match items, fuel with
        | None, _ => undef NullDeref
        | _, O => undef Diverges
        | Some l, S fuel =>
            match l !! Z.to_nat i with
            | None => undef OutOfBounds
            | Some item => decref item ;;; release_items decref p fuel (i + 1)
            end
        end
      else ret tt
  | _ => undef WrongType
  end.

Fixpoint each (f : option ptr -> M heap unit) (l : list (option ptr)) : M heap unit :=
  match l with [] => ret tt | p :: l => f p ;;; each f l end.

Definition la_codec_delete (decref : option ptr -> M heap unit) (p : ptr) : M heap unit :=
  let* v := load (Some p) in
  match type v with
  | LA_CODEC_OBJECT =>
      match val v with
      | hash (Some t) => each decref (hashtable_close t) ;;; free_value p
      | hash None => undef Uninitialised
      | _ => undef WrongType
      end
  | LA_CODEC_ARRAY =>
      match val v with
      | array items count =>
          release_items decref p (Z.to_nat count) 0 ;;;
          (match items with Some _ => free | None => ret tt end) ;;;
          free_value p
      | _ => undef WrongType
      end
  | LA_CODEC_STRING =>
      match val v with
      | string s =>
          (match s with Some _ => free | None => ret tt end) ;;;
          free_value p
      | _ => undef WrongType
      end
  | LA_CODEC_INTEGER | LA_CODEC_REAL => free_value p
  | LA_CODEC_TRUE | LA_CODEC_FALSE | LA_CODEC_NULL | LA_CODEC_BIGNUM => ret tt
  end ;;;
  free_value p.

(** [fuel] bounds the nesting of deletions. *)
Fixpoint la_codec_decref (fuel : nat) (value : option ptr) : M heap unit :=
  match value with
  | None => ret tt
  | Some p =>
      let* v := load (Some p) in
      if refcount v =? SIZE_MAX then ret tt else
      let n := u64 (refcount v - 1) in
      store p (set_refcount n v) ;;;
      if n =? 0 then
        match fuel with
        | O => undef Diverges
        | S fuel => la_codec_delete (la_codec_decref fuel) p
        end
      else ret tt
  end.

(** *** New values *)

(** The start of every call that makes a value: [malloc] and [memset]. *)
Definition new_value : M heap (option ptr) :=
  let* blk := malloc (16 + Z.max 16 sizeof_hashtable) in
  match blk with
  | None => ret None
  | Some _ =>
      let* h := get_ext in
      let p := At (place h) in
      store p (Value LA_CODEC_OBJECT (integer 0) 0) ;;;
      ret (Some p)
  end.

Definition make (t : la_codec_type) (u : union R T) : M heap (option ptr) :=
  let* value := new_value in
  match value with
  | None => ret None
  | Some p => store p (Value t u 0) ;;; la_codec_incref (Some p)
  end.

(** What [hashtable_init] answers is not looked at. *)
Definition la_codec_object : M heap (option ptr) :=
  let* value := new_value in
  match value with
  | None => ret None
  | Some p =>
      let* ok := obtains init_sizes in
      store p (Value LA_CODEC_OBJECT (hash (if ok then Some hashtable_init else None)) 0) ;;;
      la_codec_incref (Some p)
  end.

Definition la_codec_array : M heap (option ptr) := make LA_CODEC_ARRAY (array None 0).
Definition la_codec_integer (i : Z) : M heap (option ptr) := make LA_CODEC_INTEGER (integer (s64 i)).
Definition la_codec_real (d : R) : M heap (option ptr) := make LA_CODEC_REAL (real d).

Definition la_codec_string (str : option (list byte)) : M heap (option ptr) :=
  let* value := new_value in
  match value with
  | None => ret None
  | Some p =>
      match str with
      | Some s =>
          let* copy := strdup s in
          match copy with
          | Some c => store p (Value LA_CODEC_STRING (string (Some c)) 0) ;;; la_codec_incref (Some p)
          | None => free_value p ;;; ret None
          end
      | None => store p (Value LA_CODEC_STRING (string None) 0) ;;; la_codec_incref (Some p)
      end
  end.

Definition la_codec_string_nocheck (value : option (list byte)) : M heap (option ptr) :=
  la_codec_string value.

Definition la_codec_true : M heap (option ptr) := ret (Some the_true).
Definition la_codec_false : M heap (option ptr) := ret (Some the_false).
Definition la_codec_null : M heap (option ptr) := ret (Some the_null).

(** *** Objects *)

Fixpoint count_members (t : T) (fuel : nat) (it : option I) (i : Z) : outcome Z :=
  match it, fuel with
  | None, _ => Ret i
  | Some _, O => Undef Diverges
  | Some it, S fuel =>
      let+ i := add_int i 1 in
      count_members t fuel (hashtable_iter_next t it) i
  end.

Definition table (p : option ptr) : M heap T :=
  let* v := load p in
  match val v with
  | hash (Some t) => ret t
  | hash None => undef Uninitialised
  | _ => undef WrongType
  end.

Definition la_codec_object_size (fuel : nat) (object : option ptr) : M heap Z :=
  let* b := la_codec_is_object object in
  if b then
    let* t := table object in
    let* n := lift (count_members t fuel (hashtable_iter t) 0) in
    ret (u64 n)
  else ret (u64 (-1)).

Definition la_codec_object_get (object : option ptr) (key : list byte) : M heap (option ptr) :=
  let* b := la_codec_is_object object in
  if b then let* t := table object in ret (hashtable_get t key) else ret None.

(** [hashtable_set] of the table of an object; what it answers is not looked at: without memory
    the table stays as it is, and nobody has the reference to the value. *)
Definition set_member (fuel : nat) (object : option ptr) (key : list byte) (value : option ptr)
  : M heap unit :=
  let* t := table object in
  let* v := load object in
  match object with
  | None => undef NullDeref
  | Some p =>
      let* ok := obtains (set_sizes t key) in
      if ok then
        store p (set_val (hash (Some (hashtable_set t key value).1)) v) ;;;
        each (la_codec_decref fuel) (hashtable_set t key value).2
      else ret tt
  end.

Definition la_codec_object_set_new (fuel : nat) (object : option ptr) (key : list byte)
  (value : option ptr) : M heap Z :=
  let* b := la_codec_is_object object in
  (if b then set_member fuel object key value else ret tt) ;;;
  ret (-1).

Definition la_codec_object_set_new_nocheck (fuel : nat) (object : option ptr) (key : list byte)
  (value : option ptr) : M heap Z :=
  set_member fuel object key value ;;;
  ret 0.

(** The address of the value, not of its table, is given to [hashtable_del]. *)
Definition la_codec_object_del (object : option ptr) (key : list byte) : M heap Z :=
  let* b := la_codec_is_object object in
  if b then undef WrongType else ret (-1).

(** *** Output *)

(** The functions that dump ignore what the callback answers. *)
Definition emit {S} (callback : S -> list byte -> M heap (Z * S)) (data : S) (b : list byte)
  : M heap S :=
  let* '(_, data) := callback data b in
  ret data.

Fixpoint emits {S} (callback : S -> list byte -> M heap (Z * S)) (data : S)
  (chunks : list (list byte)) : M heap S :=
  match chunks with
  | [] => ret data
  | b :: chunks => let* data := emit callback data b in emits callback data chunks
  end.

(** The tags of the elements that are written. *)
Definition BSON_DOUBLE : byte := x01.
Definition BSON_STRING : byte := x02.
Definition BSON_BOOLEAN : byte := x08.
Definition BSON_NULL : byte := x0a.
Definition BSON_INTEGER : byte := x10.

(** The case of a little-endian machine; the argument is an [int]. *)
Definition itole (i : Z) : Z := s32 i.

(** The bytes of an [int] in memory. *)
Definition int_bytes (i : Z) : list byte := le_bytes 4 (u32 i).

Definition do_dump {S} (key : list byte) (value : option ptr)
  (callback : S -> list byte -> M heap (Z * S)) (data : S) : M heap S :=
  let* v := load value in
  match type v with
  | LA_CODEC_NULL => emits callback data [[BSON_NULL]; key ++ [NUL]]
  | LA_CODEC_TRUE | LA_CODEC_FALSE =>
      emits callback data [[BSON_BOOLEAN]; key ++ [NUL];
        [if decide (type v = LA_CODEC_TRUE) then x01 else x00]]
  | LA_CODEC_REAL => emits callback data [[BSON_DOUBLE]; key ++ [NUL]]
  | LA_CODEC_INTEGER =>
      match val v with
      | integer i => emits callback data [[BSON_INTEGER]; key ++ [NUL]; int_bytes (itole i)]
      | _ => undef WrongType
      end
  | LA_CODEC_STRING =>
      match val v with
      | string (Some s) =>
          emits callback data [[BSON_STRING]; key ++ [NUL];
            int_bytes (itole (Z.of_nat (length s))); s; [NUL]]
      | string None => undef NullDeref
      | _ => undef WrongType
      end
  | LA_CODEC_ARRAY | LA_CODEC_OBJECT | LA_CODEC_BIGNUM => ret data
  end.

(** For an object the loop runs over a variable without a value; for an array the function ends
    without a result. *)
Definition la_codec_dump_callback {S} (value : option ptr)
  (callback : S -> list byte -> M heap (Z * S)) (data : S) : M heap (Z * S) :=
  let* b := la_codec_is_object value in
  if b then undef Uninitialised else
  let* b := la_codec_is_array value in
  if b then undef Uninitialised else ret (-1, data).

(** *** Conversion *)

(** The two functions that add to arrays and objects are only declared. *)
Section from_json.
Context {V J : Type} `{Jansson V J}.
Context (json_real_value : V -> R).
Context (la_codec_array_append_new : option ptr -> option ptr -> M heap Z).
Context (la_codec_object_set : option ptr -> list byte -> option ptr -> M heap Z).

Fixpoint convert_items (from_json : V -> M heap (option ptr)) (json : V) (a : option ptr)
  (fuel : nat) (i : Z) : M heap unit :=
  match fuel with
  | O => ret tt
  | S fuel =>
      match json_array_get json i with
      | None => undef NullDeref
      | Some item =>
          let* p := from_json item in
          la_codec_array_append_new a p ;;;
          convert_items from_json json a fuel (i + 1)
      end
  end.

Fixpoint convert_members (from_json : V -> M heap (option ptr)) (json : V) (object : option ptr)
  (fuel : nat) (it : option J) : M heap unit :=
  match it, fuel with
  | None, _ => ret tt
  | Some _, O => undef Diverges
  | Some it, S fuel =>
      let* p := from_json (json_object_iter_value it) in
      la_codec_object_set object (json_object_iter_key it) p ;;;
      convert_members from_json json object fuel (json_object_iter_next json it)
  end.

(** Nothing is returned for a big number. *)
Fixpoint la_codec_from_json (fuel : nat) (json : V) : M heap (option ptr) :=
  match json_typeof json, fuel with
  | JSON_NULL, _ => la_codec_null
  | JSON_TRUE, _ => la_codec_true
  | JSON_FALSE, _ => la_codec_false
  | JSON_STRING, _ => la_codec_string (json_string_value json)
  | JSON_INTEGER, _ => la_codec_integer (json_integer_value json)
  | JSON_REAL, _ => la_codec_real (json_real_value json)
  | JSON_ARRAY, S fuel =>
      let* a := la_codec_array in
      convert_items (la_codec_from_json fuel) json a (Z.to_nat (s32 (json_array_size json))) 0 ;;;
      ret a
  | JSON_OBJECT, S fuel =>
      let* object := la_codec_object in
      convert_members (la_codec_from_json fuel) json object fuel (json_object_iter json) ;;;
      ret object
  | JSON_BIGNUM, _ => undef Uninitialised
  | _, O => undef Diverges
  end.
End from_json.

(** ** Programs *)

Inductive op :=
| NewObject | NewArray | NewInteger (i : Z) | NewReal (r : R) | NewString (s : option (list byte))
| True_ | False_ | Null_
| Typeof (p : option ptr) | IsNumber (p : option ptr) | IsBoolean (p : option ptr)
| Incref (p : option ptr) | Decref (p : option ptr)
| ObjectSize (p : option ptr) | ObjectGet (p : option ptr) (key : list byte)
| ObjectSetNew (p : option ptr) (key : list byte) (value : option ptr)
| ObjectSetNewNocheck (p : option ptr) (key : list byte) (value : option ptr)
| ObjectDel (p : option ptr) (key : list byte)
| Dump (p : option ptr) (key : list byte).

Inductive result :=
| RPtr (p : option ptr) | RInt (z : Z) | RType (t : la_codec_type) | RBool (b : bool)
| RBytes (b : list byte) | RDone.

Definition returning {A} (f : A -> result) (m : M heap A) : M heap result :=
  let* a := m in
  ret (f a).

(** A callback that collects what it is given. *)
Definition collect (data : list byte) (b : list byte) : M heap (Z * list byte) :=
  ret (0, data ++ b).

Definition run (fuel : nat) (o : op) : M heap result :=
  match o with
  | NewObject => returning RPtr la_codec_object
  | NewArray => returning RPtr la_codec_array
  | NewInteger i => returning RPtr (la_codec_integer i)
  | NewReal r => returning RPtr (la_codec_real r)
  | NewString s => returning RPtr (la_codec_string s)
  | True_ => returning RPtr la_codec_true
  | False_ => returning RPtr la_codec_false
  | Null_ => returning RPtr la_codec_null
  | Typeof p => returning RType (la_codec_typeof p)
  | IsNumber p => returning RBool (la_codec_is_number p)
  | IsBoolean p => returning RBool (la_codec_is_boolean p)
  | Incref p => returning RPtr (la_codec_incref p)
  | Decref p => returning (fun _ => RDone) (la_codec_decref fuel p)
  | ObjectSize p => returning RInt (la_codec_object_size fuel p)
  | ObjectGet p key => returning RPtr (la_codec_object_get p key)
  | ObjectSetNew p key value => returning RInt (la_codec_object_set_new fuel p key value)
  | ObjectSetNewNocheck p key value =>
      returning RInt (la_codec_object_set_new_nocheck fuel p key value)
  | ObjectDel p key => returning RInt (la_codec_object_del p key)
  | Dump p key => returning RBytes (do_dump key p collect [])
  end.

(** ** What a sound heap is *)

(** The member of the union that is set is the one of the type. *)
Definition tagged (v : cell) : Prop :=
  match type v, val v with
  | LA_CODEC_OBJECT, hash _ | LA_CODEC_STRING, string _
  | LA_CODEC_INTEGER, integer _ | LA_CODEC_REAL, real _ => True
  | LA_CODEC_ARRAY, array items count => count = Z.of_nat (length (default [] items))
  | _, _ => False
  end.

Definition known (h : heap) (p : option ptr) : Prop :=
  match p with Some (At n) => is_Some (h !! n) | _ => True end.

Definition given (h : heap) (p : option ptr) : Prop := p <> None /\ known h p.

(** *** A heap in use *)

Context `{!HashtableLaws T I}.

Definition children (v : cell) : list (option ptr) :=
  match val v with
  | hash (Some t) => map snd (entries t)
  | array items _ => default [] items
  | _ => []
  end.

Record sound_value (h : heap) (v : cell) : Prop := {
  sv_tagged : tagged v;
  sv_count : 1 <= refcount v <= SIZE_MAX;
  sv_children : Forall (known h) (children v);
}.

Definition sound (h : heap) : Prop := forall n v, h !! n = Some v -> sound_value h v.

(** Values stay, with their type; only the members of objects change. *)
Definition kept (h h' : heap) : Prop :=
  forall n v, h !! n = Some v -> exists v', h' !! n = Some v' /\ type v' = type v /\
    (type v <> LA_CODEC_OBJECT -> val v' = val v).

Definition known_result (h : heap) (r : result) : Prop :=
  match r with RPtr p => known h p | _ => True end.

(** The table of an object. *)
Definition object_table (h : heap) (p : option ptr) : option T :=
  match option_bind _ _ (cell_at h) p with
  | Some (Value LA_CODEC_OBJECT (hash t) _) => t
  | _ => None
  end.

(** An object whose table could not be made. *)
Definition no_table (h : heap) (p : option ptr) : Prop :=
  exists c, option_bind _ _ (cell_at h) p = Some (Value LA_CODEC_OBJECT (hash None) c).

(** There is memory for setting the member. *)
Definition granted (sizes : list Z) (w : world heap) : bool :=
  match obtains sizes w with Ret (b, _) => b | Undef _ => false end.

(** The reference is the only one. *)
Definition last_ref (h : heap) (p : option ptr) : Prop :=
  match p with
  | Some (At n) => exists v, h !! n = Some v /\ refcount v = 1
  | _ => False
  end.

(** Setting a member, for which there is memory, gives up the only reference to the value
    before. *)
Definition last_member (w : world heap) (p : option ptr) (key : list byte) : Prop :=
  exists t q, object_table (w_ext w) p = Some t /\ granted (set_sizes t key) w = true /\
    (key, q) ∈ entries t /\ last_ref (w_ext w) q.

(** What a caller may give. *)
Definition args_known (h : heap) (o : op) : Prop :=
  match o with
  | NewObject | NewArray | NewInteger _ | NewReal _ | True_ | False_ | Null_ => True
  | NewString None => True
  | NewString (Some s) => cstring s /\ Z.of_nat (length s) < PTRDIFF_MAX
  | Incref p | Decref p => known h p
  | Typeof p | IsNumber p | IsBoolean p | ObjectSize p | ObjectGet p _ | ObjectDel p _
  | Dump p _ => given h p
  | ObjectSetNew p _ value | ObjectSetNewNocheck p _ value => given h p /\ known h value
  end.

(** The calls that are not defined. *)
Definition breaks (w : world heap) (o : op) : Prop :=
  let h := w_ext w in
  match o with
  | Decref p => last_ref h p
  | ObjectSize p =>
      no_table h p \/ exists t, object_table h p = Some t /\ INT_MAX < Z.of_nat (length (entries t))
  | ObjectGet p _ => no_table h p
  | ObjectSetNew p key _ => no_table h p \/ last_member w p key
  | ObjectSetNewNocheck p key _ => object_table h p = None \/ last_member w p key
  | ObjectDel p _ => no_table h p \/ object_table h p <> None
  | Dump p _ => exists n, option_bind _ _ (cell_at h) p = Some (Value LA_CODEC_STRING (string None) n)
  | _ => False
  end.

(** Deletions nest no deeper than there are values, and tables have fewer members than [fuel]. *)
Definition enough (fuel : nat) (h : heap) : Prop :=
  (size h <= fuel)%nat /\
  forall n v t, h !! n = Some v -> val v = hash (Some t) -> (length (entries t) <= fuel)%nat.

Inductive reachable : world heap -> Prop :=
| reach_start w : w_ext w = ∅ -> reachable w
| reach_run w fuel o r w' :
    reachable w -> args_known (w_ext w) o -> enough fuel (w_ext w) ->
    run fuel o w = Ret (r, w') -> reachable w'.

(** ** Lemmas *)

Hypothesis place_fresh : forall h, h !! place h = None.

(** A world with another heap. *)
Definition with_heap (w : world heap) (h : heap) : world heap :=
  World (w_alloc w) (w_junk w) (w_live w) (w_errno w) h.

Lemma with_heap_same w : with_heap w (w_ext w) = w.
Proof. by destruct w. Qed.

Lemma load_at w p v : cell_at (w_ext w) p = Some v -> load (Some p) w = Ret (v, w).
Proof. intros E. unfold load, bind, get_ext. by rewrite E. Qed.

Lemma load_bind {A} (k : cell -> M heap A) w p v :
  cell_at (w_ext w) p = Some v -> bind (load (Some p)) k w = k v w.
Proof. intros E. unfold bind at 1. by rewrite (load_at _ _ _ E). Qed.

Lemma wp_load w p v (Q : cell -> world heap -> Prop) :
  cell_at (w_ext w) p = Some v -> Q v w -> wp (load (Some p)) w Q.
Proof. intros E HQ. by apply (wp_eq _ _ _ _ _ (load_at _ _ _ E)). Qed.

Lemma known_cell h p : known h (Some p) -> exists v, cell_at h p = Some v.
Proof. destruct p; simpl; [by eauto..|]. by intros [v ->]; eauto. Qed.

Lemma given_cell h p : given h p -> exists q v, p = Some q /\ cell_at h q = Some v.
Proof. intros [N K]. destruct p as [q|]; [|done]. destruct (known_cell h q K) as [v E]. eauto. Qed.

(** *** The last reference *)

(** A run after which the cell is gone. *)
Definition frees (p : ptr) (m : M heap unit) : Prop :=
  forall w, match m w with Ret (_, w') => cell_at (w_ext w') p = None | Undef _ => True end.

Lemma frees_bind {A} p (m : M heap A) k : frees p k -> frees p (m ;;; k).
Proof. intros F w. unfold bind. destruct (m w) as [[a w']|]; [apply F|done]. Qed.

Lemma frees_free p : frees p (free_value p).
Proof.
  intros w. unfold free_value, bind, get_ext. destruct p as [| | |n]; try done.
  destruct (decide _); [|done]. apply lookup_delete_eq.
Qed.

(** Freeing a cell twice is not defined, whatever happens before. *)
Lemma double_free m p w : frees p m -> exists u, (m ;;; free_value p) w = Undef u.
Proof.
  intros F. specialize (F w). unfold bind. destruct (m w) as [[[] w1]|u]; [|by eauto].
  unfold free_value, bind, get_ext. destruct p as [| | |n]; try (by eauto).
  simpl in F. rewrite F. destruct (decide _) as [D|D]; [by destruct D|]. by eauto.
Qed.

Lemma delete_undefined decref n v w :
  w_ext w !! n = Some v -> tagged v -> exists u, la_codec_delete decref (At n) w = Undef u.
Proof.
  intros E Tg. unfold la_codec_delete. rewrite (load_bind _ w (At n) v E).
  unfold tagged in Tg. destruct (type v), (val v) as [| | | |[t|]]; try done; try (by eexists);
    apply double_free; repeat apply frees_bind; apply frees_free.
Qed.

Definition lowered (v : cell) : cell := set_refcount (u64 (refcount v - 1)) v.

(** What giving up a reference that is not the last one does. *)
Definition lower (h : heap) (p : option ptr) : heap :=
  match p with
  | Some (At n) =>
      match h !! n with
      | Some v => if refcount v =? SIZE_MAX then h else <[n := lowered v]> h
      | None => h
      end
  | _ => h
  end.

(** Counts are numbers of 64 bits. *)
Definition counted (h : heap) : Prop :=
  forall n v, h !! n = Some v -> tagged v /\ 0 <= refcount v <= SIZE_MAX.

Lemma sound_counted h : sound h -> counted h.
Proof. intros S n v E. destruct (S n v E) as [? ? _]. split; [done|lia]. Qed.

Lemma lowered_zero (v : cell) : 0 <= refcount v <= SIZE_MAX -> refcount v <> 1 -> u64 (refcount v - 1) <> 0.
Proof.
  intros B N. destruct (decide (refcount v = 0)) as [->|Z0]; [done|].
  rewrite u64_small by lia. lia.
Qed.

(** Giving up a reference: not defined for the last one, a smaller count otherwise. *)
Lemma decref_other fuel w p :
  counted (w_ext w) -> known (w_ext w) p -> ~ last_ref (w_ext w) p ->
  la_codec_decref fuel p w = Ret (tt, with_heap w (lower (w_ext w) p)).
Proof.
  intros C K N. destruct p as [p|]; [|destruct fuel; simpl; by rewrite with_heap_same].
  destruct (known_cell _ _ K) as [v E].
  assert (D : forall f, la_codec_decref f (Some p) w =
    (if refcount v =? SIZE_MAX then ret tt else
     store p (lowered v) ;;;
     if u64 (refcount v - 1) =? 0 then
       match f with O => undef Diverges | S f => la_codec_delete (la_codec_decref f) p end
     else ret tt) w).
  { intros f. destruct f; cbn [la_codec_decref]; by rewrite (load_bind _ _ _ _ E). }
  rewrite D. destruct p as [| | |n]; [injection E as <-; simpl; by rewrite with_heap_same..|].
  cbn [cell_at] in E. cbn [lower]. rewrite E.
  destruct (Z.eqb_spec (refcount v) SIZE_MAX); [by rewrite with_heap_same|].
  destruct (C n v E) as [_ B]. pose proof (lowered_zero v B) as L.
  rewrite (proj2 (Z.eqb_neq _ _)) by (apply L; intros R1; apply N; by exists v). done.
Qed.

Lemma decref_last fuel w p :
  counted (w_ext w) -> last_ref (w_ext w) p ->
  exists u, la_codec_decref fuel p w = Undef u.
Proof.
  intros C L. destruct p as [[| | |n]|]; try done. destruct L as (v & E & R1).
  destruct (C n v E) as [Tg _].
  destruct fuel as [|fuel]; cbn [la_codec_decref]; rewrite (load_bind _ w (At n) v E), R1.
  - by exists Diverges.
  - change (1 =? SIZE_MAX) with false. change (u64 (1 - 1) =? 0) with true. cbv iota.
    apply (delete_undefined _ n (set_refcount (u64 (1 - 1)) v) (with_heap w _)); [apply lookup_insert_eq|].
    exact Tg.
Qed.

(** *** Deletions come to an end *)

(** Values that are still to be deleted when all references go. *)
Definition living (h : heap) : heap :=
  filter (fun e : Z * cell => 1 <= refcount e.2 < SIZE_MAX) h.

Definition alive (h : heap) : nat := size (living h).

(** [m] keeps [P] and does not run out of fuel. *)
Definition ends (P : heap -> Prop) (m : M heap unit) : Prop :=
  forall w, P (w_ext w) ->
    match m w with Ret (_, w') => P (w_ext w') | Undef u => u <> Diverges end.

Lemma bson_ends_bind P m k : ends P m -> ends P k -> ends P (m ;;; k).
Proof.
  intros Em Ek w Pw. unfold bind. specialize (Em w Pw). destruct (m w) as [[[] w']|u]; [|done].
  by apply Ek.
Qed.

Lemma bson_ends_ret P : ends P (ret tt).
Proof. by intros w Pw. Qed.

Lemma bson_ends_undef P u : u <> Diverges -> ends P (undef u).
Proof. by intros N w Pw. Qed.

Lemma bson_ends_free P : ends P free.
Proof. by intros w Pw. Qed.

Lemma ends_each P f l : (forall p, ends P (f p)) -> ends P (each f l).
Proof. intros F. induction l as [|p l IH]; simpl; [apply bson_ends_ret|]. by apply bson_ends_bind. Qed.

Lemma living_lookup h n v : h !! n = Some v -> 1 <= refcount v < SIZE_MAX -> living h !! n = Some v.
Proof. intros E B. by apply map_lookup_filter_Some_2. Qed.

Lemma alive_insert h n v v' :
  h !! n = Some v -> (1 <= refcount v' < SIZE_MAX -> 1 <= refcount v < SIZE_MAX) ->
  (alive (<[n := v']> h) <= alive h)%nat.
Proof.
  intros E R1. unfold alive. destruct (decide (1 <= refcount v' < SIZE_MAX)) as [In|Out].
  - pose proof (living_lookup h n v E (R1 In)) as F. unfold living in *.
    rewrite map_filter_insert_True by done. rewrite map_size_insert_Some by eauto. lia.
  - unfold living. rewrite map_filter_insert_False, map_filter_delete, map_size_delete by done.
    case_match; unfold id; lia.
Qed.

Lemma alive_last h n v v' :
  h !! n = Some v -> refcount v = 1 -> refcount v' = 0 -> (alive (<[n := v']> h) < alive h)%nat.
Proof.
  intros E R1 R0. assert (F : living h !! n = Some v).
  { apply living_lookup; [done|]. rewrite R1. done. }
  assert (N : (size (living h) <> 0)%nat) by (intros Z0; apply map_size_empty_inv in Z0; by rewrite Z0 in F).
  unfold alive, living in *. rewrite map_filter_insert_False, map_filter_delete, map_size_delete
    by (simpl; lia). rewrite F. lia.
Qed.

Lemma alive_delete h n : (alive (delete n h) <= alive h)%nat.
Proof.
  unfold alive, living. rewrite map_filter_delete, map_size_delete. case_match; unfold id; lia.
Qed.

(** At most [k] values to delete; the union of the cell [n] is [u] as long as it is there. *)
Record bounded (k : nat) (n : Z) (u : union R T) (h : heap) : Prop := {
  bo_counted : counted h;
  bo_alive : (alive h <= k)%nat;
  bo_val v : h !! n = Some v -> tagged v /\ val v = u;
}.

Lemma ends_free_value k n u p : ends (bounded k n u) (free_value p).
Proof.
  intros w [C A V]. unfold free_value, bind, get_ext. destruct p as [| | |m]; try done.
  destruct (decide _); [|done]. split; simpl.
  - intros j v E. apply lookup_delete_Some in E as [_ E]. by apply (C j).
  - pose proof (alive_delete (w_ext w) m). lia.
  - intros v E. apply lookup_delete_Some in E as [_ E]. by apply V.
Qed.

Lemma ends_load k n u (f : cell -> M heap unit) :
  (forall v, tagged v -> val v = u -> ends (bounded k n u) (f v)) ->
  ends (bounded k n u) (let* v := load (Some (At n)) in f v).
Proof.
  intros F w P. destruct (w_ext w !! n) as [v|] eqn:E.
  - rewrite (load_bind _ w (At n) v E). destruct (bo_val _ _ _ _ P v E) as [Tg Vu].
    by apply (F v Tg Vu w).
  - unfold bind, load, bind, get_ext. simpl. by rewrite E.
Qed.

Lemma ends_release k n l count decref :
  count = Z.of_nat (length (default [] l)) ->
  (forall p, ends (bounded k n (array l count)) (decref p)) ->
  forall fuel i, 0 <= i -> count - i <= Z.of_nat fuel ->
  ends (bounded k n (array l count)) (release_items decref (At n) fuel i).
Proof.
  intros Cn D. induction fuel as [|fuel IH]; intros i I0 F; cbn [release_items];
    apply ends_load; intros v _ ->; (destruct (Z.ltb_spec i count); [|apply bson_ends_ret]).
  - lia.
  - destruct l as [l|]; [|by apply bson_ends_undef].
    destruct (l !! Z.to_nat i) as [item|] eqn:El; [|by apply bson_ends_undef].
    apply bson_ends_bind; [apply D|]. apply IH; lia.
Qed.

Lemma ends_delete k n u decref :
  (forall p, ends (bounded k n u) (decref p)) ->
  ends (bounded k n u) (la_codec_delete decref (At n)).
Proof.
  intros D. unfold la_codec_delete. apply ends_load. intros v Tg Vu. unfold tagged in Tg.
  rewrite Vu in *.
  destruct (type v), u as [i|r|s|l count|[t|]]; try done; repeat apply bson_ends_bind;
    try apply ends_free_value; try (by apply bson_ends_undef); try (by apply ends_each); try (by case_match; [apply bson_ends_free|apply bson_ends_ret]).
  apply ends_release; [done..|lia].
Qed.

Lemma bounded_insert k n u h m v :
  bounded k n u h -> h !! m = Some v -> (alive (<[m := lowered v]> h) <= k)%nat ->
  bounded k n u (<[m := lowered v]> h).
Proof.
  intros [C _ V] E A. split; [|done|].
  - intros j v' Ej. apply lookup_insert_Some in Ej as [[-> <-]|[_ Ej]]; [|by apply (C j)].
    destruct (C j v E) as [Tg _]. split; [exact Tg|].
    change (0 <= u64 (refcount v - 1) <= SIZE_MAX). unfold u64, SIZE_MAX.
    pose proof (Z.mod_pos_bound (refcount v - 1) (2 ^ 64)). lia.
  - intros v' Ej. apply lookup_insert_Some in Ej as [[-> <-]|[_ Ej]]; [by apply (V v)|by apply V].
Qed.

Lemma bounded_lower k n u h p : bounded k n u h -> ~ last_ref h p -> bounded k n u (lower h p).
Proof.
  intros B N. unfold lower. destruct p as [[| | |m]|]; try done.
  destruct (h !! m) as [v|] eqn:E; [|done]. destruct (Z.eqb_spec (refcount v) SIZE_MAX); [done|].
  apply bounded_insert; [done..|]. destruct (bo_counted _ _ _ _ B m v E) as [_ Bv].
  assert (refcount v <> 1) by (intros R1; apply N; by exists v).
  pose proof (alive_insert h m v (lowered v) E). pose proof (bo_alive _ _ _ _ B).
  enough (1 <= refcount (lowered v) < SIZE_MAX -> 1 <= refcount v < SIZE_MAX) by lia.
  intros Bl. destruct (decide (refcount v = 0)) as [R0|]; [|lia].
  unfold lowered in Bl. rewrite R0 in Bl. vm_compute in Bl. naive_solver.
Qed.

Lemma last_ref_dec h p : {last_ref h p} + {~ last_ref h p}.
Proof.
  destruct p as [[| | |n]|]; try (right; by intros []). simpl.
  destruct (h !! n) as [v|].
  - destruct (decide (refcount v = 1)); [by left; exists v|right; naive_solver].
  - right. naive_solver.
Qed.

(** The nesting of deletions is at most the number of values that can be deleted. *)
Lemma decref_ends fuel : forall k n u p,
  (k <= fuel)%nat -> ends (bounded k n u) (la_codec_decref fuel p).
Proof.
  induction fuel as [|fuel IH]; intros k n u p F w B; destruct (last_ref_dec (w_ext w) p) as [L|L].
  2, 4: destruct p as [p|]; [|done]; destruct (cell_at (w_ext w) p) as [v|] eqn:E;
    [|cbn [la_codec_decref]; unfold bind, load, bind, get_ext; by rewrite E];
    rewrite decref_other; [by apply bounded_lower|by apply (bo_counted _ _ _ _ B)| |done];
    destruct p; simpl in *; by eauto.
  all: destruct p as [[| | |m]|]; try done; destruct L as (v & E & R1).
  - pose proof (alive_last _ m v (lowered v) E R1) as A. pose proof (bo_alive _ _ _ _ B).
    unfold lowered in A. rewrite R1 in A. specialize (A eq_refl). lia.
  - destruct (decref_last (S fuel) w (Some (At m)) (bo_counted _ _ _ _ B)) as [x Hx]; [by exists v|].
    rewrite Hx. revert Hx. cbn [la_codec_decref]. rewrite (load_bind _ w (At m) v E), R1.
    change (1 =? SIZE_MAX) with false. change (u64 (1 - 1) =? 0) with true. cbv iota.
    set (v0 := set_refcount _ v). intros Hx.
    assert (B1 : bounded (k - 1) m (val v) (<[m := v0]> (w_ext w))).
    { pose proof (alive_last _ m v v0 E R1 eq_refl). pose proof (bo_alive _ _ _ _ B).
      split; [|lia|].
      - intros j v' Ej. apply lookup_insert_Some in Ej as [[-> <-]|[_ Ej]].
        + destruct (bo_counted _ _ _ _ B j v E) as [Tg _]. split; [exact Tg|done].
        + by apply (bo_counted _ _ _ _ B j).
      - intros v' Ej. rewrite lookup_insert_eq in Ej. injection Ej as <-.
        destruct (bo_counted _ _ _ _ B m v E) as [Tg _]. by split. }
    pose proof (ends_delete (k - 1) m (val v) (la_codec_decref fuel)) as D.
    specialize (D (fun p => IH (k - 1)%nat m (val v) p ltac:(lia)) (with_heap w _) B1).
    change ((store (At m) v0 ;;; la_codec_delete (la_codec_decref fuel) (At m)) w)
      with (la_codec_delete (la_codec_decref fuel) (At m) (with_heap w (<[m := v0]> (w_ext w)))) in Hx.
    by rewrite Hx in D.
Qed.

(** *** Sound heaps *)

Lemma kept_refl h : kept h h.
Proof. intros n v E. by exists v. Qed.

Lemma bson_kept_trans h1 h2 h3 : kept h1 h2 -> kept h2 h3 -> kept h1 h3.
Proof.
  intros K1 K2 n v E. destruct (K1 n v E) as (v2 & E2 & T2 & V2).
  destruct (K2 n v2 E2) as (v3 & E3 & T3 & V3). exists v3. split; [done|].
  split; [congruence|]. intros N. rewrite V3 by congruence. auto.
Qed.

Lemma kept_known h h' p : kept h h' -> known h p -> known h' p.
Proof.
  intros K. destruct p as [[| | |n]|]; try done. intros [v E]. destruct (K n v E) as (v' & E' & _).
  by exists v'.
Qed.

Lemma kept_sound_value h h' v : kept h h' -> sound_value h v -> sound_value h' v.
Proof.
  intros K [? ? C]. split; [done..|]. eapply list.Forall_impl; [exact C|].
  intros p. by apply kept_known.
Qed.

Lemma sound_new h n v :
  sound h -> h !! n = None -> sound_value h v -> sound (<[n := v]> h) /\ kept h (<[n := v]> h).
Proof.
  intros S N Sv. assert (K : kept h (<[n := v]> h)).
  { intros j vj E. exists vj. by rewrite lookup_insert_ne by congruence. }
  split; [|done]. intros j vj E.
  apply lookup_insert_Some in E as [[<- <-]|[_ E]]; eapply kept_sound_value; eauto.
Qed.

Lemma sound_update h n v v' :
  sound h -> h !! n = Some v -> type v' = type v -> (type v <> LA_CODEC_OBJECT -> val v' = val v) ->
  sound_value h v' -> sound (<[n := v']> h) /\ kept h (<[n := v']> h).
Proof.
  intros S E Ty Va Sv. assert (K : kept h (<[n := v']> h)).
  { intros j vj Ej. destruct (decide (j = n)) as [->|].
    - rewrite E in Ej. injection Ej as <-. exists v'. by rewrite lookup_insert_eq.
    - exists vj. by rewrite lookup_insert_ne. }
  split; [|done]. intros j vj Ej.
  apply lookup_insert_Some in Ej as [[<- <-]|[_ Ej]]; eapply kept_sound_value; eauto.
Qed.

Lemma sound_refcount h n v c :
  sound h -> h !! n = Some v -> 1 <= c <= SIZE_MAX ->
  sound (<[n := set_refcount c v]> h) /\ kept h (<[n := set_refcount c v]> h).
Proof.
  intros S E C. destruct (S n v E) as [? ? ?]. by apply (sound_update h n v).
Qed.

Lemma bson_sound_lower h p :
  sound h -> ~ last_ref h p -> sound (lower h p) /\ kept h (lower h p).
Proof.
  intros S N. unfold lower. destruct p as [[| | |n]|]; try (by split; [|apply kept_refl]).
  destruct (h !! n) as [v|] eqn:E; [|by split; [|apply kept_refl]].
  destruct (Z.eqb_spec (refcount v) SIZE_MAX); [by split; [|apply kept_refl]|].
  destruct (S n v E) as [_ C _]. apply sound_refcount; [done..|].
  assert (refcount v <> 1) by (intros R1; apply N; by exists v).
  rewrite u64_small by lia. lia.
Qed.

Lemma lower_cell h p n v ty u :
  h !! n = Some v -> type v = ty -> val v = u ->
  exists v', lower h p !! n = Some v' /\ type v' = ty /\ val v' = u.
Proof.
  intros E Ty Va. unfold lower. destruct p as [[| | |m]|]; try (by exists v).
  destruct (h !! m) as [x|] eqn:Em; [|by exists v]. case_match; [by exists v|].
  destruct (decide (m = n)) as [->|D].
  - rewrite lookup_insert_eq. exists (lowered x). by simplify_eq.
  - exists v. by rewrite lookup_insert_ne.
Qed.

(** What a call leaves. *)
Definition good (w : world heap) (r : result) (w' : world heap) : Prop :=
  sound (w_ext w') /\ kept (w_ext w) (w_ext w') /\ known_result (w_ext w') r.

Lemma good_same w r : sound (w_ext w) -> known_result (w_ext w) r -> good w r w.
Proof. intros S K. split; [done|]. split; [apply kept_refl|done]. Qed.

Lemma wp_returning {A} (f : A -> result) (m : M heap A) w Q :
  wp m w (fun a => Q (f a)) -> wp (returning f m) w Q.
Proof. intros W. apply wp_bind. eapply wp_mono; [exact W|]. intros a w' HQ. by apply wp_ret. Qed.

(** *** New values *)

Lemma wp_new_value w (Q : option ptr -> world heap -> Prop) :
  (forall w', w_ext w' = <[place (w_ext w) := Value LA_CODEC_OBJECT (integer 0) 0]> (w_ext w) ->
    Q (Some (At (place (w_ext w)))) w') ->
  (forall w', w_ext w' = w_ext w -> Q None w') ->
  wp new_value w Q.
Proof.
  intros HS HN. unfold new_value. wp_step. pose proof size_law.
  apply wp_malloc; [lia| |].
  - intros blk w' _ _ (E & _) _. cbv beta iota. wp_step. apply wp_get_ext. rewrite E.
    apply HS. simpl. by rewrite E.
  - intros w' _ (E & _) _. by apply HN.
Qed.

Lemma wp_first_reference n t u w h v0 (Q : option ptr -> world heap -> Prop) :
  w_ext w = <[n := v0]> h ->
  (forall w', w_ext w' = <[n := Value t u 1]> h -> Q (Some (At n)) w') ->
  wp (store (At n) (Value t u 0) ;;; la_codec_incref (Some (At n))) w Q.
Proof.
  intros E HQ. apply wp_bind.
  change (wp (la_codec_incref (Some (At n))) (with_heap w (<[n := Value t u 0]> (w_ext w))) Q).
  unfold la_codec_incref. apply wp_bind.
  apply (wp_load _ (At n) (Value t u 0)); [apply lookup_insert_eq|].
  change (0 =? SIZE_MAX) with false. cbv iota. apply wp_bind.
  change (wp (ret (Some (At n))) (with_heap w (<[n := Value t u (u64 (0 + 1))]> (<[n := Value t u 0]> (w_ext w)))) Q).
  apply wp_ret, HQ. cbn [w_ext with_heap]. by rewrite E, !insert_insert_eq.
Qed.

(** The new value is sound and nothing else changes. *)
Lemma good_new w w' n v :
  sound (w_ext w) -> n = place (w_ext w) -> w_ext w' = <[n := v]> (w_ext w) ->
  sound_value (w_ext w) v -> good w (RPtr (Some (At n))) w'.
Proof.
  intros S -> E Sv. destruct (sound_new _ _ _ S (place_fresh _) Sv). unfold good. rewrite E.
  split; [done|]. split; [done|]. simpl. rewrite lookup_insert_eq. by eexists.
Qed.

Lemma good_nothing w w' : sound (w_ext w) -> w_ext w' = w_ext w -> good w (RPtr None) w'.
Proof. intros S E. unfold good. rewrite E. split; [done|]. split; [apply kept_refl|done]. Qed.

Lemma wp_make_value t u w (Q : option ptr -> world heap -> Prop) :
  (forall w', w_ext w' = <[place (w_ext w) := Value t u 1]> (w_ext w) ->
    Q (Some (At (place (w_ext w)))) w') ->
  (forall w', w_ext w' = w_ext w -> Q None w') ->
  wp (make t u) w Q.
Proof.
  intros HS HN. unfold make. wp_step.
  apply wp_new_value; intros w1 E1; cbv beta iota; [|apply wp_ret; by apply HN].
  eapply wp_first_reference; [exact E1|]. intros w2 E2. by apply HS.
Qed.

Lemma wp_make t u w :
  sound (w_ext w) -> sound_value (w_ext w) (Value t u 1) ->
  wp (returning RPtr (make t u)) w (good w).
Proof.
  intros S Sv. apply wp_returning, wp_make_value; intros w' E; [|by apply good_nothing].
  by eapply good_new.
Qed.

Lemma sound_value_plain h t u :
  tagged (Value t u 1) -> children (Value t u 1) = [] -> sound_value h (Value t u 1).
Proof. intros Tg E. split; [done|done|]. rewrite E. constructor. Qed.

Lemma wp_string_value str w (Q : option ptr -> world heap -> Prop) :
  args_known (w_ext w) (NewString str) ->
  (forall w', w_ext w' = <[place (w_ext w) := Value LA_CODEC_STRING (string str) 1]> (w_ext w) ->
    Q (Some (At (place (w_ext w)))) w') ->
  (forall w', w_ext w' = w_ext w -> Q None w') ->
  wp (la_codec_string str) w Q.
Proof.
  intros A HS HN. unfold la_codec_string. wp_step.
  apply wp_new_value; intros w1 E1; cbv beta iota; [|apply wp_ret; by apply HN].
  destruct str as [s|]; [|eapply wp_first_reference; [exact E1|]; intros w3 E3; by apply HS].
  destruct A as [Cs Ls]. wp_step. apply wp_strdup; [done|done| |].
  - intros w2 (E2 & _). cbv beta iota. rewrite E1 in E2. eapply wp_first_reference; [exact E2|].
    intros w3 E3. by apply HS.
  - intros w2 _ (E2 & _). cbv beta iota. wp_step. unfold free_value. wp_step. apply wp_get_ext.
    rewrite E2, E1. rewrite decide_True by (rewrite lookup_insert_eq; by eexists).
    wp_step. apply wp_put_ext. intros w3 E3 _ _ _.
    apply wp_free. intros w4 (E4 & _) _.
    apply wp_ret, HN. rewrite E4, E3. rewrite delete_insert_id; [done|apply place_fresh].
Qed.

Lemma wp_string str w :
  sound (w_ext w) -> args_known (w_ext w) (NewString str) ->
  wp (returning RPtr (la_codec_string str)) w (good w).
Proof.
  intros S A. apply wp_returning, wp_string_value; [done|..]; intros w' E; [|by apply good_nothing].
  eapply good_new; [done|done|exact E|by apply sound_value_plain].
Qed.

(** *** References *)

Lemma wp_incref p w :
  sound (w_ext w) -> known (w_ext w) p -> wp (returning RPtr (la_codec_incref p)) w (good w).
Proof.
  intros S K. apply wp_returning. destruct p as [p|]; [|apply wp_ret; by apply good_same].
  destruct (known_cell _ _ K) as [v E]. unfold la_codec_incref. wp_step.
  apply (wp_load _ _ _ _ E). destruct (Z.eqb_spec (refcount v) SIZE_MAX) as [M|M].
  - wp_steps. by apply good_same.
  - destruct p as [| | |n]; [by injection E as <-..|].
    destruct (S n v E) as [_ C _].
    destruct (sound_refcount _ n v (u64 (refcount v + 1)) S E) as [S1 K1]; [rewrite u64_small; lia|].
    split; [exact S1|]. split; [exact K1|]. by apply (kept_known (w_ext w)).
Qed.

Lemma bson_wp_decref fuel p w :
  sound (w_ext w) -> known (w_ext w) p -> ~ last_ref (w_ext w) p ->
  wp (returning (fun _ => RDone) (la_codec_decref fuel p)) w (good w).
Proof.
  intros S K L. apply wp_returning. destruct (bson_sound_lower _ p S L).
  eapply wp_eq; [by apply decref_other; [apply sound_counted|..]|]. done.
Qed.

(** A run that ends in undefined behaviour, and not for want of fuel. *)
Definition stuck {A} (m : M heap A) (w : world heap) : Prop :=
  exists u, m w = Undef u /\ u <> Diverges.

Lemma stuck_bind {A B} (m : M heap A) (k : A -> M heap B) w : stuck m w -> stuck (bind m k) w.
Proof. intros (u & E & N). exists u. split; [|done]. unfold bind. by rewrite E. Qed.

Lemma stuck_after {A B} (m : M heap A) (k : A -> M heap B) w a w1 :
  m w = Ret (a, w1) -> stuck (k a) w1 -> stuck (bind m k) w.
Proof. intros E (u & Ek & N). exists u. split; [|done]. unfold bind. by rewrite E. Qed.

Lemma decref_stuck fuel p w :
  counted (w_ext w) -> last_ref (w_ext w) p -> (size (w_ext w) <= fuel)%nat ->
  stuck (la_codec_decref fuel p) w.
Proof.
  intros C L F. destruct (decref_last fuel w p C L) as [u Hu]. exists u. split; [done|].
  destruct p as [[| | |n]|]; try done. destruct L as (v & E & _).
  assert (A : (alive (w_ext w) <= size (w_ext w))%nat)
    by (apply map_subseteq_size, map_filter_subseteq).
  pose proof (decref_ends fuel _ n (val v) (Some (At n)) F w) as D. rewrite Hu in D.
  apply D. split; [done..|]. intros v' E'. rewrite E in E'. injection E' as <-.
  destruct (C n v E). done.
Qed.

(** *** Types *)

Lemma typeof_at w p v : cell_at (w_ext w) p = Some v -> la_codec_typeof (Some p) w = Ret (type v, w).
Proof. intros E. unfold la_codec_typeof. by rewrite (load_bind _ _ _ _ E). Qed.

Lemma has_type_at t w p v :
  cell_at (w_ext w) p = Some v -> has_type t (Some p) w = Ret (bool_decide (type v = t), w).
Proof. intros E. unfold has_type, bind. by rewrite (typeof_at _ _ _ E). Qed.

Lemma number_at w p v :
  cell_at (w_ext w) p = Some v ->
  la_codec_is_number (Some p) w =
    Ret (bool_decide (type v = LA_CODEC_INTEGER \/ type v = LA_CODEC_REAL), w).
Proof.
  intros E. unfold la_codec_is_number, la_codec_is_integer, la_codec_is_real, bind.
  rewrite (has_type_at _ _ _ _ E). case_bool_decide; [|rewrite (has_type_at _ _ _ _ E)];
    repeat case_bool_decide; naive_solver.
Qed.

Lemma boolean_at w p v :
  cell_at (w_ext w) p = Some v ->
  la_codec_is_boolean (Some p) w =
    Ret (bool_decide (type v = LA_CODEC_TRUE \/ type v = LA_CODEC_FALSE), w).
Proof.
  intros E. unfold la_codec_is_boolean, la_codec_is_true, la_codec_is_false, bind.
  rewrite (has_type_at _ _ _ _ E). case_bool_decide; [|rewrite (has_type_at _ _ _ _ E)];
    repeat case_bool_decide; naive_solver.
Qed.

(** What an object is. *)
Lemma object_cases h p v :
  sound h -> cell_at h p = Some v ->
  (exists n t, p = At n /\ h !! n = Some v /\ type v = LA_CODEC_OBJECT /\ val v = hash (Some t) /\
     object_table h (Some p) = Some t) \/
  (type v <> LA_CODEC_OBJECT /\ object_table h (Some p) = None /\ ~ no_table h (Some p)) \/
  (type v = LA_CODEC_OBJECT /\ val v = hash None /\ no_table h (Some p) /\ object_table h (Some p) = None).
Proof.
  intros S E. destruct (decide (type v = LA_CODEC_OBJECT)) as [Ty|Ty].
  - destruct p as [| | |n]; simpl in E; [by injection E as <-..|].
    destruct (S n v E) as [Tg _ _]. unfold tagged in Tg. rewrite Ty in Tg.
    destruct v as [ty u c]. simpl in *. subst ty. destruct u as [| | | |[t|]]; try done.
    + left. exists n, t. split_and!; try done. unfold object_table. simpl. by rewrite E.
    + right; right. unfold no_table, object_table. simpl. rewrite E. eauto.
  - right; left. unfold no_table, object_table. simpl. rewrite E. split; [done|].
    destruct v as [ty u c]. simpl in Ty. split; [by destruct ty|]. intros (c' & [= ->]). by simpl in Ty.
Qed.

(** *** Objects *)

Lemma count_members_ok t fuel : forall it i,
  (length (rest t it) <= fuel)%nat -> 0 <= i -> i + Z.of_nat (length (rest t it)) <= INT_MAX ->
  count_members t fuel it i = Ret (i + Z.of_nat (length (rest t it))).
Proof.
  induction fuel as [|fuel IH]; intros [it|] i F I0 B; simpl; rewrite ?iter_end, ?Z.add_0_r in *; try done.
  - destruct (iter_step t it) as [e E]. rewrite E in F. simpl in F. lia.
  - destruct (iter_step t it) as [e E]. rewrite E in F, B |- *. cbn [length] in *.
    rewrite add_int_small by lia. cbn [obind]. rewrite IH by lia. f_equal. lia.
Qed.

Lemma count_members_overflow t fuel : forall it i,
  (length (rest t it) <= fuel)%nat -> 0 <= i <= INT_MAX -> INT_MAX < i + Z.of_nat (length (rest t it)) ->
  count_members t fuel it i = Undef SignedOverflow.
Proof.
  induction fuel as [|fuel IH]; intros [it|] i F I0 B; simpl; rewrite ?iter_end in *; simpl in *; try lia.
  destruct (iter_step t it) as [e E]. rewrite E in F, B. cbn [length] in *.
  destruct (decide (i = INT_MAX)) as [->|]; [done|].
  rewrite add_int_small by lia. cbn [obind]. apply IH; lia.
Qed.

Lemma filter_absent (k : list byte) (l : list (list byte * option ptr)) :
  k ∉ map fst l -> filter (fun e => e.1 = k) l = [].
Proof.
  induction l as [|[k' q] l IH]; [done|]. cbn [map fst]. intros N.
  apply not_elem_of_cons in N as [N1 N2]. rewrite filter_cons_False by (simpl; congruence). by apply IH.
Qed.

(** What is taken out of a table with distinct keys when a member is set. *)
Lemma released t k p :
  (hashtable_set t k p).2 = [] \/
  exists q, (hashtable_set t k p).2 = [q] /\ (k, q) ∈ entries t.
Proof.
  pose proof (set_releases t k p) as Rl. pose proof (keys_law t) as N.
  assert (F : filter (fun e => e.1 = k) (entries t) = [] \/
    exists q, filter (fun e => e.1 = k) (entries t) = [(k, q)] /\ (k, q) ∈ entries t).
  { clear Rl. induction (entries t) as [|[k' q] l IH]; [by left|]. apply list.NoDup_cons in N as [N1 N2].
    destruct (decide (k' = k)) as [->|D].
    - right. exists q. rewrite filter_cons_True by done. split; [|by left].
      by rewrite filter_absent.
    - rewrite filter_cons_False by done. destruct (IH N2) as [->|(q' & -> & M)]; [by left|].
      right. exists q'. split; [done|]. by right. }
  destruct F as [F|(q & F & M)]; rewrite F in Rl; [left|right].
  - by apply Permutation_nil_r in Rl.
  - exists q. split; [|done]. by apply Permutation_singleton_r in Rl.
Qed.

(** The heap once the table of the object is changed. *)
Definition with_member (h : heap) (n : Z) (v : cell) (t : T) (key : list byte) (p : option ptr) : heap :=
  <[n := set_val (hash (Some (hashtable_set t key p).1)) v]> h.

Lemma obtains_at sizes w :
  exists w1, obtains sizes w = Ret (granted sizes w, w1) /\ w_ext w1 = w_ext w.
Proof.
  unfold granted. revert w. induction sizes as [|n l IH]; intros w; [by exists w|].
  cbn [obtains]. unfold bind, malloc. destruct (alloc_result n w); [|by eexists].
  destruct (IH (after_alloc n 1 w)) as (w1 & -> & E). by exists w1.
Qed.

Lemma set_member_at fuel w n v t key p :
  w_ext w !! n = Some v -> val v = hash (Some t) ->
  exists w1, w_ext w1 = w_ext w /\
    set_member fuel (Some (At n)) key p w =
      if granted (set_sizes t key) w
      then each (la_codec_decref fuel) (hashtable_set t key p).2
        (with_heap w1 (with_member (w_ext w) n v t key p))
      else Ret (tt, w1).
Proof.
  intros E Va. destruct (obtains_at (set_sizes t key) w) as (w1 & O & E1). exists w1. split; [done|].
  unfold set_member, table. unfold bind at 1.
  rewrite (load_bind _ w (At n) v E), Va. unfold ret at 1.
  rewrite (load_bind _ w (At n) v E). unfold bind at 1. rewrite O.
  destruct (granted _ w); [|done]. unfold with_heap. by rewrite <- E1.
Qed.

Lemma sound_member h n v t key p :
  sound h -> h !! n = Some v -> type v = LA_CODEC_OBJECT -> val v = hash (Some t) -> known h p ->
  sound (with_member h n v t key p) /\ kept h (with_member h n v t key p).
Proof.
  intros S E Ty Va K. destruct (S n v E) as [Tg C Ch].
  apply (sound_update h n v); [done|done|done|by rewrite Ty|]. split; [|exact C|].
  - unfold tagged. simpl. by rewrite Ty.
  - unfold children in Ch |- *. simpl. rewrite Va in Ch. rewrite (set_law t key p). simpl.
    apply list.Forall_cons. split; [done|]. apply list.Forall_forall. intros q M.
    apply list_elem_of_fmap in M as (e & -> & M). apply list_elem_of_filter in M as [_ M].
    eapply list.Forall_forall in Ch; [exact Ch|]. by apply (list_elem_of_fmap_2 snd).
Qed.

(** Changing the table does not change counts. *)
Lemma last_member_ref h n v t key p q :
  h !! n = Some v -> last_ref (with_member h n v t key p) q <-> last_ref h q.
Proof.
  intros E. destruct q as [[| | |m]|]; try done. simpl. unfold with_member.
  destruct (decide (m = n)) as [->|].
  - rewrite lookup_insert_eq, E. split; intros (x & [= <-] & R1); by eexists.
  - by rewrite lookup_insert_ne.
Qed.

Lemma wp_moves {A} (m m' : M heap A) w w' Q : m w = m' w' -> wp m' w' Q -> wp m w Q.
Proof. unfold wp. by intros ->. Qed.

Lemma wp_set_member fuel w n v t key p (Q : unit -> world heap -> Prop) :
  sound (w_ext w) -> w_ext w !! n = Some v -> type v = LA_CODEC_OBJECT -> val v = hash (Some t) ->
  known (w_ext w) p -> ~ last_member w (Some (At n)) key ->
  (forall w', sound (w_ext w') -> kept (w_ext w) (w_ext w') ->
    (exists v', w_ext w' !! n = Some v' /\ type v' = type v /\
       val v' = hash (Some (if granted (set_sizes t key) w then (hashtable_set t key p).1 else t))) ->
    Q tt w') ->
  wp (set_member fuel (Some (At n)) key p) w Q.
Proof.
  intros S E Ty Va K L HQ. destruct (set_member_at fuel w n v t key p E Va) as (wm & Em & Run).
  unfold wp. rewrite Run. destruct (granted (set_sizes t key) w) eqn:Gr;
    [|apply HQ; rewrite Em; [done|apply kept_refl|by exists v]].
  change (wp (each (la_codec_decref fuel) (hashtable_set t key p).2)
    (with_heap wm (with_member (w_ext w) n v t key p)) Q).
  assert (Ot : object_table (w_ext w) (Some (At n)) = Some t)
    by (unfold object_table; simpl; rewrite E; destruct v; simpl in *; by subst).
  destruct (sound_member _ n v t key p S E Ty Va K) as [S1 K1].
  destruct (released t key p) as [->|(q & -> & M)]; cbn [each].
  { apply HQ; [done..|]. eexists. split; [apply lookup_insert_eq|done]. }
  set (w1 := with_heap wm _).
  assert (Lq : ~ last_ref (w_ext w1) q).
  { intros Lq. apply last_member_ref in Lq; [|done]. apply L. by exists t, q. }
  destruct (bson_sound_lower (w_ext w1) q S1 Lq) as [S2 K2].
  apply wp_bind. eapply wp_eq; [apply decref_other; [by apply sound_counted| |done]|].
  - apply (kept_known (w_ext w)); [done|]. destruct (S n v E) as [_ _ Ch]. unfold children in Ch.
    rewrite Va in Ch. eapply list.Forall_forall in Ch; [exact Ch|].
    by apply (list_elem_of_fmap_2 snd) in M.
  - apply HQ; [exact S2|by eapply bson_kept_trans|]. eapply lower_cell; [apply lookup_insert_eq|done..].
Qed.

Lemma set_member_stuck fuel w p key value :
  sound (w_ext w) -> known (w_ext w) p -> known (w_ext w) value -> last_member w p key ->
  (size (w_ext w) <= fuel)%nat -> stuck (set_member fuel p key value) w.
Proof.
  intros S K Kv (t & q & Ot & Gr & M & L) F. destruct p as [p|]; [|done].
  destruct (known_cell _ _ K) as [v E].
  destruct (object_cases _ p v S E) as [(n & t' & -> & En & Ty & Va & Ot')|[(_ & N & _)|(_ & _ & _ & N)]];
    [|congruence..].
  rewrite Ot in Ot'. injection Ot' as <-.
  destruct (sound_member _ n v t key value S En Ty Va Kv) as [S1 _].
  destruct (set_member_at fuel w n v t key value En Va) as (w1 & Ew & Run).
  unfold stuck. rewrite Run, Gr.
  pose proof (keys_law t) as N. pose proof (set_releases t key value) as Rl.
  assert (Q : q ∈ (hashtable_set t key value).2).
  { rewrite Rl. apply (list_elem_of_fmap_2 snd _ (key, q)). by apply list_elem_of_filter. }
  destruct (released t key value) as [E2|(q' & E2 & _)]; rewrite E2 in *; [by apply elem_of_nil in Q|].
  apply list_elem_of_singleton in Q as <-. cbn [each]. apply stuck_bind, decref_stuck.
  - by apply sound_counted.
  - by apply last_member_ref.
  - cbn [w_ext with_heap]. unfold with_member. by rewrite map_size_insert_Some by eauto.
Qed.

Lemma wp_has_type t w p v Q :
  cell_at (w_ext w) p = Some v -> Q (bool_decide (type v = t)) w -> wp (has_type t (Some p)) w Q.
Proof. intros E HQ. by eapply wp_eq; [apply has_type_at|]. Qed.

Lemma has_type_after {A} t w p v (k : bool -> M heap A) :
  cell_at (w_ext w) p = Some v ->
  bind (has_type t (Some p)) k w = k (bool_decide (type v = t)) w.
Proof. intros E. unfold bind. by rewrite (has_type_at _ _ _ _ E). Qed.

Lemma wp_table w n v t (Q : T -> world heap -> Prop) :
  w_ext w !! n = Some v -> val v = hash (Some t) -> Q t w -> wp (table (Some (At n))) w Q.
Proof. intros E Va HQ. apply wp_bind, (wp_load _ (At n) v); [done|]. by rewrite Va. Qed.

Lemma wp_object_size fuel p w :
  sound (w_ext w) -> given (w_ext w) p -> enough fuel (w_ext w) ->
  ~ breaks w (ObjectSize p) ->
  wp (returning RInt (la_codec_object_size fuel p)) w (good w).
Proof.
  intros S G [_ F] B. destruct (given_cell _ _ G) as (q & v & -> & E). apply wp_returning.
  apply wp_bind, (wp_has_type _ _ _ _ _ E).
  destruct (object_cases _ q v S E)
    as [(n & t & -> & En & Ty & Va & Ot)|[(Ty & _)|(_ & _ & N & _)]];
    [| |by destruct B; left].
  - rewrite bool_decide_true by done. apply wp_bind, (wp_table _ _ _ _ _ En Va).
    specialize (F n v t En Va). rewrite count_members_ok; rewrite ?iter_start; [|done|done|].
    + wp_steps. by apply good_same.
    + destruct (decide (0 + Z.of_nat (length (entries t)) <= INT_MAX)); [done|].
      exfalso. apply B. right. exists t. split; [done|]. lia.
  - rewrite bool_decide_false by done. apply wp_ret. by apply good_same.
Qed.

Lemma wp_object_get p key w :
  sound (w_ext w) -> given (w_ext w) p -> ~ no_table (w_ext w) p ->
  wp (returning RPtr (la_codec_object_get p key)) w (good w).
Proof.
  intros S G B. destruct (given_cell _ _ G) as (q & v & -> & E). apply wp_returning.
  apply wp_bind, (wp_has_type _ _ _ _ _ E).
  destruct (object_cases _ q v S E)
    as [(n & t & -> & En & Ty & Va & Ot)|[(Ty & _)|(_ & _ & N & _)]]; [| |done].
  - rewrite bool_decide_true by done. apply wp_bind, (wp_table _ _ _ _ _ En Va), wp_ret.
    apply good_same; [done|]. destruct (get_law t key) as [->|M]; [done|].
    destruct (S n v En) as [_ _ Ch]. unfold children in Ch. rewrite Va in Ch.
    eapply list.Forall_forall in Ch; [exact Ch|]. by apply (list_elem_of_fmap_2 snd) in M.
  - rewrite bool_decide_false by done. apply wp_ret. by apply good_same.
Qed.

Lemma emits_collect data chunks w :
  emits collect data chunks w = Ret (data ++ concat chunks, w).
Proof.
  revert data. induction chunks as [|b l IH]; intros data; simpl; [by rewrite app_nil_r|].
  rewrite app_assoc. apply IH.
Qed.

Lemma bson_wp_dump p key w :
  sound (w_ext w) -> given (w_ext w) p -> ~ breaks w (Dump p key) ->
  wp (returning RBytes (do_dump key p collect [])) w (good w).
Proof.
  intros S G B. destruct (given_cell _ _ G) as (q & v & -> & E). apply wp_returning.
  unfold do_dump. apply wp_bind, (wp_load _ _ _ _ E).
  assert (D : forall chunks, wp (emits collect [] chunks) w (fun a => good w (RBytes a)))
    by (intros; eapply wp_eq; [apply emits_collect|]; by apply good_same).
  assert (Tg : tagged v \/ exists t, v = constant t /\ t ∈ [LA_CODEC_TRUE; LA_CODEC_FALSE; LA_CODEC_NULL]).
  { destruct q as [| | |n]; [right; injection E as <-; eexists; split; [done|set_solver]..|].
    left. by destruct (S n v E). }
  destruct Tg as [Tg|(t & -> & Ht)].
  - unfold tagged in Tg. destruct v as [ty u c]. simpl in *.
    destruct ty, u as [i|r|[s|]|l n|t]; try done; try apply D; try (apply wp_ret; by apply good_same).
    exfalso. apply B. exists c. by simpl.
  - destruct t; try (apply D); exfalso; set_solver.
Qed.

Lemma wp_object w : sound (w_ext w) -> wp (returning RPtr la_codec_object) w (good w).
Proof.
  intros S. apply wp_returning. unfold la_codec_object. wp_step.
  apply wp_new_value; intros w1 E1; cbv beta iota; [|apply wp_ret; by apply good_nothing].
  destruct (obtains_at init_sizes w1) as (w2 & O & E2). apply wp_bind, (wp_eq _ _ _ _ _ O).
  eapply wp_first_reference; [by rewrite E2|]. intros w3 E3. eapply good_new; [done|done|exact E3|].
  split; [done|done|]. unfold children. simpl. destruct (granted _ _); [rewrite init_law|]; constructor.
Qed.

(** *** Every call *)

Lemma run_good fuel o w :
  sound (w_ext w) -> args_known (w_ext w) o -> enough fuel (w_ext w) -> ~ breaks w o ->
  wp (run fuel o) w (good w).
Proof.
  intros S A F B. destruct o; cbn [run args_known] in *.
  - by apply wp_object.
  - apply wp_make; [done|]. by apply sound_value_plain.
  - apply wp_make; [done|]. by apply sound_value_plain.
  - apply wp_make; [done|]. by apply sound_value_plain.
  - by apply wp_string.
  - by apply good_same.
  - by apply good_same.
  - by apply good_same.
  - destruct (given_cell _ _ A) as (q & v & -> & E). apply wp_returning.
    eapply wp_eq; [by apply typeof_at|]. by apply good_same.
  - destruct (given_cell _ _ A) as (q & v & -> & E). apply wp_returning.
    eapply wp_eq; [by apply number_at|]. by apply good_same.
  - destruct (given_cell _ _ A) as (q & v & -> & E). apply wp_returning.
    eapply wp_eq; [by apply boolean_at|]. by apply good_same.
  - by apply wp_incref.
  - by apply bson_wp_decref.
  - by apply wp_object_size.
  - by apply wp_object_get.
  - destruct A as [G K]. destruct (given_cell _ _ G) as (q & v & -> & E). apply wp_returning.
    apply wp_bind, (wp_has_type _ _ _ _ _ E), wp_bind.
    destruct (object_cases _ q v S E)
      as [(n & t & -> & En & Ty & Va & Ot)|[(Ty & _)|(_ & _ & N & _)]]; [| |by destruct B; left].
    + rewrite bool_decide_true by done. eapply wp_set_member; [done..| |].
      * intros L. apply B. by right.
      * intros w' S' K' _. by apply wp_ret.
    + rewrite bool_decide_false by done. by apply good_same.
  - destruct A as [G K]. destruct (given_cell _ _ G) as (q & v & -> & E). apply wp_returning.
    apply wp_bind. destruct (object_cases _ q v S E)
      as [(n & t & -> & En & Ty & Va & Ot)|[(_ & N & _)|(_ & _ & _ & N)]];
      [|exfalso; apply B; by left..].
    eapply wp_set_member; [done..| |].
    + intros L. apply B. by right.
    + intros w' S' K' _. by apply wp_ret.
  - destruct (given_cell _ _ A) as (q & v & -> & E). apply wp_returning.
    apply wp_bind, (wp_has_type _ _ _ _ _ E).
    destruct (object_cases _ q v S E)
      as [(n & t & -> & En & Ty & Va & Ot)|[(Ty & _)|(_ & _ & N & _)]]; [| |by destruct B; left].
    + exfalso. apply B. right. simpl in *. congruence.
    + rewrite bool_decide_false by done. by apply good_same.
  - by apply bson_wp_dump.
Qed.

Lemma table_stuck h w q v :
  sound h -> w_ext w = h -> cell_at h q = Some v -> object_table h (Some q) = None ->
  stuck (table (Some q)) w.
Proof.
  intros S <- E N. unfold stuck, table. rewrite (load_bind _ _ _ _ E).
  destruct q as [| | |n]; [by injection E as <-; exists WrongType..|]. destruct (S n v E) as [Tg _ _].
  unfold object_table in N. simpl in N, E. rewrite E in N. unfold tagged in Tg.
  destruct v as [[] [| | | |[]] c]; try done;
    (by exists WrongType) || (by exists Uninitialised).
Qed.

(** What asks for the type first goes on to use the table of an object without one. *)
Lemma no_table_stuck {A} w p (m : M heap A) (k : T -> M heap A) :
  sound (w_ext w) -> no_table (w_ext w) p ->
  stuck (let* b := la_codec_is_object p in if b then (let* t := table p in k t) else m) w.
Proof.
  intros S [c E]. destruct p as [q|]; [|done]. simpl in E. unfold stuck, la_codec_is_object.
  rewrite (has_type_after _ _ _ _ _ E), bool_decide_true by done. apply stuck_bind.
  eapply table_stuck; [done..|]. unfold object_table. simpl. by rewrite E.
Qed.

Lemma run_stuck fuel o w :
  sound (w_ext w) -> args_known (w_ext w) o -> enough fuel (w_ext w) -> breaks w o ->
  stuck (run fuel o) w.
Proof.
  intros S A [F1 F2] B. destruct o; cbn [run args_known breaks] in *; try done; apply stuck_bind.
  - apply decref_stuck; [by apply sound_counted|done..].
  - destruct B as [B|(t & Ot & Ov)]; [by apply no_table_stuck|].
    destruct (given_cell _ _ A) as (q & v & -> & E).
    destruct (object_cases _ q v S E) as [(n & t' & -> & En & Ty & Va & Ot')|[(_ & N & _)|(_ & _ & _ & N)]];
      [|congruence..].
    rewrite Ot in Ot'. injection Ot' as <-. unfold la_codec_object_size, la_codec_is_object, stuck.
    rewrite (has_type_after _ _ _ _ _ E), bool_decide_true by done.
    apply (stuck_after _ _ _ t w); [unfold table; by rewrite (load_bind _ _ _ _ E), Va|].
    apply stuck_bind. exists SignedOverflow. split; [|done]. unfold lift.
    specialize (F2 n v t En Va).
    rewrite count_members_overflow; rewrite ?iter_start; [done|done| |lia].
    unfold INT_MAX. lia.
  - by apply no_table_stuck.
  - destruct A as [G K]. destruct B as [[c Ec]|B].
    { destruct p as [q|]; [|done]. simpl in Ec. unfold la_codec_object_set_new, la_codec_is_object, stuck.
      rewrite (has_type_after _ _ _ _ _ Ec), bool_decide_true by done. apply stuck_bind, stuck_bind.
      eapply table_stuck; [done..|]. unfold object_table. simpl. by rewrite Ec. }
    pose proof B as (t & _ & Ot & _). destruct (given_cell _ _ G) as (q & v & -> & E).
    destruct (object_cases _ q v S E) as [(n & t' & -> & En & Ty & Va & _)|[(_ & N & _)|(_ & _ & _ & N)]];
      [|congruence..].
    unfold la_codec_object_set_new, la_codec_is_object, stuck.
    rewrite (has_type_after _ _ _ _ _ E), bool_decide_true by done.
    apply stuck_bind. apply set_member_stuck; [done|apply G|done..].
  - destruct A as [G K]. apply stuck_bind. destruct B as [N|L].
    + destruct (given_cell _ _ G) as (q & v & -> & E). apply stuck_bind. by eapply table_stuck.
    + apply set_member_stuck; [done|apply G|done..].
  - destruct (given_cell _ _ A) as (q & v & -> & E).
    assert (Ty : type v = LA_CODEC_OBJECT).
    { destruct (object_cases _ q v S E) as [(n & t & _ & _ & Ty & _)|[(_ & N1 & N2)|(Ty & _)]]; [done| |done].
      by destruct B. }
    unfold la_codec_object_del, la_codec_is_object, stuck.
    rewrite (has_type_after _ _ _ _ _ E), bool_decide_true by done. by exists WrongType.
  - destruct (given_cell _ _ A) as (q & v & -> & E). destruct B as [c Ec]. simpl in Ec.
    rewrite E in Ec. injection Ec as ->. unfold stuck, do_dump. rewrite (load_bind _ _ _ _ E).
    by exists NullDeref.
Qed.

#[local] Instance last_ref_decision h p : Decision (last_ref h p) := last_ref_dec h p.

#[local] Instance last_member_decision w p key : Decision (last_member w p key).
Proof.
  unfold last_member. destruct (object_table (w_ext w) p) as [t|]; [|by right; intros (? & ? & ? & _)].
  destruct (granted (set_sizes t key) w) eqn:Gr; [|right; intros (t' & q & [= <-] & G & _); congruence].
  destruct (decide (Exists (fun e => e.1 = key /\ last_ref (w_ext w) e.2) (entries t))) as [E|E].
  - left. apply list.Exists_exists in E as ([k q] & M & <- & L). by exists t, q.
  - right. intros (t' & q & [= <-] & _ & M & L). apply E. apply list.Exists_exists. by exists (key, q).
Defined.

#[local] Instance no_table_decision h p : Decision (no_table h p).
Proof.
  unfold no_table. destruct (option_bind _ _ (cell_at h) p) as [[[] [| | | |[]] c]|];
    (by right; intros (? & [=])) || (by left; eexists).
Defined.

Lemma breaks_dec w o : {breaks w o} + {~ breaks w o}.
Proof.
  destruct o; cbn [breaks]; try (by right; intros []); try apply decide; try apply _.
  - destruct (decide (no_table (w_ext w) p)); [by left; left|].
    destruct (object_table (w_ext w) p) as [t|]; [|right; naive_solver].
    destruct (decide (INT_MAX < Z.of_nat (length (entries t)))); [left; right; by exists t|].
    right. intros [|(? & [= <-] & ?)]; done.
  - destruct (option_bind _ _ (cell_at (w_ext w)) p) as [[[] [] c]|];
      try (right; by intros (? & [=])). destruct s; [right; by intros (? & [=])|left; by eexists].
Qed.

Lemma reachable_heap_sound w : reachable w -> sound (w_ext w).
Proof.
  induction 1 as [w E|w fuel o r w' _ IH A F Run]; [by rewrite E|].
  destruct (breaks_dec w o) as [B|B].
  - destruct (run_stuck fuel o w IH A F B) as (u & Hu & _). congruence.
  - pose proof (run_good fuel o w IH A F B) as G. unfold wp in G. rewrite Run in G. by destruct G.
Qed.

(** C29 (type): in the heap after any calls of a program that keeps to the values it was given,
    every value holds the member of the union that its type says; every further call is defined
    and keeps the types of all values, unless it releases the last reference to a value, uses an
    object whose table could not be made, deletes a member, sets one without a check in what is no
    object, counts more than [INT_MAX] or dumps a string without text; with any of these it is
    not defined. *)
Theorem codec_calls_typed w :
  reachable w ->
  sound (w_ext w) /\
  forall fuel o, args_known (w_ext w) o -> enough fuel (w_ext w) ->
    (breaks w o -> stuck (run fuel o) w) /\
    (~ breaks w o -> exists r w', run fuel o w = Ret (r, w') /\ good w r w').
Proof.
  intros Re. pose proof (reachable_heap_sound w Re) as S. split; [done|]. intros fuel o A F.
  split; [by apply run_stuck|]. intros B. by apply wp_run, run_good.
Qed.

(** ** Conversion *)

(** What a value without parts stands for. *)
Definition stands_for (of_text : list byte -> R) (v : cell) (t : tree) : Prop :=
  match t with
  | TString s => type v = LA_CODEC_STRING /\ val v = string (Some s)
  | TInteger i => type v = LA_CODEC_INTEGER /\ val v = integer i
  | TReal s => type v = LA_CODEC_REAL /\ val v = real (of_text s)
  | TTrue => type v = LA_CODEC_TRUE
  | TFalse => type v = LA_CODEC_FALSE
  | TNull => type v = LA_CODEC_NULL
  | _ => False
  end.

Section from_json_laws.
Context {V J : Type} `{JanssonLaws V J}.
Context (json_real_value : V -> R) (of_text : list byte -> R).
Context (append_new : option ptr -> option ptr -> M heap Z).
Context (object_set : option ptr -> list byte -> option ptr -> M heap Z).
Hypothesis real_value_law : forall v s, tree_of v = TReal s -> json_real_value v = of_text s.

(** Values without parts that the other codec has. *)
Definition simple (t : tree) : Prop :=
  match t with
  | TString s => cstring s /\ Z.of_nat (length s) < PTRDIFF_MAX
  | TInteger i => - 2 ^ 63 <= i < 2 ^ 63
  | TReal _ | TTrue | TFalse | TNull => True
  | _ => False
  end.

Abbreviation from_json := (la_codec_from_json json_real_value append_new object_set).

(** A value of jansson without parts becomes one that stands for it, or NULL when there is no
    memory. *)
Theorem from_json_simple fuel json w :
  simple (tree_of json) ->
  wp (from_json fuel json) w (fun p w' =>
    match p with
    | None => w_ext w' = w_ext w
    | Some q => exists v, cell_at (w_ext w') q = Some v /\ stands_for of_text v (tree_of json)
    end).
Proof.
  intros Sm. pose proof (typeof_law json) as Ty.
  assert (U : forall n v t (w' : world heap), w_ext w' = <[n := v]> (w_ext w) -> stands_for of_text v t ->
    exists v', cell_at (w_ext w') (At n) = Some v' /\ stands_for of_text v' t)
    by (intros n v t w' E St; exists v; split; [simpl; rewrite E; apply lookup_insert_eq|done]).
  destruct (tree_of json) as [l|l|s|i|s| | | |] eqn:E; try done;
    destruct fuel; cbn [la_codec_from_json tree_type simple] in *; rewrite Ty; cbv iota;
    try (apply wp_ret; by eexists).
  1, 2: rewrite (string_law _ _ E); apply wp_string_value; [done|..|done]; intros w' E'; by eapply U.
  1, 2: rewrite (integer_law _ _ E); apply wp_make_value; [|done]; intros w' E'; eapply U; [exact E'|];
    split; [done|]; simpl; f_equal; unfold s64; rewrite Z.mod_small by lia; lia.
  all: rewrite (real_value_law _ _ E); apply wp_make_value; [|done]; intros w' E'; by eapply U.
Qed.

(** For a big number the function ends without a result. *)
Lemma from_json_bignum fuel json n b w :
  tree_of json = TBignum n b -> stuck (from_json fuel json) w.
Proof.
  intros E. pose proof (typeof_law json) as Ty. rewrite E in Ty.
  exists Uninitialised. destruct fuel; cbn [la_codec_from_json]; by rewrite Ty.
Qed.
End from_json_laws.

(** ** What is written *)

(** Reading an element of a BSON document: tag, name, and what the tag says, an integer with four
    bytes or a text whose length counts its NUL. *)
Inductive element := ENull | EBoolean (b : bool) | EInteger (i : Z) | EString (s : list byte).

Definition read_text (n : nat) (s : list byte) : option element :=
  if decide (length s = n /\ (1 <= n)%nat) then
    match cstr s with
    | Ret t => if decide (length s = S (length t)) then Some (EString t) else None
    | Undef _ => None
    end
  else None.

Definition read_value (tag : byte) (b : list byte) : option element :=
  match tag with
  | x0a => if decide (b = []) then Some ENull else None
  | x08 => match b with [c] => Some (EBoolean (negb (Byte.eqb c x00))) | _ => None end
  | x10 => if decide (length b = 4%nat) then Some (EInteger (s32 (le_value b))) else None
  | x02 => read_text (Z.to_nat (le_value (take 4 b))) (drop 4 b)
  | _ => None
  end.

Definition read_element (b : list byte) : option (list byte * element) :=
  match b with
  | [] => None
  | tag :: b =>
      match cstr b with
      | Ret name => option_map (pair name) (read_value tag (drop (S (length name)) b))
      | Undef _ => None
      end
  end.

Definition element_of (v : cell) : option element :=
  match type v, val v with
  | LA_CODEC_NULL, _ => Some ENull
  | LA_CODEC_TRUE, _ => Some (EBoolean true)
  | LA_CODEC_FALSE, _ => Some (EBoolean false)
  | LA_CODEC_INTEGER, integer i => Some (EInteger (s32 i))
  | _, _ => None
  end.

Lemma read_dumped name tag b :
  cstring name ->
  read_element ([tag] ++ (name ++ [NUL]) ++ b) = option_map (pair name) (read_value tag b).
Proof.
  intros Cn. simpl. rewrite <- app_assoc. cbn [app]. rewrite cstr_app by done.
  rewrite drop_app_ge by lia. by replace (S (length name) - length name)%nat with 1%nat by lia.
Qed.

Lemma read_int i : read_value BSON_INTEGER (int_bytes i) = Some (EInteger (s32 i)).
Proof.
  unfold read_value, BSON_INTEGER, int_bytes. rewrite decide_True by apply length_le_bytes. do 2 f_equal.
  rewrite le_value_bytes_small by (unfold u32; pose proof (Z.mod_pos_bound i (2 ^ 32)); lia).
  unfold s32, u32. by rewrite Zplus_mod_idemp_l.
Qed.

Lemma s32_s32 i : s32 (s32 i) = s32 i.
Proof.
  unfold s32. pose proof (Z.mod_pos_bound (i + 2 ^ 31) (2 ^ 32)).
  rewrite (Z.mod_small ((i + 2 ^ 31) mod 2 ^ 32 - 2 ^ 31 + 2 ^ 31)); lia.
Qed.

(** Null, booleans and the low 32 bits of integers are read back. *)
Theorem dump_read_back w p v key e :
  cell_at (w_ext w) p = Some v -> element_of v = Some e -> cstring key ->
  wp (do_dump key (Some p) collect []) w (fun b w' => read_element b = Some (key, e) /\ w' = w).
Proof.
  intros E Ev Ck. unfold do_dump. apply wp_bind, (wp_load _ _ _ _ E).
  destruct v as [ty u c]. unfold element_of in Ev. cbn [type val] in *.
  destruct ty; try done; try (destruct u as [i| | | |]; try done); injection Ev as <-;
    (eapply wp_eq; [apply emits_collect|]); (split; [|done]); cbn [concat];
    rewrite ?app_nil_l, ?app_nil_r; try (by rewrite read_dumped).
  1: rewrite read_dumped, read_int by done; unfold itole; by rewrite s32_s32.
  all: pose proof (read_dumped key BSON_NULL [] Ck) as Rd; by rewrite app_nil_r in Rd.
Qed.

(** A text is not: the length that is written does not count the NUL. *)
Theorem dumped_string_refused w p c key s :
  cell_at (w_ext w) p = Some (Value LA_CODEC_STRING (string (Some s)) c) -> cstring key ->
  Z.of_nat (length s) < 2 ^ 31 ->
  wp (do_dump key (Some p) collect []) w (fun b w' => read_element b = None).
Proof.
  intros E Ck Ls. unfold do_dump. apply wp_bind, (wp_load _ _ _ _ E). cbn [type val].
  eapply wp_eq; [apply emits_collect|]. cbn [concat]. rewrite app_nil_l, app_nil_r.
  rewrite read_dumped by done. unfold read_value, BSON_STRING, int_bytes, itole.
  rewrite take_app_exact, drop_app_exact by (by rewrite length_le_bytes).
  rewrite s32_small by lia. unfold u32. rewrite Z.mod_small by lia.
  rewrite le_value_bytes_small by (simpl; lia). unfold read_text.
  rewrite decide_False; [done|]. rewrite length_app. simpl. lia.
Qed.

(** Setting a member of an object stores the value when there is memory, and answers -1 in both
    cases. *)
Theorem set_new_answers fuel w n v t key p :
  sound (w_ext w) -> w_ext w !! n = Some v -> type v = LA_CODEC_OBJECT -> val v = hash (Some t) ->
  known (w_ext w) p -> ~ last_member w (Some (At n)) key ->
  wp (la_codec_object_set_new fuel (Some (At n)) key p) w (fun rc w' =>
    rc = -1 /\ wp (la_codec_object_get (Some (At n)) key) w' (fun q _ =>
      q = if granted (set_sizes t key) w then p else hashtable_get t key)).
Proof.
  intros S E Ty Va K L. apply wp_bind, (wp_has_type _ _ (At n) _ _ E), wp_bind.
  rewrite bool_decide_true by done. eapply wp_set_member; [done..|].
  intros w' _ _ (v' & E' & Ty' & Va'). apply wp_ret. split; [done|].
  apply wp_bind, (wp_has_type _ _ (At n) _ _ E').
  rewrite bool_decide_true by congruence. apply wp_bind, (wp_table _ _ _ _ _ E' Va'), wp_ret.
  destruct (granted _ _); [apply set_get|done].
Qed.
End codec.

(** ** A concrete table and a program *)

Abbreviation member := (list byte * option ptr)%type.
Abbreviation t_table := (gmap (list byte) (option ptr)).

#[export] Instance t_hashtable : Hashtable t_table (member * list member) := {|
  sizeof_hashtable := 48;
  init_sizes := [56];
  set_sizes t k := match t !! k with Some _ => [] | None => [40] end;
  hashtable_init := ∅;
  hashtable_close t := map snd (map_to_list t);
  hashtable_get t k := default None (t !! k);
  hashtable_set t k p := (<[k := p]> t, match t !! k with Some q => [q] | None => [] end);
  hashtable_iter t := match map_to_list t with [] => None | e :: l => Some (e, l) end;
  hashtable_iter_next t i := match i.2 with [] => None | e :: l => Some (e, l) end;
|}.

Lemma entries_delete (t : t_table) k :
  map_to_list (delete k t) ≡ₚ filter (fun e => e.1 <> k) (map_to_list t).
Proof.
  apply NoDup_Permutation.
  - apply NoDup_map_to_list.
  - apply list.NoDup_filter, NoDup_map_to_list.
  - intros [k' q]. rewrite list_elem_of_filter, !elem_of_map_to_list, lookup_delete_Some. simpl.
    naive_solver.
Qed.

#[export] Instance t_hashtable_laws : HashtableLaws t_table (member * list member).
Proof.
  refine {| entries t := map_to_list t;
            rest _ it := match it with None => [] | Some i => i.1 :: i.2 end |}; cbn.
  - lia.
  - apply map_to_list_empty.
  - intros t. apply NoDup_fst_map_to_list.
  - done.
  - intros t k. destruct (t !! k) as [q|] eqn:E; simpl; [|by left].
    destruct q; [right|by left]. by apply elem_of_map_to_list.
  - intros t k p. rewrite <- insert_delete_eq, map_to_list_insert by apply lookup_delete_eq.
    by rewrite entries_delete.
  - intros t k p. destruct (t !! k) as [q|] eqn:E.
    + assert (P : map_to_list t ≡ₚ (k, q) :: map_to_list (delete k t))
        by (rewrite <- map_to_list_insert, insert_delete_id; [done|done|apply lookup_delete_eq]).
      rewrite P. rewrite filter_cons_True by done. simpl. apply Permutation_cons; [done|].
      rewrite filter_absent; [done|]. intros M. apply list_elem_of_fmap in M as ([k' q'] & -> & M).
      apply elem_of_map_to_list in M. simpl in M. by rewrite lookup_delete_eq in M.
    + rewrite filter_absent; [done|]. intros M. apply list_elem_of_fmap in M as ([k' q'] & -> & M).
      apply elem_of_map_to_list in M. simpl in E. congruence.
  - intros t k p. by rewrite lookup_insert_eq.
  - intros t. by destruct (map_to_list t).
  - intros t [e [|e' l]]; by exists e.
  - done.
Defined.

(** The address behind the highest one in use. *)
Definition t_place {A} (h : gmap Z A) : Z := map_fold (fun n _ m => Z.max (n + 1) m) 0 h.

Lemma t_place_fresh {A} (h : gmap Z A) : h !! t_place h = None.
Proof.
  assert (B : forall n v, h !! n = Some v -> n < t_place h).
  { unfold t_place. apply (map_fold_weak_ind (fun m h => forall n v, h !! n = Some v -> n < m)).
    - done.
    - intros k v m r N IH n v' E. apply lookup_insert_Some in E as [[<- _]|[_ E]]; [lia|].
      specialize (IH n v' E). lia. }
  destruct (h !! t_place h) as [v|] eqn:E; [|done]. specialize (B _ _ E). lia.
Qed.

Abbreviation t_heap := (gmap Z (la_codec_value unit t_table)).

Definition t_next (o : op) (w : world t_heap) : world t_heap :=
  match run t_place 9 o w with Ret (_, w') => w' | Undef _ => w end.

Definition t_start : world t_heap := world0 ∅.
Definition t_object : world t_heap := t_next NewObject t_start.
Definition t_string : world t_heap := t_next (NewString (Some (lit "text"))) t_object.
Definition t_member : world t_heap :=
  t_next (ObjectSetNew (Some (At 0)) (lit "name") (Some (At 1))) t_string.

Definition t_result (o : op) (w : world t_heap) : result :=
  match run t_place 9 o w with Ret (r, _) => r | Undef _ => RDone end.

Example member_is_set : t_result (ObjectGet (Some (At 0)) (lit "name")) t_member = RPtr (Some (At 1)).
Proof. vm_compute. reflexivity. Qed.

(** Without memory the object has no table, or the member is not set. *)
Definition scarce (l : list bool) (w : world t_heap) : world t_heap :=
  World l (w_junk w) (w_live w) (w_errno w) (w_ext w).

Example object_without_table :
  let w := t_next NewObject (scarce [true; false] t_start) in
  run t_place 9 (ObjectSize (Some (At 0))) w = Undef Uninitialised /\
  run t_place 9 (Decref (Some (At 0))) w = Undef Uninitialised.
Proof. split; vm_compute; reflexivity. Qed.

Example member_not_set :
  let o := ObjectSetNewNocheck (Some (At 0)) (lit "name") (Some (At 1)) in
  let w := scarce [false] t_string in
  t_result o w = RInt 0 /\ t_result (ObjectGet (Some (At 0)) (lit "name")) (t_next o w) = RPtr None.
Proof. split; vm_compute; reflexivity. Qed.

Example released_twice : run t_place 9 (Decref (Some (At 1))) t_member = Undef DoubleFree.
Proof. vm_compute. reflexivity. Qed.

Example dumped_string : match t_result (Dump (Some (At 1)) (lit "k")) t_member with
  | RBytes b => read_element b
  | _ => Some ([], ENull)
  end = None.
Proof. vm_compute. reflexivity. Qed.

(** Every step of the program keeps to values it was given. *)
Lemma t_step o w :
  reachable t_place w -> args_known (w_ext w) o -> enough 9 (w_ext w) ->
  reachable t_place (t_next o w).
Proof.
  intros Re A F. unfold t_next. destruct (run t_place 9 o w) as [[r w']|] eqn:E; [|done].
  by eapply reach_run.
Qed.

(** Few values, and tables with few members. *)
Definition few (h : t_heap) : bool :=
  (size h <=? 9)%nat &&
  forallb (fun e => match val e.2 with hash (Some t) => (size t <=? 9)%nat | _ => true end) (map_to_list h).

Lemma few_enough h : few h = true -> enough 9 h.
Proof.
  intros F. apply andb_true_iff in F as [S M]. apply Nat.leb_le in S. split; [done|].
  intros n v t E Va. rewrite forallb_forall in M.
  specialize (M (n, v) ltac:(by apply list_elem_of_In, elem_of_map_to_list)). simpl in M.
  rewrite Va in M. apply Nat.leb_le in M.
  change (length (map_to_list t) <= 9)%nat. by rewrite length_map_to_list.
Qed.

Lemma t_object_reachable : reachable t_place t_object.
Proof.
  apply t_step; [by apply reach_start|done|]. apply few_enough. vm_compute. reflexivity.
Qed.

Lemma t_string_reachable : reachable t_place t_string.
Proof.
  apply t_step; [apply t_object_reachable| |apply few_enough; vm_compute; reflexivity].
  split; [|done]. unfold cstring. apply (bool_decide_unpack _). vm_compute. exact Logic.I.
Qed.

Lemma t_member_reachable : reachable t_place t_member.
Proof.
  apply t_step; [apply t_string_reachable| |apply few_enough; vm_compute; reflexivity].
  split; [split; [done|]|]; apply (bool_decide_unpack (is_Some _)); vm_compute; exact Logic.I.
Qed.

Lemma codec_calls_typed_witness : reachable t_place t_member /\ sound (w_ext t_member).
Proof.
  split; [apply t_member_reachable|].
  refine (proj1 (codec_calls_typed t_place t_place_fresh t_member t_member_reachable)).
Defined.
