(* ===== verification/CouchRevgen.v ===== *)
(** * CouchDB revision identifiers (revgen-couch/couch-revgen.c)

    A revision identifier is the MD5 digest of the document, its history and its deleted flag
    in Erlang's external term format, written straight into the digest.  The file models the
    traversal with the bytes it feeds to MD5, gives the encoding as a function on trees, shows
    that the traversal computes it, and that the encoding is injective on the documents that
    it represents faithfully.  MD5 is a parameter. *)

From S2P Require Import Prelude Revision Codec.
From Stdlib Require Import Init.Byte.

#[local] Open Scope c_scope.

Definition bytes (l : list Z) : list byte := map z2b l.

Definition _TRUE : list byte := bytes [100; 0; 4; 116; 114; 117; 101].
Definition _FALSE : list byte := bytes [100; 0; 5; 102; 97; 108; 115; 101].
Definition _NULL : list byte := bytes [100; 0; 4; 110; 117; 108; 108].
Definition _HEAD : list byte := bytes [131].
Definition _SMALL_INT : list byte := bytes [97].
Definition _INT : list byte := bytes [98].
Definition _SMALL_TUPLE_ONE : list byte := bytes [104; 1].
Definition _SMALL_TUPLE_TWO : list byte := bytes [104; 2].
Definition _NIL : list byte := bytes [106].
Definition _LIST : list byte := bytes [108].
Definition _BINARY : list byte := bytes [109].
Definition _FLOAT : list byte := bytes [99].
Definition _SMALL_BIG : list byte := bytes [110].
Definition _LARGE_BIG : list byte := bytes [111].

Definition INT32_MAX : Z := 2 ^ 31 - 1.
Definition INT32_MIN : Z := - 2 ^ 31.

(** The four bytes the code spells out with shifts, and the eight. *)
Definition be32 (z : Z) : list byte :=
  map (fun k => z2b (Z.shiftr z k)) [24; 16; 8; 0].

Definition be64 (z : Z) : list byte :=
  map (fun k => z2b (Z.shiftr z k)) [56; 48; 40; 32; 24; 16; 8; 0].

(** [while (c[offset] == 0 && offset < 8) offset++;] from [offset], which reads [c] first. *)
Fixpoint skip_zeros (fuel : nat) (c : list byte) (offset : nat) : outcome nat :=
  match fuel with
  | O => Ret offset
  | S fuel =>
      match c !! offset with
      | None => Undef OutOfBounds
      | Some b => if Byte.eqb b NUL && (offset <? 8)%nat
                  then skip_zeros fuel c (S offset) else Ret offset
      end
  end.

(** The bytes for an integer. *)
Definition hash_integer (i : Z) : outcome (list byte) :=
  if i <? 256 then Ret (_SMALL_INT ++ [z2b i])
  else if (i <=? INT32_MAX) && (INT32_MIN <=? i) then Ret (_INT ++ be32 i)
  else
    let c := be64 i in
    match skip_zeros 9 c 0 with
    | Undef u => Undef u
    | Ret offset =>
        Ret (_SMALL_BIG ++ [z2b (8 - Z.of_nat offset)] ++ [z2b (c_bool (i <? 0))] ++
             reverse (drop offset c))
    end.

(** The bytes for a length and the string itself. *)
Definition hash_binary (s : list byte) : outcome (list byte) :=
  let len := s32 (Z.of_nat (length s)) in
  if len <? 0 then Undef OutOfBounds
  else Ret (_BINARY ++ be32 len ++ take (Z.to_nat len) s).

(** The same for a key, whose length is unsigned. *)
Definition hash_key (k : list byte) : list byte :=
  let keylen := u32 (Z.of_nat (length k)) in
  _BINARY ++ be32 keylen ++ take (Z.to_nat keylen) k.

Definition hash_bignum (negative : bool) (bin : list byte) : list byte :=
  let length := Z.of_nat (length bin) in
  if length <? 256
  then _SMALL_BIG ++ [z2b length] ++ [z2b (c_bool negative)] ++ reverse bin
  else _LARGE_BIG ++ be32 length ++ [z2b (c_bool negative)] ++ reverse bin.

(** [snprintf] into 32 zeroed bytes, of which 31 are hashed. *)
Definition hash_real (text : list byte) : list byte :=
  _FLOAT ++ take 31 (take 31 text ++ replicate 31 x00).

Section hash.
Context {X V I : Type} `{Jansson V I}.

(** The loop over an array, for the [n] items from [i]. *)
Fixpoint hash_items (hash_value : V -> M X (list byte)) (value : V) (n : nat) (i : Z)
  : M X (list byte) :=
  match n with
  | O => ret []
  | S n =>
      match la_codec_array_get value i with
      | None => undef NullDeref
      | Some v =>
          let* b1 := hash_value v in
          let* b2 := hash_items hash_value value n (i + 1) in
          ret (b1 ++ b2)
      end
  end.

(** The loop over an object from an iterator. *)
Fixpoint hash_members (hash_value : V -> M X (list byte)) (value : V) (fuel : nat)
  (iter : option I) : M X (list byte) :=
  match iter, fuel with
  | None, _ => ret []
  | Some _, O => undef Uninitialised
  | Some iter, S fuel =>
      let kb := hash_key (la_codec_object_iter_key iter) in
      let* b1 := hash_value (la_codec_object_iter_value iter) in
      let* b2 := hash_members hash_value value fuel (la_codec_object_iter_next value iter) in
      ret (_SMALL_TUPLE_TWO ++ kb ++ b1 ++ b2)
  end.

(** The bytes [hash_value] feeds to the digest. *)
Fixpoint hash_value (fuel : nat) (value : V) : M X (list byte) :=
  match fuel with
  | O => undef Uninitialised
  | S fuel =>
      match la_codec_typeof value with
      | LA_CODEC_TRUE => ret _TRUE
      | LA_CODEC_FALSE => ret _FALSE
      | LA_CODEC_NULL => ret _NULL
      | LA_CODEC_INTEGER => lift (hash_integer (la_codec_integer_value value))
      | LA_CODEC_BIGNUM =>
          let bin := json_bignum_bytes value in
          let* p := malloc (Z.of_nat (length bin)) in
          match p with
          | None => ret []
          | Some _ => free ;;; ret (hash_bignum (json_bignum_negative value) bin)
          end
      | LA_CODEC_REAL => ret (hash_real (json_real_text value))
      | LA_CODEC_STRING =>
          match la_codec_string_value value with
          | None => undef NullDeref
          | Some str => lift (hash_binary str)
          end
      | LA_CODEC_ARRAY =>
          let len := u32 (la_codec_array_size value) in
          let* items :=
            if 0 <? len then
              let* b := hash_items (hash_value fuel) value (Z.to_nat len) 0 in
              ret (_LIST ++ be32 len ++ b)
            else ret [] in
          ret (items ++ _NIL)
      | LA_CODEC_OBJECT =>
          let len := s32 (la_codec_object_size value) in
          let iter := la_codec_object_iter value in
          let* items :=
            if 0 <? len then
              let* b := hash_members (hash_value fuel) value fuel iter in
              ret (_LIST ++ be32 len ++ b)
            else ret [] in
          ret (_SMALL_TUPLE_ONE ++ items ++ _NIL)
      end
  end.

Context (md5 : list byte -> list byte).

Definition MD5_DIGEST_LENGTH : Z := 16.

(** The return value and the revision. *)
Definition la_revgen (fuel : nat) (value : V) (old_start : Z) (oldrev : option rev_t)
  (is_delete : bool) : M X (Z * rev_t) :=
  let head := _HEAD ++ _LIST ++ bytes [0; 0; 0; 5] ++ (if is_delete then _TRUE else _FALSE) in
  let* start_value := la_codec_integer old_start in
  match start_value with
  | None => undef NullDeref
  | Some sv =>
      let* start := hash_value fuel sv in
      la_codec_decref start_value ;;;
      let old := match oldrev with
                 | None => _SMALL_INT ++ bytes [0]
                 | Some r => _BINARY ++ be32 (Z.of_nat LA_OBJECT_REVISION_LEN) ++ r
                 end in
      let* body := hash_value fuel value in
      let digest := md5 (head ++ start ++ old ++ body ++ _NIL ++ _NIL) in
      ret (MD5_DIGEST_LENGTH, take LA_OBJECT_REVISION_LEN digest)
  end.
End hash.

(** ** The encoding as a function on trees *)

Definition term_integer (i : Z) : list byte :=
  match hash_integer i with Ret b => b | Undef _ => [] end.

Definition term_binary (s : list byte) : list byte :=
  _BINARY ++ be32 (Z.of_nat (length s)) ++ s.

Definition term_list (n : nat) (items : list byte) : list byte :=
  match n with
  | O => _NIL
  | _ => _LIST ++ be32 (Z.of_nat n) ++ items ++ _NIL
  end.

Fixpoint term (t : tree) : list byte :=
  match t with
  | TTrue => _TRUE
  | TFalse => _FALSE
  | TNull => _NULL
  | TInteger i => term_integer i
  | TReal s => hash_real s
  | TBignum n b => hash_bignum n b
  | TString s => term_binary s
  | TArray l => term_list (length l) (concat (map term l))
  | TObject l =>
      _SMALL_TUPLE_ONE ++
        term_list (length l)
          (concat (map (fun e => _SMALL_TUPLE_TWO ++ term_binary e.1 ++ term e.2) l))
  end.

(** What [la_revgen] feeds to the digest. *)
Definition revision_term (deleted : bool) (start : Z) (oldrev : option rev_t) (body : tree)
  : list byte :=
  _HEAD ++ _LIST ++ be32 5 ++ (if deleted then _TRUE else _FALSE) ++ term_integer start ++
  match oldrev with None => term_integer 0 | Some r => term_binary r end ++
  term body ++ _NIL ++ _NIL.

(** Fuel that suffices for a tree. *)
Fixpoint fuel_for (t : tree) : nat :=
  match t with
  | TObject l => S (list_max (length l :: map (fun e => fuel_for e.2) l))
  | TArray l => S (list_max (map fuel_for l))
  | _ => 1
  end.

(** Sizes the C types hold, integers of 64 bits. *)
Fixpoint sizes_ok (t : tree) : bool :=
  match t with
  | TObject l =>
      (Z.of_nat (length l) <? 2 ^ 31) &&
      forallb (fun e => (Z.of_nat (length e.1) <? 2 ^ 31) && sizes_ok e.2) l
  | TArray l => (Z.of_nat (length l) <? 2 ^ 31) && forallb sizes_ok l
  | TString s => Z.of_nat (length s) <? 2 ^ 31
  | TInteger i => (- 2 ^ 63 <=? i) && (i <? 2 ^ 63)
  | TBignum _ b => Z.of_nat (length b) <? 2 ^ 31
  | _ => true
  end.

Lemma hash_binary_ok s :
  Z.of_nat (length s) < 2 ^ 31 -> hash_binary s = Ret (term_binary s).
Proof.
  intros Hs. unfold hash_binary, s32. rewrite Z.mod_small by lia.
  replace (_ - 2 ^ 31) with (Z.of_nat (length s)) by lia.
  rewrite (proj2 (Z.ltb_ge _ 0)) by lia. rewrite Nat2Z.id, take_ge by lia. done.
Qed.

Lemma hash_key_ok s : Z.of_nat (length s) < 2 ^ 31 -> hash_key s = term_binary s.
Proof.
  intros Hs. unfold hash_key, u32. rewrite Z.mod_small by lia.
  by rewrite Nat2Z.id, take_ge by lia.
Qed.

(** An integer above [INT32_MAX] has a byte that is not zero among its eight. *)
Lemma skip_zeros_spec c fuel o :
  (o + fuel = 9)%nat -> length c = 8%nat -> (exists j b, (o <= j)%nat /\ c !! j = Some b /\ b <> NUL) ->
  exists o', skip_zeros fuel c o = Ret o' /\ (o <= o' < 8)%nat /\
    (forall j, (o <= j < o')%nat -> c !! j = Some NUL) /\ c !! o' <> Some NUL.
Proof.
  revert o. induction fuel as [|fuel IH]; intros o Ho Hc (j & b & Hj & Hb & Hne).
  - apply lookup_lt_Some in Hb. lia.
  - pose proof (lookup_lt_Some _ _ _ Hb) as Hlt. cbn [skip_zeros].
    destruct (lookup_lt_is_Some_2 c o) as [b0 Hb0]; [lia|]. rewrite Hb0.
    destruct (byte_eqb_spec b0 NUL) as [->|Hn].
    + rewrite (proj2 (Nat.ltb_lt o 8)) by lia. cbn [andb].
      assert (j <> o) by congruence.
      destruct (IH (S o)) as (o' & -> & Ho' & Hz & Hl); [lia|done|exists j, b; split; [lia|done]|].
      exists o'. split; [done|]. split; [lia|]. split; [|done].
      intros i Hi. destruct (decide (i = o)) as [->|]; [done|]. apply Hz. lia.
    + cbn [andb]. exists o. split; [done|]. split; [lia|]. split; [lia|congruence].
Qed.

Lemma be64_le i : reverse (be64 i) = le_bytes 8 i.
Proof.
  unfold be64. cbn [map]. change (reverse ?l) with (rev_append l []). cbn [rev_append le_bytes].
  rewrite !Z.shiftr_div_pow2 by lia. rewrite !Z.div_div by lia.
  change (2 ^ 0) with 1. rewrite Z.div_1_r. reflexivity.
Qed.

Lemma le_value_app a b : le_value (a ++ b) = le_value a + 256 ^ Z.of_nat (length a) * le_value b.
Proof.
  induction a as [|x a IH]; cbn [app le_value length]; [lia|].
  rewrite IH, Nat2Z.inj_succ, Z.pow_succ_r by lia. lia.
Qed.

Lemma le_value_zeros l : (forall j b, l !! j = Some b -> b = NUL) -> le_value l = 0.
Proof.
  induction l as [|x l IH]; intros Hl; cbn [le_value]; [done|].
  rewrite (Hl 0%nat x eq_refl). rewrite IH; [done|]. intros j b Hj. by apply (Hl (S j)).
Qed.

(** Integers beyond 32 bits: length, sign, and the magnitude without leading zeros. *)
Lemma hash_integer_big i :
  INT32_MAX < i < 2 ^ 63 ->
  exists m, hash_integer i = Ret (_SMALL_BIG ++ [z2b (Z.of_nat (length m))] ++ [x00] ++ m) /\
    (1 <= length m <= 8)%nat /\ le_value m = i /\ 256 ^ Z.of_nat (length m - 1) <= i.
Proof.
  unfold INT32_MAX. intros Hi. unfold hash_integer, INT32_MAX.
  rewrite (proj2 (Z.ltb_ge i 256)) by lia. rewrite (proj2 (Z.leb_gt i _)) by lia. cbn [andb].
  assert (length (be64 i) = 8%nat) as HL by done.
  assert (le_value (reverse (be64 i)) = i) as HV.
  { rewrite be64_le. apply le_value_bytes_small. change (256 ^ Z.of_nat 8) with (2 ^ 64). lia. }
  destruct (skip_zeros_spec (be64 i) 9 0) as (o & Ho & Hor & Hz & Hl); [lia|done| |].
  { destruct (decide (Forall (fun b => b = NUL) (be64 i))) as [Hall|Hn].
    - exfalso. rewrite le_value_zeros in HV; [lia|]. intros j b Hj.
      apply list_elem_of_lookup_2 in Hj. rewrite elem_of_reverse in Hj.
      apply list_elem_of_In in Hj. rewrite Forall_forall in Hall. by apply Hall.
    - apply not_Forall_Exists in Hn; [|apply _]. apply Exists_exists in Hn as (b & Hb & Hne).
      apply list_elem_of_In, list_elem_of_lookup in Hb as (j & Hj). exists j, b. split; [lia|done]. }
  rewrite Ho. exists (reverse (drop o (be64 i))). rewrite length_reverse, length_drop, HL.
  split; [|split].
  - rewrite (proj2 (Z.ltb_ge i 0)) by lia.
    replace (Z.of_nat (8 - o)) with (8 - Z.of_nat o) by lia. done.
  - lia.
  - assert (le_value (reverse (drop o (be64 i))) = i) as HD; [|split; [exact HD|]].
    2: { destruct (lookup_lt_is_Some_2 (be64 i) o) as [b Hb]; [lia|].
      rewrite (drop_S _ _ _ Hb), reverse_cons, le_value_app in HD. cbn [le_value] in HD.
      assert (b2z b <> 0) as Hb0 by (intros E0; apply Hl; rewrite Hb; f_equal; by destruct b).
      pose proof (b2z_range b). rewrite length_reverse, length_drop, HL in HD.
      replace (8 - S o)%nat with (8 - o - 1)%nat in HD by lia.
      pose proof (le_value_bound (reverse (drop (S o) (be64 i)))) as [? _].
      pose proof (Z.pow_nonneg 256 (Z.of_nat (8 - o - 1))). nia. }
    rewrite <- (take_drop o (be64 i)) in HV at 1. rewrite reverse_app, le_value_app in HV.
    rewrite (le_value_zeros (reverse (take o (be64 i)))) in HV; [lia|].
    intros j b Hj. apply list_elem_of_lookup_2 in Hj. rewrite elem_of_reverse in Hj.
    apply list_elem_of_lookup in Hj as (j' & Hj').
    apply lookup_take_Some in Hj' as [Hj' Hlt]. rewrite Hz in Hj' by lia. congruence.
Qed.

Lemma hash_integer_ok i : - 2 ^ 63 <= i < 2 ^ 63 -> hash_integer i = Ret (term_integer i).
Proof.
  intros Hi. unfold term_integer. destruct (decide (INT32_MAX < i)).
  - destruct (hash_integer_big i) as (m & -> & _); [lia|done].
  - unfold hash_integer, INT32_MAX, INT32_MIN in *. destruct (i <? 256) eqn:E; [done|].
    rewrite (proj2 (Z.leb_le i _)) by lia. rewrite (proj2 (Z.leb_le _ i)) by lia. done.
Qed.

(** ** The external term format of Erlang *)

(** The reference, from the description of the format: an unsigned integer of [n] bytes, the
    most significant first; a term begins with its tag. *)
Definition erl_uint (n : nat) (z : Z) : list byte := reverse (le_bytes n z).

Definition erl_atom (name : list byte) : list byte :=
  z2b 100 :: erl_uint 2 (Z.of_nat (length name)) ++ name.

(** The bytes of a magnitude come with the least significant first. *)
Definition erl_big (negative : bool) (magnitude : list byte) : list byte :=
  let n := Z.of_nat (length magnitude) in
  (if n <? 256 then z2b 110 :: erl_uint 1 n else z2b 111 :: erl_uint 4 n) ++
  [if negative then x01 else x00] ++ magnitude.

Definition byte_size (z : Z) : nat := Z.to_nat (Z.log2 z / 8 + 1).

Definition erl_integer (i : Z) : list byte :=
  if (0 <=? i) && (i <? 256) then z2b 97 :: erl_uint 1 i
  else if (- 2 ^ 31 <=? i) && (i <? 2 ^ 31) then z2b 98 :: erl_uint 4 i
  else erl_big (i <? 0) (le_bytes (byte_size (Z.abs i)) (Z.abs i)).

(** The digits of a float in a field of 31 bytes. *)
Definition erl_float (digits : list byte) : list byte :=
  z2b 99 :: digits ++ replicate (31 - length digits) NUL.

Definition erl_binary (s : list byte) : list byte :=
  z2b 109 :: erl_uint 4 (Z.of_nat (length s)) ++ s.

Definition erl_nil : list byte := [z2b 106].

Definition erl_list (items : list (list byte)) : list byte :=
  match items with
  | [] => erl_nil
  | _ => z2b 108 :: erl_uint 4 (Z.of_nat (length items)) ++ concat items ++ erl_nil
  end.

Definition erl_tuple (items : list (list byte)) : list byte :=
  z2b 104 :: erl_uint 1 (Z.of_nat (length items)) ++ concat items.

(** A JSON value as CouchDB has it: an object is a tuple of the list of its members, which are
    pairs; strings are binaries. *)
Fixpoint erl_term (t : tree) : list byte :=
  match t with
  | TTrue => erl_atom (lit "true")
  | TFalse => erl_atom (lit "false")
  | TNull => erl_atom (lit "null")
  | TInteger i => erl_integer i
  | TReal digits => erl_float digits
  | TBignum negative b => erl_big negative (reverse b)
  | TString s => erl_binary s
  | TArray l => erl_list (map erl_term l)
  | TObject l => erl_tuple [erl_list (map (fun e => erl_tuple [erl_binary e.1; erl_term e.2]) l)]
  end.

(** The list [[deleted, start, old revision, body, []]] with the version of the format. *)
Definition erl_revision (deleted : bool) (start : Z) (oldrev : option rev_t) (body : tree)
  : list byte :=
  z2b 131 :: erl_list
    [erl_atom (if deleted then lit "true" else lit "false"); erl_integer start;
     match oldrev with None => erl_integer 0 | Some r => erl_binary r end;
     erl_term body; erl_nil].

(** The numbers the code encodes as the format says: integers that are not negative, reals
    whose digits fit their field. *)
Fixpoint numbers_ok (t : tree) : bool :=
  match t with
  | TObject l => forallb (fun e => numbers_ok e.2) l
  | TArray l => forallb numbers_ok l
  | TInteger i => 0 <=? i
  | TReal digits => (length digits <=? 31)%nat
  | _ => true
  end.

Lemma be32_erl z : be32 z = erl_uint 4 z.
Proof.
  unfold be32, erl_uint. cbn [map le_bytes]. change (reverse ?l) with (rev_append l []). cbn [rev_append].
  rewrite !Z.shiftr_div_pow2 by lia. rewrite !Z.div_div by lia.
  change (2 ^ 0) with 1. rewrite Z.div_1_r. reflexivity.
Qed.

Lemma le_bytes_value m : le_bytes (length m) (le_value m) = m.
Proof.
  induction m as [|b m IH]; cbn [length le_bytes le_value]; [done|].
  pose proof (b2z_range b).
  assert ((b2z b + 256 * le_value m) / 256 = le_value m) as ->.
  { rewrite (Z.mul_comm 256), Z.div_add by lia. rewrite Z.div_small by lia. lia. }
  rewrite IH. f_equal. apply b2z_inj. rewrite b2z_z2b.
  rewrite (Z.mul_comm 256), Z.mod_add by lia. apply Z.mod_small. lia.
Qed.

Lemma byte_size_value m k : length m = S k -> 256 ^ Z.of_nat k <= le_value m ->
  byte_size (le_value m) = length m.
Proof.
  intros Hk Hlow. pose proof (le_value_bound m) as [_ Hup]. rewrite Hk in Hup |- *.
  unfold byte_size. change 256 with (2 ^ 8) in Hlow, Hup. rewrite <- Z.pow_mul_r in Hlow, Hup by lia.
  assert (0 < le_value m) as Hp.
  { pose proof (Z.pow_pos_nonneg 2 (8 * Z.of_nat k)). lia. }
  apply Z.log2_le_pow2 in Hlow; [|done]. apply Z.log2_lt_pow2 in Hup; [|done].
  assert (Z.log2 (le_value m) / 8 = Z.of_nat k) as ->; [|lia].
  symmetry. apply (Z.div_unique_pos _ _ _ (Z.log2 (le_value m) - 8 * Z.of_nat k)); lia.
Qed.

Lemma term_integer_erl i : 0 <= i < 2 ^ 63 -> term_integer i = erl_integer i.
Proof.
  intros Hi. unfold erl_integer. destruct (decide (INT32_MAX < i)) as [Hb|Hb].
  - destruct (hash_integer_big i) as (m & E & Hm & Hv & Hlow); [lia|].
    unfold term_integer. rewrite E. unfold INT32_MAX in Hb.
    rewrite (proj2 (Z.ltb_ge i 256)), andb_false_r by lia.
    rewrite (proj2 (Z.ltb_ge i (2 ^ 31))), andb_false_r by lia.
    rewrite (proj2 (Z.ltb_ge i 0)), Z.abs_eq by lia. subst i.
    rewrite (byte_size_value m (length m - 1)) by lia. rewrite le_bytes_value. unfold erl_big.
    rewrite (proj2 (Z.ltb_lt (Z.of_nat (length m)) 256)) by lia. reflexivity.
  - unfold term_integer, hash_integer, INT32_MAX, INT32_MIN in *.
    rewrite (proj2 (Z.leb_le 0 i)) by lia. cbn [andb].
    destruct (Z.ltb_spec i 256); [reflexivity|].
    rewrite (proj2 (Z.leb_le i (2 ^ 31 - 1))), (proj2 (Z.leb_le (- 2 ^ 31) i)), (proj2 (Z.ltb_lt i (2 ^ 31))) by lia.
    cbn [andb]. by rewrite be32_erl.
Qed.

Lemma term_list_erl {A} (f : A -> list byte) (l : list A) :
  term_list (length l) (concat (map f l)) = erl_list (map f l).
Proof.
  destruct l as [|x l]; [done|].
  change (erl_list (map f (x :: l))) with (z2b 108 :: erl_uint 4 (Z.of_nat (length (map f (x :: l)))) ++
    concat (map f (x :: l)) ++ erl_nil).
  rewrite length_map, <- be32_erl. reflexivity.
Qed.

Lemma term_binary_erl s : term_binary s = erl_binary s.
Proof. unfold term_binary, erl_binary. by rewrite be32_erl. Qed.

Lemma hash_real_erl s : (length s <= 31)%nat -> hash_real s = erl_float s.
Proof.
  intros Hs. unfold hash_real, erl_float. rewrite (take_ge s) by lia.
  rewrite take_app_ge, take_replicate by lia. by rewrite Nat.min_l by lia.
Qed.

Lemma hash_bignum_erl n b : hash_bignum n b = erl_big n (reverse b).
Proof.
  unfold hash_bignum, erl_big. cbv zeta. rewrite length_reverse, be32_erl.
  by destruct n, (Z.of_nat (length b) <? 256).
Qed.

(** The bytes of the code are the external term. *)
Lemma term_erl t : sizes_ok t = true -> numbers_ok t = true -> term t = erl_term t.
Proof.
  induction t as [l IH|l IH|s|i|s| | | |n b] using tree_ind'; intros Hs Hn;
    cbn [sizes_ok numbers_ok term erl_term] in *.
  - apply andb_true_iff in Hs as [_ Hs]. rewrite forallb_forall in Hs, Hn.
    rewrite (term_list_erl (fun e : list byte * tree => _SMALL_TUPLE_TWO ++ term_binary e.1 ++ term e.2)).
    unfold erl_tuple at 1. cbn [concat length]. rewrite app_nil_r.
    change (_SMALL_TUPLE_ONE) with (z2b 104 :: erl_uint 1 (Z.of_nat 1)). cbn [app]. do 3 f_equal.
    apply map_ext_in. intros e He. rewrite Forall_forall in IH.
    pose proof (Hs e He) as [_ Hse]%andb_true_iff. rewrite (IH e He Hse (Hn e He)), term_binary_erl.
    unfold erl_tuple. cbn [concat length]. by rewrite app_nil_r.
  - apply andb_true_iff in Hs as [_ Hs]. rewrite forallb_forall in Hs, Hn. rewrite term_list_erl. f_equal.
    apply map_ext_in. intros e He. rewrite Forall_forall in IH. by apply IH; [|apply Hs|apply Hn].
  - apply term_binary_erl.
  - apply term_integer_erl. lia.
  - apply hash_real_erl. by apply Nat.leb_le.
  - reflexivity.
  - reflexivity.
  - reflexivity.
  - apply hash_bignum_erl.
Qed.

Lemma revision_term_erl deleted start oldrev body :
  0 <= start < 2 ^ 63 -> sizes_ok body = true -> numbers_ok body = true ->
  revision_term deleted start oldrev body = erl_revision deleted start oldrev body.
Proof.
  intros Hst Hs Hn. unfold revision_term, erl_revision, erl_list.
  rewrite term_integer_erl, term_erl by done.
  assert (match oldrev with None => term_integer 0 | Some r => term_binary r end =
    match oldrev with None => erl_integer 0 | Some r => erl_binary r end) as ->
    by (destruct oldrev; [apply term_binary_erl|done]).
  rewrite be32_erl. unfold erl_nil. cbn [concat length]. rewrite app_nil_r, <- !app_assoc.
  by destruct deleted.
Qed.

Section traversal.
Context {X V I : Type} `{JanssonLaws V I}.
Implicit Types w : world X.

Definition hashes (h : V -> M X (list byte)) (v : V) : Prop :=
  forall w, mem_ok w -> wp (h v) w (fun b w' => b = term (tree_of v) /\ frame 0 w w').

Lemma wp_hash_items h v l :
  tree_of v = TArray l -> (forall v', tree_of v' ∈ l -> hashes h v') ->
  forall n i w, (i + n = length l)%nat -> mem_ok w ->
  wp (hash_items h v n (Z.of_nat i)) w
    (fun b w' => b = concat (map term (drop i l)) /\ frame 0 w w').
Proof.
  intros Hv Hh. destruct (array_law v l Hv) as [_ Hget].
  induction n as [|n IH]; intros i w Hi Hm; cbn [hash_items].
  - apply wp_ret. rewrite drop_ge by lia. split; [done|apply frame_refl].
  - destruct (Hget (Z.of_nat i)) as (v' & Hg & Hl); [lia|].
    unfold la_codec_array_get. rewrite Hg. rewrite Nat2Z.id in Hl.
    wp_step. eapply wp_mono; [apply Hh; [by eapply list_elem_of_lookup_2|done]|].
    intros b1 w1 [-> Hf1]. wp_step.
    replace (Z.of_nat i + 1) with (Z.of_nat (S i)) by lia.
    eapply wp_mono; [apply IH; [lia|by eapply frame_mem_ok]|].
    intros b2 w2 [-> Hf2]. apply wp_ret. split; [|solve_frame].
    by rewrite (drop_S _ _ _ Hl).
Qed.

Lemma wp_hash_members h v :
  forall l fuel it w,
  map (fun e => (e.1, tree_of e.2)) (iter_rest v it) = l -> (length l <= fuel)%nat ->
  Forall (fun e => Z.of_nat (length e.1) < 2 ^ 31) l ->
  (forall v' k, (k, tree_of v') ∈ l -> hashes h v') -> mem_ok w ->
  wp (hash_members h v fuel it) w (fun b w' =>
    b = concat (map (fun e => _SMALL_TUPLE_TWO ++ term_binary e.1 ++ term e.2) l) /\ frame 0 w w').
Proof.
  induction l as [|[k t] l IH]; intros fuel it w Hl Hf Hk Hh Hm; pose proof (iter_law v it) as Hit.
  - destruct it as [i|]; [by rewrite Hit in Hl|]. destruct fuel; (apply wp_ret; split; [done|apply frame_refl]).
  - destruct it as [i|]; [|by rewrite Hit in Hl]. rewrite Hit in Hl. cbn [map fst snd] in Hl.
    injection Hl as <- <- Hl. cbn [length] in Hf. destruct fuel as [|fuel]; [lia|].
    apply Forall_cons_1 in Hk as [Hkl Hk]. cbn [hash_members fst] in *.
    unfold la_codec_object_iter_key, la_codec_object_iter_value, la_codec_object_iter_next.
    rewrite hash_key_ok by done. wp_step.
    eapply wp_mono; [eapply Hh; [by left|done]|]. intros b1 w1 [-> Hf1]. wp_step.
    eapply wp_mono; [apply IH; [done|lia|done| |by eapply frame_mem_ok]|].
    { intros v' k' Hin. eapply Hh. by right. }
    intros b2 w2 [-> Hf2]. apply wp_ret. split; [|solve_frame].
    cbn [map concat fst snd]. by rewrite <- !app_assoc.
Qed.

Lemma fuel_for_item l t : t ∈ l -> (fuel_for t <= list_max (map fuel_for l))%nat.
Proof.
  intros Hin. pose proof (proj1 (list_max_le (map fuel_for l) _) (le_n _)) as HA.
  rewrite Forall_forall in HA. apply HA. apply in_map. by apply list_elem_of_In.
Qed.

Lemma fuel_for_member (l : list (list byte * tree)) k t :
  (k, t) ∈ l -> (fuel_for t <= list_max (map (fun e => fuel_for e.2) l))%nat.
Proof.
  intros Hin. pose proof (proj1 (list_max_le (map (fun e => fuel_for e.2) l) _) (le_n _)) as HA.
  rewrite Forall_forall in HA. apply HA.
  apply (in_map (fun e => fuel_for e.2) l (k, t)). by apply list_elem_of_In.
Qed.

Lemma wp_hash_value t : forall v fuel w,
  tree_of v = t -> sizes_ok t = true -> (fuel_for t <= fuel)%nat -> mem_ok w ->
  wp (hash_value fuel v) w (fun b w' => b = term t /\ frame 0 w w').
Proof.
  induction t as [l IH|l IH|s|i|s| | | |n b] using tree_ind'; intros v fuel w Hv Hs Hf Hm;
    cbn [fuel_for] in Hf; (destruct fuel as [|fuel]; [lia|]); cbn [hash_value];
    unfold la_codec_typeof; rewrite (typeof_law v), Hv; cbn [tree_type].
  - cbn [sizes_ok] in Hs. apply andb_true_iff in Hs as [Hn Hs]. apply Z.ltb_lt in Hn.
    destruct (object_law v l Hv) as (Hsz & Hit & _). cbv zeta.
    unfold la_codec_object_size, la_codec_object_iter. rewrite Hsz. unfold s32.
    rewrite Z.mod_small by lia. replace (_ - 2 ^ 31) with (Z.of_nat (length l)) by lia.
    cbn [term]. destruct l as [|e l].
    + wp_steps. split; [done|apply frame_refl].
    + rewrite (proj2 (Z.ltb_lt 0 _)) by (simpl; lia). wp_step. wp_step.
      eapply wp_mono; [eapply wp_hash_members; [exact Hit| | | |done]|].
      * cbn [list_max fold_right] in Hf. lia.
      * apply Forall_forall. intros x Hx. rewrite forallb_forall in Hs.
        specialize (Hs x Hx). lia.
      * intros v' k Hin w' Hm'. rewrite Forall_forall in IH.
        pose proof Hin as Hin'. apply list_elem_of_In in Hin'.
        apply (IH _ Hin' v'); [done| | |done].
        -- rewrite forallb_forall in Hs. specialize (Hs _ Hin'). by apply andb_true_iff in Hs as [_ Hs].
        -- pose proof (fuel_for_member _ _ _ Hin). cbn [list_max fold_right snd] in *. unfold list_max in *. lia.
      * intros b w1 [-> Hf1]. apply wp_ret. apply wp_ret. split; [|done].
        cbn [length term_list]. by rewrite <- !app_assoc.
  - cbn [sizes_ok] in Hs. apply andb_true_iff in Hs as [Hn Hs]. apply Z.ltb_lt in Hn.
    destruct (array_law v l Hv) as (Hsz & _). cbv zeta.
    unfold la_codec_array_size. rewrite Hsz. unfold u32. rewrite Z.mod_small by lia.
    cbn [term]. destruct l as [|e l].
    + wp_steps. split; [done|apply frame_refl].
    + rewrite (proj2 (Z.ltb_lt 0 _)) by (simpl; lia). wp_step. wp_step. rewrite Nat2Z.id.
      eapply wp_mono; [apply (wp_hash_items _ v (e :: l) Hv) with (i := 0%nat); [|done|done]|].
      * intros v' Hin w' Hm'. rewrite Forall_forall in IH.
        pose proof Hin as Hin'. apply list_elem_of_In in Hin'.
        apply (IH _ Hin' v'); [done| | |done].
        -- rewrite forallb_forall in Hs. by apply Hs.
        -- pose proof (fuel_for_item _ _ Hin). lia.
      * intros b w1 [-> Hf1]. apply wp_ret. apply wp_ret. split; [|done].
        cbn [length term_list]. by rewrite drop_0, <- !app_assoc.
  - unfold la_codec_string_value. rewrite (string_law v s Hv).
    rewrite hash_binary_ok by (by apply Z.ltb_lt). apply wp_lift. split; [done|apply frame_refl].
  - unfold la_codec_integer_value. rewrite (integer_law v i Hv).
    cbn [sizes_ok] in Hs. rewrite hash_integer_ok by lia. apply wp_lift.
    split; [done|apply frame_refl].
  - rewrite (real_law v s Hv). apply wp_ret. split; [done|apply frame_refl].
  - apply wp_ret. split; [done|apply frame_refl].
  - apply wp_ret. split; [done|apply frame_refl].
  - apply wp_ret. split; [done|apply frame_refl].
  - destruct (bignum_law v n b Hv) as [-> ->]. cbv zeta. apply Z.ltb_lt in Hs.
    wp_step. apply wp_malloc; [lia| |].
    + intros p w1 _ _ Hf1 _. cbv beta iota. wp_steps. split; [done|solve_frame].
    + intros w1 Hno _ _. exfalso. apply Hno. split; [done|]. unfold PTRDIFF_MAX. lia.
Qed.
End traversal.

(** ** Reading the encoding back *)

Definition be_value (l : list byte) : Z := le_value (reverse l).

(** The next [n] bytes and the rest. *)
Definition get_bytes (n : Z) (s : list byte) : option (list byte * list byte) :=
  if n <=? Z.of_nat (length s) then Some (take (Z.to_nat n) s, drop (Z.to_nat n) s) else None.

(** What precedes the padding of a real. *)
Fixpoint until_nul (s : list byte) : list byte :=
  match s with
  | [] => []
  | b :: s => if Byte.eqb b NUL then [] else b :: until_nul s
  end.

Fixpoint parse_items (parse : list byte -> option (tree * list byte)) (n : nat) (s : list byte)
  : option (list tree * list byte) :=
  match n with
  | O => Some ([], s)
  | S n =>
      '(t, s) ← parse s;
      '(l, s) ← parse_items parse n s;
      Some (t :: l, s)
  end.

Fixpoint parse_members (parse : list byte -> option (tree * list byte)) (n : nat) (s : list byte)
  : option (list (list byte * tree) * list byte) :=
  match n with
  | O => Some ([], s)
  | S n =>
      '(_, s) ← get_bytes 3 s;
      '(len, s) ← get_bytes 4 s;
      '(k, s) ← get_bytes (be_value len) s;
      '(t, s) ← parse s;
      '(l, s) ← parse_members parse n s;
      Some ((k, t) :: l, s)
  end.

(** A big integer is one the codec has in 64 bits, or a bignum. *)
Definition big (negative : bool) (m : list byte) : tree :=
  if le_value m <? 2 ^ 63 then TInteger (le_value m) else TBignum negative (reverse m).

Fixpoint parse_term (fuel : nat) (s : list byte) : option (tree * list byte) :=
  match fuel, s with
  | S fuel, tag :: s =>
      let tag := b2z tag in
      if tag =? 100 then
        '(len, s) ← get_bytes 2 s;
        '(name, s) ← get_bytes (be_value len) s;
        Some (if decide (name = lit "true") then TTrue
              else if decide (name = lit "false") then TFalse else TNull, s)
      else if tag =? 97 then '(b, s) ← get_bytes 1 s; Some (TInteger (be_value b), s)
      else if tag =? 98 then '(b, s) ← get_bytes 4 s; Some (TInteger (be_value b), s)
      else if tag =? 110 then
        '(len, s) ← get_bytes 1 s;
        '(sign, s) ← get_bytes 1 s;
        '(m, s) ← get_bytes (be_value len) s;
        Some (big (be_value sign =? 1) m, s)
      else if tag =? 111 then
        '(len, s) ← get_bytes 4 s;
        '(sign, s) ← get_bytes 1 s;
        '(m, s) ← get_bytes (be_value len) s;
        Some (big (be_value sign =? 1) m, s)
      else if tag =? 99 then '(b, s) ← get_bytes 31 s; Some (TReal (until_nul b), s)
      else if tag =? 109 then
        '(len, s) ← get_bytes 4 s;
        '(b, s) ← get_bytes (be_value len) s;
        Some (TString b, s)
      else if tag =? 106 then Some (TArray [], s)
      else if tag =? 108 then
        '(len, s) ← get_bytes 4 s;
        '(l, s) ← parse_items (parse_term fuel) (Z.to_nat (be_value len)) s;
        '(_, s) ← get_bytes 1 s;
        Some (TArray l, s)
      else if tag =? 104 then
        '(_, s) ← get_bytes 1 s;
        '(b, s) ← get_bytes 1 s;
        if decide (b = _NIL) then Some (TObject [], s)
        else
          '(len, s) ← get_bytes 4 s;
          '(l, s) ← parse_members (parse_term fuel) (Z.to_nat (be_value len)) s;
          '(_, s) ← get_bytes 1 s;
          Some (TObject l, s)
      else None
  | _, _ => None
  end.

(** What the encoding keeps apart: integers that are not negative, reals that fit their field,
    bignums that are none of the integers. *)
Fixpoint faithful (t : tree) : bool :=
  match t with
  | TObject l =>
      (Z.of_nat (length l) <? 2 ^ 31) &&
      forallb (fun e => (Z.of_nat (length e.1) <? 2 ^ 31) && faithful e.2) l
  | TArray l => (Z.of_nat (length l) <? 2 ^ 31) && forallb faithful l
  | TString s => Z.of_nat (length s) <? 2 ^ 31
  | TInteger i => (0 <=? i) && (i <? 2 ^ 63)
  | TReal s => (Z.of_nat (length s) <=? 31) && forallb (fun b => negb (Byte.eqb b NUL)) s
  | TBignum _ b => (Z.of_nat (length b) <? 2 ^ 31) && (2 ^ 63 <=? be_value b)
  | _ => true
  end.

Lemma get_bytes_app a s n : n = Z.of_nat (length a) -> get_bytes n (a ++ s) = Some (a, s).
Proof.
  intros ->. unfold get_bytes. rewrite (proj2 (Z.leb_le _ _)) by (rewrite length_app; lia).
  by rewrite Nat2Z.id, take_app_length, drop_app_length.
Qed.

Lemma be32_value z : 0 <= z < 2 ^ 32 -> be_value (be32 z) = z.
Proof.
  intros Hz. unfold be_value.
  assert (reverse (be32 z) = le_bytes 4 z) as ->.
  { unfold be32. cbn [map]. change (reverse ?l) with (rev_append l []). cbn [rev_append le_bytes].
    rewrite !Z.shiftr_div_pow2 by lia. rewrite !Z.div_div by lia.
    change (2 ^ 0) with 1. rewrite Z.div_1_r. reflexivity. }
  apply le_value_bytes_small. change (256 ^ Z.of_nat 4) with (2 ^ 32). lia.
Qed.

Lemma be1_value z : 0 <= z < 256 -> be_value [z2b z] = z.
Proof. intros Hz. unfold be_value. cbn. rewrite b2z_z2b, Z.mod_small by lia. lia. Qed.

Lemma until_nul_pad s n :
  forallb (fun b => negb (Byte.eqb b NUL)) s = true -> until_nul (s ++ replicate n x00) = s.
Proof.
  induction s as [|b s IH]; cbn [forallb app until_nul].
  - by destruct n.
  - intros [Hb Hs]%andb_true_iff. apply negb_true_iff in Hb. rewrite Hb. by rewrite IH.
Qed.

(** [get_bytes] of what stands first. *)
Ltac get := rewrite get_bytes_app by (rewrite ?be32_value, ?be1_value by lia; simpl; lia);
  cbn [mbind option_bind].

Lemma parse_binary s r :
  Z.of_nat (length s) < 2 ^ 31 ->
  (('(len, x) ← get_bytes 4 (be32 (Z.of_nat (length s)) ++ s ++ r);
    '(b, x) ← get_bytes (be_value len) x; Some (b, x))) = Some (s, r).
Proof. intros Hs. get. by get. Qed.

Lemma parse_items_ok parse l r :
  Forall (fun t => forall r, parse (term t ++ r) = Some (t, r)) l ->
  parse_items parse (length l) (concat (map term l) ++ r) = Some (l, r).
Proof.
  induction 1 as [|t l Ht _ IH]; cbn [length parse_items map concat]; [done|].
  rewrite <- app_assoc, Ht. cbn [mbind option_bind]. by rewrite IH.
Qed.

Lemma parse_members_ok parse (l : list (list byte * tree)) r :
  Forall (fun e => Z.of_nat (length e.1) < 2 ^ 31 /\
                   forall r, parse (term e.2 ++ r) = Some (e.2, r)) l ->
  parse_members parse (length l)
    (concat (map (fun e => _SMALL_TUPLE_TWO ++ term_binary e.1 ++ term e.2) l) ++ r) = Some (l, r).
Proof.
  induction 1 as [|[k t] l [Hk Ht] _ IH]; cbn [length parse_members map concat fst snd] in *; [done|].
  unfold term_binary.
  replace (_ ++ r) with ((_SMALL_TUPLE_TWO ++ _BINARY) ++ be32 (Z.of_nat (length k)) ++ k ++ term t ++
    concat (map (fun e => _SMALL_TUPLE_TWO ++ term_binary e.1 ++ term e.2) l) ++ r)
    by (unfold term_binary; by rewrite <- !app_assoc).
  get. get. get. rewrite Ht. cbn [mbind option_bind]. by rewrite IH.
Qed.


Lemma big_integer n m i : le_value m = i -> i < 2 ^ 63 -> big n m = TInteger i.
Proof. unfold big. intros -> Hi. by rewrite (proj2 (Z.ltb_lt _ _)). Qed.

Lemma big_bignum n b : 2 ^ 63 <= be_value b -> big n (reverse b) = TBignum n b.
Proof.
  unfold big. intros Hb. rewrite (proj2 (Z.ltb_ge _ _)) by done. by rewrite reverse_involutive.
Qed.

Lemma term_integer_cases i :
  0 <= i < 2 ^ 63 ->
  term_integer i = _SMALL_INT ++ [z2b i] /\ i < 256 \/
  term_integer i = _INT ++ be32 i /\ i < 2 ^ 31 \/
  exists m, term_integer i = _SMALL_BIG ++ [z2b (Z.of_nat (length m))] ++ [x00] ++ m /\
    (length m <= 8)%nat /\ le_value m = i.
Proof.
  intros Hi. destruct (decide (INT32_MAX < i)).
  - right; right. destruct (hash_integer_big i) as (m & E & ? & ? & _); [lia|].
    exists m. unfold term_integer. rewrite E. split; [done|]. split; [lia|done].
  - unfold term_integer, hash_integer, INT32_MAX, INT32_MIN in *.
    destruct (i <? 256) eqn:E; [left; split; [done|lia]|right; left].
    rewrite (proj2 (Z.leb_le i _)) by lia. rewrite (proj2 (Z.leb_le _ i)) by lia.
    split; [done|lia].
Qed.

Lemma parse_integer fuel i r :
  0 <= i < 2 ^ 63 -> parse_term (S fuel) (term_integer i ++ r) = Some (TInteger i, r).
Proof.
  intros Hi. destruct (term_integer_cases i Hi) as [[-> ?]|[[-> ?]|(m & -> & Hm & Hv)]].
  - change ((_SMALL_INT ++ [z2b i]) ++ r) with (z2b 97 :: [z2b i] ++ r).
    cbn [parse_term]. change (b2z (z2b 97)) with 97. cbn [Z.eqb Pos.eqb].
    get. by rewrite be1_value by lia.
  - rewrite <- app_assoc. change (_INT ++ ?s) with (z2b 98 :: s).
    cbn [parse_term]. change (b2z (z2b 98)) with 98. cbn [Z.eqb Pos.eqb].
    get. by rewrite be32_value by lia.
  - rewrite <- !app_assoc. change (_SMALL_BIG ++ ?s) with (z2b 110 :: s).
    cbn [parse_term]. change (b2z (z2b 110)) with 110. cbn [Z.eqb Pos.eqb].
    get. get. get. by rewrite (big_integer _ m i) by lia.
Qed.

Lemma parse_bignum fuel n b r :
  Z.of_nat (length b) < 2 ^ 31 -> 2 ^ 63 <= be_value b ->
  parse_term (S fuel) (hash_bignum n b ++ r) = Some (TBignum n b, r).
Proof.
  intros Hl Hb. unfold hash_bignum. cbv zeta.
  assert ((be_value [z2b (c_bool n)] =? 1) = n) as Hn by (destruct n; reflexivity).
  destruct (Z.of_nat (length b) <? 256) eqn:E; rewrite <- !app_assoc.
  - apply Z.ltb_lt in E. change (_SMALL_BIG ++ ?s) with (z2b 110 :: s).
    cbn [parse_term]. change (b2z (z2b 110)) with 110. cbn [Z.eqb Pos.eqb].
    get. get. rewrite get_bytes_app by (rewrite be1_value, length_reverse by lia; lia).
    cbn [mbind option_bind]. by rewrite Hn, big_bignum.
  - change (_LARGE_BIG ++ ?s) with (z2b 111 :: s).
    cbn [parse_term]. change (b2z (z2b 111)) with 111. cbn [Z.eqb Pos.eqb].
    get. get. rewrite get_bytes_app by (rewrite be32_value, length_reverse by lia; lia).
    cbn [mbind option_bind]. by rewrite Hn, big_bignum.
Qed.

Lemma parse_real fuel s r :
  Z.of_nat (length s) <= 31 -> forallb (fun b => negb (Byte.eqb b NUL)) s = true ->
  parse_term (S fuel) (hash_real s ++ r) = Some (TReal s, r).
Proof.
  intros Hl Hs. unfold hash_real. rewrite <- app_assoc. change (_FLOAT ++ ?s) with (z2b 99 :: s).
  cbn [parse_term]. change (b2z (z2b 99)) with 99. cbn [Z.eqb Pos.eqb].
  rewrite get_bytes_app by (rewrite length_take, length_app, length_replicate, length_take; lia).
  cbn [mbind option_bind]. rewrite (take_ge s) by lia.
  rewrite take_app_ge by lia. rewrite take_replicate. by rewrite until_nul_pad.
Qed.

Lemma parse_string fuel s r :
  Z.of_nat (length s) < 2 ^ 31 -> parse_term (S fuel) (term_binary s ++ r) = Some (TString s, r).
Proof.
  intros Hs. unfold term_binary. rewrite <- !app_assoc. change (_BINARY ++ ?s) with (z2b 109 :: s).
  cbn [parse_term]. change (b2z (z2b 109)) with 109. cbn [Z.eqb Pos.eqb]. get. by get.
Qed.

(** Atoms: a length of two bytes and a name. *)
Lemma parse_atom fuel name t r :
  Z.of_nat (length name) < 256 ->
  (if decide (name = lit "true") then TTrue
   else if decide (name = lit "false") then TFalse else TNull) = t ->
  parse_term (S fuel) (z2b 100 :: [x00; z2b (Z.of_nat (length name))] ++ name ++ r) = Some (t, r).
Proof.
  intros Hl <-. cbn [parse_term]. change (b2z (z2b 100)) with 100. cbn [Z.eqb Pos.eqb].
  get. rewrite get_bytes_app; [done|].
  unfold be_value. cbn. rewrite b2z_z2b, Z.mod_small by lia. change (b2z x00) with 0. lia.
Qed.

Lemma parse_term_ok t : forall fuel r,
  faithful t = true -> (fuel_for t <= fuel)%nat -> parse_term fuel (term t ++ r) = Some (t, r).
Proof.
  induction t as [l IH|l IH|s|i|s| | | |n b] using tree_ind'; intros fuel r Hs Hf;
    cbn [fuel_for] in Hf; (destruct fuel as [|fuel]; [lia|]); cbn [faithful term] in *.
  - apply andb_true_iff in Hs as [Hn Hs]. apply Z.ltb_lt in Hn. rewrite <- app_assoc.
    change (_SMALL_TUPLE_ONE ++ ?s) with (z2b 104 :: [z2b 1] ++ s).
    cbn [parse_term]. change (b2z (z2b 104)) with 104. cbn [Z.eqb Pos.eqb]. get.
    destruct l as [|e l].
    + cbn [length term_list]. get. by rewrite decide_True.
    + change (term_list (length (e :: l)) ?x)
        with (_LIST ++ be32 (Z.of_nat (length (e :: l))) ++ x ++ _NIL).
      rewrite <- !app_assoc. get. rewrite decide_False by done. get.
      rewrite be32_value by lia. rewrite Nat2Z.id.
      rewrite parse_members_ok; [cbn [mbind option_bind]; by get|].
      apply Forall_forall. intros x Hx. rewrite Forall_forall in IH. rewrite forallb_forall in Hs.
      specialize (Hs x Hx). apply andb_true_iff in Hs as [Hk Ht]. split; [lia|].
      intros r'. apply IH; [done|done|]. destruct x as [k t]. cbn [snd] in *.
      pose proof (fuel_for_member (e :: l) k t) as HM. rewrite list_elem_of_In in HM. specialize (HM Hx).
      cbn [list_max fold_right] in *. unfold list_max in *. lia.
  - apply andb_true_iff in Hs as [Hn Hs]. apply Z.ltb_lt in Hn.
    destruct l as [|e l]; [reflexivity|].
    change (term_list (length (e :: l)) ?x)
      with (_LIST ++ be32 (Z.of_nat (length (e :: l))) ++ x ++ _NIL).
    rewrite <- !app_assoc. change (_LIST ++ ?s) with (z2b 108 :: s).
    cbn [parse_term]. change (b2z (z2b 108)) with 108. cbn [Z.eqb Pos.eqb]. get.
    rewrite be32_value by lia. rewrite Nat2Z.id.
    rewrite parse_items_ok; [cbn [mbind option_bind]; by get|].
    apply Forall_forall. intros x Hx. rewrite Forall_forall in IH. rewrite forallb_forall in Hs.
    intros r'. apply IH; [done|by apply Hs|].
    pose proof (fuel_for_item (e :: l) x) as HM. rewrite list_elem_of_In in HM. specialize (HM Hx). lia.
  - apply parse_string. lia.
  - apply parse_integer. lia.
  - apply andb_true_iff in Hs as [Hl Hs]. apply parse_real; [lia|done].
  - by apply (parse_atom fuel (lit "true") TTrue).
  - by apply (parse_atom fuel (lit "false") TFalse).
  - by apply (parse_atom fuel (lit "null") TNull).
  - apply andb_true_iff in Hs as [Hl Hb]. apply parse_bignum; lia.
Qed.

(** ** Properties *)

Lemma term_app_inj t1 t2 r1 r2 :
  faithful t1 = true -> faithful t2 = true -> term t1 ++ r1 = term t2 ++ r2 -> t1 = t2 /\ r1 = r2.
Proof.
  intros H1 H2 E. set (fuel := Nat.max (fuel_for t1) (fuel_for t2)).
  pose proof (parse_term_ok t1 fuel r1 H1 ltac:(lia)) as P1.
  pose proof (parse_term_ok t2 fuel r2 H2 ltac:(lia)) as P2.
  rewrite E, P2 in P1. by injection P1 as -> ->.
Qed.

Definition flag_tree (deleted : bool) : tree := if deleted then TTrue else TFalse.
Definition oldrev_tree (oldrev : option rev_t) : tree :=
  match oldrev with None => TInteger 0 | Some r => TString r end.

Lemma revision_term_trees deleted start oldrev body :
  revision_term deleted start oldrev body =
    (_HEAD ++ _LIST ++ be32 5) ++ term (flag_tree deleted) ++ term (TInteger start) ++
    term (oldrev_tree oldrev) ++ term body ++ _NIL ++ _NIL.
Proof.
  unfold revision_term. rewrite <- !app_assoc. by destruct deleted, oldrev.
Qed.

Definition oldrev_ok (oldrev : option rev_t) : Prop :=
  match oldrev with Some r => length r = 16%nat | None => True end.

Lemma wp_la_revgen {X V I} `{JanssonLaws V I} md5 fuel (v : V) start oldrev deleted (w : world X) :
  (S (fuel_for (tree_of v)) <= S fuel)%nat -> sizes_ok (tree_of v) = true ->
  0 <= start < 2 ^ 63 -> oldrev_ok oldrev -> json_integer start <> None -> mem_ok w ->
  wp (la_revgen md5 fuel v start oldrev deleted) w (fun res w' =>
    res = (16, take 16 (md5 (revision_term deleted start oldrev (tree_of v)))) /\ frame 0 w w').
Proof.
  intros Hf Hs Hst Ho Hint Hm. unfold la_revgen. cbv zeta. wp_step.
  unfold la_codec_integer, new_ref, wp at 1.
  replace (s64 start) with start by (unfold s64; rewrite Z.mod_small; lia).
  destruct (json_integer start) as [sv|] eqn:E; [|done].
  pose proof (integer_new_law start sv E) as Hsv. set (w1 := World _ _ _ _ _).
  assert (frame 1 w w1) as Hf1 by (by repeat split). clearbody w1.
  assert (1 <= fuel_for (tree_of v))%nat by (destruct (tree_of v); simpl; lia).
  wp_step. eapply wp_mono.
  { apply (wp_hash_value (TInteger start)); [done|cbn [sizes_ok]; lia|simpl; lia|].
    by eapply frame_mem_ok. }
  intros b1 w2 [-> Hf2]. wp_step. unfold la_codec_decref. wp_step. wp_step. eapply wp_mono.
  { apply (wp_hash_value (tree_of v)); [done|done|lia|].
    repeat (eapply frame_mem_ok; [eassumption|]). done. }
  intros b2 w3 [-> Hf3]. apply wp_ret. split; [|solve_frame].
  unfold MD5_DIGEST_LENGTH, LA_OBJECT_REVISION_LEN. do 3 f_equal. unfold revision_term.
  rewrite <- !app_assoc. change (bytes [0; 0; 0; 5]) with (be32 5). cbn [term].
  do 5 f_equal. destruct oldrev as [r|]; [|reflexivity]. cbn in Ho. unfold term_binary.
  by rewrite Ho, <- !app_assoc.
Qed.


(** The document of the comment in the source: its digest input is the one listed there. *)
Definition couch_doc : tree :=
  TObject [(lit "foo", TString (lit "bar")); (lit "baz", TString (lit "baz"));
           (lit "quux", TInteger 1234)].

Definition couch_rev : rev_t :=
  bytes [19; 131; 149; 53; 254; 178; 80; 211; 216; 41; 9; 152; 184; 175; 23; 195].

Example couch_listed_term :
  revision_term false 2 (Some couch_rev) couch_doc =
    bytes [131; 108; 0; 0; 0; 5; 100; 0; 5; 102; 97; 108; 115; 101; 97; 2; 109; 0; 0; 0; 16;
           19; 131; 149; 53; 254; 178; 80; 211; 216; 41; 9; 152; 184; 175; 23; 195; 104; 1;
           108; 0; 0; 0; 3; 104; 2; 109; 0; 0; 0; 3; 102; 111; 111; 109; 0; 0; 0; 3; 98; 97;
           114; 104; 2; 109; 0; 0; 0; 3; 98; 97; 122; 109; 0; 0; 0; 3; 98; 97; 122; 104; 2;
           109; 0; 0; 0; 4; 113; 117; 117; 120; 98; 0; 0; 4; 210; 106; 106; 106].
Proof. vm_compute. reflexivity. Qed.

(** A stand-in for MD5. *)
Definition digest_last (s : list byte) : list byte := drop (length s - 16) s.


(** C19 (equivalence): what is digested determines the deleted flag, the start, the previous
    revision and the document, for documents without negative integers: two of them get the
    same identifier only if MD5 collides. *)
Theorem revision_term_injective (del1 del2 : bool) (start1 start2 : Z)
  (old1 old2 : option rev_t) (doc1 doc2 : tree)
  (Hs1 : 0 <= start1 < 2 ^ 63) (Hs2 : 0 <= start2 < 2 ^ 63)
  (Ho1 : oldrev_ok old1) (Ho2 : oldrev_ok old2)
  (Hd1 : faithful doc1 = true) (Hd2 : faithful doc2 = true)
  (E : revision_term del1 start1 old1 doc1 = revision_term del2 start2 old2 doc2) :
  del1 = del2 /\ start1 = start2 /\ old1 = old2 /\ doc1 = doc2.
Proof.
  rewrite !revision_term_trees in E. apply app_inv_head in E.
  apply term_app_inj in E as [E1 E]; [|by destruct del1|by destruct del2].
  apply term_app_inj in E as [E2 E]; [|cbn; lia|cbn; lia].
  apply term_app_inj in E as [E3 E];
    [|destruct old1; cbn in *; [rewrite Ho1|]; done|destruct old2; cbn in *; [rewrite Ho2|]; done].
  apply term_app_inj in E as [E4 _]; [|done..].
  split; [by destruct del1, del2|]. split; [congruence|]. split; [|done].
  destruct old1, old2; simpl in E3; congruence.
Qed.

Lemma revision_term_injective_witness :
  false = false /\ 2 = 2 /\ Some couch_rev = Some couch_rev /\ couch_doc = couch_doc.
Proof.
  apply (revision_term_injective false false 2 2 (Some couch_rev) (Some couch_rev)
           couch_doc couch_doc); try lia; vm_compute; reflexivity.
Defined.

(** CouchDB, by the comment in the source, encodes a list of small numbers as a string, with
    tag 107; the code encodes it as a list, and gets another revision. *)
Example small_list_differs :
  term (TArray [TInteger 1; TInteger 2; TInteger 3]) <> bytes [107; 0; 3; 1; 2; 3].
Proof. vm_compute. discriminate. Qed.

(** A negative integer has four bytes in the format. *)
Example negative_differs : term (TInteger (-1)) = bytes [97; 255] /\
  erl_term (TInteger (-1)) = bytes [98; 255; 255; 255; 255].
Proof. split; vm_compute; reflexivity. Qed.

(** Negative integers are hashed as one byte, and collide with small ones. *)
Lemma term_negative_collision : term (TInteger (-1)) = term (TInteger 255).
Proof. reflexivity. Qed.
