(* ===== verification/Api.v ===== *)
(** * The database API (api/api.c, api/LoungeAct.h)

    Hosts, databases and views over a storage driver, the codec, the revision generator and
    an optional compressor.  The driver, the codec and MD5 are parameters; the theorems use
    the driver's contract ([DocStore]) and the laws of the codec, and describe what put, get,
    delete and replace do to the stored documents. *)

From S2P Require Import Prelude Compress Buffer StringUtils Revision ObjectStore DocStore BdbStore Codec CouchRevgen.
From Stdlib Require Import Init.Byte.

#[local] Open Scope c_scope.

Definition LA_API_KEY_NAME : list byte := lit "_id".
Definition LA_API_REV_NAME : list byte := lit "_rev".
Definition LA_API_DELETED_NAME : list byte := lit "_deleted".

Inductive la_db_get_result := LA_DB_GET_OK | LA_DB_GET_NOT_FOUND | LA_DB_GET_ERROR.
Inductive la_db_put_result :=
| LA_DB_PUT_OK | LA_DB_PUT_CONFLICT | LA_DB_PUT_INVALID_ARG | LA_DB_PUT_ERROR.
Inductive la_db_delete_result := LA_DB_DELETE_OK | LA_DB_DELETE_CONFLICT | LA_DB_DELETE_ERROR.
Inductive la_view_iterator_result :=
| LA_VIEW_ITERATOR_GOT_NEXT | LA_VIEW_ITERATOR_END | LA_VIEW_ITERATOR_ERROR.

Record la_host (E : Type) := Host {
  host_driver : list byte;
  host_env : option E;
  host_compressor : option la_compressor;
}.
Arguments Host {E}.
Arguments host_driver {E}.
Arguments host_env {E}.
Arguments host_compressor {E}.

(** The store pointer is NULL after the database was deleted. *)
Record la_db (X E S I : Type) := Db {
  db_host : la_host E;
  db_store : option (la_object_store X E S I);
}.
Arguments Db {X E S I}.
Arguments db_host {X E S I}.
Arguments db_store {X E S I}.

Section api.
Context {X E S I V J : Type} `{Jansson V J}.
Context (drivers : drivers_table X E S I).
Context (md5 : list byte -> list byte) (fuel : nat).
Abbreviation db := (la_db X E S I).

(** ** Hosts and databases *)

Definition la_host_open (driver hosthome : list byte) : M X (option (la_host E)) :=
  let* host := malloc 24 in
  match host with
  | None => ret None
  | Some _ =>
      let* env := la_storage_open_env drivers driver hosthome in
      match env with
      | None => free ;;; ret None
      | Some env => ret (Some (Host driver (Some env) None))
      end
  end.

Definition la_host_close (host : la_host E) : M X unit :=
  (match host_env host with
   | Some env => la_storage_close_env drivers (host_driver host) env
   | None => ret tt
   end) ;;; free.

Definition la_host_configure_compressor (host : la_host E) (c : option la_compressor)
  : la_host E := Host (host_driver host) (host_env host) c.

(** When the storage was created the store pointer is not set. *)
Definition la_db_open (host : la_host E) (name : list byte) (flags : Z)
  : M X (la_storage_open_result_t * option db) :=
  let* p := malloc 16 in
  match p with
  | None => ret (LA_STORAGE_OPEN_ERROR, None)
  | Some _ =>
      let* '(result, store) := la_storage_open drivers (host_driver host) (host_env host) name flags in
      if negb (bool_decide (result = LA_STORAGE_OPEN_OK)) &&
         negb (bool_decide (result = LA_STORAGE_OPEN_CREATED))
      then free ;;; ret (result, None)
      else ret (result, Some (Db host store))
  end.

(** The store handle of a database; the calls dereference it. *)
Definition the_store (d : db) : M X (la_object_store X E S I) :=
  match db_store d with Some st => ret st | None => undef NullDeref end.

Definition la_db_delete_db (d : db) : M X (Z * db) :=
  let* st := the_store d in
  la_storage_delete_store st ;;;
  ret (0, Db (db_host d) None).

Definition la_db_close (d : db) : M X unit :=
  (match db_store d with Some st => la_storage_close st | None => ret tt end) ;;; free.

(** ** Reading *)

Definition is_tombstone (doc : option V) : bool :=
  match doc with
  | None => false
  | Some doc =>
      if negb (la_codec_is_object (Some doc)) then false
      else if 3 <? la_codec_object_size doc then false
      else la_codec_is_true (la_codec_object_get doc LA_API_DELETED_NAME)
  end.

(** The document in an object's data; [None] in the outer option when the data cannot be
    inflated. *)
Definition load_data (c : option la_compressor) (o : la_storage_object)
  : M X (option (option V)) :=
  let* data := lift (la_storage_object_get_data o) in
  match c with
  | Some c =>
      match decompressor c data with
      | None => ret None
      | Some inflated =>
          lib_alloc ;;;
          let* v := la_codec_loadb inflated in
          free ;;; ret (Some v)
      end
  | None => let* v := la_codec_loadb data in ret (Some v)
  end.

(** [value] says whether the caller wants the value; the current revision is given whenever
    it was read. *)
Definition la_db_get (d : db) (key : list byte) (rev : option la_rev) (value : bool)
  : M X (la_db_get_result * option V * option la_rev) :=
  let srev := option_map rrev rev in
  let* st := the_store d in
  let* '(result, object) := la_storage_get st key srev in
  match result with
  | LA_STORAGE_OBJECT_GET_NOT_FOUND | LA_STORAGE_OBJECT_GET_REVISION_NOT_FOUND =>
      ret (LA_DB_GET_NOT_FOUND, None, None)
  | LA_STORAGE_OBJECT_GET_ERROR => ret (LA_DB_GET_ERROR, None, None)
  | LA_STORAGE_OBJECT_GET_OK =>
      match object with
      | None => undef Uninitialised
      | Some object =>
          if negb (deleted (header object) =? 0) then
            la_storage_destroy_object object ;;; ret (LA_DB_GET_NOT_FOUND, None, None)
          else
            let* v := load_data (host_compressor (db_host d)) object in
            match v with
            | None => la_storage_destroy_object object ;;; ret (LA_DB_GET_ERROR, None, None)
            | Some v =>
                let current_rev := Some (LaRev (doc_seq (header object)) (ObjectStore.rev (header object))) in
                la_storage_destroy_object object ;;;
                match v with
                | None => ret (LA_DB_GET_ERROR, None, current_rev)
                | Some _ =>
                    if is_tombstone v then
                      la_codec_decref v ;;; ret (LA_DB_GET_NOT_FOUND, None, current_rev)
                    else if value then ret (LA_DB_GET_OK, v, current_rev)
                    else la_codec_decref v ;;; ret (LA_DB_GET_OK, None, current_rev)
                end
            end
      end
  end.

Definition la_db_get_allrevs (d : db) (key : list byte)
  : M X (Z * option (Z * option (list byte))) :=
  let* st := the_store d in la_storage_get_all_revs st key.

Definition la_db_last_seq (d : db) : M X Z := let* st := the_store d in la_storage_lastseq st.

Definition la_db_stat (d : db) : M X (Z * option (Z * Z)) :=
  let* st := the_store d in la_storage_stat st.

(** ** Writing *)

(** The dump callback; the buffer may be NULL. *)
Definition accumulate (buffer : option la_buffer) (str : list byte)
  : M X (Z * option la_buffer) :=
  match buffer with
  | None => undef NullDeref
  | Some b =>
      let* '(rc, b) := la_buffer_append b str in
      ret (if negb (rc =? 0) then -1 else 0, Some b)
  end.

Definition destroy_buffer (buffer : option la_buffer) : M X unit :=
  match buffer with Some b => la_buffer_destroy b | None => undef NullDeref end.

(** The key of a document that comes without: its identifier, or 64 random hex digits. *)
Definition choose_key (urandom : option (list byte)) (key : option (list byte)) (doc : V)
  : M X (list byte) :=
  match key with
  | Some key => ret key
  | None =>
      match la_codec_object_get doc LA_API_KEY_NAME with
      | Some id =>
          if la_codec_is_string (Some id) then
            match la_codec_string_value id with Some s => ret s | None => undef NullDeref end
          else
            let* '(rc, uuidkey) := lift (string_randhex urandom (replicate 65 x00) 64) in
            if rc =? 0 then lift (cstr uuidkey) else undef Uninitialised
      | None =>
          let* '(rc, uuidkey) := lift (string_randhex urandom (replicate 65 x00) 64) in
          if rc =? 0 then lift (cstr uuidkey) else undef Uninitialised
      end
  end.

(** For a replacement: the object for a buffer, compressed or not; [None] in the outer option
    when the compressor fails. *)
Definition make_object (c : option la_compressor) (key : list byte) (rev : rev_t)
  (buffer : la_buffer) (revs : option (list byte)) (revcount : Z)
  : M X (option (option la_storage_object)) :=
  match c with
  | Some c =>
      let* data := lift (mem_read (la_buffer_data buffer) 0 (la_buffer_size buffer)) in
      match compressor c data with
      | None => ret None
      | Some deflated =>
          lib_alloc ;;;
          let* o := la_storage_create_object key rev deflated
                      (u32 (Z.of_nat (length deflated))) revs revcount in
          free ;;; ret (Some o)
      end
  | None =>
      let* o := la_storage_create_object key rev (la_buffer_data buffer)
                  (u32 (la_buffer_size buffer)) revs revcount in
      ret (Some o)
  end.

(** For a put: the buffer is destroyed, a failure of the compressor or of the allocator is
    NULL. *)
Definition put_object (c : option la_compressor) (key : list byte) (rev : rev_t)
  (buffer : la_buffer) : M X (option la_storage_object) :=
  match c with
  | Some c =>
      let* data := lift (mem_read (la_buffer_data buffer) 0 (la_buffer_size buffer)) in
      let deflated := compressor c data in
      (match deflated with Some _ => lib_alloc | None => ret tt end) ;;;
      la_buffer_destroy buffer ;;;
      match deflated with
      | None => ret None
      | Some deflated =>
          let* o := la_storage_create_object key rev deflated
                      (u32 (Z.of_nat (length deflated))) None 0 in
          free ;;; ret o
      end
  | None =>
      let* o := la_storage_create_object key rev (la_buffer_data buffer)
                  (u32 (la_buffer_size buffer)) None 0 in
      la_buffer_destroy buffer ;;; ret o
  end.

(** The revision is what the caller finds in [newrev]: it is set once the storage was
    asked. *)
Definition do_la_db_put (urandom : option (list byte)) (d : db) (key : option (list byte))
  (oldrev : option la_rev) (doc : V) (is_delete : bool)
  : M X (la_db_put_result * option la_rev) :=
  if negb (la_codec_is_object (Some doc)) ||
     (negb is_delete &&
      match la_codec_object_get doc LA_API_DELETED_NAME with Some _ => true | None => false end)
  then ret (LA_DB_PUT_INVALID_ARG, None)
  else
    let* putdoc := la_codec_copy doc in
    match putdoc with
    | None => ret (LA_DB_PUT_ERROR, None)
    | Some putdoc =>
        let putdoc := la_codec_object_del putdoc LA_API_KEY_NAME in
        let putdoc := la_codec_object_del putdoc LA_API_REV_NAME in
        let* key := choose_key urandom key doc in
        let* '(_, nextrev) :=
          la_revgen md5 fuel putdoc (match oldrev with Some r => rseq r | None => 0 end)
            (option_map rrev oldrev) is_delete in
        let* buffer := la_buffer_new 256 in
        let* '(rc, buffer) := la_codec_dump_callback putdoc accumulate buffer in
        if negb (rc =? 0) then
          la_codec_decref (Some putdoc) ;;; destroy_buffer buffer ;;; ret (LA_DB_PUT_ERROR, None)
        else
          la_codec_decref (Some putdoc) ;;;
          let* buffer := match buffer with Some b => ret b | None => undef NullDeref end in
          let* object := put_object (host_compressor (db_host d)) key nextrev buffer in
          match object with
          | None => ret (LA_DB_PUT_ERROR, None)
          | Some object =>
              let object := with_header (set_deleted (c_bool is_delete) (header object)) object in
              let* st := the_store d in
              let* '(result, object) := la_storage_put st (option_map rrev oldrev) object in
              let newrev := Some (LaRev (doc_seq (header object)) nextrev) in
              la_storage_destroy_object object ;;;
              ret (match result with
                   | LA_STORAGE_OBJECT_PUT_ERROR => LA_DB_PUT_ERROR
                   | LA_STORAGE_OBJECT_PUT_CONFLICT => LA_DB_PUT_CONFLICT
                   | LA_STORAGE_OBJECT_PUT_SUCCESS => LA_DB_PUT_OK
                   end, newrev)
          end
    end.

Definition la_db_put (urandom : option (list byte)) (d : db) (key : option (list byte))
  (rev : option la_rev) (doc : V) : M X (la_db_put_result * option la_rev) :=
  do_la_db_put urandom d key rev doc false.

Definition la_db_delete (urandom : option (list byte)) (d : db) (key : option (list byte))
  (rev : option la_rev) : M X la_db_delete_result :=
  let* doc := la_codec_object in
  match doc with
  | None => ret LA_DB_DELETE_ERROR
  | Some doc =>
      let* '(result, _) := do_la_db_put urandom d key rev doc true in
      la_codec_decref (Some doc) ;;;
      ret (match result with
           | LA_DB_PUT_CONFLICT => LA_DB_DELETE_CONFLICT
           | LA_DB_PUT_OK => LA_DB_DELETE_OK
           | _ => LA_DB_DELETE_ERROR
           end)
  end.

(** The deleted flag of a document from elsewhere. *)
Definition deleted_flag (doc : V) : bool :=
  la_codec_is_true (la_codec_object_get doc LA_API_DELETED_NAME).

Definition la_db_replace (d : db) (key : option (list byte)) (rev : option la_rev)
  (doc : option V) (oldrevs : option (list byte)) (revcount : Z) : M X la_db_put_result :=
  match key, rev, doc with
  | Some key, Some rev, Some doc =>
      if negb (la_codec_is_object (Some doc)) then ret LA_DB_PUT_INVALID_ARG else
      let* buffer := la_buffer_new 1024 in
      match buffer with
      | None => ret LA_DB_PUT_ERROR
      | Some _ =>
          let* copy := la_codec_copy doc in
          match copy with
          | None => destroy_buffer buffer ;;; ret LA_DB_PUT_ERROR
          | Some copy =>
              let copy := la_codec_object_del copy LA_API_KEY_NAME in
              let copy := la_codec_object_del copy LA_API_REV_NAME in
              let copy := la_codec_object_del copy LA_API_DELETED_NAME in
              let is_delete := deleted_flag doc in
              let* oldrev :=
                match oldrevs with
                | Some revs =>
                    if 0 <? revcount then let* r := lift (mem_read revs 0 REV_LEN) in ret (Some r)
                    else ret None
                | None => ret None
                end in
              let* _ := la_revgen md5 fuel copy (u64 (rseq rev - 1)) oldrev is_delete in
              let* '(rc, buffer) := la_codec_dump_callback copy accumulate buffer in
              la_codec_decref (Some copy) ;;;
              if negb (rc =? 0) then destroy_buffer buffer ;;; ret LA_DB_PUT_ERROR
              else
                let* b := match buffer with Some b => ret b | None => undef NullDeref end in
                let* obj := make_object (host_compressor (db_host d)) key (rrev rev) b oldrevs revcount in
                match obj with
                | None => la_buffer_destroy b ;;; ret LA_DB_PUT_ERROR
                | Some None => undef NullDeref
                | Some (Some obj) =>
                    let obj := with_header (set_deleted (c_bool is_delete) (header obj)) obj in
                    la_buffer_destroy b ;;;
                    let obj := with_header (set_doc_seq (rseq rev) (header obj)) obj in
                    let* st := the_store d in
                    let* '(result, obj) := la_storage_replace st obj in
                    la_storage_destroy_object obj ;;;
                    ret (match result with
                         | LA_STORAGE_OBJECT_PUT_SUCCESS => LA_DB_PUT_OK
                         | _ => LA_DB_PUT_ERROR
                         end)
                end
          end
      end
  | _, _, _ => ret LA_DB_PUT_INVALID_ARG
  end.

(** ** Views *)

(** A map function gives the values it emits, NULL ones included; a reduce function the next
    accumulated value. *)
Record la_view_iterator := ViewIterator {
  view_it : I;
  view_map : option (V -> list (option V));
  view_reduce : option (option V -> V -> option V);
  view_accum : option V;
  view_mapped : option V;
}.

Definition la_db_view (d : db) (map : option (V -> list (option V)))
  (reduce : option (option V -> V -> option V)) : M X (option la_view_iterator) :=
  let* p := malloc 56 in
  match p with
  | None => ret None
  | Some _ =>
      let* st := the_store d in
      let* it := la_storage_iterator_open st 0 in
      match it with
      | None => free ;;; ret None
      | Some it =>
          let* mapped := la_codec_array in
          ret (Some (ViewIterator it map reduce None mapped))
      end
  end.

(** [_do_map_emit]. *)
Definition do_map_emit (mapped : V) (value : option V) : V :=
  match value with Some v => la_codec_array_append mapped v | None => mapped end.

(** What the loop of [la_view_iterator_next] ended with: a result to return, or the array of
    mapped values. *)
Definition with_mapped (it : la_view_iterator) (sit : I) (mapped : V) : la_view_iterator :=
  ViewIterator sit (view_map it) (view_reduce it) (view_accum it) (Some mapped).

Fixpoint view_loop (n : nat) (d : db) (st : la_object_store X E S I) (it : la_view_iterator)
  (mapped : V) : M X (la_view_iterator_result * option V * la_view_iterator + V * la_view_iterator) :=
  match n with
  | O => undef Uninitialised
  | Datatypes.S n =>
      if negb (la_codec_array_size mapped =? 0) then ret (inr (mapped, it))
      else
        let* '(result, object, sit) := la_storage_iterator_next st (view_it it) in
        let it := with_mapped it sit mapped in
        match result, object with
        | LA_STORAGE_OBJECT_ITERATOR_ERROR, _ => ret (inl (LA_VIEW_ITERATOR_ERROR, None, it))
        | LA_STORAGE_OBJECT_ITERATOR_END, _ =>
            match view_accum it with
            | Some accum =>
                let* v := la_codec_incref accum in ret (inl (LA_VIEW_ITERATOR_END, v, it))
            | None => ret (inl (LA_VIEW_ITERATOR_END, None, it))
            end
        | LA_STORAGE_OBJECT_ITERATOR_GOT_NEXT, None => undef NullDeref
        | LA_STORAGE_OBJECT_ITERATOR_GOT_NEXT, Some object =>
            if negb (deleted (header object) =? 0) then
              la_storage_destroy_object object ;;; view_loop n d st it mapped
            else
              let* parsed := load_data (host_compressor (db_host d)) object in
              la_storage_destroy_object object ;;;
              match parsed with
              | None | Some None => ret (inl (LA_VIEW_ITERATOR_ERROR, None, it))
              | Some (Some parsed) =>
                  match view_map it with
                  | Some map =>
                      let mapped := foldl do_map_emit mapped (map parsed) in
                      la_codec_decref (Some parsed) ;;;
                      ret (inr (mapped, with_mapped it sit mapped))
                  | None =>
                      let mapped := la_codec_array_append mapped parsed in
                      ret (inr (mapped, with_mapped it sit mapped))
                  end
              end
        end
  end.

(** For callers that want the value. *)
Definition la_view_iterator_next (n : nat) (d : db) (it : la_view_iterator)
  : M X (la_view_iterator_result * option V * la_view_iterator) :=
  let* st := the_store d in
  match view_mapped it with
  | None => undef NullDeref
  | Some mapped =>
      let* r := view_loop n d st it mapped in
      match r with
      | inl res => ret res
      | inr (mapped, it) =>
          if la_codec_array_size mapped =? 0 then ret (LA_VIEW_ITERATOR_ERROR, None, it)
          else
            match la_codec_array_get mapped 0 with
            | None => undef NullDeref
            | Some first =>
                let* value := la_codec_incref first in
                let mapped := la_codec_array_remove mapped 0 in
                let it := with_mapped it (view_it it) mapped in
                match view_reduce it with
                | None => ret (LA_VIEW_ITERATOR_GOT_NEXT, value, it)
                | Some reduce =>
                    let next := reduce (view_accum it) first in
                    la_codec_decref (view_accum it) ;;;
                    ret (LA_VIEW_ITERATOR_GOT_NEXT, value,
                         ViewIterator (view_it it) (view_map it) (view_reduce it) next (Some mapped))
                end
            end
      end
  end.

Definition la_view_iterator_close (d : db) (it : la_view_iterator) : M X unit :=
  let* st := the_store d in
  la_storage_iterator_close st (view_it it) ;;;
  la_codec_decref (view_accum it) ;;;
  free.
End api.

(** ** What the API computes *)

(** The bytes of a document in an object's data, and back. *)
Definition inflate (c : option la_compressor) (data : list byte) : option (list byte) :=
  match c with Some c => decompressor c data | None => Some data end.

Definition deflate (c : option la_compressor) (text : list byte) : option (list byte) :=
  match c with Some c => compressor c text | None => Some text end.

Section values.
Context {V J : Type} `{Jansson V J}.

(** What a get answers for a stored document, or for none. *)
Definition get_result (c : option la_compressor) (value : bool) (od : option doc)
  : la_db_get_result * option V * option la_rev :=
  match od with
  | None => (LA_DB_GET_NOT_FOUND, None, None)
  | Some d =>
      if negb (d_deleted d =? 0) then (LA_DB_GET_NOT_FOUND, None, None)
      else
        let cur := Some (LaRev (d_doc_seq d) (d_rev d)) in
        match inflate c (d_data d) with
        | None => (LA_DB_GET_ERROR, None, None)
        | Some text =>
            match json_loadb text with
            | None => (LA_DB_GET_ERROR, None, cur)
            | Some v =>
                if is_tombstone (Some v) then (LA_DB_GET_NOT_FOUND, None, cur)
                else (LA_DB_GET_OK, if value then Some v else None, cur)
            end
        end
  end.

(** A tombstone, as a tree: an object of three members at most that says it is deleted. *)
Definition deleted_member (t : tree) : bool :=
  match t with TObject l => bool_decide (assoc LA_API_DELETED_NAME l = Some TTrue) | _ => false end.

Definition tombstone (t : tree) : bool :=
  (length (members t) <=? 3)%nat && deleted_member t.

(** References the caller of a get is left with. *)
Definition refs (v : option V) : Z := match v with Some _ => 1 | None => 0 end.

(** What a put stores of a document: its copy without identifier and revision, as text,
    deflated. *)
Definition stripped (copy : V) : V :=
  json_object_del (json_object_del copy LA_API_KEY_NAME) LA_API_REV_NAME.

Definition text_ok (chunks : list (list byte)) : Prop :=
  Z.of_nat (length (concat chunks)) < 2 ^ 31 /\ Z.of_nat (length chunks) < 2 ^ 31.

Definition prepared (c : option la_compressor) (doc : V) (v : V) (data : list byte) : Prop :=
  exists copy chunks, json_copy doc = Some copy /\ v = stripped copy /\
    json_dump v = Some chunks /\ text_ok chunks /\ deflate c (concat chunks) = Some data /\
    Z.of_nat (length data) < 2 ^ 31.
End values.

Definition old_seq (oldrev : option la_rev) : Z :=
  match oldrev with Some r => rseq r | None => 0 end.

(** The document a put asks the storage to store. *)
Definition new_document (r : rev_t) (is_delete : bool) (data : list byte) : doc :=
  Doc 0 0 (c_bool is_delete) r [] data.

Section correct.
Context {X E S I V J : Type} `{JanssonLaws V J}.
Context (md5 : list byte -> list byte) (fuel : nat).
Context (md5_length : forall s, length (md5 s) = 16%nat).
Context (drv : la_object_store_driver X E S I) (st : S) `{!DocStore drv st}.
Context (env : option E) (name : list byte) (c : option la_compressor).
Implicit Types w : world X.

(** An open database over the driver. *)
Definition the_db : la_db X E S I := Db (Host name env c) (Some (Store env (Some st) drv)).

Lemma object_holds_data o k d :
  object_holds o k d -> doc_wf d -> la_storage_object_get_data o = Ret (d_data d).
Proof.
  intros (_ & Hh & Hl & pad & Hp) (_ & Hr & _). pose proof (length_concat_revs _ Hr).
  unfold la_storage_object_get_data, get_data_offset, REV_LEN. rewrite Hh, Hl, Hp.
  cbn [doc_header rev_count]. rewrite mem_read_ok by (rewrite ?length_app; lia).
  rewrite Nat2Z.id, drop_app_exact by lia. by rewrite take_app_length.
Qed.

Lemma wp_new_ref (v : option V) w (Q : option V -> world X -> Prop) :
  (forall w', frame (refs v) w w' -> Q v w') -> wp (new_ref v) w Q.
Proof. intros HQ. apply HQ. destruct v; (split; [done|]; split; [simpl; lia|done]). Qed.

Lemma wp_decref (v : option V) w (Q : unit -> world X -> Prop) :
  (forall w', frame (- refs v) w w' -> Q tt w') -> wp (la_codec_decref v) w Q.
Proof.
  intros HQ. destruct v; cbn [la_codec_decref refs] in *; [wp_step|wp_step]; apply HQ; [done|].
  apply frame_refl.
Qed.

Lemma wp_load_data o k d w (Q : option (option V) -> world X -> Prop) :
  object_holds o k d -> doc_wf d ->
  (forall w', frame (match inflate c (d_data d) with
                     | Some text => refs (json_loadb text) | None => 0 end) w w' ->
     Q (option_map json_loadb (inflate c (d_data d))) w') ->
  wp (load_data c o) w Q.
Proof.
  intros Ho Hd HQ. unfold load_data. wp_step. rewrite (object_holds_data o k d Ho Hd). apply wp_lift.
  unfold la_codec_loadb. destruct c as [c'|]; cbn [inflate] in *.
  - destruct (decompressor c' (d_data d)) as [text|]; cbn [option_map] in *.
    + wp_step. apply wp_lib_alloc. intros w1 Hf1. wp_step. apply wp_new_ref. intros w2 Hf2.
      wp_steps. apply HQ. solve_frame.
    + apply wp_ret, HQ, frame_refl.
  - wp_step. apply wp_new_ref. intros w1 Hf1. wp_step. by apply HQ.
Qed.

Lemma wp_la_db_get w m n k value :
  ds_repr w m n -> mem_ok w -> cstring k -> Z.of_nat (length k) < PTRDIFF_MAX ->
  wp (la_db_get the_db k None value) w (fun res w' =>
    ds_repr w' m n /\ (ds_healthy w -> ds_healthy w') /\ heap (refs res.1.2) w w' /\
    (res = get_result c value (m !! k) \/
     ~ ds_healthy w /\ res = (LA_DB_GET_ERROR, None, None))).
Proof.
  intros Hr Hm Hk Hkl. unfold la_db_get. wp_step. cbn [the_db the_store db_store]. wp_step.
  wp_step. unfold la_storage_get, with_store. cbn [st_store st_driver option_map].
  eapply wp_mono; [by apply (ds_get w m n k)|]. intros [res o] w1 (Hr1 & Hy1 & Hres).
  destruct res.
  - destruct Hres as (d & o' & Hd & -> & Ho & Hh).
    pose proof (ds_repr_wf w m n Hr k d Hd) as Hwf. pose proof Ho as (_ & Hhd & _).
    rewrite Hd. cbn [get_result]. rewrite Hhd. cbn [doc_header deleted doc_seq ObjectStore.rev].
    assert (forall w', frame (-3) w1 w' -> ds_repr w' m n /\ (ds_healthy w -> ds_healthy w') /\
              heap 0 w w') as Hdone.
    { intros w' Hf. split; [eapply ds_repr_frame; [apply Hf|done]|].
      split; [intros ?; eapply ds_healthy_frame; [apply Hf|auto]|]. solve_heap. }
    destruct (negb (d_deleted d =? 0)).
    + wp_step. apply wp_destroy_object. intros w2 Hf2. apply wp_ret.
      destruct (Hdone w2 Hf2) as (? & ? & ?). split_and!; try done. by left.
    + wp_step. eapply (wp_load_data o' k d); [done|done|]. intros w2 Hf2.
      destruct (inflate c (d_data d)) as [text|]; cbn [option_map].
      * wp_step. apply wp_destroy_object. intros w3 Hf3.
        destruct (json_loadb text) as [v|]; cbn [refs] in *.
        -- destruct (is_tombstone (Some v)).
           ++ wp_step. apply wp_decref. intros w4 Hf4. cbn [refs] in *. apply wp_ret.
              destruct (Hdone w4) as (? & ? & ?); [solve_frame|]. split_and!; try done. by left.
           ++ destruct value.
              ** apply wp_ret. cbn [fst snd refs].
                 assert (frame (-2) w1 w3) as Hf by solve_frame.
                 split; [eapply ds_repr_frame; [apply Hf|done]|].
                 split; [intros ?; eapply ds_healthy_frame; [apply Hf|auto]|].
                 split; [solve_heap|by left].
              ** wp_step. apply wp_decref. intros w4 Hf4. cbn [refs] in *. apply wp_ret.
                 destruct (Hdone w4) as (? & ? & ?); [solve_frame|]. split_and!; try done. by left.
        -- apply wp_ret. destruct (Hdone w3) as (? & ? & ?); [solve_frame|].
           split_and!; try done. by left.
      * wp_step. apply wp_destroy_object. intros w3 Hf3. apply wp_ret.
        destruct (Hdone w3) as (? & ? & ?); [solve_frame|]. split_and!; try done. by left.
  - destruct Hres as (Hno & -> & Hh). apply wp_ret. rewrite Hno. split_and!; try done. by left.
  - done.
  - destruct Hres as (Hno & -> & Hh). apply wp_ret. split_and!; try done. by right.
Qed.

(** ** Dumping into a buffer *)

Lemma wp_dump_chunks chunks : forall b w (Q : Z * option la_buffer -> world X -> Prop),
  wf b -> ptr_owned b = true -> mem_ok w ->
  capacity b + 1024 * Z.of_nat (length chunks) + Z.of_nat (length (concat chunks)) < 2 ^ 60 ->
  (forall b' w', wf b' -> ptr_owned b' = true -> contents b' = contents b ++ concat chunks ->
     frame 0 w w' -> Q (0, Some b') w') ->
  wp (dump_chunks accumulate chunks (Some b)) w Q.
Proof.
  induction chunks as [|ch chunks IH]; intros b w Q Hwf Ho Hm Hcap HQ; cbn [dump_chunks].
  - apply wp_ret. apply HQ; [done|done|by rewrite app_nil_r|apply frame_refl].
  - cbn [concat length] in *. rewrite length_app in Hcap.
    pose proof (wf_bounds b Hwf) as HB.
    wp_step. cbn [accumulate]. wp_step. unfold SIZE_MAX in *.
    apply la_buffer_append_spec; [done|unfold SIZE_MAX; lia| |].
    + intros b1 w1 (Hwf1 & Hc1 & Ho1) Hcap1 Hf1. wp_step.
      cbn [negb Z.eqb]. apply IH; [done|congruence|by eapply frame_mem_ok| |].
      * unfold grown in Hcap1. rewrite cap_spec in Hcap1. lia.
      * intros b2 w2 Hwf2 Ho2 Hc2 Hf2. apply HQ; [done|done| |solve_frame].
        by rewrite Hc2, Hc1, <- app_assoc.
    + intros w1 Hno _. exfalso. apply Hno. right. split; [done|]. split; [done|].
      unfold grown. rewrite cap_spec. unfold PTRDIFF_MAX. lia.
Qed.

Lemma wp_dump v chunks b w (Q : Z * option la_buffer -> world X -> Prop) :
  wf b -> ptr_owned b = true -> contents b = [] -> capacity b = 1024 ->
  mem_ok w -> json_dump v = Some chunks -> text_ok chunks ->
  (forall b' w', wf b' -> ptr_owned b' = true -> contents b' = concat chunks -> frame 0 w w' ->
     Q (0, Some b') w') ->
  wp (la_codec_dump_callback v accumulate (Some b)) w Q.
Proof.
  intros Hwf Ho Hct Hcap Hm Hd [Ht1 Ht2] HQ. unfold la_codec_dump_callback. rewrite Hd.
  apply wp_dump_chunks; [done|done|done|lia|].
  intros b' w2 Hwf' Ho' Hct' Hf2. apply HQ; [done|done|by rewrite Hct', Hct|done].
Qed.

Lemma wp_buffer_new cap0 w (Q : option la_buffer -> world X -> Prop) :
  0 <= cap0 <= 1024 -> mem_ok w ->
  (forall b w', wf b -> ptr_owned b = true -> contents b = [] -> capacity b = 1024 ->
     frame 2 w w' -> Q (Some b) w') ->
  wp (la_buffer_new cap0) w Q.
Proof.
  intros Hc Hm HQ. apply la_buffer_new_spec; [lia| |].
  - intros b w1 Hwf Hct Hcap Ho _ Hf1. apply HQ; try done. rewrite Hcap, cap_spec. lia.
  - intros w1 Hno _. exfalso. apply Hno. split; [done|]. rewrite cap_spec. unfold PTRDIFF_MAX. lia.
Qed.

Lemma contents_read b : wf b ->
  mem_read (la_buffer_data b) 0 (la_buffer_size b) = Ret (contents b).
Proof.
  intros Hwf. pose proof (wf_bounds b Hwf). unfold la_buffer_data, la_buffer_size.
  rewrite mem_read_ok by lia. by rewrite drop_0.
Qed.

(** [la_storage_create_object] looks at the first [len] bytes of the data alone. *)
Lemma create_object_prefix k r data len revs n w :
  0 <= len <= Z.of_nat (length data) ->
  @la_storage_create_object X k r data len revs n w =
  la_storage_create_object k r (take (Z.to_nat len) data) len revs n w.
Proof.
  intros Hl. unfold la_storage_create_object.
  rewrite (mem_read_ok data 0 len), (mem_read_ok (take _ data) 0 len)
    by (rewrite ?length_take; lia).
  rewrite !drop_0, take_take, Nat.min_id. done.
Qed.

Lemma object_is_memory o k r data l :
  object_is o k r data l -> length r = 16%nat -> revs_wf l ->
  exists pad, revs_data o = concat l ++ data ++ pad.
Proof.
  intros (_ & Hh & Hl & Hd & Hr) Hlr Hlw. pose proof (length_concat_revs l Hlw) as HC.
  unfold la_storage_object_get_data, get_data_offset, la_storage_object_get_all_revs, REV_LEN in *.
  rewrite Hh, ?Hl in *. cbn [rev_count ObjectStore.rev] in *.
  destruct (mem_read (r ++ revs_data o) _ _) as [d|] eqn:Er; [|done]. injection Hr as ->.
  apply mem_read_inv in Er as (_ & _ & _ & Er). apply mem_read_inv in Hd as (_ & _ & Hb & Hd).
  rewrite drop_0 in Er.
  replace (Z.to_nat (16 * (Z.of_nat (length l) + 1))) with (length r + 16 * length l)%nat in Er by lia.
  rewrite take_app_ge in Er by lia. apply app_inv_head in Er.
  replace (length r + 16 * length l - length r)%nat with (16 * length l)%nat in Er by lia.
  replace (Z.to_nat (16 * Z.of_nat (length l))) with (16 * length l)%nat in Hd by lia.
  rewrite Nat2Z.id in Hd. exists (drop (length data) (drop (16 * length l) (revs_data o))).
  rewrite Er, Hd at 1. rewrite app_assoc, take_take_drop, drop_drop. by rewrite take_drop.
Qed.

(** The objects made for an API document, with the deleted flag set. *)
Lemma set_deleted_holds o k r data l is_delete :
  object_is o k r data l -> length r = 16%nat -> revs_wf l ->
  object_holds (with_header (set_deleted (c_bool is_delete) (header o)) o) k
    (Doc 0 0 (c_bool is_delete) r l data).
Proof.
  intros Ho Hr Hlw. pose proof (object_is_memory o k r data l Ho Hr Hlw) as Hp.
  destruct Ho as (Hk & Hh & Hl & _). repeat split; try done.
  cbn [with_header header]. rewrite Hh. unfold set_deleted, doc_header.
  cbn [seq doc_seq rev_count ObjectStore.rev d_seq d_doc_seq d_deleted d_rev d_revs].
  by destruct is_delete.
Qed.

Lemma wp_create k r data l revs n w (Q : option la_storage_object -> world X -> Prop) :
  cstring k -> Z.of_nat (length k) < PTRDIFF_MAX -> length r = 16%nat ->
  Z.of_nat (length data) < 2 ^ 31 -> revs_wf l -> Z.of_nat (length l) < 2 ^ 15 -> mem_ok w ->
  (revs = Some (concat l) /\ n = Z.of_nat (length l) \/ revs = None /\ l = [] /\ n = 0) ->
  (forall o w', frame 3 w w' -> object_is o k r data l -> Q (Some o) w') ->
  wp (la_storage_create_object k r data (u32 (Z.of_nat (length data))) revs n) w Q.
Proof.
  intros Hk Hkl Hr Hd Hl Hn Hm Hrevs HQ. unfold u32. rewrite Z.mod_small by lia.
  assert (exists ol, revs = @concat byte <$> ol /\ revs_of ol = l /\
            forall l', ol = Some l' -> n = Z.of_nat (length l')) as (ol & -> & Hol & Hn').
  { destruct Hrevs as [[-> ->]|(-> & -> & ->)]; [exists (Some l)|exists None]; naive_solver. }
  eapply wp_mono; [apply (wp_create_object k r data ol n w); try done; [lia|by rewrite Hol|]|].
  { destruct Hrevs as [[_ ->]|(_ & _ & ->)]; lia. }
  intros [o|] w' Hw'; [|tauto]. destruct Hw' as [? Hob]. rewrite Hol in Hob. by apply HQ.
Qed.

Lemma wp_put_object k r b data w (Q : option la_storage_object -> world X -> Prop) :
  cstring k -> Z.of_nat (length k) < PTRDIFF_MAX -> length r = 16%nat ->
  wf b -> ptr_owned b = true -> Z.of_nat (length (contents b)) < 2 ^ 31 ->
  deflate c (contents b) = Some data -> Z.of_nat (length data) < 2 ^ 31 -> mem_ok w ->
  (forall o w', frame 1 w w' -> object_is o k r data [] -> Q (Some o) w') ->
  wp (put_object c k r b) w Q.
Proof.
  intros Hk Hkl Hr Hwf Ho Hct Hdf Hd Hm HQ. unfold put_object.
  destruct c as [c'|]; cbn [deflate] in Hdf.
  - wp_step. rewrite contents_read by done. apply wp_lift. cbv zeta. rewrite Hdf.
    wp_step. apply wp_lib_alloc. intros w1 Hf1. wp_step. apply la_buffer_destroy_spec.
    intros w2 Hf2. rewrite Ho in Hf2. wp_step.
    assert (frame (-1) w w2) as Hf by solve_frame.
    eapply (wp_create k r data []); [done|done|done|done|by constructor|done|by eapply frame_mem_ok|by right|].
    intros o w3 Hf3 Hob. wp_steps. apply HQ; [solve_frame|done].
  - injection Hdf as <-. wp_step. pose proof (wf_bounds b Hwf) as HB.
    pose proof (contents_length b Hwf) as HL.
    assert (la_buffer_size b = Z.of_nat (length (contents b))) as Hsz by (unfold la_buffer_size; lia).
    rewrite Hsz. eapply wp_ext.
    { apply create_object_prefix. unfold u32, la_buffer_data. rewrite Z.mod_small by lia. lia. }
    assert (take (Z.to_nat (u32 (Z.of_nat (length (contents b))))) (la_buffer_data b) = contents b) as ->.
    { unfold u32. rewrite Z.mod_small by lia. rewrite HL. done. }
    eapply (wp_create k r (contents b) []); [done|done|done|done|by constructor|done|done|by right|].
    intros o w1 Hf1 Hob. wp_step. apply la_buffer_destroy_spec. intros w2 Hf2. rewrite Ho in Hf2.
    apply wp_ret. apply HQ; [solve_frame|done].
Qed.

(** ** Putting *)

(** The revision identifier of a version. *)
Definition rev_of (is_delete : bool) (oldrev : option la_rev) (v : V) : rev_t :=
  take 16 (md5 (revision_term is_delete (old_seq oldrev) (option_map rrev oldrev) (tree_of v))).

(** The revision generator can take the document and the old revision. *)
Definition revgen_ready (oldrev : option la_rev) (v : V) : Prop :=
  (fuel_for (tree_of v) <= fuel)%nat /\ sizes_ok (tree_of v) = true /\
  0 <= old_seq oldrev < 2 ^ 63 /\ oldrev_ok (option_map rrev oldrev) /\
  json_integer (old_seq oldrev) <> None.

(** The document may be put: an object, without a deleted member unless it is a deletion. *)
Definition put_allowed (doc : V) (is_delete : bool) : bool :=
  la_codec_is_object (Some doc) &&
  (is_delete || match json_object_get doc LA_API_DELETED_NAME with Some _ => false | None => true end).

Lemma length_rev_of is_delete oldrev v : length (rev_of is_delete oldrev v) = 16%nat.
Proof. unfold rev_of. by rewrite take_ge; rewrite md5_length. Qed.

Lemma wp_do_put urandom key k oldrev doc is_delete v data m n w :
  ds_repr w m n -> mem_ok w -> put_allowed doc is_delete = true -> prepared c doc v data ->
  revgen_ready oldrev v -> (forall w : world X, choose_key urandom key doc w = Ret (k, w)) ->
  cstring k -> Z.of_nat (length k) < PTRDIFF_MAX ->
  put_ready m n k (new_document (rev_of is_delete oldrev v) is_delete data) ->
  wp (do_la_db_put md5 fuel urandom the_db key oldrev doc is_delete) w (fun '(res, newrev) w' =>
    heap 0 w w' /\ (ds_healthy w -> ds_healthy w') /\
    match res with
    | LA_DB_PUT_OK =>
        exists d', put_doc m n k (option_map rrev oldrev)
                     (new_document (rev_of is_delete oldrev v) is_delete data) = Some d' /\
          newrev = Some (LaRev (d_doc_seq d') (rev_of is_delete oldrev v)) /\
          (ds_repr w' (<[k := d']> m) (n + 1) \/ ~ ds_healthy w /\ ds_repr w' m n)
    | LA_DB_PUT_CONFLICT =>
        ds_repr w' m n /\
        (put_doc m n k (option_map rrev oldrev)
           (new_document (rev_of is_delete oldrev v) is_delete data) = None \/ ~ ds_healthy w)
    | LA_DB_PUT_INVALID_ARG => False
    | LA_DB_PUT_ERROR => ds_repr w' m n /\ ~ ds_healthy w
    end).
Proof.
  intros Hr Hm Hal (copy & chunks & Hcp & Hv & Hdump & Htx & Hdf & Hdl) (Hfu & Hsz & Hsq & Hok & Hint)
    Hkey Hk Hkl Hrd.
  pose proof (length_rev_of is_delete oldrev v) as Hrl. set (r := rev_of is_delete oldrev v) in *.
  unfold do_la_db_put, la_codec_object_get.
  assert (negb (la_codec_is_object (Some doc)) ||
     negb is_delete && match json_object_get doc LA_API_DELETED_NAME with
                       | Some _ => true | None => false end = false) as ->.
  { unfold put_allowed in Hal. apply andb_true_iff in Hal as [-> Hal].
    destruct is_delete, (json_object_get doc LA_API_DELETED_NAME); done. }
  wp_step. unfold la_codec_copy. rewrite Hcp. apply wp_new_ref. intros w1 Hf1. cbn [refs] in Hf1.
  unfold la_codec_object_del. fold (stripped copy). rewrite <- Hv. cbv zeta.
  wp_step. eapply wp_eq; [apply Hkey|]. wp_step.
  eapply wp_mono.
  { apply (wp_la_revgen md5 fuel v (old_seq oldrev) (option_map rrev oldrev) is_delete);
      [lia|done|done|done|done|by eapply frame_mem_ok]. }
  intros [z nr] w2 [[= -> ->] Hf2]. fold (rev_of is_delete oldrev v). fold r.
  assert (frame 1 w w2) as Hf12 by solve_frame.
  wp_step. apply wp_buffer_new; [lia|by eapply frame_mem_ok|].
  intros b0 w3 Hwf0 Ho0 Hct0 Hcap0 Hf3. wp_step.
  assert (frame 3 w w3) as Hf13 by solve_frame.
  eapply wp_dump; [done|done|done|done|by eapply frame_mem_ok|done|done|].
  intros b w4 Hwf Ho Hct Hf4. cbn [negb Z.eqb]. wp_step.
  apply wp_decref. intros w5 Hf5. cbn [refs] in Hf5. wp_step. wp_step. wp_step.
  assert (frame 2 w w5) as Hf15 by solve_frame.
  cbn [the_db db_host host_compressor].
  eapply (wp_put_object k r b data); [done|done|done|done|done| | |done|by eapply frame_mem_ok|].
  { rewrite Hct. apply Htx. } { by rewrite Hct. }
  intros o w6 Hf6 Hob. assert (frame 3 w w6) as Hf16 by solve_frame.
  apply (set_deleted_holds _ _ _ _ _ is_delete) in Hob; [|done|by constructor].
  wp_step. cbn [the_store the_db db_store]. wp_step. wp_step.
  unfold la_storage_put, with_store. cbn [st_store st_driver].
  eapply wp_mono.
  { apply (ds_put w6 m n k (option_map rrev oldrev) _ (new_document r is_delete data)); [|by eapply frame_mem_ok|exact Hob|exact Hrd].
    eapply ds_repr_frame; [apply Hf16|done]. }
  intros [res o'] w7 (Hh7 & Hy7 & Hres). wp_step. apply wp_destroy_object. intros w8 Hf8.
  apply wp_ret.
  assert (ds_healthy w -> ds_healthy w6) as Hy6
    by (intros ?; eapply ds_healthy_frame; [apply Hf16|done]).
  assert (ds_healthy w6 -> ds_healthy w) as Hy6'.
  { intros ?. eapply ds_healthy_frame; [|done]. symmetry. apply Hf16. }
  split; [solve_heap|]. split; [intros ?; eapply ds_healthy_frame; [apply Hf8|auto]|].
  assert (forall m' n', ds_repr w7 m' n' -> ds_repr w8 m' n') as Hr8
    by (intros m' n' ?; eapply ds_repr_frame; [apply Hf8|done]).
  destruct res.
  - destruct Hres as (d' & Hd' & (_ & Hhd & _) & Hst). exists d'. split; [done|].
    rewrite Hhd. split; [done|]. destruct Hst as [?|[? ?]]; [left|right]; [auto|].
    split; [tauto|auto].
  - destruct Hres as [? Hc]. split; [auto|]. destruct Hc; [by left|right; tauto].
  - destruct Hres as [? Hc]. split; [auto|tauto].
Qed.

(** ** Replacing *)

(** The text stored for a replacement, which drops the deleted member as well. *)
Definition replaced (c : option la_compressor) (doc : V) (v : V) (data : list byte) : Prop :=
  exists copy chunks, json_copy doc = Some copy /\
    v = json_object_del (stripped copy) LA_API_DELETED_NAME /\
    json_dump v = Some chunks /\ text_ok chunks /\ deflate c (concat chunks) = Some data /\
    Z.of_nat (length data) < 2 ^ 31.

Lemma wp_make_object k r l b data w (Q : option (option la_storage_object) -> world X -> Prop) :
  cstring k -> Z.of_nat (length k) < PTRDIFF_MAX -> length r = 16%nat ->
  revs_wf l -> Z.of_nat (length l) < 2 ^ 15 ->
  wf b -> Z.of_nat (length (contents b)) < 2 ^ 31 ->
  deflate c (contents b) = Some data -> Z.of_nat (length data) < 2 ^ 31 -> mem_ok w ->
  (forall o w', frame 3 w w' -> object_is o k r data l -> Q (Some (Some o)) w') ->
  wp (make_object c k r b (Some (concat l)) (Z.of_nat (length l))) w Q.
Proof.
  intros Hk Hkl Hr Hl Hln Hwf Hct Hdf Hd Hm HQ. unfold make_object.
  destruct c as [c'|]; cbn [deflate] in Hdf.
  - wp_step. rewrite contents_read by done. apply wp_lift. rewrite Hdf.
    wp_step. apply wp_lib_alloc. intros w1 Hf1. wp_step.
    eapply (wp_create k r data l); [done|done|done|done|done|done|by eapply frame_mem_ok|by left|].
    intros o w3 Hf3 Hob. wp_steps. apply HQ; [solve_frame|done].
  - injection Hdf as <-. wp_step. pose proof (wf_bounds b Hwf) as HB.
    pose proof (contents_length b Hwf) as HL.
    assert (la_buffer_size b = Z.of_nat (length (contents b))) as Hsz by (unfold la_buffer_size; lia).
    rewrite Hsz. eapply wp_ext.
    { apply create_object_prefix. unfold u32, la_buffer_data. rewrite Z.mod_small by lia. lia. }
    assert (take (Z.to_nat (u32 (Z.of_nat (length (contents b))))) (la_buffer_data b) = contents b) as ->.
    { unfold u32. rewrite Z.mod_small by lia. rewrite HL. done. }
    eapply (wp_create k r (contents b) l); [done|done|done|done|done|done|done|by left|].
    intros o w1 Hf1 Hob. apply wp_ret. by apply HQ.
Qed.

(** The document a replacement stores. *)
Definition replacement (rev : la_rev) (is_delete : bool) (l : list rev_t) (data : list byte) : doc :=
  Doc 0 (rseq rev) (c_bool is_delete) (rrev rev) l data.

Lemma wp_replace k rev doc l v data m n w :
  ds_repr w m n -> mem_ok w -> la_codec_is_object (Some doc) = true -> replaced c doc v data ->
  (fuel_for (tree_of v) <= fuel)%nat -> sizes_ok (tree_of v) = true ->
  1 <= rseq rev < 2 ^ 63 -> length (rrev rev) = 16%nat -> json_integer (rseq rev - 1) <> None ->
  cstring k -> Z.of_nat (length k) < PTRDIFF_MAX ->
  doc_wf (replacement rev (deleted_flag doc) l data) -> 0 <= n < 2 ^ 64 ->
  wp (la_db_replace md5 fuel the_db (Some k) (Some rev) (Some doc) (Some (concat l))
        (Z.of_nat (length l))) w (fun res w' =>
    heap 0 w w' /\ (ds_healthy w -> ds_healthy w') /\
    match res with
    | LA_DB_PUT_OK =>
        ds_repr w' (<[k := with_seq n (replacement rev (deleted_flag doc) l data)]> m) (n + 1) \/
        ~ ds_healthy w /\ ds_repr w' m n
    | LA_DB_PUT_ERROR => ds_repr w' m n /\ ~ ds_healthy w
    | _ => False
    end).
Proof.
  intros Hr Hm Hobj (copy & chunks & Hcp & Hv & Hdump & Htx & Hdf & Hdl) Hfu Hsz Hsq Hrl Hint
    Hk Hkl Hwfd Hn. pose proof Hwfd as (_ & Hlw & _ & Hlc). cbn [replacement d_revs] in Hlw, Hlc.
  unfold LA_OBJECT_MAX_REVISION_COUNT in Hlc.
  unfold la_db_replace. rewrite Hobj. cbn [negb].
  wp_step. apply wp_buffer_new; [lia|done|]. intros b0 w1 Hwf0 Ho0 Hct0 Hcap0 Hf1.
  wp_step. unfold la_codec_copy. rewrite Hcp. apply wp_new_ref. intros w2 Hf2. cbn [refs] in Hf2.
  unfold la_codec_object_del. fold (stripped copy). rewrite <- Hv. cbv zeta.
  set (is_delete := deleted_flag doc) in *.
  assert (frame 3 w w2) as Hf12 by solve_frame.
  wp_step.
  assert (forall (Q : option rev_t -> world X -> Prop),
    (forall old, oldrev_ok old -> Q old w2) ->
    wp (if 0 <? Z.of_nat (length l)
        then let* r := lift (mem_read (concat l) 0 REV_LEN) in ret (Some r)
        else ret None) w2 Q) as Hold.
  { intros Q HQ. destruct l as [|r0 l0]; [by apply wp_ret, HQ|].
    rewrite (proj2 (Z.ltb_lt 0 _)) by (simpl; lia). wp_step. apply Forall_cons_1 in Hlw as [Hr0 _].
    unfold REV_LEN. rewrite mem_read_ok by (cbn [concat]; rewrite ?length_app; lia).
    apply wp_lift, wp_ret, HQ. cbn [concat oldrev_ok]. rewrite drop_0, take_app_exact by lia. done. }
  apply Hold. intros old Hok. wp_step.
  assert (u64 (rseq rev - 1) = rseq rev - 1) as -> by (unfold u64; rewrite Z.mod_small; lia).
  eapply wp_mono.
  { apply (wp_la_revgen md5 fuel v (rseq rev - 1) old is_delete);
      [lia|done|lia|done|done|by eapply frame_mem_ok]. }
  intros [z nr] w3 [_ Hf3]. wp_step.
  eapply wp_dump; [done|done|done|done|by repeat (eapply frame_mem_ok; [eassumption|])|done|done|].
  intros b w4 Hwf Ho Hct Hf4. wp_step. apply wp_decref. intros w5 Hf5. cbn [refs] in Hf5.
  cbn [negb Z.eqb]. wp_step. wp_step. wp_step. cbn [the_db db_host host_compressor].
  assert (frame 2 w w5) as Hf15 by solve_frame.
  eapply (wp_make_object k (rrev rev) l b data);
    [done|done|done|done|lia|done| | |done|by eapply frame_mem_ok|].
  { rewrite Hct. apply Htx. } { by rewrite Hct. }
  intros o w6 Hf6 Hob. apply (set_deleted_holds _ _ _ _ _ is_delete) in Hob; [|done|done].
  wp_step. apply la_buffer_destroy_spec. intros w7 Hf7. rewrite Ho in Hf7.
  assert (frame 3 w w7) as Hf17 by solve_frame.
  set (o' := with_header (set_deleted _ _) o) in *.
  assert (object_holds (with_header (set_doc_seq (rseq rev) (header o')) o') k
            (replacement rev is_delete l data)) as Ho'.
  { destruct Hob as (Hk' & Hhd & Hl' & Hp). repeat split; try done. cbn [with_header header].
    rewrite Hhd. unfold set_doc_seq, doc_header, replacement, u64.
    cbn [seq deleted rev_count ObjectStore.rev d_seq d_doc_seq d_deleted d_rev d_revs].
    by rewrite Z.mod_small by lia. }
  wp_step. cbn [the_store the_db db_store]. wp_step. wp_step.
  unfold la_storage_replace, with_store. cbn [st_store st_driver].
  eapply wp_mono.
  { apply (ds_replace w7 m n k _ (replacement rev is_delete l data));
      [|by eapply frame_mem_ok|exact Ho'|done|done].
    eapply ds_repr_frame; [apply Hf17|done]. }
  intros [res ob] w8 (Hh8 & Hy8 & Hres). wp_step. apply wp_destroy_object. intros w9 Hf9.
  apply wp_ret.
  assert (ds_healthy w -> ds_healthy w7) as Hy7
    by (intros ?; eapply ds_healthy_frame; [apply Hf17|done]).
  assert (ds_healthy w7 -> ds_healthy w) as Hy7'.
  { intros ?. eapply ds_healthy_frame; [|done]. symmetry. apply Hf17. }
  split; [solve_heap|]. split; [intros ?; eapply ds_healthy_frame; [apply Hf9|auto]|].
  assert (forall m' n', ds_repr w8 m' n' -> ds_repr w9 m' n') as Hr9
    by (intros m' n' ?; eapply ds_repr_frame; [apply Hf9|done]).
  destruct res; [|done|destruct Hres; split; [auto|tauto]].
  destruct Hres as [?|[? ?]]; [left; auto|right; split; [tauto|auto]].
Qed.

(** ** Reading back *)

Lemma assoc_None k l : assoc k l = None <-> Forall (fun e => e.1 <> k) l.
Proof.
  induction l as [|[k' t] l IH]; cbn [assoc]; [split; [constructor|done]|].
  rewrite Forall_cons_iff. cbn [fst]. rewrite <- IH. case_decide; naive_solver.
Qed.

Lemma eqv_object_inv l t : tree_eqv (TObject l) t ->
  exists l', t = TObject l' /\ forall k, assoc k l = None -> assoc k l' = None.
Proof.
  intros Ht. inversion Ht as [l1 l2 l3 HP HF E1 E2| |t' E1 E2]; subst.
  - exists l3. split; [done|]. intros k. rewrite !assoc_None, HP.
    clear -HF. induction HF as [|e2 e3 l2 l3 [He _] _ IH]; [done|].
    rewrite !Forall_cons_iff, He. tauto.
  - by exists l.
Qed.

Lemma assoc_without k k' l : assoc k l = None -> assoc k (without k' l) = None.
Proof.
  induction l as [|[k0 t] l IH]; [done|]. cbn [assoc].
  destruct (decide (k = k0)) as [|Hne]; [done|]. intros Hn. unfold without. rewrite filter_cons.
  case_decide; [|by apply IH]. cbn [assoc]. rewrite decide_False by done. by apply IH.
Qed.

Lemma object_tree (v : V) : la_codec_is_object (Some v) = true -> exists l, tree_of v = TObject l.
Proof.
  cbn. intros Ht%bool_decide_eq_true. rewrite typeof_law in Ht.
  destruct (tree_of v); try done. eauto.
Qed.

Lemma get_None (v : V) l k :
  tree_of v = TObject l -> json_object_get v k = None <-> assoc k l = None.
Proof.
  intros Hv. destruct (object_law v l Hv) as (_ & _ & Hg). rewrite <- Hg.
  by destruct (json_object_get v k).
Qed.

(** A document put without a deleted member is no tombstone when it is read back. *)
Lemma prepared_tree doc v data :
  put_allowed doc false = true -> prepared c doc v data ->
  exists l, tree_of v = TObject l /\ assoc LA_API_DELETED_NAME l = None.
Proof.
  intros [Hobj Hdel]%andb_true_iff (copy & chunks & Hcp & -> & _).
  apply object_tree in Hobj as [l Hl]. cbn [orb] in Hdel.
  destruct (json_object_get doc LA_API_DELETED_NAME) eqn:Hg; [done|].
  apply (get_None doc l) in Hg; [|done].
  pose proof (copy_law doc copy Hcp) as He. rewrite Hl in He.
  apply eqv_object_inv in He as (l' & Hl' & Hk). apply Hk in Hg.
  exists (without LA_API_REV_NAME (without LA_API_KEY_NAME l')). split.
  - unfold stripped. by do 2 apply del_law.
  - by do 2 apply assoc_without.
Qed.

Lemma no_tombstone (v : V) l :
  tree_of v = TObject l -> assoc LA_API_DELETED_NAME l = None -> is_tombstone (Some v) = false.
Proof.
  intros Hv Hd. unfold is_tombstone, la_codec_object_get.
  rewrite (proj2 (get_None v l _ Hv) Hd). cbn [la_codec_is_true json_is].
  by destruct (negb _), (3 <? la_codec_object_size v).
Qed.

(** The compressor gives back the text of [v]. *)
Definition compressor_ok (v : V) : Prop :=
  forall chunks data, json_dump v = Some chunks -> deflate c (concat chunks) = Some data ->
    inflate c data = Some (concat chunks).

Lemma prepared_loads doc v data v1 text :
  compressor_ok v -> put_allowed doc false = true -> prepared c doc v data ->
  inflate c data = Some text -> json_loadb text = Some v1 ->
  tree_eqv (tree_of v) (tree_of v1) /\ is_tombstone (Some v1) = false.
Proof.
  intros Hc Hal Hp Hi Hload. pose proof (prepared_tree doc v data Hal Hp) as (l & Hl & Hd).
  destruct Hp as (copy & chunks & _ & _ & Hdump & _ & Hdf & _).
  rewrite (Hc _ _ Hdump Hdf) in Hi. injection Hi as <-.
  assert (tree_eqv (tree_of v) (tree_of v1)) as He by (eapply dump_load_law; eauto).
  split; [done|]. rewrite Hl in He. apply eqv_object_inv in He as (l' & Hl' & Hk).
  apply (no_tombstone v1 l'); auto.
Qed.

(** What a successful put leaves to read. *)
Lemma put_doc_data m n k r d d' : put_doc m n k r d = Some d' ->
  d_data d' = d_data d /\ d_rev d' = d_rev d /\ d_deleted d' = d_deleted d.
Proof.
  unfold put_doc. destruct (m !! k) as [old|]; [case_decide; [|done]|]; by intros [= <-].
Qed.

(** ** Properties *)

(** C4 (refinement): when the stored document, if there is one, has no old revisions, a put hands
    the storage the document without its identifier and revision, under the revision
    identifier computed from it and the old revision.  When no library call fails the answer
    is OK with the new revision when the storage's specification stores the document, and a
    conflict, with the documents unchanged, when the old revision is not the current one.  When
    one fails the documents stay as they were, and the answer is an error, a conflict or, for
    the commit, OK.  No memory and no references are leaked. *)
Theorem la_db_put_correct urandom key k oldrev doc v data m n w
  (Hw : ds_repr w m n) (Hm : mem_ok w) (Hal : put_allowed doc false = true)
  (Hp : prepared c doc v data) (Hg : revgen_ready oldrev v)
  (Hkey : forall w : world X, choose_key urandom key doc w = Ret (k, w))
  (Hk : cstring k) (Hkl : Z.of_nat (length k) < PTRDIFF_MAX)
  (Hd : put_ready m n k (new_document (rev_of false oldrev v) false data)) :
  exists res newrev w', la_db_put md5 fuel urandom the_db key oldrev doc w = Ret ((res, newrev), w') /\
    heap 0 w w' /\
    match res with
    | LA_DB_PUT_OK =>
        exists d', put_doc m n k (option_map rrev oldrev)
                     (new_document (rev_of false oldrev v) false data) = Some d' /\
          newrev = Some (LaRev (d_doc_seq d') (rev_of false oldrev v)) /\
          (ds_repr w' (<[k := d']> m) (n + 1) \/ ~ ds_healthy w /\ ds_repr w' m n)
    | LA_DB_PUT_CONFLICT =>
        ds_repr w' m n /\
        (put_doc m n k (option_map rrev oldrev)
           (new_document (rev_of false oldrev v) false data) = None \/ ~ ds_healthy w)
    | LA_DB_PUT_INVALID_ARG => False
    | LA_DB_PUT_ERROR => ds_repr w' m n /\ ~ ds_healthy w
    end.
Proof.
  pose proof (wp_do_put urandom key k oldrev doc false v data m n w) as HP.
  apply wp_run in HP as ([res newrev] & w' & Hrun & Hh & _ & HP); [|done..].
  exists res, newrev, w'. split; [exact Hrun|]. by split.
Qed.


(** The answers to a get of the current revision, case by case. *)
Inductive get_answer (value : bool) : option doc -> la_db_get_result * option V * option la_rev -> Prop :=
| answer_absent : get_answer value None (LA_DB_GET_NOT_FOUND, None, None)
| answer_deleted d :
    d_deleted d <> 0 -> get_answer value (Some d) (LA_DB_GET_NOT_FOUND, None, None)
| answer_damaged d :
    d_deleted d = 0 -> inflate c (d_data d) = None ->
    get_answer value (Some d) (LA_DB_GET_ERROR, None, None)
| answer_unparsed d text :
    d_deleted d = 0 -> inflate c (d_data d) = Some text -> json_loadb text = None ->
    get_answer value (Some d) (LA_DB_GET_ERROR, None, Some (LaRev (d_doc_seq d) (d_rev d)))
| answer_tombstone d text v :
    d_deleted d = 0 -> inflate c (d_data d) = Some text -> json_loadb text = Some v ->
    tombstone (tree_of v) = true ->
    get_answer value (Some d) (LA_DB_GET_NOT_FOUND, None, Some (LaRev (d_doc_seq d) (d_rev d)))
| answer_found d text v :
    d_deleted d = 0 -> inflate c (d_data d) = Some text -> json_loadb text = Some v ->
    tombstone (tree_of v) = false ->
    get_answer value (Some d)
      (LA_DB_GET_OK, if value then Some v else None, Some (LaRev (d_doc_seq d) (d_rev d))).

Lemma deleted_flag_tree (v : V) :
  la_codec_is_object (Some v) = true -> deleted_flag v = deleted_member (tree_of v).
Proof.
  intros [l Hl]%object_tree. destruct (object_law v l Hl) as (_ & _ & Hg).
  specialize (Hg LA_API_DELETED_NAME). unfold deleted_flag, la_codec_object_get, deleted_member.
  rewrite Hl. unfold la_codec_is_true, json_is. rewrite <- Hg.
  destruct (json_object_get v LA_API_DELETED_NAME) as [x|]; cbn [option_map]; [|done].
  apply bool_decide_ext. rewrite typeof_law. destruct (tree_of x); naive_solver.
Qed.

Lemma is_tombstone_tree (v : V) : is_tombstone (Some v) = tombstone (tree_of v).
Proof.
  unfold is_tombstone. destruct (la_codec_is_object (Some v)) eqn:Ho; cbn [negb].
  - pose proof (deleted_flag_tree v Ho) as Hd.
    unfold tombstone. rewrite <- Hd. unfold deleted_flag.
    apply object_tree in Ho as [l Hl]. destruct (object_law v l Hl) as (Hs & _).
    unfold la_codec_object_size. rewrite Hs, Hl. cbn [members].
    destruct (Z.ltb_spec 3 (Z.of_nat (length l))), (Nat.leb_spec (length l) 3); try lia; done.
  - cbn in Ho. apply bool_decide_eq_false in Ho. rewrite typeof_law in Ho.
    unfold tombstone, deleted_member. by destruct (tree_of v).
Qed.

Lemma get_result_answer value od : get_answer value od (get_result c value od).
Proof.
  destruct od as [d|]; cbn [get_result]; [|constructor].
  destruct (Z.eqb_spec (d_deleted d) 0) as [Hd|Hd]; cbn [negb]; [|by constructor].
  destruct (inflate c (d_data d)) as [text|] eqn:Ei; [|by constructor].
  destruct (json_loadb text) as [v|] eqn:El; [|by econstructor].
  destruct (is_tombstone (Some v)) eqn:Et; rewrite is_tombstone_tree in Et.
  - by eapply answer_tombstone.
  - by eapply answer_found.
Qed.

(** C28 (functional): when memory lasts, a get of the current revision gives the document and
    its revision, NOT_FOUND for a key that was never put, a deleted document or a tombstone (an
    object of three members at most whose [_deleted] is true), and an error for data that does
    not inflate or parse, or when the storage fails; the only reference left is the value
    returned, and the documents do not change. *)
Theorem la_db_get_correct k value m n w
  (Hw : ds_repr w m n) (Hm : mem_ok w) (Hk : cstring k) (Hkl : Z.of_nat (length k) < PTRDIFF_MAX) :
  exists res w', la_db_get the_db k None value w = Ret (res, w') /\
    ds_repr w' m n /\ heap (refs res.1.2) w w' /\
    (get_answer value (m !! k) res \/
     ~ ds_healthy w /\ res = (LA_DB_GET_ERROR, None, None)).
Proof.
  pose proof (wp_la_db_get w m n k value Hw Hm Hk Hkl) as HG.
  apply wp_run in HG as (res & w' & Hrun & ? & _ & ? & HG). exists res, w'. do 3 (split; [done|]).
  destruct HG as [->|?]; [left; apply get_result_answer|by right].
Qed.

(** C26 (functional): in a healthy database, deleting a document that has no old revisions with
    its current revision succeeds, and getting it afterwards says NOT_FOUND.  (A document that
    has old revisions is overrun, see [BdbStore.bdb_put_history_overrun].) *)
Theorem la_db_delete_get urandom k oldrev e v data m n w
  (Hw : ds_repr w m n) (Hy : ds_healthy w) (Hm : mem_ok w)
  (He : json_object = Some e) (Hp : prepared c e v data) (Hg : revgen_ready oldrev v)
  (Hk : cstring k) (Hkl : Z.of_nat (length k) < PTRDIFF_MAX)
  (Hd : put_ready m n k (new_document (rev_of true oldrev v) true data))
  (Hok : put_doc m n k (option_map rrev oldrev)
           (new_document (rev_of true oldrev v) true data) <> None) :
  exists w1 w2,
    la_db_delete md5 fuel urandom the_db (Some k) oldrev w = Ret (LA_DB_DELETE_OK, w1) /\
    la_db_get the_db k None true w1 = Ret ((LA_DB_GET_NOT_FOUND, None, None), w2) /\
    heap 0 w w2.
Proof.
  assert (wp (la_db_delete md5 fuel urandom the_db (Some k) oldrev) w (fun res w1 =>
            res = LA_DB_DELETE_OK /\ heap 0 w w1 /\ ds_healthy w1 /\
            exists d', d_deleted d' = 1 /\ ds_repr w1 (<[k := d']> m) (n + 1))) as HD.
  { unfold la_db_delete, la_codec_object. wp_step. rewrite He. apply wp_new_ref.
    intros w1 Hf1. cbn [refs] in Hf1. wp_step.
    assert (la_codec_is_object (Some e) = true) as Hobj.
    { cbn. apply bool_decide_eq_true. rewrite typeof_law. by rewrite (object_new_law e He). }
    eapply wp_mono.
    { apply (wp_do_put urandom (Some k) k oldrev e true v data m n); try done.
      - eapply ds_repr_frame; [apply Hf1|done].
      - by eapply frame_mem_ok.
      - unfold put_allowed. by rewrite Hobj. }
    assert (ds_healthy w1) as Hy1 by (eapply ds_healthy_frame; [apply Hf1|done]).
    intros [res nr] w2 (Hh2 & Hy2 & Hres). specialize (Hy2 Hy1).
    destruct res; [| |done|tauto].
    2: { destruct Hres as [_ [?|?]]; [done|tauto]. }
    destruct Hres as (d' & Hd' & _ & [Hr2|[? _]]); [|done].
    wp_step. apply wp_decref. intros w3 Hf3. cbn [refs] in Hf3. apply wp_ret.
    split; [done|]. split; [solve_heap|]. split; [eapply ds_healthy_frame; [apply Hf3|done]|].
    exists d'. split; [|eapply ds_repr_frame; [apply Hf3|done]].
    apply put_doc_data in Hd' as (_ & _ & ->). done. }
  apply wp_run in HD as (res & w1 & Hrun & -> & Hh1 & Hy1 & d' & Hdel & Hr1).
  assert (mem_ok w1) as Hm1 by (by eapply heap_mem_ok).
  pose proof (wp_la_db_get w1 _ _ k true Hr1 Hm1 Hk Hkl) as HG.
  apply wp_run in HG as (r & w2 & Hrun2 & _ & _ & Hh2 & HG).
  destruct HG as [->|[? _]]; [|done]. rewrite lookup_insert_eq in Hrun2, Hh2.
  cbn [get_result] in *. rewrite Hdel in *. cbn [Z.eqb negb fst snd refs] in *.
  exists w1, w2. split; [done|]. split; [done|]. solve_heap.
Qed.

(** C30 (refinement): a replacement of any document of fitting size, with a revision from 1 on and
    its history, stores the document with that revision and history whatever the database
    holds, deleted exactly when its [_deleted] is true, and answers OK.  Only when a library
    call fails are the documents left unchanged: the answer is then an error, or OK all the
    same when it is the commit that fails. *)
Theorem la_db_replace_correct k rev doc l v data m n w
  (Hw : ds_repr w m n) (Hm : mem_ok w) (Hobj : la_codec_is_object (Some doc) = true)
  (Hp : replaced c doc v data) (Hf : (fuel_for (tree_of v) <= fuel)%nat)
  (Hs : sizes_ok (tree_of v) = true) (Hseq : 1 <= rseq rev < 2 ^ 63)
  (Hr : length (rrev rev) = 16%nat) (Hint : json_integer (rseq rev - 1) <> None)
  (Hk : cstring k) (Hkl : Z.of_nat (length k) < PTRDIFF_MAX)
  (Hd : doc_wf (replacement rev (deleted_member (tree_of doc)) l data)) (Hn : 0 <= n < 2 ^ 64) :
  exists res w',
    la_db_replace md5 fuel the_db (Some k) (Some rev) (Some doc) (Some (concat l))
      (Z.of_nat (length l)) w = Ret (res, w') /\ heap 0 w w' /\
    match res with
    | LA_DB_PUT_OK =>
        ds_repr w' (<[k := with_seq n (replacement rev (deleted_member (tree_of doc)) l data)]> m)
          (n + 1) \/
        ~ ds_healthy w /\ ds_repr w' m n
    | LA_DB_PUT_ERROR => ds_repr w' m n /\ ~ ds_healthy w
    | _ => False
    end.
Proof.
  rewrite <- (deleted_flag_tree doc Hobj) in *. pose proof (wp_replace k rev doc l v data m n w) as HP.
  apply wp_run in HP as (res & w' & Hrun & Hh & _ & HP); [|done..]. by exists res, w'.
Qed.
End correct.

(** ** Concrete runs *)

(** A stand-in for MD5 with digests of the right length. *)
Definition digest16 (s : list byte) : list byte := take 16 (List.rev s ++ replicate 16 x00).

Lemma digest16_length s : length (digest16 s) = 16%nat.
Proof. unfold digest16. rewrite length_take, length_app, length_replicate. lia. Qed.

Definition md_store : la_storage_object_store := BdbStore (Env []).
Abbreviation md_driver := (bdb_driver (D := mapdb)).
Abbreviation the_world := (md_world m12 3 []). 

#[export] Instance md_docstore : DocStore md_driver md_store := bdb_docstore mapdb_seq md_store.

Definition md_db := the_db md_driver md_store (Some (Env [])) (lit "BDB") None.

Definition put_text : tree := TObject [(LA_API_KEY_NAME, TString (lit "a")); (lit "n", TInteger 7)].
Definition put_value : tree := TObject [(lit "n", TInteger 7)].
Definition put_rev : la_rev := LaRev 1 (rv 1).
Definition put_data : list byte := tree_text put_value.

Lemma md_prepared : prepared None put_text put_value put_data.
Proof. exists put_text, [put_data]. repeat split; vm_compute; reflexivity. Qed.

Lemma md_replaced : replaced None put_text put_value put_data.
Proof. exists put_text, [put_data]. repeat split; vm_compute; reflexivity. Qed.

Lemma md_revgen_ready r : oldrev_ok (option_map rrev r) -> 0 <= old_seq r < 2 ^ 63 ->
  revgen_ready 5 r put_value.
Proof.
  intros Ho Hs. split; [apply (bool_decide_unpack _); vm_compute; reflexivity|].
  split; [vm_compute; reflexivity|]. split; [exact Hs|]. split; [exact Ho|].
  cbn [json_integer tree_jansson]. discriminate.
Qed.

(** The same document through the LZ4 driver. *)
Definition md_lz4 : la_compressor := la_lz4_compressor 1.
Definition md_db_lz4 := the_db md_driver md_store (Some (Env [])) (lit "BDB") (Some md_lz4).
Definition put_data_lz4 : list byte := default [] (compressor md_lz4 put_data).

Lemma md_prepared_lz4 : prepared (Some md_lz4) put_text put_value put_data_lz4.
Proof. exists put_text, [put_data]. repeat split; vm_compute; reflexivity. Qed.

Lemma compressor_ok_lz4 : compressor_ok (Some md_lz4) put_value.
Proof.
  intros chunks data Hd. assert (chunks = [put_data]) as ->.
  { vm_compute in Hd. injection Hd as <-. vm_compute. reflexivity. }
  cbn [deflate inflate]. apply la_lz4_gives_back; [vm_compute; discriminate|].
  apply (bool_decide_unpack _). vm_compute. reflexivity.
Qed.

Lemma put_ready_text is_delete data :
  data = put_data \/ data = put_data_lz4 ->
  put_ready m12 3 (lit "a") (new_document (rev_of digest16 is_delete (Some put_rev) put_value)
                              is_delete data).
Proof.
  intros [-> | ->]; destruct is_delete.
  all: split; [apply (bool_decide_unpack _); vm_compute; reflexivity|].
  all: split; [done|]; split; [vm_compute; reflexivity|]; vm_compute; by split.
Qed.

Lemma la_db_put_correct_witness :
  exists res newrev w',
    la_db_put digest16 5 None md_db None (Some put_rev) (tree_of put_text) the_world =
      Ret ((res, newrev), w') /\
    heap 0 the_world w' /\
    match res with
    | LA_DB_PUT_OK =>
        exists d', put_doc m12 3 (lit "a") (Some (rv 1))
                     (new_document (rev_of digest16 false (Some put_rev) put_value) false put_data) = Some d' /\
          newrev = Some (LaRev (d_doc_seq d') (rev_of digest16 false (Some put_rev) put_value)) /\
          (ds_repr w' (<[lit "a" := d']> m12) (3 + 1) \/
           ~ ds_healthy the_world /\ ds_repr w' m12 3)
    | LA_DB_PUT_CONFLICT =>
        ds_repr w' m12 3 /\
        (put_doc m12 3 (lit "a") (Some (rv 1))
           (new_document (rev_of digest16 false (Some put_rev) put_value) false put_data) = None \/
         ~ ds_healthy the_world)
    | LA_DB_PUT_INVALID_ARG => False
    | LA_DB_PUT_ERROR => ds_repr w' m12 3 /\ ~ ds_healthy the_world
    end.
Proof.
  apply (la_db_put_correct digest16 5 digest16_length md_driver md_store (Some (Env []))
           (lit "BDB") None None None (lit "a") (Some put_rev) (tree_of put_text) put_value put_data
           m12 3 the_world).
  - apply md_world_repr, m12_wf.
  - done.
  - reflexivity.
  - apply md_prepared.
  - apply md_revgen_ready; [reflexivity|done].
  - reflexivity.
  - apply (bool_decide_unpack _). vm_compute. reflexivity.
  - reflexivity.
  - apply put_ready_text. by left.
Defined.


Lemma la_db_get_correct_witness :
  exists res w', la_db_get md_db (lit "a") None true the_world = Ret (res, w') /\
    ds_repr w' m12 3 /\ heap (refs res.1.2) the_world w' /\
    (get_answer None true (m12 !! lit "a") res \/
     ~ ds_healthy the_world /\ res = (LA_DB_GET_ERROR, None, None)).
Proof.
  apply (la_db_get_correct md_driver md_store (Some (Env [])) (lit "BDB") None (lit "a") true
           m12 3 the_world).
  - apply md_world_repr, m12_wf.
  - done.
  - apply (bool_decide_unpack _). vm_compute. reflexivity.
  - reflexivity.
Defined.

Definition empty_text : list byte := tree_text (TObject []).

Lemma md_prepared_empty : prepared None (TObject []) (TObject []) empty_text.
Proof. exists (TObject []), [empty_text]. repeat split; vm_compute; reflexivity. Qed.

Lemma la_db_delete_get_witness :
  exists w1 w2,
    la_db_delete digest16 5 None md_db (Some (lit "a")) (Some put_rev) the_world =
      Ret (LA_DB_DELETE_OK, w1) /\
    la_db_get md_db (lit "a") None true w1 = Ret ((LA_DB_GET_NOT_FOUND, None, None), w2) /\
    heap 0 the_world w2.
Proof.
  apply (la_db_delete_get digest16 5 digest16_length md_driver md_store (Some (Env []))
           (lit "BDB") None None (lit "a") (Some put_rev) (TObject []) (TObject []) empty_text
           m12 3 the_world).
  - apply md_world_repr, m12_wf.
  - reflexivity.
  - done.
  - reflexivity.
  - apply md_prepared_empty.
  - split; [apply (bool_decide_unpack _); vm_compute; reflexivity|].
    split; [vm_compute; reflexivity|]. split; [done|]. split; [reflexivity|].
    cbn [json_integer tree_jansson]. discriminate.
  - apply (bool_decide_unpack _). vm_compute. reflexivity.
  - reflexivity.
  - split; [apply (bool_decide_unpack _); vm_compute; reflexivity|].
    split; [done|]. split; [vm_compute; reflexivity|]. vm_compute. by split.
  - vm_compute. discriminate.
Defined.

Lemma la_db_replace_correct_witness :
  exists res w',
    la_db_replace digest16 5 md_db (Some (lit "b")) (Some (LaRev 3 (rv 3))) (Some put_text)
      (Some (concat [rv 2; rv 1])) 2 the_world = Ret (res, w') /\ heap 0 the_world w' /\
    match res with
    | LA_DB_PUT_OK =>
        ds_repr w' (<[lit "b" := with_seq 3 (replacement (LaRev 3 (rv 3)) (deleted_member (tree_of put_text))
                                               [rv 2; rv 1] put_data)]> m12) (3 + 1) \/
        ~ ds_healthy the_world /\ ds_repr w' m12 3
    | LA_DB_PUT_ERROR => ds_repr w' m12 3 /\ ~ ds_healthy the_world
    | _ => False
    end.
Proof.
  apply (la_db_replace_correct digest16 5 md_driver md_store (Some (Env [])) (lit "BDB") None
           (lit "b") (LaRev 3 (rv 3)) put_text [rv 2; rv 1] put_value put_data m12 3 the_world).
  - apply md_world_repr, m12_wf.
  - done.
  - reflexivity.
  - apply md_replaced.
  - apply (bool_decide_unpack _). vm_compute. reflexivity.
  - vm_compute. reflexivity.
  - done.
  - reflexivity.
  - cbn [json_integer tree_jansson]. discriminate.
  - apply (bool_decide_unpack _). vm_compute. reflexivity.
  - reflexivity.
  - apply (bool_decide_unpack _). vm_compute. reflexivity.
  - done.
Defined.

(** Three puts of the same document: the third overruns the object. *)
Example third_put_overruns :
  (let* '(_, r1) := la_db_put digest16 5 None md_db (Some (lit "z")) None put_text in
   let* '(res, r2) := la_db_put digest16 5 None md_db (Some (lit "z")) r1 put_text in
   la_db_put digest16 5 None md_db (Some (lit "z")) r2 put_text) the_world = Undef OutOfBounds.
Proof. vm_compute. reflexivity. Qed.

Example put_conflict :
  exists w', la_db_put digest16 5 None md_db (Some (lit "a")) None put_text the_world =
    Ret ((LA_DB_PUT_CONFLICT, Some (LaRev 0 (rev_of digest16 false None put_value))), w').
Proof. eexists. vm_compute. reflexivity. Qed.

(** A view whose map function emits nothing for the first document reports an error. *)
Example empty_map_errors :
  exists it', (let* it := la_db_view md_db (Some (fun _ => [])) None in
     match it with
     | Some it => let* r := la_view_iterator_next 5 md_db it in ret (Some r)
     | None => ret None
     end) (md_world {[ lit "a" := with_seq 1 (new_document (rv 1) false put_data) ]} 2 []) = it' /\
    match it' with Ret (Some (LA_VIEW_ITERATOR_ERROR, None, _), _) => True | _ => False end.
Proof. eexists. split; [vm_compute; reflexivity|exact I]. Qed.

(** A replacement without a document is refused before anything is read. *)
Lemma la_db_replace_no_document {X E S I V J} `{Jansson V J} md5 fuel (d : la_db X E S I) key rev
    l n (w : world X) :
  la_db_replace md5 fuel d key rev (@None V) l n w = Ret (LA_DB_PUT_INVALID_ARG, w).
Proof. by destruct key, rev. Qed.
