(* ===== verification/DbCache.v ===== *)
(** * The cache of open databases of the web server module (ngx_http_loungeact/db_cache.c)

    Databases are objects at addresses, because the cache and the requests share them.  The
    addresses an allocation gives are arguments.  The theorems say that the cache never holds
    more than its limit, and that it never finds a database by name. *)

From S2P Require Import Prelude Uthash StringUtils Revision ObjectStore Codec CouchRevgen Api.
From Stdlib Require Import Init.Byte.

#[local] Open Scope c_scope.

Section cache.
Context {X E S I : Type}.
Context (drivers : drivers_table X E S I).
Abbreviation db := (la_db X E S I).

Record db_cache_entry := CacheEntry {
  ce_name : list byte;
  ce_name_addr : Z;
  ce_db : Z;
  ce_refcount : Z;
}.

Record db_cache := DbCache {
  cache_maxsize : Z;
  cache_head : UT_hash_table db_cache_entry;
}.

(** The cache and the databases in memory. *)
Record cache_state := CacheState {
  cs_cache : db_cache;
  cs_dbs : gmap Z db;
}.

(** Where the blocks of a new entry lie, and the memory of its hash handle when it is
    hashed. *)
Record placement := Placement {
  pl_name_addr : Z;
  pl_db_addr : Z;
  pl_hh : list byte;
}.

Definition SIZEOF_ENTRY : Z := 80.

(** The memory of an entry from the field [name] on: two pointers, the count and its
    padding, the hash handle. *)
Definition cache_entry_memory (name_addr db_addr refcount : Z) (hh : list byte) : list byte :=
  pointer_bytes name_addr ++ pointer_bytes db_addr ++ le_bytes 4 refcount ++ replicate 4 x00 ++ hh.

(** The database of an address. *)
Definition db_at (dbs : gmap Z db) (a : Z) : M X db :=
  match dbs !! a with Some d => ret d | None => undef UseAfterFree end.

(** The entry afterwards, or [None] when it was freed, and the databases left. *)
Definition cache_decref (entry : db_cache_entry) (dbs : gmap Z db)
  : M X (option db_cache_entry * gmap Z db) :=
  let refcount := s32 (ce_refcount entry - 1) in
  if refcount =? 0 then
    let* d := db_at dbs (ce_db entry) in
    la_db_close d ;;;
    free ;;; free ;;;
    ret (None, delete (ce_db entry) dbs)
  else ret (Some (CacheEntry (ce_name entry) (ce_name_addr entry) (ce_db entry) refcount), dbs).

Definition cache_incref (entry : db_cache_entry) : db_cache_entry :=
  CacheEntry (ce_name entry) (ce_name_addr entry) (ce_db entry) (s32 (ce_refcount entry + 1)).

Definition db_cache_init (maxsize : Z) : db_cache := DbCache (u32 maxsize) [].

Definition db_cache_destroy (cache : db_cache) : db_cache := cache.

(** The loop that removes the first entry and stops; an entry that goes is not looked at
    again unless it is the one just added. *)
Definition evict (cs : cache_state) : M X cache_state :=
  match cache_head (cs_cache cs) with
  | [] => ret cs
  | (_, e) :: rest =>
      let* head := HASH_DELETE (cache_head (cs_cache cs)) 0 in
      let* '(entry, dbs) := cache_decref e (cs_dbs cs) in
      match entry, rest with
      | None, [] => undef UseAfterFree
      | _, _ => ret (CacheState (DbCache (cache_maxsize (cs_cache cs)) head) dbs)
      end
  end.

(** The position of the entry [HASH_FIND_STR] finds. *)
Fixpoint find_position (head : UT_hash_table db_cache_entry) (key : list byte) (i : nat)
  : option nat :=
  match head with
  | [] => None
  | (k, _) :: head =>
      match find_position head key (Datatypes.S i) with
      | Some j => Some j
      | None => if decide (k = key) then Some i else None
      end
  end.

(** [cache_incref] of the entry added last. *)
Definition incref_last (head : UT_hash_table db_cache_entry) : UT_hash_table db_cache_entry :=
  match head !! (length head - 1)%nat with
  | Some (k, e) => take (length head - 1) head ++ [(k, cache_incref e)]
  | None => []
  end.

(** The count of a fresh entry is what [malloc] left there; [at_] is where the blocks lie.
    The second component is the address of the database. *)
Definition db_cache_open (cs : cache_state) (host : la_host E) (name : list byte) (flags : Z)
  (at_ : placement) : M X (la_storage_open_result_t * option Z * cache_state) :=
  let cache := cs_cache cs in
  let head := cache_head cache in
  match HASH_FIND_STR head name with
  | None =>
      let* blk := malloc SIZEOF_ENTRY in
      match blk with
      | None => ret (LA_STORAGE_OPEN_ERROR, None, cs)
      | Some blk =>
          let junk := s32 (le_value (take 4 (drop 16 blk))) in
          let* nm := strdup name in
          let* '(result, d) := la_db_open drivers host name flags in
          match d with
          | None =>
              (match nm with Some _ => free | None => ret tt end) ;;;
              free ;;; ret (result, None, cs)
          | Some d =>
              match nm with
              | None => undef NullDeref
              | Some nm =>
                  let a := pl_db_addr at_ in
                  let* head :=
                    HASH_ADD_STR head (cache_entry_memory (pl_name_addr at_) a junk (pl_hh at_)) nm
                      (cache_incref (CacheEntry nm (pl_name_addr at_) a junk)) in
                  let cs := CacheState (DbCache (cache_maxsize cache) head) (<[a := d]> (cs_dbs cs)) in
                  let* cs := if cache_maxsize cache <? HASH_COUNT head then evict cs else ret cs in
                  ret (result, Some a, cs)
              end
          end
      end
  | Some found =>
      match find_position head name 0 with
      | None => undef NullDeref
      | Some i =>
          let* rest := HASH_DELETE head i in
          let* head :=
            HASH_ADD_STR rest (cache_entry_memory (ce_name_addr found) (ce_db found) (ce_refcount found)
                                 (pl_hh at_)) (ce_name found) found in
          let flags_both := Z.lor LA_STORAGE_OPEN_FLAG_CREATE LA_STORAGE_OPEN_FLAG_EXCL in
          if Z.land flags flags_both =? flags_both
          then ret (LA_STORAGE_OPEN_EXISTS, None,
                    CacheState (DbCache (cache_maxsize cache) head) (cs_dbs cs))
          else
            let head := incref_last head in
            ret (LA_STORAGE_OPEN_OK, Some (ce_db found),
                 CacheState (DbCache (cache_maxsize cache) head) (cs_dbs cs))
      end
  end.

(** [__container_of] is applied to the pointer to the database, which is not inside of an
    entry: the entry it gives starts before the database's block. *)
Definition db_cache_close (cs : cache_state) (a : Z) : M X cache_state := undef OutOfBounds.

(** Requests that open databases, one after another. *)
Record open_request := OpenRequest {
  or_name : list byte;
  or_flags : Z;
  or_at : placement;
}.

Fixpoint db_cache_opens (cs : cache_state) (host : la_host E) (rs : list open_request)
  : M X cache_state :=
  match rs with
  | [] => ret cs
  | r :: rs =>
      let* '(_, _, cs) := db_cache_open cs host (or_name r) (or_flags r) (or_at r) in
      db_cache_opens cs host rs
  end.

(** ** What holds of every state of the cache *)

(** Keys are what [HASH_ADD_STR] makes of a pointer of a user process. *)
Definition pointer_key (k : list byte) : Prop :=
  exists addr rest n, 0 <= addr < 2 ^ 47 /\ k = take n (pointer_bytes addr ++ rest).

Definition canonical (cs : cache_state) : Prop :=
  Forall (fun e => pointer_key e.1 /\ 0 <= ce_name_addr e.2 < 2 ^ 47) (cache_head (cs_cache cs)).

Definition within_limit (cs : cache_state) : Prop :=
  Z.of_nat (length (cache_head (cs_cache cs))) <= cache_maxsize (cs_cache cs) < 2 ^ 32 - 1.

Definition request_ok (r : open_request) : Prop :=
  0 <= pl_name_addr (or_at r) < 2 ^ 47.

(** What holds of a result if there is one. *)
Definition pwp {A} (m : M X A) (w : world X) (Q : A -> Prop) : Prop :=
  match m w with Ret (a, _) => Q a | Undef _ => True end.

Lemma pwp_bind {A B} (m : M X A) (k : A -> M X B) w (P : A -> Prop) (Q : B -> Prop) :
  pwp m w P -> (forall a w', P a -> pwp (k a) w' Q) -> pwp (bind m k) w Q.
Proof.
  unfold pwp, bind. destruct (m w) as [[a w']|]; [|done]. intros Ha HK. by apply (HK a w').
Qed.

Lemma pwp_any {A B} (m : M X A) (k : A -> M X B) w (Q : B -> Prop) :
  (forall a w', pwp (k a) w' Q) -> pwp (bind m k) w Q.
Proof. intros HK. apply (pwp_bind m k w (fun _ => True)); [|by intros a w' _].
  unfold pwp. by destruct (m w) as [[a w']|]. Qed.

Lemma pwp_mono {A} (m : M X A) w (P Q : A -> Prop) :
  pwp m w P -> (forall a, P a -> Q a) -> pwp m w Q.
Proof. unfold pwp. destruct (m w) as [[a w']|]; auto. Qed.

Lemma pwp_add head memory str (a : db_cache_entry) w :
  pwp (HASH_ADD_STR head memory str a) w (fun head' => exists n, head' = head ++ [(take n memory, a)]).
Proof.
  unfold HASH_ADD_STR. apply (pwp_bind _ _ _ (fun key => exists n, key = take n memory)).
  - unfold pwp, lift, mem_read. destruct (_ && _); [|done].
    change (Z.to_nat 0) with 0%nat. rewrite drop_0. eauto.
  - intros key w' [n ->]. unfold HASH_ADD_KEYPTR. apply pwp_any. intros _ w2. by exists n.
Qed.

Lemma pwp_delete (head : UT_hash_table db_cache_entry) i w : (i < length head)%nat ->
  pwp (HASH_DELETE head i) w (fun head' => head' = delete i head).
Proof.
  intros Hi. unfold HASH_DELETE. destruct head as [|e [|e' head]]; [done| |done].
  destruct i; [|simpl in Hi; lia]. do 2 (apply pwp_any; intros _ ?). done.
Qed.

(** A pointer key is never a name of seven characters or more. *)
Lemma canonical_misses cs name :
  canonical cs -> cstring name -> (7 <= length name)%nat ->
  HASH_FIND_STR (cache_head (cs_cache cs)) name = None.
Proof.
  unfold canonical, HASH_FIND_STR, HASH_FIND. intros Hc Hn Hl.
  assert (Forall (fun e : list byte * db_cache_entry => e.1 <> name) (reverse (cache_head (cs_cache cs))))
    as Hf.
  { apply Forall_reverse. revert Hc. apply Forall_impl. intros [k e] [(addr & rest & n & Ha & Hk) _].
    cbn [fst] in *. intros ->.
    apply (pointer_spells_nothing addr rest name Ha Hn Hl). rewrite Hk at 2. rewrite Hk at 1.
    by rewrite length_take, <- take_take, (take_ge _ (length _)) by lia. }
  induction Hf as [|[k e] l Hk _ IH]; [done|]. cbn [HASH_FIND_IN_BKT fst] in *.
  by rewrite decide_False.
Qed.

Lemma canonical_insert cs dbs maxsize head k e :
  Forall (fun e : list byte * db_cache_entry => pointer_key e.1 /\ 0 <= ce_name_addr e.2 < 2 ^ 47) head ->
  pointer_key k -> 0 <= ce_name_addr e < 2 ^ 47 ->
  cs = CacheState (DbCache maxsize (head ++ [(k, e)])) dbs -> canonical cs.
Proof.
  intros Hh Hk He ->. unfold canonical. cbn [cs_cache cache_head].
  apply Forall_app. split; [done|]. by apply list.Forall_singleton.
Qed.

Lemma pwp_evict cs w : canonical cs ->
  pwp (evict cs) w (fun cs' => canonical cs' /\ cache_maxsize (cs_cache cs') = cache_maxsize (cs_cache cs) /\
    (length (cache_head (cs_cache cs')) = length (cache_head (cs_cache cs)) - 1)%nat).
Proof.
  intros Hc. unfold evict. destruct cs as [[maxsize head] dbs]. unfold canonical in *.
  cbn [cs_cache cache_head] in *. destruct head as [|[k e] rest]; [done|].
  eapply pwp_bind; [apply (pwp_delete _ 0); simpl; lia|]. intros head' w1 ->. cbn [delete list_delete].
  apply pwp_any. intros [entry dbs'] w2. apply Forall_cons_1 in Hc as [_ Hc].
  destruct entry, rest; unfold pwp; cbn [undef ret]; try done;
    (split; [done|]; split; [done|simpl; lia]).
Qed.

Lemma pointer_key_take addr rest n : 0 <= addr < 2 ^ 47 -> pointer_key (take n (pointer_bytes addr ++ rest)).
Proof. intros Ha. by exists addr, rest, n. Qed.

Lemma find_entry (head : UT_hash_table db_cache_entry) name e :
  HASH_FIND_STR head name = Some e -> exists k, (k, e) ∈ head.
Proof.
  unfold HASH_FIND_STR, HASH_FIND. intros Hf.
  assert (exists k, (k, e) ∈ reverse head) as [k Hk].
  { induction (reverse head) as [|[k0 e0] l IH]; [done|]. cbn [HASH_FIND_IN_BKT] in Hf.
    case_decide; [injection Hf as ->; exists k0; by left|].
    destruct (IH Hf) as [k Hk]. exists k. by right. }
  exists k. by apply elem_of_reverse.
Qed.

Lemma find_position_bound (head : UT_hash_table db_cache_entry) name : forall i j,
  find_position head name i = Some j -> (i <= j < i + length head)%nat.
Proof.
  induction head as [|[k e] head IH]; intros i j Hf; [done|]. cbn [find_position length] in *.
  destruct (find_position head name (Datatypes.S i)) as [j'|] eqn:Ej.
  - injection Hf as ->. apply IH in Ej. lia.
  - case_decide; [|done]. injection Hf as ->. lia.
Qed.

Lemma incref_last_app (l : UT_hash_table db_cache_entry) k e :
  incref_last (l ++ [(k, e)]) = l ++ [(k, cache_incref e)].
Proof.
  unfold incref_last, UT_hash_table in *. rewrite length_app. cbn [length].
  rewrite Nat.add_sub, list_lookup_middle by done.
  by rewrite take_app_length.
Qed.

(** The invariants of a cache, with the limit of another one. *)
Definition keeps (cs cs' : cache_state) : Prop :=
  canonical cs' /\ within_limit cs' /\
  cache_maxsize (cs_cache cs') = cache_maxsize (cs_cache cs).

(** One request keeps the invariants. *)
Lemma pwp_open cs host name flags at_ w :
  canonical cs -> within_limit cs -> 0 <= pl_name_addr at_ < 2 ^ 47 ->
  pwp (db_cache_open cs host name flags at_) w (fun r => keeps cs r.2).
Proof.
  intros Hc Hl Ha. unfold db_cache_open. destruct (HASH_FIND_STR _ name) as [found|] eqn:Ef.
  - destruct (find_position _ name 0) as [i|] eqn:Ei; [|done].
    apply find_position_bound in Ei. apply find_entry in Ef as [k0 Hin].
    pose proof (proj1 (Forall_forall _ _) Hc) as Hall.
    assert (0 <= ce_name_addr found < 2 ^ 47) as Hfa
      by (apply list_elem_of_In in Hin; by apply (Hall (k0, found))).
    eapply pwp_bind; [apply pwp_delete; lia|]. intros rest w1 ->.
    eapply pwp_bind; [apply pwp_add|]. intros head w2 [n ->].
    assert (Forall (fun e => pointer_key e.1 /\ 0 <= ce_name_addr e.2 < 2 ^ 47)
              (delete i (cache_head (cs_cache cs)))) as Hrest by (by apply Forall_delete).
    assert (pointer_key (take n (cache_entry_memory (ce_name_addr found) (ce_db found)
              (ce_refcount found) (pl_hh at_)))) as Hk by (by apply pointer_key_take).
    assert (forall e, within_limit (CacheState (DbCache (cache_maxsize (cs_cache cs))
        (delete i (cache_head (cs_cache cs)) ++ [e])) (cs_dbs cs))) as Hlim.
    { intros e. unfold within_limit in *. cbn [cs_cache cache_head cache_maxsize].
      assert (length (delete i (cache_head (cs_cache cs))) = length (cache_head (cs_cache cs)) - 1)%nat as HD
        by (apply length_delete, lookup_lt_is_Some_2; lia).
      rewrite length_app, HD. simpl. lia. }
    cbv zeta. destruct (_ =? _); unfold pwp; cbn [ret snd].
    + split; [eapply canonical_insert; [| | |reflexivity]; [exact Hrest|exact Hk|exact Hfa]|]. split; [apply Hlim|done].
    + rewrite incref_last_app.
      split; [eapply canonical_insert; [| | |reflexivity]; [exact Hrest|exact Hk|exact Hfa]|]. split; [apply Hlim|done].
  - apply pwp_any. intros [blk|] w1; [|by split]. apply pwp_any. intros nm w2.
    apply pwp_any. intros [result [d|]] w3.
    2: { destruct nm; do 2 (apply pwp_any; intros ? ?); by split. }
    destruct nm as [nm|]; [|done]. cbv zeta.
    eapply pwp_bind; [apply pwp_add|]. intros head w4 [n ->].
    set (cs1 := CacheState _ _).
    assert (canonical cs1) as Hc1.
    { eapply canonical_insert; [exact Hc| | |reflexivity]; [by apply pointer_key_take|done]. }
    assert (length (cache_head (cs_cache cs1)) = Datatypes.S (length (cache_head (cs_cache cs)))) as HL.
    { cbn [cs1 cs_cache cache_head]. rewrite length_app. simpl. lia. }
    destruct Hl as [Hl1 Hl2].
    assert (HASH_COUNT (cache_head (cs_cache cs1)) = Z.of_nat (length (cache_head (cs_cache cs))) + 1) as Hcount.
    { unfold HASH_COUNT, u32. rewrite Z.mod_small; lia. }
    change (_ ++ [_]) with (cache_head (cs_cache cs1)). rewrite Hcount.
    eapply (pwp_bind _ _ _ (keeps cs)); [|by intros cs2 w5].
    destruct (Z.ltb_spec (cache_maxsize (cs_cache cs)) (Z.of_nat (length (cache_head (cs_cache cs))) + 1)).
    + eapply pwp_mono; [by apply pwp_evict|]. intros cs2 (Hc2 & Hm2 & Hl3). split; [done|].
      split; [|done]. unfold within_limit. rewrite Hm2, Hl3, HL. cbn [cs1 cs_cache cache_maxsize]. lia.
    + unfold pwp; cbn [ret]. split; [done|]. split; [|done]. unfold within_limit. rewrite HL.
      cbn [cs1 cs_cache cache_maxsize]. lia.
Qed.

(** ** Properties *)

(** C35 (invariant): whatever is opened, the cache holds no more entries than its limit, and
    no name of seven characters or more is ever found in it: each request opens its
    database again. *)
Theorem db_cache_never_hits maxsize host rs (w : world X)
  (Hmax : 0 <= maxsize < 2 ^ 32 - 1) (Hrs : Forall request_ok rs) :
  match db_cache_opens (CacheState (db_cache_init maxsize) empty) host rs w with
  | Ret (cs, _) =>
      Z.of_nat (length (cache_head (cs_cache cs))) <= maxsize /\
      forall name, cstring name -> (7 <= length name)%nat ->
        HASH_FIND_STR (cache_head (cs_cache cs)) name = None
  | Undef _ => True
  end.
Proof.
  assert (forall cs w, canonical cs -> within_limit cs ->
    pwp (db_cache_opens cs host rs) w (keeps cs)) as HI.
  { clear w. induction Hrs as [|r rs Hr _ IH]; intros cs w Hc Hl; [by split|]. cbn [db_cache_opens].
    eapply pwp_bind; [by apply pwp_open|]. intros [[res d] cs'] w' (Hc' & Hl' & Hm').
    eapply pwp_mono; [by apply IH|]. intros cs2 (? & ? & Hm2). split; [done|]. split; [done|].
    by rewrite Hm2. }
  specialize (HI (CacheState (db_cache_init maxsize) empty) w).
  assert (u32 maxsize = maxsize) as Hu by (unfold u32; rewrite Z.mod_small; lia).
  unfold pwp in HI. destruct (db_cache_opens _ host rs w) as [[cs w']|]; [|done].
  destruct HI as (Hc & [Hl _] & Hm).
  - by constructor.
  - unfold within_limit, db_cache_init. cbn [cs_cache cache_head cache_maxsize length]. lia.
  - unfold db_cache_init in Hm. cbn [cs_cache cache_maxsize] in Hm. split; [lia|].
    intros name. by apply canonical_misses.
Qed.
End cache.

(** ** Concrete runs *)

(** A driver that opens everything, filed so that the database "people1" finds it. *)
Definition open_driver : la_object_store_driver unit unit unit unit :=
  Driver unit unit unit unit (lit "open")
    (fun _ => ret (Some tt)) (fun _ => ret tt)
    (fun _ _ _ => ret (LA_STORAGE_OPEN_OK, Some tt)) (fun _ => ret tt) None
    (fun _ _ _ => ret (LA_STORAGE_OBJECT_GET_NOT_FOUND, None))
    (fun _ _ => ret (LA_STORAGE_OBJECT_GET_NOT_FOUND, None))
    (fun _ _ => ret (-1, None)) None
    (fun _ _ o => ret (LA_STORAGE_OBJECT_PUT_ERROR, o))
    (fun _ o => ret (LA_STORAGE_OBJECT_PUT_ERROR, o))
    (fun _ => ret 7) (fun _ => ret (0, Some (3, 4096))) (fun _ _ => ret None)
    (fun _ => ret (LA_STORAGE_OBJECT_ITERATOR_END, None, tt)) (fun _ => ret tt).

Definition open_drivers : drivers_table unit unit unit unit :=
  [(lit "people1", DriverEntry (lit "people1") open_driver)].

Definition open_host : la_host unit := Host (lit "open") (Some tt) None.

Definition at_addr (a : Z) : placement := Placement a (a + 64) handle_junk.

Definition open_requests : list open_request :=
  [OpenRequest (lit "people1") 0 (at_addr 93824992235552);
   OpenRequest (lit "people1") 0 (at_addr 93824992239648)].

(** The same database, opened twice, is in the cache twice. *)
Example opened_twice :
  match db_cache_opens open_drivers (CacheState (db_cache_init 1024) empty) open_host
          open_requests (world0 tt) with
  | Ret (cs, _) => map (fun e => ce_name e.2) (cache_head (cs_cache cs))
  | Undef _ => []
  end = [lit "people1"; lit "people1"].
Proof. vm_compute. reflexivity. Qed.

Lemma db_cache_never_hits_witness :
  match db_cache_opens open_drivers (CacheState (db_cache_init 1024) empty) open_host
          open_requests (world0 tt) with
  | Ret (cs, _) =>
      Z.of_nat (length (cache_head (cs_cache cs))) <= 1024 /\
      forall name, cstring name -> (7 <= length name)%nat ->
        HASH_FIND_STR (cache_head (cs_cache cs)) name = None
  | Undef _ => True
  end.
Proof.
  apply (db_cache_never_hits open_drivers 1024 open_host open_requests (world0 tt)).
  - lia.
  - repeat constructor; unfold request_ok; simpl; lia.
Defined.
