(* ===== verification/NgxHandler.v ===== *)
(** * The web server module (ngx_http_loungeact/ngx_http_loungeact.c)

    The request handler over the cache of open databases and the database API.  nginx is a class
    of the functions the handler calls, with laws for what their documentation says; a request
    is the parts of it the handler reads, and an answer is the calls that give nginx the
    headers and the body, in their order; what is logged is left out.  The theorems describe the answers of the handler:
    which requests it survives, and the headers and the body of each. *)

From S2P Require Import Prelude Uthash StringUtils Revision ObjectStore Codec CouchRevgen Api DbCache.
From Stdlib Require Import Init.Byte.

#[local] Open Scope c_scope.

(** ** Requests and responses *)

Inductive ngx_method :=
| NGX_HTTP_GET | NGX_HTTP_HEAD | NGX_HTTP_PUT | NGX_HTTP_DELETE | NGX_HTTP_POST.

#[export] Instance ngx_method_eq_dec : EqDecision ngx_method.
Proof. solve_decision. Defined.

Definition NGX_HTTP_OK : Z := 200.
Definition NGX_HTTP_CREATED : Z := 201.
Definition NGX_HTTP_NOT_FOUND : Z := 404.
Definition NGX_HTTP_NOT_ALLOWED : Z := 405.
Definition NGX_HTTP_CONFLICT : Z := 409.
Definition NGX_HTTP_PRECONDITION_FAILED : Z := 412.
Definition NGX_HTTP_INTERNAL_SERVER_ERROR : Z := 500.

(** The URI, and the bytes behind it in the server's buffer. *)
Record ngx_http_request := NgxRequest {
  rq_uri : list byte;
  rq_after : list byte;
  rq_method : ngx_method;
  rq_header_only : bool;
}.

(** The part of [headers_out] that the handler sets. *)
Record ngx_headers_out := HeadersOut {
  ho_status : Z;
  ho_content_length : Z;
  ho_content_type : option (list byte);
}.

(** Before the handler runs nothing is set. *)
Definition no_headers : ngx_headers_out := HeadersOut 0 (-1) None.

Definition with_status (s : Z) (h : ngx_headers_out) : ngx_headers_out :=
  HeadersOut s (ho_content_length h) (ho_content_type h).
Definition with_length (n : Z) (h : ngx_headers_out) : ngx_headers_out :=
  HeadersOut (ho_status h) n (ho_content_type h).

(** A chain of buffers, where a NULL buffer is [None]. *)
Abbreviation ngx_chain := (list (option (list byte))).

(** What the handler gives nginx, with the answer. *)
Inductive ngx_call :=
| SendHeader (h : ngx_headers_out) (rc : Z)
| OutputFilter (chain : ngx_chain) (rc : Z).

Definition newline : list byte := [z2b 10].
Definition uri_root : list byte := lit "/".

(** ** nginx *)

(** [ngx_strnstr(s, "/", len)] answers how far the slash is from [s], and is not defined when it
    reads behind the bytes there are; [ngx_calloc_buf] is [ngx_pcalloc] of [sizeof_ngx_buf]. *)
Class Nginx (X : Type) := {
  sizeof_ngx_buf : Z;
  ngx_pcalloc : Z -> M X (option (list byte));
  ngx_strnstr : list byte -> nat -> outcome (option nat);
  ngx_http_send_header : ngx_headers_out -> M X Z;
  ngx_http_output_filter : ngx_chain -> M X Z;
}.

Definition slash_byte : byte := z2b 47.

(** The first [k] bytes are there, and none is a slash or a NUL. *)
Definition plain (s : list byte) (k : nat) : Prop :=
  (k <= length s)%nat /\ Forall (fun b => b <> NUL /\ b <> slash_byte) (take k s).

(** The first slash of a text is at [i], or there is none before [len] or the end. *)
Definition slash_at (s : list byte) (len i : nat) : Prop :=
  (i < len)%nat /\ s !! i = Some slash_byte /\ plain s i.

Definition no_slash (s : list byte) (len : nat) : Prop :=
  exists k, (k <= len)%nat /\ plain s k /\ (k = len \/ s !! k = Some NUL).

(** No pool has memory for more than any object can have. *)
Class NginxLaws (X : Type) `{Nginx X} := {
  pcalloc_refused n w : PTRDIFF_MAX < n -> exists w', ngx_pcalloc n w = Ret (None, w');
  strnstr_found s len i : slash_at s len i -> ngx_strnstr s len = Ret (Some i);
  strnstr_none s len : no_slash s len -> ngx_strnstr s len = Ret None;
}.

(** [strncpy] to the start of a block: [n] bytes, zeros behind the end of the string. *)
Definition strncpy (dst src : list byte) (n : Z) : outcome (list byte) :=
  let text := match cstr (src ++ [NUL]) with Ret t => t | Undef _ => [] end in
  let text := take (Z.to_nat n) text in
  if Z.of_nat (length dst) <? n then Undef OutOfBounds
  else mem_write dst 0 (text ++ replicate (Z.to_nat n - length text) NUL).

Section handler.
Context {X E S I V J : Type} `{Jansson V J} `{Nginx X}.
Context (drivers : drivers_table X E S I).
Context (strerror : Z -> list byte).
Context (json_true : option V).

Definition unchecked {A} (p : option A) : M X A :=
  match p with Some a => ret a | None => undef NullDeref end.

(** A member set to a fresh value; the library refuses NULL and releases the value. *)
Definition set_new (obj : option V) (key : list byte) (value : M X (option V))
  : M X (option V) :=
  let* value := value in
  match obj, value with
  | Some o, Some v => ret (Some (la_codec_object_set_new o key v).2)
  | None, Some v => la_codec_decref (Some v) ;;; ret None
  | o, None => ret o
  end.

Definition member_string (key s : list byte) (obj : option V) : M X (option V) :=
  set_new obj key (la_codec_string s).

Definition member_integer (key : list byte) (i : Z) (obj : option V) : M X (option V) :=
  set_new obj key (la_codec_integer i).

Definition la_codec_true : M X (option V) := new_ref json_true.

Definition ok_reply : M X (option V) :=
  let* reply := la_codec_object in set_new reply (lit "ok") la_codec_true.

Definition error_reply (error reason : list byte) : M X (option V) :=
  let* reply := la_codec_object in
  let* reply := member_string (lit "error") error reply in
  member_string (lit "reason") reason reply.

(** The text of a reply in the pool, and the reply released. *)
Definition reply_text (reply : option V) : M X (list byte) :=
  let* v := unchecked reply in
  let* chunks := unchecked (json_dump v) in
  let s := concat chunks in
  lib_alloc ;;;
  let* ss := ngx_pcalloc (u64 (Z.of_nat (length s) + 1)) in
  let* ss := unchecked ss in
  let* ss := lift (mem_write ss 0 (s ++ [NUL])) in
  free ;;;
  la_codec_decref reply ;;;
  lift (cstr ss).

(** The results of [ngx_calloc_buf] are not checked in the replies. *)
Definition reply_chain (ss : list byte) : M X ngx_chain :=
  let* buf := ngx_pcalloc sizeof_ngx_buf in
  let* _ := unchecked buf in
  let* buf2 := ngx_pcalloc sizeof_ngx_buf in
  let* _ := unchecked buf2 in
  ret [Some ss; Some newline].

(** The end of every method: the headers, then the body. *)
Definition send (h : ngx_headers_out) (chain : ngx_chain) : M X (Z * list ngx_call) :=
  let* hrc := ngx_http_send_header h in
  let* rc := ngx_http_output_filter chain in
  ret (rc, [SendHeader h hrc; OutputFilter chain rc]).

(** The database an open gave; its address is uninitialised unless the open succeeded. *)
Definition opened (cs : cache_state (X := X) (E := E) (S := S) (I := I)) (a : option Z)
  : M X (Z * la_db X E S I) :=
  match a with
  | Some a => let* d := db_at (cs_dbs cs) a in ret (a, d)
  | None => undef Uninitialised
  end.

(** ** The methods on a database *)

Abbreviation cstate := (cache_state (X := X) (E := E) (S := S) (I := I)).

(** GET and HEAD. *)
Definition get_db (cs : cstate) (host : la_host E) (rq : ngx_http_request) (dbname : list byte)
  (at_ : placement) : M X (Z * list ngx_call * cstate) :=
  let* '(result, a, cs) := db_cache_open drivers cs host dbname 0 at_ in
  let wanted := negb (rq_header_only rq) && negb (bool_decide (rq_method rq = NGX_HTTP_HEAD)) in
  let* '(status, reply) :=
    match result with
    | LA_STORAGE_OPEN_OK =>
        if wanted then
          let* '(_, d) := opened cs a in
          let* '(_, st) := la_db_stat d in
          let* reply := la_codec_object in
          let* reply := member_string (lit "db_name") dbname reply in
          let* seq := la_db_last_seq d in
          let* reply := member_integer (lit "update_seq") (s64 seq) reply in
          let* '(numkeys, size) := match st with Some st => ret st | None => undef Uninitialised end in
          let* reply := member_integer (lit "doc_count") (s64 numkeys) reply in
          let* reply := member_integer (lit "disk_size") (s64 size) reply in
          ret (NGX_HTTP_OK, reply)
        else ret (NGX_HTTP_OK, None)
    | LA_STORAGE_OPEN_NOT_FOUND =>
        let* reply := if wanted then error_reply (lit "not_found") (lit "missing") else ret None in
        ret (NGX_HTTP_NOT_FOUND, reply)
    | _ =>
        let* reply := if wanted then error_reply (lit "internal_error") (lit "failed") else ret None in
        ret (NGX_HTTP_INTERNAL_SERVER_ERROR, reply)
    end in
  let h := with_status status no_headers in
  match reply with
  | Some _ =>
      let* ss := reply_text reply in
      let h := with_length (Z.of_nat (length ss) + 1) h in
      let* chain := reply_chain ss in
      let* r := send h chain in
      ret (r, cs)
  | None => let* r := send h [None] in ret (r, cs)
  end.

(** PUT. *)
Definition put_db (cs : cstate) (host : la_host E) (dbname : list byte) (at_ : placement)
  : M X (Z * list ngx_call * cstate) :=
  let* '(result, a, cs) :=
    db_cache_open drivers cs host dbname
      (Z.lor LA_STORAGE_OPEN_FLAG_CREATE LA_STORAGE_OPEN_FLAG_EXCL) at_ in
  let* '(status, reply) :=
    match result with
    | LA_STORAGE_OPEN_CREATED => let* reply := ok_reply in ret (NGX_HTTP_CREATED, reply)
    | LA_STORAGE_OPEN_EXISTS =>
        let* reply := error_reply (lit "file_exists")
          (lit "The database could not be created, the file already exists.") in
        ret (NGX_HTTP_PRECONDITION_FAILED, reply)
    | _ =>
        let* reply := fun w => error_reply (lit "internal_error") (strerror (w_errno w)) w in
        ret (NGX_HTTP_INTERNAL_SERVER_ERROR, reply)
    end in
  let* ss := reply_text reply in
  let h := with_length (Z.of_nat (length ss) + 1) (with_status status no_headers) in
  let* chain := reply_chain ss in
  let* r := send h chain in
  ret (r, cs).

(** DELETE; the length is not set. *)
Definition delete_db (cs : cstate) (host : la_host E) (dbname : list byte) (at_ : placement)
  : M X (Z * list ngx_call * cstate) :=
  let* '(result, a, cs) := db_cache_open drivers cs host dbname 0 at_ in
  let* '(status, reply, cs) :=
    match result with
    | LA_STORAGE_OPEN_OK =>
        let* '(a, d) := opened cs a in
        let* '(rc, d) := la_db_delete_db d in
        let cs := CacheState (cs_cache cs) (<[a := d]> (cs_dbs cs)) in
        if rc =? 0 then let* reply := ok_reply in ret (NGX_HTTP_OK, reply, cs)
        else
          let* reply := error_reply (lit "conflict") (lit "Database is busy.") in
          ret (NGX_HTTP_CONFLICT, reply, cs)
    | LA_STORAGE_OPEN_NOT_FOUND =>
        let* reply := error_reply (lit "not_found") (lit "missing") in
        ret (NGX_HTTP_NOT_FOUND, reply, cs)
    | _ =>
        let* reply := fun w => error_reply (lit "internal_error") (strerror (w_errno w)) w in
        ret (NGX_HTTP_INTERNAL_SERVER_ERROR, reply, cs)
    end in
  let* ss := reply_text reply in
  let h := with_status status no_headers in
  let* chain := reply_chain ss in
  let* r := send h chain in
  ret (r, cs).

(** ** The handler *)

(** [/]: the header is sent, the chain is built and dropped. *)
Definition get_root (welcome : list byte) (rq : ngx_http_request) : M X (Z * list ngx_call) :=
  let h := HeadersOut NGX_HTTP_OK (Z.of_nat (length welcome) + 1) (Some (lit "application/json")) in
  let* rc := ngx_http_send_header h in
  if rq_header_only rq then ret (NGX_HTTP_INTERNAL_SERVER_ERROR, [SendHeader h rc])
  else
    let* buf := ngx_pcalloc sizeof_ngx_buf in
    let* buf2 := ngx_pcalloc sizeof_ngx_buf in
    ret (NGX_HTTP_INTERNAL_SERVER_ERROR, [SendHeader h rc]).

(** The length the handler takes for the first segment: the distance to the slash counted
    backwards, as a [size_t]. *)
Definition segment_length (rq : ngx_http_request) : outcome (Z * option nat) :=
  match ngx_strnstr (drop 1 (rq_uri rq ++ rq_after rq)) (length (rq_uri rq)) with
  | Ret (Some i) => Ret (u64 (- (1 + Z.of_nat i)), Some i)
  | Ret None => Ret (Z.of_nat (length (rq_uri rq)), None)
  | Undef u => Undef u
  end.

Definition ngx_http_loungeact_handler (welcome : list byte) (cs : cstate) (host : la_host E)
  (rq : ngx_http_request) (at_ : placement) : M X (Z * list ngx_call * cstate) :=
  if decide (rq_uri rq = uri_root) then
    let* r := get_root welcome rq in ret (r, cs)
  else
    let uri_len := Z.of_nat (length (rq_uri rq)) in
    let* '(len, slash) := lift (segment_length rq) in
    let* dbname := ngx_pcalloc len in
    let* dbname := unchecked dbname in
    let* dbname := lift (strncpy dbname (drop 1 (rq_uri rq ++ rq_after rq)) (u64 (len - 1))) in
    let* docname :=
      if len <=? u64 (uri_len - 1) then
        let* p := ngx_pcalloc (u64 (uri_len - len)) in
        let* p := unchecked p in
        let* i := unchecked slash in
        let* p := lift (strncpy p (drop (2 + i) (rq_uri rq ++ rq_after rq)) (u64 (uri_len - len - 1))) in
        ret (Some p)
      else ret None in
    match docname with
    | Some _ => ret (NGX_HTTP_INTERNAL_SERVER_ERROR, [], cs)
    | None =>
        let* dbname := lift (cstr dbname) in
        match rq_method rq with
        | NGX_HTTP_HEAD | NGX_HTTP_GET => get_db cs host rq dbname at_
        | NGX_HTTP_PUT => put_db cs host dbname at_
        | NGX_HTTP_DELETE => delete_db cs host dbname at_
        | _ => ret (NGX_HTTP_NOT_ALLOWED, [], cs)
        end
    end.

(** ** The module's own start *)

(** The welcome text and the cache, once per process. *)
Definition ngx_http_loungeact_init_module : M X (Z * option (list byte) * db_cache) :=
  let cache := db_cache_init 1024 in
  let* obj := la_codec_object in
  let* obj := member_string (lit "couchdb") (lit "Welcome") obj in
  let* obj := member_string (lit "version") (lit "1.1.1") obj in
  let* obj := member_string (lit "loungeact") (lit "0.0.1") obj in
  let s := match obj with Some o => option_map (@concat byte) (json_dump o) | None => None end in
  (match s with Some _ => lib_alloc | None => ret tt end) ;;;
  ret (0, s, cache).

Definition ngx_http_loungeact_preconf : M X Z := ret 0.

(** The location's state: its home and no host yet. *)
Definition ngx_http_loungeact_create_loc_conf : M X (option (list byte * option (la_host E))) :=
  let* state := ngx_pcalloc 24 in
  match state with
  | None => ret None
  | Some _ => ret (Some ([], None))
  end.
End handler.

(** ** What the handler answers *)

Section answers.
Context {X E S I V J : Type} `{Jansson V J} `{NginxLaws X}.
Context (drivers : drivers_table X E S I) (strerror : Z -> list byte) (json_true : option V).
Abbreviation cstate := (cache_state (X := X) (E := E) (S := S) (I := I)).

(** What opening a database can give: the storage layer turns everything but a success into
    an error, and the cache adds EXISTS. *)
Definition open_answer (r : la_storage_open_result_t) : Prop :=
  r = LA_STORAGE_OPEN_OK \/ r = LA_STORAGE_OPEN_ERROR \/ r = LA_STORAGE_OPEN_NO_DRIVER \/
  r = LA_STORAGE_OPEN_EXISTS.

Lemma pwp_storage_open drv env name flags (w : world X) :
  pwp (la_storage_open drivers drv (Some env) name flags) w (fun r => open_answer r.1).
Proof.
  unfold la_storage_open, open_answer. destruct (HASH_FIND_STR drivers name) as [e|]; [|by unfold pwp; simpl; tauto].
  cbv zeta. apply pwp_any. intros [r objstore] w2. destruct (bool_decide (r = LA_STORAGE_OPEN_OK)); cbn [negb].
  - apply pwp_any. intros [st|] w3; [by unfold pwp; simpl; tauto|].
    apply pwp_any. intros _ w4. apply pwp_any. intros _ w5. by unfold pwp; simpl; tauto.
  - apply pwp_any. intros _ w3. by unfold pwp; simpl; tauto.
Qed.

Lemma pwp_db_open (host : la_host E) name flags (w : world X) :
  host_env host <> None ->
  pwp (la_db_open drivers host name flags) w (fun r => open_answer r.1).
Proof.
  intros He. unfold la_db_open. apply pwp_any. intros [p|] w1; [|by unfold pwp, open_answer; simpl; tauto].
  destruct (host_env host) as [env|]; [|done].
  eapply pwp_bind; [apply pwp_storage_open|]. intros [r st] w2 Hr. cbn [fst] in Hr.
  destruct (_ && _); [apply pwp_any; intros _ w3|]; done.
Qed.

Lemma pwp_cache_open (cs : cstate) (host : la_host E) name flags at_ (w : world X) :
  host_env host <> None ->
  pwp (db_cache_open drivers cs host name flags at_) w (fun r => open_answer r.1.1).
Proof.
  intros He. unfold db_cache_open, open_answer. destruct (HASH_FIND_STR _ name) as [found|].
  - destruct (find_position _ name 0) as [i|]; [|done]. do 2 (apply pwp_any; intros ? ?).
    cbv zeta. destruct (_ =? _); unfold pwp; simpl; tauto.
  - apply pwp_any. intros [blk|] w1; [|by unfold pwp; simpl; tauto]. apply pwp_any. intros nm w2.
    eapply pwp_bind; [by apply pwp_db_open|]. intros [result [d|]] w3 Hr.
    + destruct nm as [nm|]; [|done]. cbv zeta. do 2 (apply pwp_any; intros ? ?). done.
    + destruct nm; do 2 (apply pwp_any; intros ? ?); done.
Qed.

(** *** Replies *)

(** A member set in an object leaves an object. *)
Lemma pwp_set_new (obj : option V) key value (w : world X) :
  pwp (set_new obj key value) w (fun obj' => is_Some obj' <-> is_Some obj).
Proof.
  unfold set_new. apply pwp_any. intros [v|] w1; destruct obj as [o|]; try done.
Qed.

Lemma pwp_member {A} (obj : option V) key value (k : option V -> M X A) (w : world X) Q :
  (forall obj' w', (is_Some obj' <-> is_Some obj) -> pwp (k obj') w' Q) ->
  pwp (let* obj' := set_new obj key value in k obj') w Q.
Proof. intros HK. eapply pwp_bind; [apply pwp_set_new|]. intros obj' w' Hs. by apply HK. Qed.

(** A reply is there when there is a new object to make it of. *)
Lemma pwp_error_reply error reason (w : world X) :
  pwp (error_reply error reason) w (fun reply : option V => is_Some reply <-> is_Some json_object).
Proof.
  unfold error_reply, la_codec_object, new_ref. apply (pwp_bind _ _ _ (fun o => o = json_object)); [done|].
  intros reply w1 ->. unfold member_string. apply pwp_member. intros reply1 w2 E1.
  eapply pwp_mono; [apply pwp_set_new|]. naive_solver.
Qed.

(** The text of a value of the library. *)
Definition text_of (ss : list byte) : Prop :=
  exists (v : V) chunks, json_dump v = Some chunks /\ cstr (concat chunks ++ [NUL]) = Ret ss.

Lemma cstr_behind (t x : list byte) : cstr (t ++ [NUL] ++ x) = cstr (t ++ [NUL]).
Proof. induction t as [|b t IH]; [done|]. cbn [app cstr] in *. by rewrite IH. Qed.

Lemma pwp_unchecked {A} (a : option A) (w : world X) : pwp (unchecked a) w (fun x => a = Some x).
Proof. by destruct a. Qed.

Lemma pwp_reply_text (reply : option V) (w : world X) : pwp (reply_text reply) w text_of.
Proof.
  unfold reply_text. eapply pwp_bind; [apply pwp_unchecked|]. intros v w1 _. cbv beta.
  eapply pwp_bind; [apply pwp_unchecked|]. intros chunks w2 Ed. cbv beta zeta.
  apply pwp_any. intros _ w3.
  apply pwp_any. intros blk w4. apply pwp_any. intros b w5.
  apply (pwp_bind _ _ _ (fun ss => exists x, ss = concat chunks ++ [NUL] ++ x)).
  { unfold pwp, lift, mem_write. destruct (_ && _); [|done]. eexists. by rewrite <- app_assoc. }
  intros ss w6 [x ->]. do 2 (apply pwp_any; intros ? ?). unfold pwp, lift. rewrite cstr_behind.
  destruct (cstr _) as [t|] eqn:Ec; [|done]. by exists v, chunks.
Qed.

(** *** Answers *)

(** The status a request for a database can get: opening one that is not there, or creating one,
    gives an error. *)
Definition statuses (m : ngx_method) : list Z :=
  match m with
  | NGX_HTTP_GET | NGX_HTTP_HEAD => [NGX_HTTP_OK; NGX_HTTP_INTERNAL_SERVER_ERROR]
  | NGX_HTTP_PUT => [NGX_HTTP_PRECONDITION_FAILED; NGX_HTTP_INTERNAL_SERVER_ERROR]
  | NGX_HTTP_DELETE => [NGX_HTTP_OK; NGX_HTTP_CONFLICT; NGX_HTTP_INTERNAL_SERVER_ERROR]
  | NGX_HTTP_POST => []
  end.

(** A request for the headers alone is answered without a body, and so is one for which there is
    no memory for a new object. *)
Definition bodiless (rq : ngx_http_request) : Prop :=
  match rq_method rq with
  | NGX_HTTP_HEAD => True
  | NGX_HTTP_GET => rq_header_only rq = true \/ json_object = None
  | _ => False
  end.

(** The headers with their status, then the body: the text of a reply and a line feed, of the
    length in the headers except for a deletion, or a chain with a NULL buffer. *)
Definition database_answer (rq : ngx_http_request) (r : Z * list ngx_call) : Prop :=
  exists status len chain hrc,
    status ∈ statuses (rq_method rq) /\
    r.2 = [SendHeader (HeadersOut status len None) hrc; OutputFilter chain r.1] /\
    (bodiless rq -> chain = [None] /\ len = -1) /\
    (~ bodiless rq -> exists ss, text_of ss /\ chain = [Some ss; Some newline] /\
       len = if decide (rq_method rq = NGX_HTTP_DELETE) then -1
             else Z.of_nat (length (ss ++ newline))).

Definition answered (rq : ngx_http_request) (r : Z * list ngx_call * cstate) : Prop :=
  database_answer rq r.1.

Lemma pwp_send {A} h chain (k : Z * list ngx_call -> M X A) (w : world X) Q :
  (forall hrc rc w', pwp (k (rc, [SendHeader h hrc; OutputFilter chain rc])) w' Q) ->
  pwp (let* r := send h chain in k r) w Q.
Proof.
  intros HK. eapply (pwp_bind _ _ _ (fun r => exists hrc rc, r = (rc, [SendHeader h hrc; OutputFilter chain rc]))).
  - unfold send. apply pwp_any. intros hrc w1. apply pwp_any. intros rc w2. by exists hrc, rc.
  - intros r w' (hrc & rc & ->). apply HK.
Qed.

(** The end of every method that has a reply. *)
Lemma pwp_reply rq reply status (sized : bool) (cs : cstate) (w : world X) :
  status ∈ statuses (rq_method rq) -> ~ bodiless rq ->
  sized = negb (bool_decide (rq_method rq = NGX_HTTP_DELETE)) ->
  pwp (let* ss := reply_text reply in
       let h := if sized then with_length (Z.of_nat (length ss) + 1) (with_status status no_headers)
                else with_status status no_headers in
       let* chain := reply_chain ss in
       let* r := send h chain in
       ret (r, cs)) w (answered rq).
Proof.
  intros Hst Hb Hs. eapply pwp_bind; [apply pwp_reply_text|]. intros ss w1 Ht. cbv zeta.
  apply (pwp_bind _ _ _ (fun chain => chain = [Some ss; Some newline])).
  { unfold reply_chain. do 4 (apply pwp_any; intros ? ?). done. }
  intros chain w2 ->. apply pwp_send. intros hrc rc w3.
  exists status, (if sized then Z.of_nat (length ss) + 1 else -1), [Some ss; Some newline], hrc.
  split; [done|]. split; [by destruct sized|]. split; [done|]. intros _. exists ss.
  split; [done|]. split; [done|]. subst sized. rewrite length_app. simpl length.
  case_bool_decide; [by rewrite decide_True|]. rewrite decide_False by done. cbn [negb]. lia.
Qed.

Lemma pwp_put_db rq (cs : cstate) (host : la_host E) dbname at_ (w : world X) :
  host_env host <> None -> rq_method rq = NGX_HTTP_PUT ->
  pwp (put_db drivers strerror json_true cs host dbname at_) w (answered rq).
Proof.
  intros He Hm. unfold put_db. eapply pwp_bind; [by apply pwp_cache_open|].
  intros [[result a] cs'] w1 Hr. cbn [fst] in Hr.
  apply (pwp_bind _ _ _ (fun r => r.1 ∈ statuses NGX_HTTP_PUT)).
  { destruct Hr as [->|[->|[->| ->]]]; apply pwp_any; intros ? ?; unfold pwp; simpl; set_solver. }
  intros [status reply] w2 Hs. cbn [fst] in Hs.
  apply (pwp_reply rq reply status true); unfold bodiless; rewrite ?Hm; [done|tauto|done].
Qed.

Lemma pwp_delete_db rq (cs : cstate) (host : la_host E) dbname at_ (w : world X) :
  host_env host <> None -> rq_method rq = NGX_HTTP_DELETE ->
  pwp (delete_db drivers strerror json_true cs host dbname at_) w (answered rq).
Proof.
  intros He Hm. unfold delete_db. eapply pwp_bind; [by apply pwp_cache_open|].
  intros [[result a] cs'] w1 Hr. cbn [fst] in Hr.
  apply (pwp_bind _ _ _ (fun r => r.1.1 ∈ statuses NGX_HTTP_DELETE)).
  { destruct Hr as [->|[->|[->| ->]]]; [|apply pwp_any; intros ? ?; unfold pwp; simpl; set_solver..].
    apply pwp_any. intros [a' d] w2. apply pwp_any. intros [rc d'] w3. cbv zeta.
    destruct (rc =? 0); apply pwp_any; intros ? ?; unfold pwp; simpl; set_solver. }
  intros [[status reply] cs2] w2 Hs. cbn [fst] in Hs.
  apply (pwp_reply rq reply status false); unfold bodiless; rewrite ?Hm; [done|tauto|done].
Qed.

Lemma wanted_reply rq :
  rq_method rq = NGX_HTTP_GET \/ rq_method rq = NGX_HTTP_HEAD ->
  ~ bodiless rq <->
  is_Some (if negb (rq_header_only rq) && negb (bool_decide (rq_method rq = NGX_HTTP_HEAD))
           then json_object else None).
Proof.
  unfold bodiless. intros [-> | ->].
  - destruct (rq_header_only rq); simpl; rewrite <- not_eq_None_Some; naive_solver.
  - rewrite bool_decide_true, andb_false_r by done. rewrite is_Some_alt. tauto.
Qed.

Lemma pwp_get_db rq (cs : cstate) (host : la_host E) dbname at_ (w : world X) :
  host_env host <> None -> rq_method rq = NGX_HTTP_GET \/ rq_method rq = NGX_HTTP_HEAD ->
  pwp (get_db drivers cs host rq dbname at_) w (answered rq).
Proof.
  intros He Hm. unfold get_db. eapply pwp_bind; [by apply pwp_cache_open|].
  intros [[result a] cs'] w1 Hr. cbn [fst] in Hr.
  pose proof (wanted_reply rq Hm) as Hw. set (wanted := _ && _) in *. clearbody wanted.
  apply (pwp_bind _ _ _ (fun r => r.1 ∈ statuses (rq_method rq) /\ (is_Some r.2 <-> ~ bodiless rq))).
  { assert (Hd : forall z (o : option V), z = NGX_HTTP_OK \/ z = NGX_HTTP_INTERNAL_SERVER_ERROR ->
      (is_Some o <-> is_Some (if wanted then json_object else None)) ->
      z ∈ statuses (rq_method rq) /\ (is_Some o <-> ~ bodiless rq)).
    { intros z o Hz Ho. rewrite Ho. split; [|done].
      destruct Hm as [-> | ->]; destruct Hz as [-> | ->]; set_solver. }
    assert (He' : forall st error reason (w' : world X), st = NGX_HTTP_INTERNAL_SERVER_ERROR ->
      pwp (let* reply := if wanted then error_reply error reason else ret None in ret (st, reply)) w'
        (fun r => r.1 ∈ statuses (rq_method rq) /\ (is_Some r.2 <-> ~ bodiless rq))).
    { intros st error reason w' ->.
      apply (pwp_bind _ _ _ (fun o => is_Some o <-> is_Some (if wanted then json_object else None))).
      - destruct wanted; [apply pwp_error_reply|done].
      - intros o w2 Ho. apply Hd; auto. }
    destruct Hr as [->|[->|[->| ->]]]; [|by apply He'..].
    destruct wanted; [|apply Hd; auto]. apply pwp_any. intros [a' d] w2. apply pwp_any. intros [rc st] w3.
    apply (pwp_bind _ _ _ (fun o => o = json_object)); [done|]. intros o w4 ->. unfold member_string, member_integer.
    apply pwp_member. intros o1 w5 E1. apply pwp_any. intros seq w6.
    apply pwp_member. intros o2 w7 E2. apply pwp_any. intros [nk sz] w8.
    apply pwp_member. intros o3 w9 E3. apply pwp_member. intros o4 w10 E4.
    apply Hd; [by left|]. simpl. by rewrite E4, E3, E2, E1. }
  intros [status reply] w2 [Hs Hb]. cbn [fst snd] in *. destruct reply as [v|].
  - apply (pwp_reply rq (Some v) status true); [done|naive_solver|].
    by destruct Hm as [-> | ->].
  - apply pwp_send. intros hrc rc w3. exists status, (-1), [None], hrc.
    split; [done|]. split; [done|]. split; [done|]. intros Hnb. by apply Hb in Hnb as [? ?].
Qed.

(** C38 (functional): a request that names a database, when the handler answers it, is answered
    as follows, whatever the state.  For any method but GET, HEAD, PUT and DELETE the answer is 405
    and nothing is sent.  For these the headers are sent first, then the body, and what the filter
    of the body answers is returned.  The body is the text of a reply with a line feed, of the
    length in the headers, but for a deletion, whose headers have no length; for HEAD, a request
    for the headers alone, or no memory for a reply, it is a chain with a NULL buffer.  The status
    is 200 or 500 for GET and HEAD, 412 or 500 for PUT, 200, 409 or 500 for DELETE: never 404 for a
    database that is not there, and never 201 for one that is created. *)
Theorem database_request_answers welcome (cs : cstate) (host : la_host E) rq at_ (w : world X)
  (He : host_env host <> None) (Hroot : rq_uri rq <> uri_root)
  (Hlen : 0 < Z.of_nat (length (rq_uri rq)) < 2 ^ 62)
  (Hslash : no_slash (drop 1 (rq_uri rq ++ rq_after rq)) (length (rq_uri rq))) :
  match ngx_http_loungeact_handler drivers strerror json_true welcome cs host rq at_ w with
  | Ret ((rc, calls, _), _) =>
      if decide (rq_method rq = NGX_HTTP_POST)
      then rc = NGX_HTTP_NOT_ALLOWED /\ calls = []
      else database_answer rq (rc, calls)
  | Undef _ => True
  end.
Proof.
  assert (pwp (ngx_http_loungeact_handler drivers strerror json_true welcome cs host rq at_) w (fun r =>
    if decide (rq_method rq = NGX_HTTP_POST)
    then r.1 = (NGX_HTTP_NOT_ALLOWED, []) else answered rq r)) as HP.
  { unfold ngx_http_loungeact_handler. rewrite decide_False by done.
    apply (pwp_bind _ _ _ (fun r => r = (Z.of_nat (length (rq_uri rq)), None))).
    { unfold segment_length. by rewrite (strnstr_none _ _ Hslash). }
    intros [len slash] w1 [= -> ->]. do 3 (apply pwp_any; intros ? ?).
    assert (u64 (Z.of_nat (length (rq_uri rq)) - 1) = Z.of_nat (length (rq_uri rq)) - 1) as ->
      by (unfold u64; rewrite Z.mod_small; lia).
    rewrite (proj2 (Z.leb_gt _ _)) by lia.
    apply (pwp_bind _ _ _ (fun r => r = None)); [done|]. intros docname w2 ->.
    apply pwp_any. intros dbname w3.
    assert (forall m, rq_method rq <> NGX_HTTP_POST -> pwp m w3 (answered rq) ->
      pwp m w3 (fun r => if decide (rq_method rq = NGX_HTTP_POST)
        then r.1 = (NGX_HTTP_NOT_ALLOWED, []) else answered rq r)) as HM.
    { intros m Hm Ha. eapply pwp_mono; [exact Ha|]. intros r Hr. by rewrite decide_False. }
    destruct (rq_method rq) eqn:Em.
    - apply HM; [done|]. apply pwp_get_db; auto.
    - apply HM; [done|]. apply pwp_get_db; auto.
    - apply HM; [done|]. by apply pwp_put_db.
    - apply HM; [done|]. by apply pwp_delete_db.
    - done. }
  unfold pwp in HP.
  destruct (ngx_http_loungeact_handler _ _ _ _ _ _ _ _ w) as [[[[rc calls] cs'] w']|]; [|done].
  case_decide; [by injection HP as -> ->|done].
Qed.

(** C37 (safety): a request for anything inside a database, that is any URI with a second
    slash, makes the handler write through NULL: the length of the first segment is
    computed with the wrong sign, and no pool has the memory it asks for. *)
Theorem document_request_crashes welcome (cs : cstate) (host : la_host E) rq at_ i (w : world X)
  (Hroot : rq_uri rq <> uri_root) (Hlen : Z.of_nat (length (rq_uri rq)) < 2 ^ 62)
  (Hslash : slash_at (drop 1 (rq_uri rq ++ rq_after rq)) (length (rq_uri rq)) i) :
  ngx_http_loungeact_handler drivers strerror json_true welcome cs host rq at_ w = Undef NullDeref.
Proof.
  pose proof Hslash as (Hb & _). unfold ngx_http_loungeact_handler.
  rewrite decide_False by done. unfold segment_length. rewrite (strnstr_found _ _ _ Hslash).
  cbn [lift bind].
  assert (PTRDIFF_MAX < u64 (- (1 + Z.of_nat i))) as Hbig.
  { unfold u64, PTRDIFF_MAX. rewrite Z.mod_opp_l_nz, Z.mod_small by (rewrite ?Z.mod_small; lia). lia. }
  destruct (pcalloc_refused _ w Hbig) as [w' Hw].
  unfold bind at 1, lift at 1. unfold bind at 1. rewrite Hw. done.
Qed.

(** A request for the root announces the welcome text and never sends it: when the headers are
    taken and there is memory or not, the handler returns 500 after them. *)
Theorem root_request_unanswered welcome (cs : cstate) (host : la_host E) rq at_ (w : world X)
  (Hroot : rq_uri rq = uri_root) :
  pwp (ngx_http_loungeact_handler drivers strerror json_true welcome cs host rq at_) w (fun r =>
    exists hrc, r = (NGX_HTTP_INTERNAL_SERVER_ERROR,
      [SendHeader (HeadersOut NGX_HTTP_OK (Z.of_nat (length (welcome ++ newline)))
         (Some (lit "application/json"))) hrc], cs)).
Proof.
  unfold ngx_http_loungeact_handler. rewrite decide_True by done.
  apply (pwp_bind _ _ _ (fun r => exists hrc, r = (NGX_HTTP_INTERNAL_SERVER_ERROR,
    [SendHeader (HeadersOut NGX_HTTP_OK (Z.of_nat (length (welcome ++ newline)))
       (Some (lit "application/json"))) hrc]))).
  - unfold get_root. apply pwp_any. intros hrc w1. rewrite length_app, Nat2Z.inj_add.
    destruct (rq_header_only rq); [|do 2 (apply pwp_any; intros ? ?)]; by exists hrc.
  - intros r w1 [hrc ->]. by exists hrc.
Qed.
End answers.

(** ** A concrete server *)

Fixpoint t_strnstr (s : list byte) (len : nat) {struct len} : outcome (option nat) :=
  match len, s with
  | O, _ => Ret None
  | Datatypes.S _, [] => Undef OutOfBounds
  | Datatypes.S len, b :: s =>
      if Byte.eqb b NUL then Ret None
      else if Byte.eqb b slash_byte then Ret (Some 0%nat)
      else let+ r := t_strnstr s len in Ret (option_map Datatypes.S r)
  end.

#[export] Instance t_nginx X : Nginx X := {|
  sizeof_ngx_buf := 80;
  ngx_pcalloc n :=
    let* p := malloc n in
    ret (match p with Some _ => Some (replicate (Z.to_nat n) x00) | None => None end);
  ngx_strnstr := t_strnstr;
  ngx_http_send_header _ := ret 0;
  ngx_http_output_filter _ := ret 0;
|}.

Lemma plain_cons b s k : plain (b :: s) (Datatypes.S k) -> b <> NUL /\ b <> slash_byte /\ plain s k.
Proof.
  intros [L F]. cbn [length take] in *. apply list.Forall_cons in F as [[? ?] ?].
  split; [done|]. split; [done|]. split; [lia|done].
Qed.

#[export] Instance t_nginx_laws X : NginxLaws X.
Proof.
  split; cbn.
  - intros n w Hn. unfold bind, malloc, alloc_result.
    rewrite (proj2 (Z.leb_gt n PTRDIFF_MAX)) by done. rewrite andb_false_r. by eexists.
  - intros s len i. revert s len. induction i as [|i IH]; intros [|b s] [|len] (L & E & P); try lia; try done.
    + injection E as ->. done.
    + apply plain_cons in P as (N1 & N2 & P). cbn [t_strnstr].
      destruct (byte_eqb_spec b NUL); [done|]. destruct (byte_eqb_spec b slash_byte); [done|].
      rewrite (IH s len); [done|]. split; [lia|]. by split.
  - intros s len (k & L & P & E). revert s len L P E. induction k as [|k IH]; intros s [|len] L P E; try lia; try done.
    + destruct E as [E|E]; [lia|]. destruct s as [|b s]; [done|]. by injection E as ->.
    + destruct s as [|b s]; [destruct P as [P _]; simpl in P; lia|].
      apply plain_cons in P as (N1 & N2 & P). cbn [t_strnstr].
      destruct (byte_eqb_spec b NUL); [done|]. destruct (byte_eqb_spec b slash_byte); [done|].
      rewrite (IH s len); [done|lia|done|]. destruct E as [E|E]; [left; lia|by right].
Qed.

(** ** Concrete runs *)

Definition t_request (uri : list byte) (mt : ngx_method) : ngx_http_request :=
  NgxRequest uri (lit " HTTP/1.1") mt false.

Definition t_state : cache_state (X := unit) (E := unit) (S := unit) (I := unit) :=
  CacheState (db_cache_init 1024) empty.

Definition t_handler := ngx_http_loungeact_handler (V := tree) open_drivers (fun _ => lit "error")
  (Some TTrue) (lit "welcome") t_state open_host.

Definition t_answer (rq : ngx_http_request) : option (Z * list ngx_call) :=
  match t_handler rq (at_addr 93824992235552) (world0 tt) with
  | Ret ((rc, calls, _), _) => Some (rc, calls)
  | Undef _ => None
  end.

Definition people1_reply : list byte :=
  tree_text (TObject [(lit "db_name", TString (lit "people1")); (lit "update_seq", TInteger 7);
                      (lit "doc_count", TInteger 3); (lit "disk_size", TInteger 4096)]).

Example get_answer : t_answer (t_request (lit "/people1") NGX_HTTP_GET) =
  Some (0, [SendHeader (HeadersOut 200 (Z.of_nat (length people1_reply) + 1) None) 0;
            OutputFilter [Some people1_reply; Some newline] 0]).
Proof. vm_compute. reflexivity. Qed.

Example head_answer : t_answer (t_request (lit "/people1") NGX_HTTP_HEAD) =
  Some (0, [SendHeader (HeadersOut 200 (-1) None) 0; OutputFilter [None] 0]).
Proof. vm_compute. reflexivity. Qed.

Definition t_status (a : option (Z * list ngx_call)) : option (Z * Z) :=
  match a with Some (_, SendHeader h _ :: _) => Some (ho_status h, ho_content_length h) | _ => None end.

Example put_answer : option_map fst (t_status (t_answer (t_request (lit "/people2") NGX_HTTP_PUT))) = Some 500.
Proof. vm_compute. reflexivity. Qed.

Lemma no_slash_in s len : (len <= length s)%nat ->
  forallb (fun b => negb (Byte.eqb b NUL) && negb (Byte.eqb b slash_byte)) (take len s) = true ->
  no_slash s len.
Proof.
  intros L F. exists len. split; [done|]. split; [|by left]. split; [done|].
  apply list.Forall_forall. intros b Hb. rewrite forallb_forall in F.
  specialize (F b ltac:(by apply list_elem_of_In)). apply andb_true_iff in F as [F1 F2].
  destruct (byte_eqb_spec b NUL); [done|]. by destruct (byte_eqb_spec b slash_byte).
Qed.

Lemma database_request_answers_witness :
  match t_handler (t_request (lit "/people1") NGX_HTTP_GET) (at_addr 93824992235552) (world0 tt) with
  | Ret ((rc, calls, _), _) =>
      if decide (NGX_HTTP_GET = NGX_HTTP_POST)
      then rc = NGX_HTTP_NOT_ALLOWED /\ calls = []
      else database_answer (V := tree) (t_request (lit "/people1") NGX_HTTP_GET) (rc, calls)
  | Undef _ => True
  end.
Proof.
  apply (database_request_answers open_drivers (fun _ => lit "error") (Some TTrue) (lit "welcome")
           t_state open_host (t_request (lit "/people1") NGX_HTTP_GET) (at_addr 93824992235552)
           (world0 tt)).
  - discriminate.
  - vm_compute. discriminate.
  - vm_compute. split; reflexivity.
  - apply no_slash_in; [apply (bool_decide_unpack _)|]; vm_compute; reflexivity.
Defined.

Lemma document_request_crashes_witness :
  t_handler (t_request (lit "/people1/ada") NGX_HTTP_GET) (at_addr 93824992235552) (world0 tt) =
    Undef NullDeref.
Proof.
  apply (document_request_crashes open_drivers (fun _ => lit "error") (Some TTrue) (lit "welcome")
           t_state open_host (t_request (lit "/people1/ada") NGX_HTTP_GET) (at_addr 93824992235552) 7
           (world0 tt)).
  - vm_compute. discriminate.
  - vm_compute. reflexivity.
  - split; [apply (bool_decide_unpack _); vm_compute; reflexivity|]. split; [reflexivity|].
    split; [apply (bool_decide_unpack _); vm_compute; reflexivity|].
    apply (bool_decide_unpack _). vm_compute. reflexivity.
Defined.

Lemma root_request_unanswered_witness :
  pwp (t_handler (t_request (lit "/") NGX_HTTP_GET) (at_addr 93824992235552)) (world0 tt) (fun r =>
    exists hrc, r = (NGX_HTTP_INTERNAL_SERVER_ERROR,
      [SendHeader (HeadersOut NGX_HTTP_OK (Z.of_nat (length (lit "welcome" ++ newline)))
         (Some (lit "application/json"))) hrc], t_state)).
Proof. by apply (root_request_unanswered open_drivers (fun _ => lit "error") (Some TTrue)). Defined.
