(* ===== verification/FcgiFormat.v ===== *)
(** * FastCGI records (fastcgi.h, the record part of loungeact_fastcgi/fcgiapp.c)

    The headers and bodies the library makes, as C structures of bytes, and what stands on the
    wire: a sequence of records, each a header, its content and its padding. *)

From S2P Require Import Prelude.
From Stdlib Require Import Init.Byte.

#[local] Open Scope c_scope.

(** ** The constants of fastcgi.h *)

Definition FCGI_MAX_LENGTH : Z := 65535.
Definition FCGI_HEADER_LEN : Z := 8.
Definition FCGI_VERSION_1 : Z := 1.

Definition FCGI_BEGIN_REQUEST : Z := 1.
Definition FCGI_END_REQUEST : Z := 3.
Definition FCGI_PARAMS : Z := 4.
Definition FCGI_STDIN : Z := 5.
Definition FCGI_STDOUT : Z := 6.
Definition FCGI_STDERR : Z := 7.
Definition FCGI_DATA : Z := 8.
Definition FCGI_GET_VALUES : Z := 9.
Definition FCGI_GET_VALUES_RESULT : Z := 10.
Definition FCGI_UNKNOWN_TYPE : Z := 11.

Definition FCGI_NULL_REQUEST_ID : Z := 0.
Definition FCGI_KEEP_CONN : Z := 1.

Definition FCGI_RESPONDER : Z := 1.
Definition FCGI_AUTHORIZER : Z := 2.
Definition FCGI_FILTER : Z := 3.

Definition FCGI_REQUEST_COMPLETE : Z := 0.
Definition FCGI_CANT_MPX_CONN : Z := 1.

Definition FCGI_MAX_CONNS : list byte := lit "FCGI_MAX_CONNS".
Definition FCGI_MAX_REQS : list byte := lit "FCGI_MAX_REQS".
Definition FCGI_MPXS_CONNS : list byte := lit "FCGI_MPXS_CONNS".

(** ** Headers and bodies *)

Record FCGI_Header := Header {
  version : byte;
  type : byte;
  requestIdB1 : byte;
  requestIdB0 : byte;
  contentLengthB1 : byte;
  contentLengthB0 : byte;
  paddingLength : byte;
  reserved : byte;
}.

(** The memory of a header. *)
Definition fcgi_header_bytes (h : FCGI_Header) : list byte :=
  [version h; type h; requestIdB1 h; requestIdB0 h; contentLengthB1 h; contentLengthB0 h;
   paddingLength h; reserved h].

Definition header_of (b : list byte) : FCGI_Header :=
  let at_ i := nth i b x00 in
  Header (at_ 0%nat) (at_ 1%nat) (at_ 2%nat) (at_ 3%nat) (at_ 4%nat) (at_ 5%nat) (at_ 6%nat)
         (at_ 7%nat).

(** [assert]. *)
Definition assert_that (b : bool) : outcome unit := if b then Ret tt else Undef AssertFails.

Definition MakeHeader (ty requestId contentLength padding : Z) : outcome FCGI_Header :=
  let+ _ := assert_that ((0 <=? contentLength) && (contentLength <=? FCGI_MAX_LENGTH)) in
  let+ _ := assert_that ((0 <=? padding) && (padding <=? 255)) in
  Ret (Header (z2b FCGI_VERSION_1) (z2b ty)
         (z2b (Z.land (Z.shiftr requestId 8) 255)) (z2b (Z.land requestId 255))
         (z2b (Z.land (Z.shiftr contentLength 8) 255)) (z2b (Z.land contentLength 255))
         (z2b padding) x00).

(** [FCGI_EndRequestBody]: the status, the status of the protocol and three reserved bytes. *)
Definition MakeEndRequestBody (appStatus protocolStatus : Z) : list byte :=
  [z2b (Z.land (Z.shiftr appStatus 24) 255); z2b (Z.land (Z.shiftr appStatus 16) 255);
   z2b (Z.land (Z.shiftr appStatus 8) 255); z2b (Z.land appStatus 255);
   z2b protocolStatus; x00; x00; x00].

Definition MakeUnknownTypeBody (ty : Z) : list byte := z2b ty :: replicate 7 x00.

(** For an [unsigned] that becomes an [int]. *)
Definition AlignInt8 (n : Z) : Z := s32 (Z.land (u32 (n + 7)) (2 ^ 32 - 1 - 7)).

Definition AlignPtr8 (p : Z) : Z := p + u64 (Z.land (u64 (p + 7)) (2 ^ 64 - 1 - 7) - p).

(** ** What a sequence of bytes on the wire stands for *)

Record frec := FRec {
  f_type : Z;
  f_id : Z;
  f_content : list byte;
  f_padding : list byte;
}.

Definition frec_ok (r : frec) : Prop :=
  0 <= f_type r < 256 /\ 0 <= f_id r < 65536 /\
  Z.of_nat (length (f_content r)) <= FCGI_MAX_LENGTH /\ Z.of_nat (length (f_padding r)) <= 255.

(** The header of a record. *)
Definition record_header (r : frec) : FCGI_Header :=
  let n := Z.of_nat (length (f_content r)) in
  Header x01 (z2b (f_type r)) (z2b (f_id r / 256)) (z2b (f_id r)) (z2b (n / 256)) (z2b n)
         (z2b (Z.of_nat (length (f_padding r)))) x00.

Definition encode_record (r : frec) : list byte :=
  fcgi_header_bytes (record_header r) ++ f_content r ++ f_padding r.

Definition encode_records (rs : list frec) : list byte := concat (map encode_record rs).

(** What the records of a type carry. *)
Definition stream_of (ty : Z) (rs : list frec) : list byte :=
  concat (map f_content (filter (fun r => f_type r = ty) rs)).

(** ** Lemmas *)

Lemma fcgi_header_of_bytes h rest : header_of (fcgi_header_bytes h ++ rest) = h.
Proof. by destruct h. Qed.

Lemma length_fcgi_header h : length (fcgi_header_bytes h) = 8%nat.
Proof. done. Qed.

Lemma land_255 z : Z.land z 255 = z mod 256.
Proof. change 255 with (Z.ones 8). by rewrite Z.land_ones. Qed.

Lemma z2b_mod z : z2b (z mod 256) = z2b z.
Proof. unfold z2b. by rewrite Zmod_mod. Qed.

Lemma z2b_land z : z2b (Z.land z 255) = z2b z.
Proof. by rewrite land_255, z2b_mod. Qed.

Lemma MakeHeader_ok ty id content padding :
  Z.of_nat (length content) <= FCGI_MAX_LENGTH -> Z.of_nat (length padding) <= 255 ->
  MakeHeader ty id (Z.of_nat (length content)) (Z.of_nat (length padding)) =
    Ret (record_header (FRec ty id content padding)).
Proof.
  intros Hc Hp. unfold MakeHeader, assert_that. rewrite !(proj2 (Z.leb_le _ _)) by lia.
  cbn [obind andb]. unfold record_header. cbn [f_type f_id f_content f_padding].
  rewrite !z2b_land, !Z.shiftr_div_pow2 by lia. done.
Qed.

Lemma AlignInt8_spec n :
  0 <= n <= 65536 -> n <= AlignInt8 n < n + 8 /\ AlignInt8 n mod 8 = 0.
Proof.
  intros Hn. unfold AlignInt8, u32. rewrite (Z.mod_small (n + 7)) by lia.
  replace (Z.land (n + 7) (2 ^ 32 - 1 - 7)) with ((n + 7) / 8 * 8).
  - rewrite s32_small; [|pose proof (Z.div_mod (n + 7) 8 ltac:(lia));
      pose proof (Z.mod_pos_bound (n + 7) 8 ltac:(lia)); lia].
    rewrite Z.mod_mul by done.
    pose proof (Z.div_mod (n + 7) 8 ltac:(lia)). pose proof (Z.mod_pos_bound (n + 7) 8 ltac:(lia)). lia.
  - change (2 ^ 32 - 1 - 7) with (Z.shiftl (Z.ones 29) 3).
    change 8 with (2 ^ 3). rewrite <- Z.shiftl_mul_pow2, <- Z.shiftr_div_pow2 by lia.
    apply Z.bits_inj'. intros i Hi. rewrite Z.land_spec, !Z.shiftl_spec by done.
    destruct (Z.ltb_spec i 3) as [Hlt|Hge].
    + rewrite (Z.testbit_neg_r _ (i - 3)), (Z.testbit_neg_r (Z.ones 29)) by lia.
      by rewrite andb_false_r.
    + rewrite Z.shiftr_spec by lia. replace (i - 3 + 3) with i by lia.
      rewrite Z.testbit_ones by lia. destruct (Z.ltb_spec (i - 3) 29) as [H1|H1].
      * by rewrite (proj2 (Z.leb_le _ _)), andb_true_r by lia.
      * rewrite andb_false_r, andb_false_r. apply Z.bits_above_log2; [lia|].
        assert (Z.log2 (n + 7) < 32); [|lia]. apply Z.log2_lt_pow2; lia.
Qed.

Lemma encode_records_app rs1 rs2 :
  encode_records (rs1 ++ rs2) = encode_records rs1 ++ encode_records rs2.
Proof. unfold encode_records. by rewrite map_app, concat_app. Qed.

Lemma stream_of_app ty rs1 rs2 :
  stream_of ty (rs1 ++ rs2) = stream_of ty rs1 ++ stream_of ty rs2.
Proof. unfold stream_of. by rewrite list.filter_app, map_app, concat_app. Qed.

(** The numbers of two bytes in a header. *)
Lemma two_bytes z : 0 <= z < 65536 -> Z.shiftl (b2z (z2b (z / 256))) 8 + b2z (z2b z) = z.
Proof.
  intros Hz. rewrite !b2z_z2b, Z.shiftl_mul_pow2 by lia.
  pose proof (Z.div_mod z 256 ltac:(lia)). pose proof (Z.mod_pos_bound z 256 ltac:(lia)).
  rewrite (Z.mod_small (z / 256)); [lia|]. split; [apply Z.div_pos; lia|apply Z.div_lt_upper_bound; lia].
Qed.

Lemma one_byte z : 0 <= z < 256 -> b2z (z2b z) = z.
Proof. intros Hz. by rewrite b2z_z2b, Z.mod_small. Qed.
