(* ===== verification/FcgiStream.v ===== *)
(** * FastCGI streams: their state and the connection below (fcgiapp.h, fcgiapp.c, os_unix.c)

    The state of the library: a stream over its buffer, with the pointers of the C structure
    as offsets into it, and the request its streams share.  A function takes and returns the
    structures it writes.  Below are the files of the process: what their reads will yield,
    how much their writes will take, and what was written. *)

From S2P Require Import Prelude FcgiFormat.
From Stdlib Require Import Init.Byte.

#[local] Open Scope c_scope.

Definition EOF : Z := -1.

(** ** The system *)

Definition EBADF : Z := 9.

(** What a connection will answer: each read a piece of data, or an error; each write takes a
    number of bytes, or fails.  Used up, reads find the end and writes take everything. *)
Record connection := Conn {
  c_in : list (Z + list byte);
  c_takes : list (Z + Z);
  c_out : list byte;
}.

(** What [accept] will return: an error, a client whose address is not in the list of web
    servers, a local client that sends nothing within the time it is given, or a connection. *)
Inductive accept_answer :=
| AcceptFails (e : Z)
| AcceptStranger
| AcceptSilent
| AcceptConn (c : connection).

(** The open files, the answers of [accept], the file it will open, whether the process was
    asked to end, and the connections that were closed, the last one first. *)
Record os := Os {
  os_fds : gmap Z connection;
  os_queue : list accept_answer;
  os_next_fd : Z;
  shutdownPending : bool;
  os_closed : list connection;
}.

Definition with_fds (f : gmap Z connection) (o : os) : os :=
  Os f (os_queue o) (os_next_fd o) (shutdownPending o) (os_closed o).

(** Nothing sets it. *)
Definition shutdownNow : bool := false.

(** [read]: at most [n] bytes of the piece at hand. *)
Definition conn_read (n : Z) (c : connection) : (Z + list byte) * connection :=
  match c_in c with
  | [] => (inr [], c)
  | inl e :: rest => (inl e, Conn rest (c_takes c) (c_out c))
  | inr l :: rest =>
      (inr (take (Z.to_nat n) l),
       Conn (if n <? Z.of_nat (length l) then inr (drop (Z.to_nat n) l) :: rest else rest)
         (c_takes c) (c_out c))
  end.

(** [write]: the number of bytes taken. *)
Definition conn_write (data : list byte) (c : connection) : (Z + Z) * connection :=
  let n := Z.of_nat (length data) in
  match c_takes c with
  | [] => (inr n, Conn (c_in c) [] (c_out c ++ data))
  | inl e :: rest => (inl e, Conn (c_in c) rest (c_out c))
  | inr k :: rest =>
      let k := Z.max 0 (Z.min k n) in
      (inr k, Conn (c_in c) rest (c_out c ++ take (Z.to_nat k) data))
  end.

(** A call on a file: the error is stored to [errno]. *)
Definition on_fd {A} (fd : Z) (f : connection -> (Z + A) * connection) : M os (option A) :=
  let* o := get_ext in
  match os_fds o !! fd with
  | None => set_errno EBADF ;;; ret None
  | Some c =>
      let '(r, c) := f c in
      put_ext (with_fds (<[fd := c]> (os_fds o)) o) ;;;
      match r with
      | inl e => set_errno e ;;; ret None
      | inr a => ret (Some a)
      end
  end.

(** The count, or -1, and the bytes read. *)
Definition OS_Read (fd len : Z) : M os (Z * list byte) :=
  if shutdownNow then ret (-1, [])
  else
    let* r := on_fd fd (conn_read len) in
    match r with
    | None => ret (-1, [])
    | Some data => ret (Z.of_nat (length data), data)
    end.

Definition OS_Write (fd : Z) (buf : list byte) : M os Z :=
  if shutdownNow then ret (-1)
  else
    let* r := on_fd fd (conn_write buf) in
    ret (default (-1) r).

(** [shutdown], reading what is still sent, [close]. *)
Definition OS_Close (fd : Z) : M os Z :=
  if fd =? -1 then ret 0
  else
    let* o := get_ext in
    match os_fds o !! fd with
    | None => set_errno EBADF ;;; ret (-1)
    | Some c =>
        put_ext (Os (delete fd (os_fds o)) (os_queue o) (os_next_fd o) (shutdownPending o)
                   (c :: os_closed o)) ;;;
        ret 0
    end.

Definition OS_IpcClose (ipcFd : Z) : M os Z := OS_Close ipcFd.

Definition EINTR : Z := 4.
Definition EPROTO : Z := 71.
Definition ECONNABORTED : Z := 103.
Definition ECONNRESET : Z := 104.
Definition ETIMEDOUT : Z := 110.
Definition EHOSTUNREACH : Z := 113.
Definition ENETUNREACH : Z := 101.

Definition is_reasonable_accept_errno (error : Z) : bool :=
  (error =? EPROTO) || (error =? ECONNABORTED) || (error =? ECONNRESET) || (error =? ETIMEDOUT) ||
  (error =? EHOSTUNREACH) || (error =? ENETUNREACH).

(** The loops around [accept], over its answers; a process without a further answer waits. *)
Fixpoint accept_loop (fail_on_intr : bool) (queue : list accept_answer) : M os Z :=
  let* o := get_ext in
  if shutdownPending o then ret (-1)
  else
    match queue with
    | [] => undef Diverges
    | a :: queue =>
        put_ext (Os (os_fds o) queue (os_next_fd o) (shutdownPending o) (os_closed o)) ;;;
        match a with
        | AcceptFails e =>
            set_errno e ;;;
            if (e =? EINTR) && negb fail_on_intr then accept_loop fail_on_intr queue
            else if is_reasonable_accept_errno e then set_errno 0 ;;; accept_loop fail_on_intr queue
            else ret (-1)
        | AcceptStranger | AcceptSilent => accept_loop fail_on_intr queue
        | AcceptConn c =>
            put_ext (Os (<[os_next_fd o := c]> (os_fds o)) queue (os_next_fd o + 1)
                       (shutdownPending o) (os_closed o)) ;;;
            ret (os_next_fd o)
        end
    end.

Definition OS_Accept (fail_on_intr : bool) : M os Z :=
  let* o := get_ext in accept_loop fail_on_intr (os_queue o).

Definition OS_Errno : M os Z := fun w => Ret (w_errno w, w).

(** [while (len)]. *)
Fixpoint write_loop (fuel : nat) (fd : Z) (buf : list byte) : M os Z :=
  match buf with
  | [] => ret 0
  | _ =>
      match fuel with
      | O => undef Diverges
      | S fuel =>
          let* wrote := OS_Write fd buf in
          if wrote <? 0 then ret wrote else write_loop fuel fd (drop (Z.to_nat wrote) buf)
      end
  end.

(** Each turn but the last uses up an answer. *)
Definition write_fuel (fd : Z) (o : os) : nat :=
  match os_fds o !! fd with Some c => S (length (c_takes c)) | None => 1 end.

Definition write_it_all (fd : Z) (buf : list byte) : M os Z :=
  let* o := get_ext in write_loop (write_fuel fd o) fd buf.

(** ** Streams and requests *)

Record FCGX_Stream_Data := StreamData {
  buff : list byte;
  buffStop : Z;
  dtype : Z;
  eorStop : bool;
  skip : bool;
  contentLen : Z;
  paddingLen : Z;
  isAnythingWritten : bool;
  rawWrite : bool;
}.

(** The pointers are offsets into [buff]. *)
Record FCGX_Stream := Stream {
  rdNext : Z;
  wrNext : Z;
  stop : Z;
  stopUnget : Z;
  isReader : bool;
  isClosed : bool;
  wasFCloseCalled : bool;
  FCGI_errno : Z;
  data : FCGX_Stream_Data;
}.

Definition bufflen (s : FCGX_Stream) : Z := Z.of_nat (length (buff (data s))).

(** Updates, as assignments to a member. *)
Definition set_rdNext v s := Stream v (wrNext s) (stop s) (stopUnget s) (isReader s) (isClosed s)
  (wasFCloseCalled s) (FCGI_errno s) (data s).
Definition set_wrNext v s := Stream (rdNext s) v (stop s) (stopUnget s) (isReader s) (isClosed s)
  (wasFCloseCalled s) (FCGI_errno s) (data s).
Definition set_stop v s := Stream (rdNext s) (wrNext s) v (stopUnget s) (isReader s) (isClosed s)
  (wasFCloseCalled s) (FCGI_errno s) (data s).
Definition set_stopUnget v s := Stream (rdNext s) (wrNext s) (stop s) v (isReader s) (isClosed s)
  (wasFCloseCalled s) (FCGI_errno s) (data s).
Definition set_isClosed v s := Stream (rdNext s) (wrNext s) (stop s) (stopUnget s) (isReader s) v
  (wasFCloseCalled s) (FCGI_errno s) (data s).
Definition set_wasFCloseCalled v s := Stream (rdNext s) (wrNext s) (stop s) (stopUnget s)
  (isReader s) (isClosed s) v (FCGI_errno s) (data s).
Definition set_FCGI_errno v s := Stream (rdNext s) (wrNext s) (stop s) (stopUnget s) (isReader s)
  (isClosed s) (wasFCloseCalled s) v (data s).
Definition set_data v s := Stream (rdNext s) (wrNext s) (stop s) (stopUnget s) (isReader s)
  (isClosed s) (wasFCloseCalled s) (FCGI_errno s) v.

Definition upd_data (f : FCGX_Stream_Data -> FCGX_Stream_Data) (s : FCGX_Stream) : FCGX_Stream :=
  set_data (f (data s)) s.

Definition set_buff v d := StreamData v (buffStop d) (dtype d) (eorStop d) (skip d) (contentLen d)
  (paddingLen d) (isAnythingWritten d) (rawWrite d).
Definition set_buffStop v d := StreamData (buff d) v (dtype d) (eorStop d) (skip d) (contentLen d)
  (paddingLen d) (isAnythingWritten d) (rawWrite d).
Definition set_dtype v d := StreamData (buff d) (buffStop d) v (eorStop d) (skip d) (contentLen d)
  (paddingLen d) (isAnythingWritten d) (rawWrite d).
Definition set_eorStop v d := StreamData (buff d) (buffStop d) (dtype d) v (skip d) (contentLen d)
  (paddingLen d) (isAnythingWritten d) (rawWrite d).
Definition set_skip v d := StreamData (buff d) (buffStop d) (dtype d) (eorStop d) v (contentLen d)
  (paddingLen d) (isAnythingWritten d) (rawWrite d).
Definition set_contentLen v d := StreamData (buff d) (buffStop d) (dtype d) (eorStop d) (skip d) v
  (paddingLen d) (isAnythingWritten d) (rawWrite d).
Definition set_paddingLen v d := StreamData (buff d) (buffStop d) (dtype d) (eorStop d) (skip d)
  (contentLen d) v (isAnythingWritten d) (rawWrite d).
Definition set_isAnythingWritten v d := StreamData (buff d) (buffStop d) (dtype d) (eorStop d)
  (skip d) (contentLen d) (paddingLen d) v (rawWrite d).
Definition set_rawWrite v d := StreamData (buff d) (buffStop d) (dtype d) (eorStop d) (skip d)
  (contentLen d) (paddingLen d) (isAnythingWritten d) v.

(** The parameters: the strings of the vector and the number of pointers it can hold. *)
Record Params := MkParams {
  vec : list (list byte);
  plength : Z;
}.

(** The members of a request that its streams do not own. *)
Record FCGX_Request := Request {
  requestId : Z;
  role : Z;
  ipcFd : Z;
  isBeginProcessed : bool;
  keepConnection : Z;
  appStatus : Z;
  nWriters : Z;
  flags : Z;
  listen_sock : Z;
}.

Definition set_requestId v r := Request v (role r) (ipcFd r) (isBeginProcessed r)
  (keepConnection r) (appStatus r) (nWriters r) (flags r) (listen_sock r).
Definition set_role v r := Request (requestId r) v (ipcFd r) (isBeginProcessed r)
  (keepConnection r) (appStatus r) (nWriters r) (flags r) (listen_sock r).
Definition set_ipcFd v r := Request (requestId r) (role r) v (isBeginProcessed r)
  (keepConnection r) (appStatus r) (nWriters r) (flags r) (listen_sock r).
Definition set_isBeginProcessed v r := Request (requestId r) (role r) (ipcFd r) v
  (keepConnection r) (appStatus r) (nWriters r) (flags r) (listen_sock r).
Definition set_keepConnection v r := Request (requestId r) (role r) (ipcFd r) (isBeginProcessed r)
  v (appStatus r) (nWriters r) (flags r) (listen_sock r).
Definition set_appStatus v r := Request (requestId r) (role r) (ipcFd r) (isBeginProcessed r)
  (keepConnection r) v (nWriters r) (flags r) (listen_sock r).
Definition set_nWriters v r := Request (requestId r) (role r) (ipcFd r) (isBeginProcessed r)
  (keepConnection r) (appStatus r) v (flags r) (listen_sock r).

(** ** Memory and errors *)

(** [malloc] with an assertion. *)
Definition Malloc {X} (n : Z) : M X (list byte) :=
  let* p := malloc n in
  match p with
  | Some blk => ret blk
  | None => lift (assert_that (n =? 0)) ;;; ret []
  end.

Definition SetError (s : FCGX_Stream) (e : Z) : FCGX_Stream :=
  set_isClosed true (if FCGI_errno s =? 0 then set_FCGI_errno e s else s).

Definition FCGX_GetError (s : FCGX_Stream) : Z := FCGI_errno s.

Definition FCGX_ClearError (s : FCGX_Stream) : FCGX_Stream := set_FCGI_errno 0 s.

Definition FCGX_HasSeenEOF (s : FCGX_Stream) : Z := if isClosed s then EOF else 0.

(** ** Making and freeing streams *)

Definition SIZEOF_STREAM : Z := 72.
Definition SIZEOF_STREAM_DATA : Z := 72.

(** What [malloc] returns is aligned, so that [AlignPtr8] keeps the address. *)
Definition NewStream {X} (buflen : Z) (reader : bool) (streamType : Z) : M X FCGX_Stream :=
  let* _ := Malloc SIZEOF_STREAM in
  let* _ := Malloc SIZEOF_STREAM_DATA in
  let buflen := AlignInt8 (Z.min (Z.max buflen 32) (FCGI_MAX_LENGTH + 1)) in
  let* mBuff := Malloc buflen in
  let d := StreamData mBuff (if reader then 0 else buflen) streamType false false 0 0 false false in
  ret (if reader then Stream 0 0 0 0 true false false 0 d
       else Stream buflen 8 buflen 0 false false false 0 d).

Definition NewReader {X} (buflen streamType : Z) : M X FCGX_Stream := NewStream buflen true streamType.
Definition NewWriter {X} (buflen streamType : Z) : M X FCGX_Stream := NewStream buflen false streamType.

(** The buffer, the data and the stream. *)
Definition FCGX_FreeStream {X} (s : option FCGX_Stream) : M X unit :=
  match s with Some _ => free ;;; free ;;; free | None => ret tt end.

Definition SetReaderType (s : FCGX_Stream) (streamType : Z) : outcome FCGX_Stream :=
  let+ _ := assert_that (isReader s) in
  let s := upd_data (fun d => set_paddingLen 0 (set_contentLen 0 (set_skip false
             (set_eorStop false (set_dtype streamType d))))) s in
  Ret (set_isClosed false (set_wrNext (rdNext s) (set_stop (rdNext s) s))).

(** Members after assignments. *)
Ltac members :=
  unfold bufflen, upd_data, set_rdNext, set_wrNext, set_stop, set_stopUnget, set_isClosed,
    set_wasFCloseCalled, set_FCGI_errno, set_data, set_buff, set_buffStop, set_dtype, set_eorStop,
    set_skip, set_contentLen, set_paddingLen, set_isAnythingWritten, set_rawWrite, set_requestId,
    set_role, set_ipcFd, set_isBeginProcessed, set_keepConnection, set_appStatus,
    set_nWriters in *;
  cbn [rdNext wrNext stop stopUnget isReader isClosed wasFCloseCalled FCGI_errno data buff
    buffStop dtype eorStop skip contentLen paddingLen isAnythingWritten rawWrite requestId role
    ipcFd isBeginProcessed keepConnection appStatus nWriters flags listen_sock] in *.

(** The stream and the request a procedure leaves. *)
Abbreviation run := (M os (FCGX_Stream * FCGX_Request)).

Lemma wp_Malloc {X} n (w : world X) (Q : list byte -> world X -> Prop) :
  0 <= n <= PTRDIFF_MAX -> mem_ok w ->
  (forall blk w', length blk = Z.to_nat n -> frame 1 w w' -> Q blk w') -> wp (Malloc n) w Q.
Proof.
  intros Hn Hm HQ. unfold Malloc. wp_step. apply wp_malloc; [lia| |].
  - intros blk w' Hl _ F _. wp_step. by apply HQ.
  - intros w' Hno. exfalso. apply Hno. split; [done|lia].
Qed.

(** The size of a buffer. *)
Definition buffer_size (buflen : Z) : Z := AlignInt8 (Z.min (Z.max buflen 32) (FCGI_MAX_LENGTH + 1)).

Lemma buffer_size_ok n : 32 <= buffer_size n <= 65536 /\ buffer_size n mod 8 = 0.
Proof.
  unfold buffer_size, FCGI_MAX_LENGTH. set (m := Z.min _ _). assert (32 <= m <= 65536) by lia.
  destruct (AlignInt8_spec m) as [H1 H2]; [lia|]. split; [|done].
  pose proof (Z.div_mod (AlignInt8 m) 8 ltac:(lia)). lia.
Qed.

Lemma wp_NewStream {X} n (reader : bool) ty (w : world X) (Q : FCGX_Stream -> world X -> Prop) :
  mem_ok w ->
  (forall (b : list byte) w', Z.of_nat (length b) = buffer_size n -> frame 3 w w' ->
     let d := StreamData b (if reader then 0 else buffer_size n) ty false false 0 0 false false in
     Q (if reader then Stream 0 0 0 0 true false false 0 d
        else Stream (buffer_size n) 8 (buffer_size n) 0 false false false 0 d) w') ->
  wp (NewStream n reader ty) w Q.
Proof.
  intros Hm HQ. unfold NewStream. pose proof (buffer_size_ok n) as [Hb _].
  unfold SIZEOF_STREAM, SIZEOF_STREAM_DATA.
  wp_step. apply wp_Malloc; [unfold PTRDIFF_MAX; lia|done|]. intros _ w1 _ F1.
  wp_step. apply wp_Malloc; [unfold PTRDIFF_MAX; lia|by eapply frame_mem_ok|]. intros _ w2 _ F2.
  wp_step. fold (buffer_size n).
  apply wp_Malloc; [unfold PTRDIFF_MAX; lia|by eapply frame_mem_ok, frame_mem_ok|].
  intros b w3 Hl F3. wp_step. apply HQ; [lia|solve_frame].
Qed.

Lemma wp_FreeStream {X} (s : option FCGX_Stream) (w : world X) (Q : unit -> world X -> Prop) :
  (forall w', frame (match s with Some _ => -3 | None => 0 end) w w' -> Q tt w') -> wp (FCGX_FreeStream s) w Q.
Proof.
  intros HQ. unfold FCGX_FreeStream. destruct s; [|wp_step; apply HQ, frame_refl].
  wp_steps. apply HQ. solve_frame.
Qed.
