(* ===== verification/FcgiWriter.v ===== *)
(** * Writing FastCGI streams (loungeact_fastcgi/fcgiapp.c)

    Bytes put into a stream are collected in its buffer behind the room for a header, and go
    out as a record when it is full, flushed or closed.  What goes over the wire is related
    to what was put: records whose contents, in order, are the bytes of the stream. *)

From S2P Require Import Prelude FcgiFormat FcgiStream.
From Stdlib Require Import Init.Byte.

#[local] Open Scope c_scope.

(** [memcpy] to [wrNext], which moves behind what is written. *)
Definition put_bytes (d : list byte) (s : FCGX_Stream) : outcome FCGX_Stream :=
  let+ b := mem_write (buff (data s)) (wrNext s) d in
  Ret (set_wrNext (wrNext s + Z.of_nat (length d)) (upd_data (set_buff b) s)).

(** ** Emptying the buffer *)

(** A header in front of the content, and padding to a multiple of eight bytes behind it; a
    buffer without content gives back the room for the header. *)
Definition encapsulate (s : FCGX_Stream) (r : FCGX_Request) : outcome FCGX_Stream :=
  if rawWrite (data s) then Ret s
  else
    let cLen := wrNext s - FCGI_HEADER_LEN in
    if 0 <? cLen then
      let eLen := AlignInt8 (u32 cLen) in
      let+ s := put_bytes (replicate (Z.to_nat (eLen - cLen)) x00) s in
      let+ h := MakeHeader (dtype (data s)) (requestId r) cLen (eLen - cLen) in
      let+ b := mem_write (buff (data s)) 0 (fcgi_header_bytes h) in
      Ret (upd_data (set_buff b) s)
    else Ret (set_wrNext 0 s).

(** The second half: what the buffer holds is written. *)
Definition write_buffer (s : FCGX_Stream) (r : FCGX_Request) : run :=
  let reserve s :=
    if negb (rawWrite (data s)) then set_wrNext (wrNext s + FCGI_HEADER_LEN) s else s in
  if negb (wrNext s =? 0) then
    let s := upd_data (set_isAnythingWritten true) s in
    let* out := lift (mem_read (buff (data s)) 0 (wrNext s)) in
    let* rc := write_it_all (ipcFd r) out in
    if rc <? 0 then let* e := OS_Errno in ret (SetError s e, r)
    else ret (reserve (set_wrNext 0 s), r)
  else ret (reserve s, r).

(** [doClose]: what writes the records that close a stream, when it is to be closed. *)
Definition EmptyBuffProc (doClose : option (FCGX_Stream -> FCGX_Request -> run))
  (s : FCGX_Stream) (r : FCGX_Request) : run :=
  let* s := lift (encapsulate s r) in
  let* '(s, r) := match doClose with Some close => close s r | None => ret (s, r) end in
  write_buffer s r.

(** ** Putting *)

Definition FCGX_PutChar (c : Z) (s : FCGX_Stream) (r : FCGX_Request)
  : M os (Z * (FCGX_Stream * FCGX_Request)) :=
  let store s r := let* s := lift (put_bytes [z2b c] s) in ret (u8 c, (s, r)) in
  if negb (wrNext s =? stop s) then store s r
  else if isClosed s || isReader s then ret (EOF, (s, r))
  else
    let* '(s, r) := EmptyBuffProc None s r in
    if negb (wrNext s =? stop s) then store s r
    else lift (assert_that (isClosed s)) ;;; ret (EOF, (s, r)).

(** The general case of [FCGX_PutStr]; [str] is what is left of the string, [n] of the count. *)
Fixpoint put_loop (fuel : nat) (str : list byte) (n moved : Z) (s : FCGX_Stream)
  (r : FCGX_Request) : M os (Z * (FCGX_Stream * FCGX_Request)) :=
  match fuel with
  | O => undef Diverges
  | S fuel =>
      let next moved str s :=
        if isClosed s || isReader s then ret (-1, (s, r))
        else
          let* '(s, r) := EmptyBuffProc None s r in put_loop fuel str n moved s r in
      if negb (wrNext s =? stop s) then
        let m := Z.min (n - moved) (stop s - wrNext s) in
        let* d := lift (mem_read str 0 m) in
        let* s := lift (put_bytes d s) in
        let moved := moved + m in
        if moved =? n then ret (moved, (s, r)) else next moved (drop (Z.to_nat m) str) s
      else next moved str s
  end.

(** Every second turn at least moves a byte. *)
Definition put_fuel (n : Z) : nat := (2 + 2 * Z.to_nat n)%nat.

Definition FCGX_PutStr (str : list byte) (n : Z) (s : FCGX_Stream) (r : FCGX_Request)
  : M os (Z * (FCGX_Stream * FCGX_Request)) :=
  if n <=? stop s - wrNext s then
    let* d := lift (mem_read str 0 n) in
    let* s := lift (put_bytes d s) in
    ret (n, (s, r))
  else put_loop (put_fuel n) str n 0 s r.

Definition FCGX_PutS (str : list byte) (s : FCGX_Stream) (r : FCGX_Request)
  : M os (Z * (FCGX_Stream * FCGX_Request)) :=
  let* str := lift (cstr str) in
  FCGX_PutStr str (s32 (Z.of_nat (length str))) s r.

(** ** Closing *)

Definition WriteCloseRecords (s : FCGX_Stream) (r : FCGX_Request) : run :=
  let s := upd_data (set_rawWrite true) s in
  let* '(s, r) :=
    if negb ((dtype (data s) =? FCGI_STDERR) && (wrNext s =? 0) &&
             negb (isAnythingWritten (data s))) then
      let* h := lift (MakeHeader (dtype (data s)) (requestId r) 0 0) in
      let* '(_, sr) := FCGX_PutStr (fcgi_header_bytes h) 8 s r in ret sr
    else ret (s, r) in
  let* '(s, r) :=
    if nWriters r =? 1 then
      let* h := lift (MakeHeader FCGI_END_REQUEST (requestId r) 8 0) in
      let body := MakeEndRequestBody (appStatus r) FCGI_REQUEST_COMPLETE in
      let* '(_, sr) := FCGX_PutStr (fcgi_header_bytes h ++ body) 16 s r in ret sr
    else ret (s, r) in
  ret (s, set_nWriters (nWriters r - 1) r).

Definition FCGX_FFlush (s : FCGX_Stream) (r : FCGX_Request)
  : M os (Z * (FCGX_Stream * FCGX_Request)) :=
  if isClosed s || isReader s then ret (0, (s, r))
  else
    let* '(s, r) := EmptyBuffProc None s r in
    ret (if isClosed s then -1 else 0, (s, r)).

Definition FCGX_FClose (s : option FCGX_Stream) (r : FCGX_Request)
  : M os (Z * (option FCGX_Stream * FCGX_Request)) :=
  match s with
  | None => ret (0, (None, r))
  | Some s =>
      let* '(s, r) :=
        if negb (wasFCloseCalled s) then
          let* '(s, r) :=
            if negb (isReader s) then EmptyBuffProc (Some WriteCloseRecords) s r
            else ret (s, r) in
          let s := set_isClosed true (set_wasFCloseCalled true s) in
          ret (if isReader s then set_wrNext (rdNext s) (set_stop (rdNext s) s)
               else set_rdNext (wrNext s) (set_stop (wrNext s) s), r)
        else ret (s, r) in
      ret (if FCGI_errno s =? 0 then 0 else EOF, (Some s, r))
  end.

(** Writing a text and closing: on the wire a record, the end of the stream, the end of the
    request. *)
Example write_sample :
  let r := Request 258 1 5 true 0 3 1 0 0 in
  let o := Os (<[5 := Conn [] [inr 3; inr 0] []]> ∅) [] 6 false [] in
  match (let* s := NewWriter 512 FCGI_STDOUT in
         let* '(_, (s, r)) := FCGX_PutStr (lit "hello") 5 s r in
         FCGX_FClose (Some s) r) (world0 o) with
  | Ret ((rc, (_, r)), w) =>
      rc = 0 /\ nWriters r = 0 /\
      option_map c_out (os_fds (w_ext w) !! 5) =
        Some ([x01; x06; x01; x02; x00; x05; x03; x00] ++ lit "hello" ++ [x00; x00; x00] ++
              [x01; x06; x01; x02; x00; x00; x00; x00] ++
              [x01; x03; x01; x02; x00; x08; x00; x00] ++
              [x00; x00; x00; x03; x00; x00; x00; x00])
  | Undef _ => False
  end.
Proof. vm_compute. split_and!; reflexivity. Qed.

(** ** Connections that take what is written *)

Definition takes_all (c : connection) : Prop := Forall (fun t => exists k, t = inr k) (c_takes c).

Definition ready (fd : Z) (o : os) : Prop :=
  exists c, os_fds o !! fd = Some c /\ takes_all c.

(** From [w] to [w'], [d] was written to [fd], and nothing else happened. *)
Definition sent (fd : Z) (d : list byte) (w w' : world os) : Prop :=
  heap 0 w w' /\ exists c c',
    os_fds (w_ext w) !! fd = Some c /\
    w_ext w' = with_fds (<[fd := c']> (os_fds (w_ext w))) (w_ext w) /\
    c_out c' = c_out c ++ d /\ c_in c' = c_in c /\ (takes_all c -> takes_all c').

Lemma with_fds_same o : with_fds (os_fds o) o = o.
Proof. by destruct o. Qed.

Lemma sent_nil fd w : ready fd (w_ext w) -> sent fd [] w w.
Proof.
  intros (c & Hc & _). split; [apply heap_refl|]. exists c, c.
  rewrite insert_id, with_fds_same, app_nil_r by done. done.
Qed.

Lemma sent_heap fd d w w' w'' : sent fd d w w' -> frame 0 w' w'' -> sent fd d w w''.
Proof.
  intros (Hh & c & c' & H1 & H2 & H3) (E & F).
  split; [eapply heap_eq; [eapply heap_trans; [done|by apply frame_heap]|lia]|].
  exists c, c'. by rewrite E.
Qed.

Lemma sent_trans fd d1 d2 w1 w2 w3 :
  sent fd d1 w1 w2 -> sent fd d2 w2 w3 -> sent fd (d1 ++ d2) w1 w3.
Proof.
  intros (Hh & c & c' & H1 & H2 & H3 & H4 & H5) (Hh' & d & d' & K1 & K2 & K3 & K4 & K5).
  split; [eapply heap_eq; [by eapply heap_trans|lia]|].
  rewrite H2 in K1, K2. cbn in K1. rewrite lookup_insert_eq in K1. injection K1 as <-.
  exists c, d'. split; [done|]. split.
  { rewrite K2. unfold with_fds. cbn. by rewrite insert_insert_eq. }
  rewrite K3, H3, K4, H4, app_assoc. auto.
Qed.

Lemma sent_ready fd d w w' : ready fd (w_ext w) -> sent fd d w w' -> ready fd (w_ext w').
Proof.
  intros (c0 & Hc0 & Ht) (_ & c & c' & H1 & H2 & _ & _ & H5). rewrite H2.
  exists c'. cbn. rewrite lookup_insert_eq. split; [done|]. apply H5. congruence.
Qed.

(** ** Writing *)

Lemma wp_on_fd {A} fd (f : connection -> (Z + A) * connection) w c a c' (Q : option A -> world os -> Prop) :
  os_fds (w_ext w) !! fd = Some c -> f c = (inr a, c') ->
  (forall w', heap 0 w w' -> w_ext w' = with_fds (<[fd := c']> (os_fds (w_ext w))) (w_ext w) ->
     Q (Some a) w') ->
  wp (on_fd fd f) w Q.
Proof.
  intros Hc Hf HQ. unfold on_fd. wp_step. wp_step. rewrite Hc, Hf. wp_step.
  apply wp_put_ext. intros w' He Hl Ha _. wp_step. apply HQ; [|done].
  split; [lia|]. unfold mem_ok. by rewrite Ha.
Qed.

Lemma wp_OS_Write fd buf w (Q : Z -> world os -> Prop) :
  ready fd (w_ext w) ->
  (forall k w', 0 <= k <= Z.of_nat (length buf) -> sent fd (take (Z.to_nat k) buf) w w' ->
     (forall c c', os_fds (w_ext w) !! fd = Some c -> os_fds (w_ext w') !! fd = Some c' ->
        k = Z.of_nat (length buf) /\ c_takes c = [] \/ S (length (c_takes c')) = length (c_takes c)) ->
     Q k w') ->
  wp (OS_Write fd buf) w Q.
Proof.
  intros (c & Hc & Ht) HQ. unfold OS_Write. cbn [shutdownNow]. wp_step.
  assert (exists k c', conn_write buf c = (inr k, c') /\ 0 <= k <= Z.of_nat (length buf) /\
    c_out c' = c_out c ++ take (Z.to_nat k) buf /\ c_in c' = c_in c /\ takes_all c' /\
    (k = Z.of_nat (length buf) /\ c_takes c = [] \/ S (length (c_takes c')) = length (c_takes c)))
    as (k & c' & E & Hk & Ho & Hi & Ht' & Hf).
  { unfold conn_write. destruct (c_takes c) as [|t l] eqn:El.
    - eexists _, _. split; [reflexivity|]. cbn. rewrite Nat2Z.id, take_ge by lia.
      split; [lia|]. do 2 (split; [done|]). split; [by apply list.Forall_nil|]. by left.
    - unfold takes_all in Ht. rewrite El in Ht. apply list.Forall_cons in Ht as [(k & ->) Ht].
      eexists _, _. split; [reflexivity|]. cbn. split; [lia|].
      do 3 (split; [done|]). by right. }
  eapply wp_on_fd; [done..|]. intros w' Hh He. wp_step. cbn [default from_option id].
  apply HQ; [done| |].
  - split; [done|]. by exists c, c'.
  - intros c1 c2 H1 H2. rewrite He in H2. cbn in H2. rewrite lookup_insert_eq in H2. congruence.
Qed.

Lemma wp_write_loop fd fuel : forall buf w (Q : Z -> world os -> Prop),
  ready fd (w_ext w) ->
  (exists c, os_fds (w_ext w) !! fd = Some c /\ (length (c_takes c) < fuel)%nat) ->
  (forall w', sent fd buf w w' -> Q 0 w') ->
  wp (write_loop fuel fd buf) w Q.
Proof.
  induction fuel as [|fuel IH]; intros buf w Q Hr (c & Hc & Hf) HQ; [lia|].
  destruct buf as [|b buf]; [cbn [write_loop]; wp_step; by apply HQ, sent_nil|].
  cbn [write_loop]. wp_step. apply wp_OS_Write; [done|]. intros k w1 Hk Hs Hans.
  rewrite (proj2 (Z.ltb_ge _ _)) by lia.
  assert (ready fd (w_ext w1)) as Hr1 by (by eapply sent_ready).
  destruct Hr1 as (c1 & Hc1 & Ht1). destruct (Hans _ _ Hc Hc1) as [[-> Hnil]|Hlt].
  - rewrite Nat2Z.id, drop_all. rewrite Nat2Z.id, take_ge in Hs by done.
    destruct fuel; cbn [write_loop]; wp_step; by apply HQ.
  - apply IH; [by exists c1|exists c1; split; [done|lia]|]. intros w2 Hs2. apply HQ.
    rewrite <- (take_drop (Z.to_nat k) (b :: buf)). by eapply sent_trans.
Qed.

Lemma wp_write_it_all fd buf w (Q : Z -> world os -> Prop) :
  ready fd (w_ext w) -> (forall w', sent fd buf w w' -> Q 0 w') -> wp (write_it_all fd buf) w Q.
Proof.
  intros Hr HQ. unfold write_it_all. wp_step. wp_step. apply wp_write_loop; [done| |done].
  destruct Hr as (c & Hc & _). exists c. unfold write_fuel. rewrite Hc. split; [done|lia].
Qed.

(** ** The bytes in the buffer *)

(** Where they begin: behind the room for a header, but for the closing records. *)
Definition base (raw : bool) : nat := if raw then 0 else 8.

(** An open writer with the bytes [d] in its buffer, from [off]. *)
Record holds (off : nat) (raw : bool) (ty : Z) (written : bool) (s : FCGX_Stream) (d : list byte) : Prop := {
  h_reader : isReader s = false;
  h_closed : isClosed s = false;
  h_fclose : wasFCloseCalled s = false;
  h_errno : FCGI_errno s = 0;
  h_raw : rawWrite (data s) = raw;
  h_type : dtype (data s) = ty;
  h_written : isAnythingWritten (data s) = written;
  h_stop : stop s = bufflen s;
  h_aligned : bufflen s mod 8 = 0;
  h_len : 32 <= bufflen s <= 65536;
  h_next : wrNext s = Z.of_nat (off + length d);
  h_room : wrNext s <= stop s;
  h_bytes : take (length d) (drop off (buff (data s))) = d;
}.

Lemma wp_NewWriter {X} n ty (w : world X) (Q : FCGX_Stream -> world X -> Prop) :
  mem_ok w -> (forall s w', holds (base false) false ty false s [] -> frame 3 w w' -> Q s w') ->
  wp (NewWriter n ty) w Q.
Proof.
  intros Hm HQ. apply wp_NewStream; [done|]. intros b w' Hl F. pose proof (buffer_size_ok n).
  apply HQ; [|done]. constructor; unfold bufflen; cbn -[buffer_size]; rewrite ?Hl; try done; lia.
Qed.

(** What the bytes that leave the buffer make of the wire. *)
Definition data_record (ty id : Z) (r : frec) : Prop :=
  f_type r = ty /\ f_id r = id /\ f_content r <> [] /\
  Z.of_nat (length (f_content r)) <= FCGI_MAX_LENGTH /\ (length (f_padding r) < 8)%nat /\
  (Z.of_nat (length (encode_record r)) mod 8 = 0).

Definition emits (raw : bool) (ty id : Z) (d e : list byte) : Prop :=
  if raw then e = d
  else exists rs, e = encode_records rs /\ Forall (data_record ty id) rs /\ concat (map f_content rs) = d.

Lemma emits_nil raw ty id : emits raw ty id [] [].
Proof. destruct raw; [done|]. by exists []. Qed.

Lemma emits_app raw ty id d1 e1 d2 e2 :
  emits raw ty id d1 e1 -> emits raw ty id d2 e2 -> emits raw ty id (d1 ++ d2) (e1 ++ e2).
Proof.
  destruct raw; [by intros -> ->|]. intros (rs1 & -> & H1 & <-) (rs2 & -> & H2 & <-).
  exists (rs1 ++ rs2). rewrite encode_records_app, map_app, concat_app.
  split; [done|]. split; [by apply list.Forall_app|done].
Qed.

Lemma emits_written raw ty id d e : emits raw ty id d e -> d <> [] -> e <> [].
Proof.
  destruct raw; [by intros ->|]. intros ([|r rs] & -> & _ & <-) Hd; [done|].
  unfold encode_records. cbn. by destruct r.
Qed.

Lemma encode_record_length r :
  length (encode_record r) = (8 + length (f_content r) + length (f_padding r))%nat.
Proof. unfold encode_record. rewrite !length_app, length_fcgi_header. lia. Qed.

(** Bytes that fit are put behind those that are there. *)
Lemma put_bytes_holds off raw ty a s d x :
  holds off raw ty a s d -> Z.of_nat (length x) <= stop s - wrNext s ->
  exists s', put_bytes x s = Ret s' /\ holds off raw ty a s' (d ++ x) /\ stop s' = stop s.
Proof.
  intros H Hx. pose proof H as [H1 H2 H3 H4 H5 H6 H7 H8 H9 H10 H11 H12 H13].
  unfold put_bytes, bufflen in *. rewrite mem_write_ok by lia. cbn [obind]. eexists.
  split; [reflexivity|]. split; [|done].
  assert (length (take (Z.to_nat (wrNext s)) (buff (data s)) ++ x ++
    drop (Z.to_nat (wrNext s) + length x) (buff (data s))) = length (buff (data s))) as Hl
    by (apply length_splice; lia).
  constructor; members; rewrite ?Hl; try done.
  - rewrite length_app. lia.
  - lia.
  - rewrite H11, Nat2Z.id, length_app.
    rewrite drop_app_le by (rewrite length_take; lia). rewrite skipn_firstn_comm.
    replace (off + length d - off)%nat with (length d) by lia. rewrite H13, app_assoc.
    apply take_app_exact. by rewrite length_app.
Qed.

(** What goes out of a buffer that holds [d]: [d] itself, a record around it, or nothing. *)
Definition packed (raw : bool) (ty id : Z) (d e : list byte) : Prop :=
  emits raw ty id d e /\ (d = [] -> e = []).

Lemma aligned_room a b : 0 <= a <= b -> b mod 8 = 0 -> b <= 65536 -> AlignInt8 a <= b.
Proof.
  intros Ha Hb Hl. destruct (AlignInt8_spec a) as [H1 H2]; [lia|].
  pose proof (Z.div_mod b 8 ltac:(lia)). pose proof (Z.div_mod (AlignInt8 a) 8 ltac:(lia)). lia.
Qed.

(** A writer whose buffer was changed, with the same end of what it holds. *)
Lemma holds_set_buff off off' raw ty a s d b e :
  holds off raw ty a s d -> length b = length (buff (data s)) ->
  (off' + length e = off + length d)%nat -> take (length e) (drop off' b) = e ->
  holds off' raw ty a (upd_data (set_buff b) s) e.
Proof.
  intros [H1 H2 H3 H4 H5 H6 H7 H8 H9 H10 H11 H12 H13] Hb Hl He.
  constructor; members; rewrite ?Hb; try done. lia.
Qed.

(** An emptied one. *)
Lemma holds_rewind off raw raw' off' ty a a' s d :
  holds off raw ty a s d -> (off' <= 8)%nat ->
  holds off' raw' ty a'
    (set_wrNext (Z.of_nat off')
       (upd_data (fun d => set_isAnythingWritten a' (set_rawWrite raw' d)) s)) [].
Proof.
  intros [H1 H2 H3 H4 H5 H6 H7 H8 H9 H10 H11 H12 H13] Ho.
  constructor; members; try done; cbn [length]; lia.
Qed.

Lemma encapsulate_holds raw ty a s d r :
  holds (base raw) raw ty a s d ->
  exists s' e, encapsulate s r = Ret s' /\ packed raw ty (requestId r) d e /\
    holds 0 raw ty a s' e /\ stop s' = stop s.
Proof.
  intros H. pose proof H as [H1 H2 H3 H4 H5 H6 H7 H8 H9 H10 H11 H12 H13].
  unfold encapsulate. rewrite H5. destruct raw; [by exists s, d|].
  cbn [base] in *. unfold FCGI_HEADER_LEN. destruct d as [|x d].
  { exists (set_wrNext 0 s), []. rewrite H11. split; [done|].
    split; [split; [apply emits_nil|done]|]. split; [|done].
    pose proof (holds_rewind 8 false false 0 ty a a s [] H ltac:(lia)) as Hh.
    clear - Hh H5 H7. destruct s as [? ? ? ? ? ? ? ? []]. members. by subst. }
  set (c := x :: d) in *. assert (0 < Z.of_nat (length c)) as Hc by (cbn; lia).
  replace (wrNext s - 8) with (Z.of_nat (length c)) by lia. rewrite (proj2 (Z.ltb_lt _ _)) by done.
  unfold u32. rewrite Z.mod_small by lia. destruct (AlignInt8_spec (Z.of_nat (length c))) as [Ha Ha'];
    [lia|]. pose proof (aligned_room (Z.of_nat (length c)) (bufflen s - 8) ltac:(lia)) as Hfit.
  rewrite Zminus_mod, H9 in Hfit. specialize (Hfit eq_refl ltac:(lia)).
  set (pad := replicate (Z.to_nat (AlignInt8 (Z.of_nat (length c)) - Z.of_nat (length c))) x00).
  assert (Z.of_nat (length pad) = AlignInt8 (Z.of_nat (length c)) - Z.of_nat (length c)) as Hpad
    by (unfold pad; rewrite length_replicate; lia).
  destruct (put_bytes_holds _ _ _ _ s c pad H) as (s1 & E1 & Hs1 & Hst1); [lia|].
  rewrite E1. cbn [obind]. rewrite <- Hpad, (h_type _ _ _ _ _ _ Hs1).
  rewrite MakeHeader_ok by (unfold FCGI_MAX_LENGTH; lia). cbn [obind].
  set (rec := FRec ty (requestId r) c pad).
  pose proof Hs1 as [_ _ _ _ _ _ _ G8 _ G10 G11 G12 G13]. cbn [base] in *.
  rewrite mem_write_ok by (rewrite ?length_fcgi_header; unfold bufflen in *; lia). cbn [obind].
  change (Z.to_nat 0) with 0%nat. rewrite length_fcgi_header. cbn [take app Nat.add].
  assert (length (encode_record rec) = (8 + length (c ++ pad))%nat) as Hle
    by (rewrite encode_record_length, length_app; cbn [f_content f_padding rec]; lia).
  eexists _, (encode_record rec). split; [reflexivity|]. split; [|split; [|done]].
  { split; [|done]. exists [rec]. unfold encode_records. cbn [map concat]. rewrite !app_nil_r.
    split; [done|]. split; [|done]. apply list.Forall_cons. split; [|by apply list.Forall_nil].
    do 3 (split; [done|]). cbn [f_content f_padding rec]. split; [unfold FCGI_MAX_LENGTH; lia|].
    split; [lia|]. rewrite Hle, Nat2Z.inj_add, length_app, Nat2Z.inj_add, Hpad.
    replace (Z.of_nat 8 + _) with (AlignInt8 (Z.of_nat (length c)) + 1 * 8) by lia.
    by rewrite Z.mod_add. }
  set (b := fcgi_header_bytes (record_header rec) ++ drop 8 (buff (data s1))).
  assert (length b = length (buff (data s1))) as Hb
    by (unfold b, bufflen in *; rewrite length_app, length_drop, length_fcgi_header; lia).
  eapply (holds_set_buff 8 0); [exact Hs1|done|lia|].
  rewrite Hle. change (encode_record rec) with (fcgi_header_bytes (record_header rec) ++ (c ++ pad)).
  unfold b. rewrite drop_0, take_0. cbn [app].
  rewrite <- (length_fcgi_header (record_header rec)) at 1. rewrite take_app_add. by f_equal.
Qed.

Definition nonempty (d : list byte) : bool := match d with [] => false | _ => true end.

Lemma wp_write_buffer raw ty a s e r w (Q : FCGX_Stream * FCGX_Request -> world os -> Prop) :
  holds 0 raw ty a s e -> ready (ipcFd r) (w_ext w) ->
  (forall s' w', holds (base raw) raw ty (a || nonempty e) s' [] -> stop s' = stop s ->
     sent (ipcFd r) e w w' -> Q (s', r) w') ->
  wp (write_buffer s r) w Q.
Proof.
  intros H Hr HQ. pose proof H as [H1 H2 H3 H4 H5 H6 H7 H8 H9 H10 H11 H12 H13]. unfold write_buffer.
  rewrite H11. destruct e as [|x e].
  - change (Z.of_nat (0 + length []) =? 0) with true. cbn [negb]. wp_step. apply HQ; [|by destruct (negb _)|by apply sent_nil].
    pose proof (holds_rewind 0 raw raw (base raw) ty a a s [] H ltac:(destruct raw; cbn; lia)) as Hh.
    cbn [nonempty]. rewrite orb_false_r. clear - Hh H5 H7 H11. cbn [length Nat.add] in H11.
    destruct raw, s as [? ? ? ? ? ? ? ? []]; members; subst; exact Hh.
  - rewrite (proj2 (Z.eqb_neq _ _)) by (cbn; lia). cbn [negb nonempty]. wp_step.
    cbn [drop] in H13. rewrite Nat.add_0_l in *.
    assert (wrNext (upd_data (set_isAnythingWritten true) s) = Z.of_nat (length (x :: e))) as -> by done.
    change (buff (data (upd_data _ s))) with (buff (data s)).
    rewrite mem_read_ok by (unfold bufflen in *; lia). apply wp_lift.
    change (Z.to_nat 0) with 0%nat. rewrite Nat2Z.id, H13. wp_step.
    apply wp_write_it_all; [done|]. intros w1 Hs. cbn [Z.ltb Z.compare]. wp_step.
    apply HQ; [|by destruct (negb _)|done]. rewrite orb_true_r.
    pose proof (holds_rewind 0 raw raw (base raw) ty a true s _ H ltac:(destruct raw; cbn; lia)) as Hh.
    clear - Hh H5.
    destruct raw, s as [? ? ? ? ? ? ? ? []]; members; subst; exact Hh.
Qed.

Lemma wp_empty raw ty a s d r w (Q : FCGX_Stream * FCGX_Request -> world os -> Prop) :
  holds (base raw) raw ty a s d -> ready (ipcFd r) (w_ext w) ->
  (forall s' e w', packed raw ty (requestId r) d e ->
     holds (base raw) raw ty (a || nonempty e) s' [] -> stop s' = stop s ->
     sent (ipcFd r) e w w' -> Q (s', r) w') ->
  wp (EmptyBuffProc None s r) w Q.
Proof.
  intros H Hr HQ. unfold EmptyBuffProc. destruct (encapsulate_holds _ _ _ _ _ r H) as (s1 & e & E & Hp & H1 & Hst).
  rewrite E. wp_step. wp_step. wp_step. wp_step. eapply wp_write_buffer; [done..|].
  intros s' w' H' Hst' Hs. eapply HQ; [done..| |done]. congruence.
Qed.

Lemma nonempty_app d1 d2 : nonempty (d1 ++ d2) = nonempty d1 || nonempty d2.
Proof. by destruct d1. Qed.

(** What a put leaves: some of the bytes of the stream have gone out, the rest is held. *)
Definition put_leaves (raw : bool) (ty : Z) (a : bool) (r : FCGX_Request) (d : list byte)
  (st : Z) (w : world os) (s' : FCGX_Stream) (w' : world os) : Prop :=
  exists gone e d', d = gone ++ d' /\ emits raw ty (requestId r) gone e /\
    holds (base raw) raw ty (a || nonempty e) s' d' /\ stop s' = st /\ sent (ipcFd r) e w w'.

Lemma put_leaves_now raw ty a r d s w :
  holds (base raw) raw ty a s d -> ready (ipcFd r) (w_ext w) ->
  put_leaves raw ty a r d (stop s) w s w.
Proof.
  intros H Hr. exists [], [], d. rewrite orb_false_r. split; [done|]. split; [apply emits_nil|].
  split; [done|]. split; [done|by apply sent_nil].
Qed.

(** Emptying a buffer first. *)
Lemma put_leaves_after raw ty a r d x st e s1 w w1 s' w' :
  packed raw ty (requestId r) d e -> sent (ipcFd r) e w w1 -> stop s1 = st ->
  put_leaves raw ty (a || nonempty e) r x st w1 s' w' ->
  put_leaves raw ty a r (d ++ x) st w s' w'.
Proof.
  intros [He _] Hs Hst (gone & e2 & d' & -> & He2 & Hh & Hst2 & Hs2).
  exists (d ++ gone), (e ++ e2), d'. rewrite app_assoc. split; [done|].
  split; [by apply emits_app|]. rewrite nonempty_app, orb_assoc.
  split; [done|]. split; [done|by eapply sent_trans].
Qed.

Lemma wp_put_loop raw ty r n fuel : forall str moved a s d w
    (Q : Z * (FCGX_Stream * FCGX_Request) -> world os -> Prop),
  holds (base raw) raw ty a s d -> ready (ipcFd r) (w_ext w) ->
  Z.of_nat (length str) = n - moved -> 0 < n - moved ->
  (2 * length str + (if decide (wrNext s = stop s) then 1 else 0) < fuel)%nat ->
  (forall s' w', put_leaves raw ty a r (d ++ str) (stop s) w s' w' -> Q (n, (s', r)) w') ->
  wp (put_loop fuel str n moved s r) w Q.
Proof.
  induction fuel as [|fuel IH]; intros str moved a s d w Q H Hr Hl Hn Hf HQ; [lia|].
  assert (forall str moved a s d w Q, holds (base raw) raw ty a s d -> ready (ipcFd r) (w_ext w) ->
    Z.of_nat (length str) = n - moved -> 0 < n - moved -> (2 * length str < fuel)%nat ->
    (forall s' w', put_leaves raw ty a r (d ++ str) (stop s) w s' w' -> Q (n, (s', r)) w') ->
    wp (if isClosed s || isReader s then ret (-1, (s, r))
        else let* '(s, r) := EmptyBuffProc None s r in put_loop fuel str n moved s r) w Q) as Hnext.
  { clear - IH. intros str moved a s d w Q H Hr Hl Hn Hf HQ.
    rewrite (h_closed _ _ _ _ _ _ H), (h_reader _ _ _ _ _ _ H). cbn [orb]. wp_step.
    eapply wp_empty; [done..|]. intros s1 e w1 Hp H1 Hst Hs. cbv beta iota.
    eapply IH; [done|by eapply sent_ready|done|done| |].
    - rewrite decide_False; [lia|]. pose proof H1 as [_ _ _ _ _ _ _ G8 _ G10 G11 _ _].
      rewrite G11, G8. destruct raw; cbn; lia.
    - intros s' w' Hl'. apply HQ. eapply put_leaves_after; [done..|]. by rewrite <- Hst. }
  cbn [put_loop]. pose proof H as [H1 H2 H3 H4 H5 H6 H7 H8 H9 H10 H11 H12 H13].
  destruct (Z.eqb_spec (wrNext s) (stop s)) as [He|Hne]; cbn [negb].
  - rewrite decide_True in Hf by done. eapply Hnext; [done..|lia|done].
  - rewrite decide_False in Hf by done. set (m := Z.min (n - moved) (stop s - wrNext s)).
    assert (0 < m <= n - moved /\ m <= stop s - wrNext s) as [Hm Hm'] by lia.
    wp_step. rewrite mem_read_ok by lia. wp_step. wp_step. change (Z.to_nat 0) with 0%nat.
    rewrite drop_0. set (x := take (Z.to_nat m) str).
    assert (Z.of_nat (length x) = m) as Hx by (unfold x; rewrite length_take; lia).
    destruct (put_bytes_holds _ _ _ _ s d x H ltac:(lia)) as (s1 & -> & Hs1 & Hst). wp_step.
    assert (d ++ str = (d ++ x) ++ drop (Z.to_nat m) str) as Hstr
      by (unfold x; by rewrite <- app_assoc, take_drop).
    destruct (Z.eqb_spec (moved + m) n) as [Hd|Hd].
    + wp_step. rewrite Hd. apply HQ. rewrite Hstr, drop_ge, app_nil_r by lia. rewrite <- Hst.
      by apply put_leaves_now.
    + eapply Hnext; [exact Hs1|done|rewrite length_drop; lia|lia|rewrite length_drop; lia|].
      intros s' w' Hl'. apply HQ. by rewrite Hstr, <- Hst.
Qed.

Lemma wp_PutStr raw ty a s d r str w (Q : Z * (FCGX_Stream * FCGX_Request) -> world os -> Prop) :
  holds (base raw) raw ty a s d -> ready (ipcFd r) (w_ext w) ->
  (forall s' w', put_leaves raw ty a r (d ++ str) (stop s) w s' w' ->
     Q (Z.of_nat (length str), (s', r)) w') ->
  wp (FCGX_PutStr str (Z.of_nat (length str)) s r) w Q.
Proof.
  intros H Hr HQ. unfold FCGX_PutStr. pose proof (h_room _ _ _ _ _ _ H).
  destruct (Z.leb_spec (Z.of_nat (length str)) (stop s - wrNext s)) as [Hle|Hgt].
  - wp_step. rewrite mem_read_ok by lia. wp_step. wp_step. change (Z.to_nat 0) with 0%nat.
    rewrite drop_0, Nat2Z.id, take_ge by lia.
    destruct (put_bytes_holds _ _ _ _ s d str H ltac:(lia)) as (s1 & -> & Hs1 & Hst). wp_steps.
    apply HQ. rewrite <- Hst. by apply put_leaves_now.
  - eapply wp_put_loop; [done|done|lia|lia| |done]. unfold put_fuel. case_decide; lia.
Qed.

Lemma wp_PutChar raw ty a s d r c w (Q : Z * (FCGX_Stream * FCGX_Request) -> world os -> Prop) :
  holds (base raw) raw ty a s d -> ready (ipcFd r) (w_ext w) ->
  (forall s' w', put_leaves raw ty a r (d ++ [z2b c]) (stop s) w s' w' -> Q (u8 c, (s', r)) w') ->
  wp (FCGX_PutChar c s r) w Q.
Proof.
  intros H Hr HQ. unfold FCGX_PutChar. pose proof (h_room _ _ _ _ _ _ H).
  destruct (Z.eqb_spec (wrNext s) (stop s)) as [He|Hne]; cbn [negb].
  - rewrite (h_closed _ _ _ _ _ _ H), (h_reader _ _ _ _ _ _ H). cbn [orb]. wp_step.
    eapply wp_empty; [done..|]. intros s1 e w1 Hp H1 Hst Hs. cbv beta iota.
    pose proof H1 as [_ _ _ _ _ _ _ G8 _ G10 G11 _ _].
    assert (wrNext s1 < stop s1) by (rewrite G11, G8; destruct raw; cbn; lia).
    rewrite (proj2 (Z.eqb_neq _ _)) by lia. cbn [negb]. wp_step.
    destruct (put_bytes_holds _ _ _ _ s1 [] [z2b c] H1 ltac:(cbn; lia)) as (s2 & -> & Hs2 & Hst2).
    wp_steps. apply HQ. eapply put_leaves_after; [done..|].
    rewrite <- Hst, <- Hst2. apply put_leaves_now; [done|by eapply sent_ready].
  - wp_step. destruct (put_bytes_holds _ _ _ _ s d [z2b c] H ltac:(cbn; lia)) as (s2 & -> & Hs2 & Hst2).
    wp_steps. apply HQ. rewrite <- Hst2. by apply put_leaves_now.
Qed.

Lemma wp_FFlush ty a s d r w (Q : Z * (FCGX_Stream * FCGX_Request) -> world os -> Prop) :
  holds (base false) false ty a s d -> ready (ipcFd r) (w_ext w) ->
  (forall s' w', put_leaves false ty a r d (stop s) w s' w' -> Q (0, (s', r)) w') ->
  wp (FCGX_FFlush s r) w Q.
Proof.
  intros H Hr HQ. unfold FCGX_FFlush. rewrite (h_closed _ _ _ _ _ _ H), (h_reader _ _ _ _ _ _ H).
  cbn [orb]. wp_step. eapply wp_empty; [done..|]. intros s1 e w1 Hp H1 Hst Hs. cbv beta iota.
  rewrite (h_closed _ _ _ _ _ _ H1). wp_step. apply HQ. rewrite <- (app_nil_r d).
  eapply put_leaves_after; [done..|]. rewrite <- Hst. apply put_leaves_now; [done|by eapply sent_ready].
Qed.

(** ** Closing *)

Definition eof_record (ty id : Z) : frec := FRec ty id [] [].

Definition end_record (r : FCGX_Request) : frec :=
  FRec FCGI_END_REQUEST (requestId r) (MakeEndRequestBody (appStatus r) FCGI_REQUEST_COMPLETE) [].

(** The records that close a stream that [wrote] something: the end of the stream, which an
    error stream that was never used does without, and the end of the request after the last
    stream. *)
Definition closing (ty : Z) (r : FCGX_Request) (wrote : bool) : list frec :=
  (if (ty =? FCGI_STDERR) && negb wrote then [] else [eof_record ty (requestId r)]) ++
  (if nWriters r =? 1 then [end_record r] else []).

Lemma wp_put_record ty a s d r rec w (Q : Z * (FCGX_Stream * FCGX_Request) -> world os -> Prop) :
  holds 0 true ty a s d -> ready (ipcFd r) (w_ext w) -> f_padding rec = [] ->
  (forall s' w', put_leaves true ty a r (d ++ encode_record rec) (stop s) w s' w' ->
     Q (Z.of_nat (8 + length (f_content rec)), (s', r)) w') ->
  wp (FCGX_PutStr (fcgi_header_bytes (record_header rec) ++ f_content rec)
        (Z.of_nat (8 + length (f_content rec))) s r) w Q.
Proof.
  intros H Hr Hp HQ.
  assert (fcgi_header_bytes (record_header rec) ++ f_content rec = encode_record rec) as E
    by (unfold encode_record; by rewrite Hp, app_nil_r).
  rewrite E. assert (8 + length (f_content rec) = length (encode_record rec))%nat as El
    by (rewrite encode_record_length, Hp; cbn; lia).
  rewrite El in *. by apply (wp_PutStr true ty a s d).
Qed.

(** After [x] more bytes in raw mode. *)
Lemma put_leaves_raw ty a r d st w s' w' :
  put_leaves true ty a r d st w s' w' ->
  exists gone d' a', d = gone ++ d' /\ holds 0 true ty a' s' d' /\ stop s' = st /\ sent (ipcFd r) gone w w'.
Proof. intros (gone & e & d' & Hd & He & Hh & Hst & Hs). cbn in He. subst e. eauto 10. Qed.

Lemma wp_WriteCloseRecords ty a s e r w (Q : FCGX_Stream * FCGX_Request -> world os -> Prop) :
  holds 0 false ty a s e -> ready (ipcFd r) (w_ext w) ->
  (forall s' a' gone d' w', e ++ encode_records (closing ty r (a || nonempty e)) = gone ++ d' ->
     holds 0 true ty a' s' d' -> sent (ipcFd r) gone w w' -> Q (s', set_nWriters (nWriters r - 1) r) w') ->
  wp (WriteCloseRecords s r) w Q.
Proof.
  intros H Hr HQ. unfold WriteCloseRecords. set (s0 := upd_data (set_rawWrite true) s).
  assert (holds 0 true ty a s0 e) as H0
    by (destruct H as [H1 H2 H3 H4 H5 H6 H7 H8 H9 H10 H11 H12 H13]; constructor; unfold s0; by members).
  pose proof H0 as [_ _ _ _ _ Hty Hwr _ _ _ Hnx _ _]. rewrite Hty, Hwr, Hnx.
  assert ((Z.of_nat (0 + length e) =? 0) = negb (nonempty e)) as -> by (by destruct e).
  assert ((ty =? FCGI_STDERR) && negb (nonempty e) && negb a =
    (ty =? FCGI_STDERR) && negb (a || nonempty e)) as ->
    by (destruct a, (nonempty e), (ty =? FCGI_STDERR); done).
  wp_step. set (need := (ty =? FCGI_STDERR) && negb (a || nonempty e)) in *.
  pose (eofs := if need then [] else [eof_record ty (requestId r)]).
  assert (wp (if negb need
              then let* h := lift (MakeHeader ty (requestId r) 0 0) in
                   let* '(_, sr) := FCGX_PutStr (fcgi_header_bytes h) 8 s0 r in ret sr
              else ret (s0, r)) w (fun sr w1 => exists s1 gone d1 a1, sr = (s1, r) /\
              e ++ encode_records eofs = gone ++ d1 /\ holds 0 true ty a1 s1 d1 /\
              sent (ipcFd r) gone w w1)) as Heof.
  { unfold eofs. destruct need; cbn [negb].
    - wp_step. exists s0, [], e, a. cbn. rewrite app_nil_r. do 3 (split; [done|]). by apply sent_nil.
    - wp_step. change (MakeHeader ty (requestId r) 0 0) with
        (MakeHeader ty (requestId r) (Z.of_nat (length (@nil byte))) (Z.of_nat (length (@nil byte)))).
      rewrite MakeHeader_ok by done. wp_step. wp_step.
      pose proof (wp_put_record ty a s0 e r (eof_record ty (requestId r)) w) as Hp.
      cbn [f_content eof_record] in Hp. rewrite app_nil_r in Hp. apply Hp; [done..|].
      intros s1 w1 Hl. apply put_leaves_raw in Hl as (gone & d1 & a1 & Hd & Hh & _ & Hs). wp_steps.
      exists s1, gone, d1, a1. unfold encode_records. cbn [map concat]. rewrite app_nil_r. done. }
  eapply wp_mono; [exact Heof|]. intros [? ?] w1 (s1 & gone & d1 & a1 & [= -> ->] & Hd & H1 & Hs).
  cbv beta iota. wp_step. unfold closing in HQ. fold need eofs in HQ.
  rewrite encode_records_app, app_assoc, Hd in HQ. destruct (nWriters r =? 1).
  - wp_step. change 8 with (Z.of_nat (length (MakeEndRequestBody (appStatus r) FCGI_REQUEST_COMPLETE))) at 1.
    change 0 with (Z.of_nat (length (@nil byte))) at 1.
    rewrite MakeHeader_ok by done. wp_step. wp_step.
    pose proof (wp_put_record ty a1 s1 d1 r (end_record r) w1) as Hp. apply Hp; [done|by eapply sent_ready|done|].
    intros s2 w2 Hl. apply put_leaves_raw in Hl as (gone2 & d2 & a2 & Hd2 & Hh & _ & Hs2). wp_steps.
    eapply HQ; [|exact Hh|by eapply sent_trans]. unfold encode_records. cbn [map concat].
    by rewrite app_nil_r, <- app_assoc, Hd2, app_assoc.
  - wp_steps. eapply HQ; [|done..]. cbn. by rewrite app_nil_r.
Qed.

Lemma packed_nonempty ty id d e : packed false ty id d e -> nonempty e = nonempty d.
Proof.
  intros [He Hn]. destruct d as [|x d]; [by rewrite Hn|].
  pose proof (emits_written _ _ _ _ _ He ltac:(done)). by destruct e.
Qed.

(** A writer that was closed without an error. *)
Definition closed_writer (s : FCGX_Stream) : Prop :=
  isReader s = false /\ isClosed s = true /\ wasFCloseCalled s = true /\ FCGI_errno s = 0 /\
  stop s = wrNext s.

Lemma wp_FClose ty a s d r w
    (Q : Z * (option FCGX_Stream * FCGX_Request) -> world os -> Prop) :
  holds 8 false ty a s d -> ready (ipcFd r) (w_ext w) ->
  (forall s' rs w', closed_writer s' -> Forall (data_record ty (requestId r)) rs ->
     concat (map f_content rs) = d ->
     sent (ipcFd r) (encode_records (rs ++ closing ty r (a || nonempty d))) w w' ->
     Q (0, (Some s', set_nWriters (nWriters r - 1) r)) w') ->
  wp (FCGX_FClose (Some s) r) w Q.
Proof.
  intros H Hr HQ. unfold FCGX_FClose.
  rewrite (h_fclose _ _ _ _ _ _ H), (h_reader _ _ _ _ _ _ H). cbn [negb]. wp_step. wp_step.
  unfold EmptyBuffProc. destruct (encapsulate_holds false _ _ _ _ r H) as (s1 & e & E & Hp & H1 & Hst).
  rewrite E. wp_step. wp_step. wp_step. eapply wp_WriteCloseRecords; [done..|].
  intros s2 a2 gone d2 w2 Hd H2 Hs. cbv beta iota.
  assert (ready (ipcFd (set_nWriters (nWriters r - 1) r)) (w_ext w2)) as Hr2 by (by eapply sent_ready).
  eapply (wp_write_buffer true); [done..|]. intros s3 w3 H3 Hst3 Hs3. wp_step.
  destruct H3 as [G1 G2 G3 G4 G5 G6 G7 G8 G9 G10 G11 G12 G13].
  wp_step. members. rewrite G1, G4. cbn iota. cbv beta iota.
  assert (nonempty e = nonempty d) as Hne by (by eapply packed_nonempty).
  destruct Hp as [(rs & He & Hrs & Hc) _]. apply (HQ _ rs); [done|done|done|].
  rewrite encode_records_app, <- He, <- Hne. cbn [base] in *. rewrite Hd.
  by eapply sent_trans.
Qed.
