(* ===== verification/FcgiReader.v ===== *)
(** * Reading FastCGI streams (loungeact_fastcgi/fcgiapp.c)

    A reader delivers the contents of the records of one type and one request, in pieces as
    they come from the connection; the headers between them are interpreted as they pass.
    [FillBuffProc] and the functions that read from a stream call each other: the latter take
    the procedure as the C code does, from the stream, and [FillBuffProc] recurses on fuel. *)

From S2P Require Import Prelude FcgiFormat FcgiStream FcgiWriter.
From Stdlib Require Import Init.Byte.

#[local] Open Scope c_scope.

Definition FCGX_UNSUPPORTED_VERSION : Z := -2.
Definition FCGX_PROTOCOL_ERROR : Z := -3.
Definition FCGX_PARAMS_ERROR : Z := -4.
Definition FCGX_CALL_SEQ_ERROR : Z := -5.

(** ** Reading bytes *)

Section get.
Context (fillBuffProc : FCGX_Stream -> FCGX_Request -> run).

(** The bytes at [rdNext], which moves behind them. *)
Definition get_bytes (n : Z) (s : FCGX_Stream) : outcome (list byte * FCGX_Stream) :=
  let+ d := mem_read (buff (data s)) (rdNext s) n in
  Ret (d, set_rdNext (rdNext s + n) s).

Definition next_char (s : FCGX_Stream) (r : FCGX_Request)
  : M os (Z * (FCGX_Stream * FCGX_Request)) :=
  let* '(d, s) := lift (get_bytes 1 s) in ret (b2z (hd x00 d), (s, r)).

Definition FCGX_GetChar (s : FCGX_Stream) (r : FCGX_Request)
  : M os (Z * (FCGX_Stream * FCGX_Request)) :=
  if isClosed s || negb (isReader s) then ret (EOF, (s, r))
  else if negb (rdNext s =? stop s) then next_char s r
  else
    let* '(s, r) := fillBuffProc s r in
    if isClosed s then ret (EOF, (s, r))
    else
      let s := set_stopUnget (rdNext s) s in
      if negb (rdNext s =? stop s) then next_char s r
      else lift (assert_that (isClosed s)) ;;; ret (EOF, (s, r)).

(** The bytes that were stored to [str]; their number is the result. *)
Fixpoint get_loop (fuel : nat) (n : Z) (str : list byte) (s : FCGX_Stream) (r : FCGX_Request)
  : M os (list byte * (FCGX_Stream * FCGX_Request)) :=
  match fuel with
  | O => undef Diverges
  | S fuel =>
      let next str s :=
        if isClosed s || negb (isReader s) then ret (str, (s, r))
        else
          let* '(s, r) := fillBuffProc s r in
          if isClosed s then ret (str, (s, r))
          else get_loop fuel n str (set_stopUnget (rdNext s) s) r in
      if negb (rdNext s =? stop s) then
        let moved := Z.of_nat (length str) in
        let m := Z.min (n - moved) (stop s - rdNext s) in
        let* '(d, s) := lift (get_bytes m s) in
        let str := str ++ d in
        if moved + m =? n then ret (str, (s, r)) else next str s
      else next str s
  end.

Definition FCGX_GetStr (fuel : nat) (n : Z) (s : FCGX_Stream) (r : FCGX_Request)
  : M os (list byte * (FCGX_Stream * FCGX_Request)) :=
  if isClosed s || negb (isReader s) || (n <=? 0) then ret ([], (s, r))
  else if n <=? stop s - rdNext s then
    let* '(d, s) := lift (get_bytes n s) in ret (d, (s, r))
  else get_loop fuel n [] s r.

(** The line and its terminator, or NULL; [k] counts [n] down. *)
Fixpoint line_loop (k : nat) (p : list byte) (s : FCGX_Stream) (r : FCGX_Request)
  : M os (option (list byte) * (FCGX_Stream * FCGX_Request)) :=
  match k with
  | O => ret (Some (p ++ [NUL]), (s, r))
  | S k =>
      let* '(c, (s, r)) := FCGX_GetChar s r in
      if c =? EOF then ret (match p with [] => None | _ => Some (p ++ [NUL]) end, (s, r))
      else
        let p := p ++ [z2b c] in
        if c =? 10 then ret (Some (p ++ [NUL]), (s, r)) else line_loop k p s r
  end.

Definition FCGX_GetLine (n : Z) (s : FCGX_Stream) (r : FCGX_Request)
  : M os (option (list byte) * (FCGX_Stream * FCGX_Request)) :=
  line_loop (Z.to_nat (n - 1)) [] s r.
End get.

Definition FCGX_UnGetChar (c : Z) (s : FCGX_Stream) : outcome (Z * FCGX_Stream) :=
  if (c =? EOF) || isClosed s || negb (isReader s) || (rdNext s =? stopUnget s)
  then Ret (EOF, s)
  else
    let s := set_rdNext (rdNext s - 1) s in
    let+ b := mem_write (buff (data s)) (rdNext s) [z2b c] in
    Ret (c, upd_data (set_buff b) s).

(** ** Parameters *)

Definition SIZEOF_PARAMS : Z := 24.

Definition NewParams {X} (length : Z) : M X Params :=
  let* _ := Malloc SIZEOF_PARAMS in
  let* _ := Malloc (length * 8) in
  lift (if 0 <? length then Ret (MkParams [] length) else Undef OutOfBounds).

Definition FreeParams {X} (p : option Params) : M X unit :=
  match p with
  | None => ret tt
  | Some p => fold_right (fun _ m => free ;;; m) (free ;;; free) (vec p)
  end.

(** The result of [realloc] is not tested. *)
Definition PutParam {X} (p : Params) (nameValue : list byte) : M X Params :=
  if plength p <=? Z.of_nat (length (vec p)) then undef OutOfBounds
  else
    let v := vec p ++ [nameValue] in
    if plength p <=? Z.of_nat (length v) then
      let* n := lift (add_int (plength p) (plength p)) in
      let* q := realloc [] (u64 (n * 8)) in
      match q with
      | None => undef NullDeref
      | Some _ => if n <=? Z.of_nat (length v) then undef OutOfBounds else ret (MkParams v n)
      end
    else ret (MkParams v (plength p)).

(** The first entry that begins with the name and an equals sign: what follows it. *)
Fixpoint FCGX_GetParam (name : list byte) (envp : list (list byte)) : outcome (option (list byte)) :=
  match envp with
  | [] => Ret None
  | p :: envp =>
      let+ s := cstr p in
      if decide (take (length name) s = name) then
        match drop (length name) s with
        | x3d :: value => Ret (Some value)
        | _ => FCGX_GetParam name envp
        end
      else FCGX_GetParam name envp
  end.

Section params.
Context (fillBuffProc : FCGX_Stream -> FCGX_Request -> run) (fuel : nat).

(** A length of one byte, or of four when the high bit of the first is set; [None] is an
    incomplete one. *)
Definition read_length (b : Z) (s : FCGX_Stream) (r : FCGX_Request)
  : M os (option Z * (FCGX_Stream * FCGX_Request)) :=
  if negb (Z.land b 128 =? 0) then
    let* '(l, (s, r)) := FCGX_GetStr fillBuffProc fuel 3 s r in
    match l with
    | [b2; b1; b0] =>
        ret (Some (Z.shiftl (Z.land b 127) 24 + Z.shiftl (b2z b2) 16 + Z.shiftl (b2z b1) 8 + b2z b0),
             (s, r))
    | _ => ret (None, (SetError s FCGX_PARAMS_ERROR, r))
    end
  else ret (Some b, (s, r)).

(** The entry [name=value], once its lengths are known. *)
Definition read_pair (nameLen valueLen : Z) (s : FCGX_Stream) (r : FCGX_Request)
  : M os (option (list byte) * (FCGX_Stream * FCGX_Request)) :=
  let fail s r := free ;;; ret (None, (SetError s FCGX_PARAMS_ERROR, r)) in
  let* n := lift (let+ n := add_int nameLen valueLen in add_int n 2) in
  let* nameValue := Malloc n in
  let* '(name, (s, r)) := FCGX_GetStr fillBuffProc fuel nameLen s r in
  let* nameValue := lift (mem_write nameValue 0 name) in
  if negb (Z.of_nat (length name) =? nameLen) then fail s r
  else
    let* nameValue := lift (mem_write nameValue nameLen [x3d]) in
    let* '(value, (s, r)) := FCGX_GetStr fillBuffProc fuel valueLen s r in
    let* nameValue := lift (mem_write nameValue (nameLen + 1) value) in
    if negb (Z.of_nat (length value) =? valueLen) then fail s r
    else
      let* nameValue := lift (mem_write nameValue (nameLen + valueLen + 1) [NUL]) in
      ret (Some nameValue, (s, r)).

(** [while((nameLen = FCGX_GetChar(stream)) != EOF)]. *)
Fixpoint params_loop (turns : nat) (p : Params) (s : FCGX_Stream) (r : FCGX_Request)
  : M os (Z * Params * (FCGX_Stream * FCGX_Request)) :=
  match turns with
  | O => undef Diverges
  | S turns =>
      let* '(c, (s, r)) := FCGX_GetChar fillBuffProc s r in
      if c =? EOF then ret (0, p, (s, r))
      else
        let* '(nameLen, (s, r)) := read_length c s r in
        match nameLen with
        | None => ret (-1, p, (s, r))
        | Some nameLen =>
            let* '(c, (s, r)) := FCGX_GetChar fillBuffProc s r in
            if c =? EOF then ret (-1, p, (SetError s FCGX_PARAMS_ERROR, r))
            else
              let* '(valueLen, (s, r)) := read_length c s r in
              match valueLen with
              | None => ret (-1, p, (s, r))
              | Some valueLen =>
                  let* '(nv, (s, r)) := read_pair nameLen valueLen s r in
                  match nv with
                  | None => ret (-1, p, (s, r))
                  | Some nv => let* p := PutParam p nv in params_loop turns p s r
                  end
              end
        end
  end.

Definition ReadParams (p : Params) (s : FCGX_Stream) (r : FCGX_Request)
  : M os (Z * Params * (FCGX_Stream * FCGX_Request)) := params_loop fuel p s r.
End params.

(** ** Records that are not the stream's *)

Definition STREAM_RECORD : Z := 0.
Definition SKIP : Z := 1.
Definition BEGIN_RECORD : Z := 2.
Definition MGMT_RECORD : Z := 3.

(** Writes a record; a failure becomes the stream's. *)
Definition respond (d : list byte) (status : Z) (s : FCGX_Stream) (r : FCGX_Request)
  : M os (Z * (FCGX_Stream * FCGX_Request)) :=
  let* rc := write_it_all (ipcFd r) d in
  if rc <? 0 then let* e := OS_Errno in ret (-1, (SetError s e, r)) else ret (status, (s, r)).

(** The value this library gives for a variable. *)
Definition known_value (name : list byte) : option byte :=
  if decide (name = FCGI_MAX_CONNS) then Some x31
  else if decide (name = FCGI_MAX_REQS) then Some x31
  else if decide (name = FCGI_MPXS_CONNS) then Some x30
  else None.

(** What stands before the first equals sign. *)
Fixpoint before_equals (s : list byte) : option (list byte) :=
  match s with
  | [] => None
  | x3d :: _ => Some []
  | c :: s => cons c <$> before_equals s
  end.

(** The name of an entry is cut off where [strchr] finds the equals sign; when it finds none, a
    NULL pointer is written through. *)
Definition entry_name (nameValue : list byte) : outcome (list byte) :=
  let+ s := cstr nameValue in
  match before_equals s with Some name => Ret name | None => Undef NullDeref end.

(** The answers go into a block of 64 bytes on the stack, from [at_]. *)
Fixpoint answer_values (entries : list (list byte)) (response : list byte) (at_ : Z)
  : outcome (list byte * Z) :=
  match entries with
  | [] => Ret (response, at_)
  | e :: entries =>
      let+ name := entry_name e in
      match known_value name with
      | None => answer_values entries response at_
      | Some value =>
          let len := Z.of_nat (length name) in
          let+ response := mem_write response at_ ([z2b len; x01] ++ name ++ [value; NUL]) in
          answer_values entries response (at_ + len + 3)
      end
  end.

Definition stack_block {X} (n : nat) : M X (list byte) := fun w => Ret (junk_block w n, w).

Section process.
Context (fillBuffProc : FCGX_Stream -> FCGX_Request -> run) (fuel : nat).

(** The parameters are not freed when the record is of another type. *)
Definition ProcessManagementRecord (ty : Z) (s : FCGX_Stream) (r : FCGX_Request)
  : M os (Z * (FCGX_Stream * FCGX_Request)) :=
  let* p := NewParams 3 in
  let* response := stack_block 64 in
  if ty =? FCGI_GET_VALUES then
    let* '(_, p, (s, r)) := ReadParams fillBuffProc fuel p s r in
    if negb (FCGX_GetError s =? 0) || negb (contentLen (data s) =? 0) then
      FreeParams (Some p) ;;; ret (FCGX_PROTOCOL_ERROR, (s, r))
    else
      let* '(response, at_) := lift (answer_values (vec p) response FCGI_HEADER_LEN) in
      let len := at_ - FCGI_HEADER_LEN in
      let paddedLen := AlignInt8 (u32 len) in
      let* h := lift (MakeHeader FCGI_GET_VALUES_RESULT FCGI_NULL_REQUEST_ID len (paddedLen - len)) in
      let* response := lift (mem_write response 0 (fcgi_header_bytes h)) in
      FreeParams (Some p) ;;;
      let* d := lift (mem_read response 0 (FCGI_HEADER_LEN + paddedLen)) in
      respond d MGMT_RECORD s r
  else
    let* h := lift (MakeHeader FCGI_UNKNOWN_TYPE FCGI_NULL_REQUEST_ID 8 0) in
    let* response := lift (mem_write response 0 (fcgi_header_bytes h ++ MakeUnknownTypeBody ty)) in
    let* d := lift (mem_read response 0 (FCGI_HEADER_LEN + 8)) in
    respond d MGMT_RECORD s r.

Definition ProcessBeginRecord (id : Z) (s : FCGX_Stream) (r : FCGX_Request)
  : M os (Z * (FCGX_Stream * FCGX_Request)) :=
  if (id =? 0) || negb (contentLen (data s) =? 8) then ret (FCGX_PROTOCOL_ERROR, (s, r))
  else if isBeginProcessed r then
    let* h := lift (MakeHeader FCGI_END_REQUEST id 8 0) in
    respond (fcgi_header_bytes h ++ MakeEndRequestBody 0 FCGI_CANT_MPX_CONN) SKIP s r
  else
    let r := set_requestId id r in
    let* '(body, (s, r)) := FCGX_GetStr fillBuffProc fuel 8 s r in
    match body with
    | roleB1 :: roleB0 :: fl :: [_; _; _; _; _] =>
        let r := set_keepConnection (Z.land (b2z fl) FCGI_KEEP_CONN) r in
        let r := set_role (Z.shiftl (b2z roleB1) 8 + b2z roleB0) r in
        ret (BEGIN_RECORD, (s, set_isBeginProcessed true r))
    | _ => ret (FCGX_PROTOCOL_ERROR, (s, r))
    end.

Definition ProcessHeader (h : FCGI_Header) (s : FCGX_Stream) (r : FCGX_Request)
  : M os (Z * (FCGX_Stream * FCGX_Request)) :=
  if negb (b2z (version h) =? FCGI_VERSION_1) then ret (FCGX_UNSUPPORTED_VERSION, (s, r))
  else
    let id := Z.shiftl (b2z (requestIdB1 h)) 8 + b2z (requestIdB0 h) in
    let len := Z.shiftl (b2z (contentLengthB1 h)) 8 + b2z (contentLengthB0 h) in
    let s := upd_data (fun d => set_paddingLen (b2z (paddingLength h)) (set_contentLen len d)) s in
    let ty := b2z (type h) in
    if ty =? FCGI_BEGIN_REQUEST then ProcessBeginRecord id s r
    else if id =? FCGI_NULL_REQUEST_ID then ProcessManagementRecord ty s r
    else if negb (id =? requestId r) then ret (SKIP, (s, r))
    else if negb (ty =? dtype (data s)) then ret (FCGX_PROTOCOL_ERROR, (s, r))
    else ret (STREAM_RECORD, (s, r)).
End process.

(** ** Filling the buffer *)

(** Whether a part of a turn ends the procedure, begins the next turn, or goes on. *)
Inductive phase :=
| Return (s : FCGX_Stream)
| Again (s : FCGX_Stream)
| Next (s : FCGX_Stream).

(** A read when the buffer is used up. *)
Definition refill (s : FCGX_Stream) (r : FCGX_Request) : M os phase :=
  if rdNext s =? buffStop (data s) then
    let* '(count, d) := OS_Read (ipcFd r) (bufflen s) in
    if count <=? 0 then
      let* e := OS_Errno in
      ret (Return (SetError s (if count =? 0 then FCGX_PROTOCOL_ERROR else e)))
    else
      let* b := lift (mem_write (buff (data s)) 0 d) in
      ret (Next (set_rdNext 0 (upd_data (fun d => set_buffStop count (set_buff b d)) s)))
  else ret (Next s).

(** Content is delivered, or skipped. *)
Definition content (s : FCGX_Stream) : phase :=
  if 0 <? contentLen (data s) then
    let count := Z.min (contentLen (data s)) (buffStop (data s) - rdNext s) in
    let s := upd_data (set_contentLen (contentLen (data s) - count)) s in
    if negb (skip (data s)) then
      Return (set_wrNext (rdNext s + count) (set_stop (rdNext s + count) s))
    else
      let s := set_rdNext (rdNext s + count) s in
      if 0 <? contentLen (data s) then Again s else Next (upd_data (set_skip false) s)
  else Next s.

Definition padding (s : FCGX_Stream) : phase :=
  if 0 <? paddingLen (data s) then
    let count := Z.min (paddingLen (data s)) (buffStop (data s) - rdNext s) in
    let s := set_rdNext (rdNext s + count)
               (upd_data (set_paddingLen (paddingLen (data s) - count)) s) in
    if 0 <? paddingLen (data s) then Again s else Next s
  else Next s.

Definition end_of_record (s : FCGX_Stream) : phase :=
  if eorStop (data s) then Return (set_isClosed true (set_stop (rdNext s) s)) else Next s.

(** The stages of a turn one after the other. *)
Definition then_ (p : phase) (f : FCGX_Stream -> phase) : phase :=
  match p with Next s => f s | _ => p end.

(** What follows the interpretation of a header. *)
Definition after_header (status : Z) (s : FCGX_Stream) : outcome phase :=
  if status =? STREAM_RECORD then
    Ret (if contentLen (data s) =? 0 then
           Return (set_isClosed true (set_wrNext (rdNext s) (set_stop (rdNext s) s)))
         else Again s)
  else if status =? SKIP then Ret (Again (upd_data (set_skip true) s))
  else if status =? BEGIN_RECORD then Ret (Return s)
  else if status =? MGMT_RECORD then Ret (Again s)
  else let+ _ := assert_that (status <? 0) in Ret (Return (SetError s status)).

(** A complete header: the content of its record is read by a recursive call that stops at the
    end of the record. *)
Definition interpret (fill : FCGX_Stream -> FCGX_Request -> run) (fuel : nat) (hdr : list byte)
  (s : FCGX_Stream) (r : FCGX_Request) : M os (phase * FCGX_Request) :=
  let s := set_stop (rdNext s) (upd_data (set_eorStop true) s) in
  let* '(status, (s, r)) := ProcessHeader fill fuel (header_of hdr) s r in
  let s := set_isClosed false (upd_data (set_eorStop false) s) in
  let* p := lift (after_header status s) in
  ret (p, r).

(** The turn of the loop behind the stages: [hdr] are the bytes of the header that have been
    read, [fill] is the loop. *)
Definition turn (fill : list byte -> FCGX_Stream -> FCGX_Request -> run) (fuel : nat)
  (hdr : list byte) (p : phase) (r : FCGX_Request) : run :=
  match p with
  | Return s => ret (s, r)
  | Again s => fill hdr s r
  | Next s =>
      let count := Z.min (8 - Z.of_nat (length hdr)) (buffStop (data s) - rdNext s) in
      let* '(d, s) := lift (get_bytes count s) in
      let hdr := hdr ++ d in
      if Z.of_nat (length hdr) <? 8 then fill hdr s r
      else
        let* '(p, r) := interpret (fill []) fuel hdr s r in
        match p with
        | Return s => ret (s, r)
        | Again s | Next s => fill [] s r
        end
  end.

Fixpoint FillBuffProc (fuel : nat) (hdr : list byte) (s : FCGX_Stream) (r : FCGX_Request) : run :=
  match fuel with
  | O => undef Diverges
  | S fuel =>
      let* p := refill s r in
      turn (FillBuffProc fuel) fuel hdr (then_ (then_ (then_ p content) padding) end_of_record) r
  end.

(** ** Connections that deliver *)

(** The pieces a connection will deliver. *)
Definition feed (fd : Z) (o : os) (ls : list (list byte)) : Prop :=
  exists c, os_fds o !! fd = Some c /\ c_in c = map inr ls /\ Forall (fun l => l <> []) ls /\
    takes_all c.

(** The connection was read, and nothing else happened. *)
Definition rcv (fd : Z) (o o' : os) : Prop :=
  exists c c', os_fds o !! fd = Some c /\ o' = with_fds (<[fd := c']> (os_fds o)) o /\
    c_out c' = c_out c /\ c_takes c' = c_takes c.

Definition received (fd : Z) (w w' : world os) : Prop :=
  heap 0 w w' /\ rcv fd (w_ext w) (w_ext w').

Lemma rcv_trans fd o1 o2 o3 : rcv fd o1 o2 -> rcv fd o2 o3 -> rcv fd o1 o3.
Proof.
  intros (c & c' & H1 & -> & H3 & H4) (d & d' & K1 & -> & K3 & K4).
  cbn in K1. rewrite lookup_insert_eq in K1. injection K1 as <-.
  exists c, d'. split; [done|]. split.
  { unfold with_fds. cbn. by rewrite insert_insert_eq. }
  split; congruence.
Qed.

Lemma received_refl fd w ls : feed fd (w_ext w) ls -> received fd w w.
Proof.
  intros (c & Hc & _). split; [apply heap_refl|]. exists c, c.
  by rewrite insert_id, with_fds_same by done.
Qed.

Lemma received_trans fd w1 w2 w3 : received fd w1 w2 -> received fd w2 w3 -> received fd w1 w3.
Proof.
  intros [Hh H] [Hh' H']. split; [eapply heap_eq; [by eapply heap_trans|lia]|by eapply rcv_trans].
Qed.

(** A read from a connection that still delivers. *)
Lemma wp_OS_Read fd n l ls w (Q : Z * list byte -> world os -> Prop) :
  feed fd (w_ext w) (l :: ls) -> 0 < n ->
  (forall d ls' w', received fd w w' -> feed fd (w_ext w') ls' -> d <> [] ->
     Z.of_nat (length d) <= n -> d ++ concat ls' = concat (l :: ls) ->
     Q (Z.of_nat (length d), d) w') ->
  wp (OS_Read fd n) w Q.
Proof.
  intros (c & Hc & Hin & Hne & Ht) Hn HQ. apply list.Forall_cons in Hne as [Hl Hne].
  unfold OS_Read. cbn [shutdownNow]. wp_step.
  assert (exists d ls' c', conn_read n c = (inr d, c') /\ c_in c' = map inr ls' /\
    c_out c' = c_out c /\ c_takes c' = c_takes c /\ Forall (fun l => l <> []) ls' /\ d <> [] /\
    Z.of_nat (length d) <= n /\ d ++ concat ls' = concat (l :: ls))
    as (d & ls' & c' & E & Hin' & Ho & Htk & Hne' & Hd & Hdl & Hdc).
  { unfold conn_read. rewrite Hin. cbn [map]. destruct (Z.ltb_spec n (Z.of_nat (length l))) as [Hlt|Hge].
    - exists (take (Z.to_nat n) l), (drop (Z.to_nat n) l :: ls). eexists. split; [reflexivity|].
      do 3 (split; [done|]). split; [apply list.Forall_cons; split; [|done]|].
      { intros E. apply (f_equal length) in E. rewrite length_drop in E. cbn in E. lia. }
      split; [intros E; apply (f_equal length) in E; rewrite length_take in E; cbn in E; lia|].
      split; [rewrite length_take; lia|]. cbn [concat]. by rewrite app_assoc, take_drop.
    - exists l, ls. eexists. split; [by rewrite take_ge by lia|]. done. }
  eapply wp_on_fd; [done..|]. intros w' Hh He. wp_step. apply (HQ d ls'); [|exists c'|done..].
  - split; [done|]. by exists c, c'.
  - rewrite He. cbn. rewrite lookup_insert_eq. unfold takes_all in *. by rewrite Htk.
Qed.

(** ** Readers *)

(** A reader that has the bytes [B] in its buffer, [c] bytes of content and [p] of padding
    ahead in its record. *)
Record rstate (ty : Z) (cl eor sk : bool) (c p : Z) (s : FCGX_Stream) (B : list byte) : Prop := {
  r_reader : isReader s = true;
  r_closed : isClosed s = cl;
  r_errno : FCGI_errno s = 0;
  r_type : dtype (data s) = ty;
  r_eor : eorStop (data s) = eor;
  r_skip : skip (data s) = sk;
  r_clen : contentLen (data s) = c;
  r_plen : paddingLen (data s) = p;
  r_cnat : 0 <= c;
  r_pnat : 0 <= p;
  r_next : 0 <= rdNext s;
  r_stop : rdNext s + Z.of_nat (length B) = buffStop (data s);
  r_room : buffStop (data s) <= bufflen s;
  r_len : 32 <= bufflen s;
  r_bytes : take (length B) (drop (Z.to_nat (rdNext s)) (buff (data s))) = B;
}.

Lemma wp_NewReader {X} n ty (w : world X) (Q : FCGX_Stream -> world X -> Prop) :
  mem_ok w -> (forall s w', rstate ty false false false 0 0 s [] -> frame 3 w w' -> Q s w') ->
  wp (NewReader n ty) w Q.
Proof.
  intros Hm HQ. apply wp_NewStream; [done|]. intros b w' Hl F. pose proof (buffer_size_ok n).
  apply HQ; [|done]. constructor; unfold bufflen; cbn -[buffer_size]; rewrite ?Hl; try done; lia.
Qed.

Lemma SetReaderType_ok ty cl eor sk c p s B ty' :
  rstate ty cl eor sk c p s B ->
  exists s', SetReaderType s ty' = Ret s' /\ stop s' = rdNext s' /\
    rstate ty' false false false 0 0 s' B.
Proof.
  intros H. unfold SetReaderType. rewrite (r_reader _ _ _ _ _ _ _ _ H).
  destruct s as [rd ? ? ? ? ? ? ? []]. eexists. split; [reflexivity|]. split; [done|].
  destruct H. unfold bufflen in *. cbn in *. constructor; unfold bufflen; cbn; done.
Qed.

(** Moving on in the buffer. *)
Lemma rstate_advance ty cl eor sk c p s B m :
  rstate ty cl eor sk c p s B -> (m <= length B)%nat ->
  rstate ty cl eor sk c p (set_rdNext (rdNext s + Z.of_nat m) s) (drop m B).
Proof.
  intros [] Hm. constructor; members; try done; [lia|rewrite length_drop; lia|].
  rewrite length_drop. replace (Z.to_nat (rdNext s + Z.of_nat m)) with (Z.to_nat (rdNext s) + m)%nat by lia.
  rewrite <- drop_drop. rewrite <- r_bytes0 at 2.
  rewrite (skipn_firstn_comm m). done.
Qed.

Lemma rstate_contentLen ty cl eor sk c p s B c' :
  rstate ty cl eor sk c p s B -> 0 <= c' ->
  rstate ty cl eor sk c' p (upd_data (set_contentLen c') s) B.
Proof. intros [] Hc. by constructor. Qed.

Lemma rstate_paddingLen ty cl eor sk c p s B p' :
  rstate ty cl eor sk c p s B -> 0 <= p' ->
  rstate ty cl eor sk c p' (upd_data (set_paddingLen p') s) B.
Proof. intros [] Hp. by constructor. Qed.

Lemma rstate_skip ty cl eor sk c p s B sk' :
  rstate ty cl eor sk c p s B -> rstate ty cl eor sk' c p (upd_data (set_skip sk') s) B.
Proof. intros []. by constructor. Qed.

Lemma rstate_eor ty cl eor sk c p s B eor' :
  rstate ty cl eor sk c p s B -> rstate ty cl eor' sk c p (upd_data (set_eorStop eor') s) B.
Proof. intros []. by constructor. Qed.

Lemma rstate_closed ty cl eor sk c p s B cl' :
  rstate ty cl eor sk c p s B -> rstate ty cl' eor sk c p (set_isClosed cl' s) B.
Proof. intros []. by constructor. Qed.

Lemma rstate_stop ty cl eor sk c p s B v :
  rstate ty cl eor sk c p s B -> rstate ty cl eor sk c p (set_stop v s) B.
Proof. intros []. by constructor. Qed.

Lemma rstate_wrNext ty cl eor sk c p s B v :
  rstate ty cl eor sk c p s B -> rstate ty cl eor sk c p (set_wrNext v s) B.
Proof. intros []. by constructor. Qed.

Lemma rstate_stopUnget ty cl eor sk c p s B v :
  rstate ty cl eor sk c p s B -> rstate ty cl eor sk c p (set_stopUnget v s) B.
Proof. intros []. by constructor. Qed.

#[export] Hint Resolve rstate_skip rstate_eor rstate_closed rstate_stop rstate_wrNext
  rstate_stopUnget : cmem.

(** Bytes at hand. *)
Lemma get_bytes_ok ty cl eor sk c p s B m :
  rstate ty cl eor sk c p s B -> (m <= length B)%nat ->
  get_bytes (Z.of_nat m) s = Ret (take m B, set_rdNext (rdNext s + Z.of_nat m) s).
Proof.
  intros [] Hm. unfold get_bytes, bufflen in *. rewrite mem_read_ok by lia. cbn [obind].
  apply (f_equal (take m)) in r_bytes0. rewrite take_take, Nat.min_l in r_bytes0 by lia.
  by rewrite Nat2Z.id, r_bytes0.
Qed.

Lemma wp_refill ty cl eor sk c p s B r ls w (Q : phase -> world os -> Prop) :
  rstate ty cl eor sk c p s B -> feed (ipcFd r) (w_ext w) ls -> B ++ concat ls <> [] ->
  (forall s' B' ls' w', rstate ty cl eor sk c p s' B' -> feed (ipcFd r) (w_ext w') ls' ->
     B' <> [] -> B' ++ concat ls' = B ++ concat ls -> received (ipcFd r) w w' ->
     Q (Next s') w') ->
  wp (refill s r) w Q.
Proof.
  intros H Hf Hne HQ. pose proof H as []. unfold refill.
  destruct (Z.eqb_spec (rdNext s) (buffStop (data s))) as [He|Hn].
  2: { wp_step. apply (HQ s B ls); [done|done| |done|by eapply received_refl]. intros ->.
       cbn in r_stop0. lia. }
  assert (B = []) as -> by (destruct B; [done|cbn in r_stop0; lia]). cbn [app] in *.
  destruct ls as [|l ls]; [done|]. wp_step. eapply wp_OS_Read; [done|unfold bufflen in *; lia|].
  intros d ls' w' Hrec Hf' Hd Hdl Hdc. rewrite (proj2 (Z.leb_gt _ _)) by (destruct d; [done|cbn; lia]).
  wp_step. unfold bufflen in *. rewrite mem_write_ok by lia. wp_step. wp_step.
  change (Z.to_nat 0) with 0%nat. rewrite take_0. cbn [app Nat.add].
  eapply (HQ _ d); [|done..]. constructor; members; try done; rewrite ?length_app, ?length_drop; try lia.
  change (Z.to_nat 0) with 0%nat. rewrite drop_0. by rewrite take_app_length.
Qed.

(** ** A turn of [FillBuffProc] *)

(** Readers that have [m] bytes to give. *)
Definition gives (m : nat) (s : FCGX_Stream) : Prop :=
  stop s = rdNext s + Z.of_nat m /\ wrNext s = stop s.

(** A state with the same members as one that is known. *)
Ltac same_reader H :=
  destruct H; constructor; members; first [assumption | reflexivity | congruence | lia].

Lemma content_gives ty cl eor c p s B :
  rstate ty cl eor false c p s B -> 0 < c -> B <> [] ->
  exists m s', content s = Return s' /\ (0 < m <= length B)%nat /\ Z.of_nat m <= c /\
    rstate ty cl eor false (c - Z.of_nat m) p s' B /\ gives m s'.
Proof.
  intros H Hc HB. pose proof H as []. unfold content. rewrite r_clen0, (proj2 (Z.ltb_lt _ _)) by done.
  assert (0 < length B)%nat by (destruct B; [done|cbn; lia]).
  set (m := Z.min c (buffStop (data s) - rdNext s)).
  exists (Z.to_nat m). eexists. split; [by members; rewrite r_skip0|].
  split; [lia|]. split; [lia|]. rewrite Z2Nat.id by lia.
  split; [constructor; members; try done; lia|]. split; members; lia.
Qed.

Lemma content_none ty cl eor sk p s B : rstate ty cl eor sk 0 p s B -> content s = Next s.
Proof. intros []. unfold content. by rewrite r_clen0. Qed.

Lemma content_skip ty cl eor c p s B :
  rstate ty cl eor true c p s B -> 0 < c ->
  exists s', if c <=? Z.of_nat (length B)
    then content s = Next s' /\ rstate ty cl eor false 0 p s' (drop (Z.to_nat c) B)
    else content s = Again s' /\ rstate ty cl eor true (c - Z.of_nat (length B)) p s' [].
Proof.
  intros H Hc. pose proof H as []. unfold content. rewrite r_clen0, (proj2 (Z.ltb_lt _ _)) by done.
  set (m := Z.min c (buffStop (data s) - rdNext s)).
  pose proof (rstate_advance _ _ _ _ _ _ _ _ (Z.to_nat m) (rstate_contentLen _ _ _ _ _ _ _ _ (c - m) H ltac:(lia)) ltac:(lia)) as Ha.
  rewrite Z2Nat.id in Ha by lia.
  destruct (Z.leb_spec c (Z.of_nat (length B))) as [Hle|Hgt]; eexists.
  - assert (m = c) as Em by lia. split.
    + members. rewrite r_skip0. cbn [negb]. rewrite (proj2 (Z.ltb_ge 0 _)) by lia. reflexivity.
    + rewrite Em, Z.sub_diag in Ha. apply (rstate_skip _ _ _ _ _ _ _ _ false) in Ha. same_reader Ha.
  - assert (m = Z.of_nat (length B)) as Em by lia. split.
    + members. rewrite r_skip0. cbn [negb]. rewrite (proj2 (Z.ltb_lt 0 _)) by lia. reflexivity.
    + rewrite Em, Nat2Z.id, drop_all in Ha. same_reader Ha.
Qed.

Lemma padding_none ty cl eor sk c s B : rstate ty cl eor sk c 0 s B -> padding s = Next s.
Proof. intros []. unfold padding. by rewrite r_plen0. Qed.

Lemma padding_skip ty cl eor sk c p s B :
  rstate ty cl eor sk c p s B -> 0 < p ->
  exists s', if p <=? Z.of_nat (length B)
    then padding s = Next s' /\ rstate ty cl eor sk c 0 s' (drop (Z.to_nat p) B)
    else padding s = Again s' /\ rstate ty cl eor sk c (p - Z.of_nat (length B)) s' [].
Proof.
  intros H Hc. pose proof H as []. unfold padding. rewrite r_plen0, (proj2 (Z.ltb_lt _ _)) by done.
  set (m := Z.min p (buffStop (data s) - rdNext s)).
  pose proof (rstate_advance _ _ _ _ _ _ _ _ (Z.to_nat m) (rstate_paddingLen _ _ _ _ _ _ _ _ (p - m) H ltac:(lia)) ltac:(lia)) as Ha.
  rewrite Z2Nat.id in Ha by lia.
  destruct (Z.leb_spec p (Z.of_nat (length B))) as [Hle|Hgt]; eexists.
  - assert (m = p) as Em by lia. split.
    + members. rewrite (proj2 (Z.ltb_ge 0 _)) by lia. reflexivity.
    + rewrite Em, Z.sub_diag in Ha. same_reader Ha.
  - assert (m = Z.of_nat (length B)) as Em by lia. split.
    + members. rewrite (proj2 (Z.ltb_lt 0 _)) by lia. reflexivity.
    + rewrite Em, Nat2Z.id, drop_all in Ha. same_reader Ha.
Qed.

Lemma end_of_record_none ty cl sk c p s B : rstate ty cl false sk c p s B -> end_of_record s = Next s.
Proof. intros []. unfold end_of_record. by rewrite r_eor0. Qed.

(** ** Headers *)

Definition ends_at (s : FCGX_Stream) : Prop := stop s = rdNext s /\ wrNext s = rdNext s.

(** A stream's own record, or one of another request. *)
Lemma interpret_record fill fuel rec ty sk s B r w :
  frec_ok rec -> f_type rec <> FCGI_BEGIN_REQUEST -> f_id rec <> 0 ->
  (f_id rec = requestId r -> f_type rec = ty) ->
  rstate ty false false sk 0 0 s B ->
  exists p, interpret fill fuel (fcgi_header_bytes (record_header rec)) s r w = Ret ((p, r), w) /\
    if decide (f_id rec = requestId r) then
      match f_content rec with
      | [] => exists s', p = Return s' /\ ends_at s' /\
          rstate ty true false sk 0 (Z.of_nat (length (f_padding rec))) s' B
      | d => exists s', p = Again s' /\
          rstate ty false false sk (Z.of_nat (length d)) (Z.of_nat (length (f_padding rec))) s' B
      end
    else exists s', p = Again s' /\
      rstate ty false false true (Z.of_nat (length (f_content rec)))
        (Z.of_nat (length (f_padding rec))) s' B.
Proof.
  intros (Hty & Hid & Hc & Hp) Hnb Hn0 Hown H. unfold interpret, ProcessHeader.
  rewrite <- (app_nil_r (fcgi_header_bytes _)), fcgi_header_of_bytes. unfold record_header.
  cbn [version type requestIdB1 requestIdB0 contentLengthB1 contentLengthB0 paddingLength].
  change (b2z x01 =? FCGI_VERSION_1) with true. cbn [negb].
  unfold FCGI_MAX_LENGTH in Hc. rewrite !two_bytes, !one_byte by lia.
  rewrite (proj2 (Z.eqb_neq _ FCGI_BEGIN_REQUEST)) by done.
  rewrite (proj2 (Z.eqb_neq _ FCGI_NULL_REQUEST_ID)) by done. members.
  destruct (decide (f_id rec = requestId r)) as [Hi|Hi].
  - rewrite (proj2 (Z.eqb_eq _ _) Hi). cbn [negb].
    rewrite (Hown Hi), (r_type _ _ _ _ _ _ _ _ H), Z.eqb_refl.
    cbn [negb]. unfold bind at 1, ret at 1. members. unfold after_header. rewrite Z.eqb_refl. members.
    destruct (f_content rec) as [|x d]; eexists; (split; [reflexivity|]); eexists;
      (split; [reflexivity|]); [split; [done|]|]; same_reader H.
  - rewrite (proj2 (Z.eqb_neq _ _)) by done. cbn [negb].
    unfold bind at 1, ret at 1. members. unfold after_header.
    change (SKIP =? STREAM_RECORD) with false. change (SKIP =? SKIP) with true. cbv iota.
    eexists. split; [reflexivity|]. eexists. split; [reflexivity|]. same_reader H.
Qed.

(** ** What a connection delivers *)

(** [carries ty id W cont R]: the bytes [W] are records of which those of the stream of type
    [ty] and request [id] carry [cont], up to the header that ends the stream; [R] are the
    bytes behind it.  Records of other requests may stand between them, if they are not
    empty. *)
Inductive carries (ty id : Z) : list byte -> list byte -> list byte -> Prop :=
| carries_end pad R :
    frec_ok (FRec ty id [] pad) ->
    carries ty id (encode_record (FRec ty id [] pad) ++ R) [] (pad ++ R)
| carries_own d pad W cont R :
    frec_ok (FRec ty id d pad) -> d <> [] -> carries ty id W cont R ->
    carries ty id (encode_record (FRec ty id d pad) ++ W) (d ++ cont) R
| carries_other rec W cont R :
    frec_ok rec -> f_content rec <> [] -> f_type rec <> FCGI_BEGIN_REQUEST -> f_id rec <> 0 ->
    f_id rec <> id -> carries ty id W cont R ->
    carries ty id (encode_record rec ++ W) cont R.

Lemma encode_record_app rec W :
  encode_record rec ++ W = fcgi_header_bytes (record_header rec) ++ f_content rec ++ f_padding rec ++ W.
Proof. unfold encode_record. by rewrite <- !app_assoc. Qed.

Lemma carries_length ty id W cont R : carries ty id W cont R -> (8 <= length W)%nat.
Proof. intros []; rewrite encode_record_app, length_app, length_fcgi_header; lia. Qed.

(** What is ahead of a reader in the middle of a record: content, padding, and records; [hdr]
    is the part of the next header it has read. *)
Definition ahead (ty id : Z) (sk : bool) (c p : Z) (hdr U cont R : list byte) : Prop :=
  (exists body pad W cont', U = body ++ pad ++ W /\ Z.of_nat (length body) = c /\
     Z.of_nat (length pad) = p /\ carries ty id (hdr ++ W) cont' R /\
     cont = (if sk then [] else body) ++ cont') /\
  (hdr <> [] -> c = 0 /\ p = 0) /\ (length hdr < 8)%nat /\ (sk = true -> 0 < c).

Lemma ahead_nonempty ty id sk c p hdr U cont R : ahead ty id sk c p hdr U cont R -> U <> [].
Proof.
  intros ((body & pad & W & cont' & -> & _ & _ & Hc & _) & _ & Hh & _) E.
  apply carries_length in Hc. rewrite length_app in Hc.
  apply app_eq_nil in E as [_ E]. apply app_eq_nil in E as [_ ->]. cbn in Hc. lia.
Qed.

(** What a run of [FillBuffProc] leaves a client: bytes to read, or the end of the stream; at
    most [n] bytes are yet to be taken from buffer and connection. *)
Definition filled (n : nat) (ty id : Z) (cont R : list byte) (s : FCGX_Stream)
  (r : FCGX_Request) (w : world os) : Prop :=
  exists B ls c p, feed (ipcFd r) (w_ext w) ls /\ (length (B ++ concat ls) <= n)%nat /\
    ((cont = [] /\ ends_at s /\ rstate ty true false false 0 p s B /\ B ++ concat ls = R) \/
     (exists d B2 cont2, d <> [] /\ B = d ++ B2 /\ cont = d ++ cont2 /\ gives (length d) s /\
        rstate ty false false false c p s B /\
        ahead ty id false c p [] (B2 ++ concat ls) cont2 R)).

(** ** Filling the buffer of a reader *)

Section fill.
Context (ty id : Z) (Hnb : ty <> FCGI_BEGIN_REQUEST) (Hid : id <> 0).

Definition fill_spec (fuel : nat) : Prop :=
  forall n hdr s r B ls sk c p cont R w (Q : FCGX_Stream * FCGX_Request -> world os -> Prop),
  rstate ty false false sk c p s B -> feed (ipcFd r) (w_ext w) ls -> requestId r = id ->
  ahead ty id sk c p hdr (B ++ concat ls) cont R -> (length (B ++ concat ls) < fuel)%nat ->
  (length (B ++ concat ls) <= n)%nat ->
  (forall s' w', received (ipcFd r) w w' -> filled n ty id cont R s' r w' -> Q (s', r) w') ->
  wp (FillBuffProc fuel hdr s r) w Q.

(** Splitting a header off what begins with part of it. *)
Lemma split_header (hdr B L H W : list byte) n :
  hdr ++ B ++ L = H ++ W -> length H = 8%nat -> (length hdr <= 8)%nat ->
  n = Nat.min (8 - length hdr) (length B) ->
  (length (hdr ++ take n B) < 8 /\ n = length B)%nat \/
  (hdr ++ take n B = H /\ drop n B ++ L = W).
Proof.
  intros E HH Hh Hn. destruct (decide (8 - length hdr <= length B)%nat) as [Hle|Hgt].
  - right. assert (n = (8 - length hdr)%nat) as -> by lia.
    assert (hdr ++ take (8 - length hdr) B = H) as E1.
    { apply (f_equal (take 8)) in E. rewrite (take_app_exact H) in E by done. rewrite <- E.
      rewrite take_app_ge by lia. by rewrite take_app_le by lia. }
    split; [done|]. apply (f_equal (drop 8)) in E. rewrite (drop_app_exact H) in E by done.
    rewrite <- E, drop_app_ge by lia. by rewrite drop_app_le by lia.
  - left. split; [|lia]. rewrite length_app, length_take. lia.
Qed.
(** The first record of what a connection carries. *)
Lemma carries_record W cont R :
  carries ty id W cont R ->
  exists rec W', W = fcgi_header_bytes (record_header rec) ++ W' /\ frec_ok rec /\
    f_type rec <> FCGI_BEGIN_REQUEST /\ f_id rec <> 0 /\ (f_id rec = id -> f_type rec = ty) /\
    if decide (f_id rec = id) then
      match f_content rec with
      | [] => cont = [] /\ W' = R
      | d => exists W2 cont2, W' = d ++ f_padding rec ++ W2 /\ carries ty id W2 cont2 R /\
               cont = d ++ cont2
      end
    else f_content rec <> [] /\
      exists W2, W' = f_content rec ++ f_padding rec ++ W2 /\ carries ty id W2 cont R.
Proof.
  intros [pad R' Hok|d pad W' cont' R' Hok Hd Hc|rec W' cont' R' Hok Hd Hb H0 Hi Hc].
  - exists (FRec ty id [] pad), (pad ++ R'). rewrite encode_record_app. do 5 (split; [done|]).
    cbn [f_id f_content]. by rewrite decide_True.
  - exists (FRec ty id d pad), (d ++ pad ++ W'). rewrite encode_record_app. do 5 (split; [done|]).
    cbn [f_id f_content f_padding]. rewrite decide_True by done. destruct d; [done|eauto].
  - exists rec, (f_content rec ++ f_padding rec ++ W'). rewrite encode_record_app.
    do 4 (split; [done|]). split; [by intros ?|]. rewrite decide_False by done. eauto.
Qed.

Lemma wp_header_stage fuel k hdr s r B ls cont R w
    (Q : FCGX_Stream * FCGX_Request -> world os -> Prop) :
  fill_spec fuel -> rstate ty false false false 0 0 s B -> feed (ipcFd r) (w_ext w) ls ->
  requestId r = id -> carries ty id (hdr ++ B ++ concat ls) cont R -> (length hdr < 8)%nat ->
  (length (B ++ concat ls) <= fuel)%nat -> B <> [] \/ (length (B ++ concat ls) < fuel)%nat ->
  (length (B ++ concat ls) <= k)%nat ->
  (forall s' w', received (ipcFd r) w w' -> filled k ty id cont R s' r w' -> Q (s', r) w') ->
  wp (turn (FillBuffProc fuel) fuel hdr (Next s) r) w Q.
Proof.
  intros IH H Hf Hr Hc Hh Hlen Hpr Hk HQ. unfold turn.
  pose proof (r_stop _ _ _ _ _ _ _ _ H) as Hst.
  set (n := Nat.min (8 - length hdr) (length B)).
  assert (Z.min (8 - Z.of_nat (length hdr)) (buffStop (data s) - rdNext s) = Z.of_nat n) as -> by lia.
  wp_step. rewrite (get_bytes_ok _ _ _ _ _ _ _ _ n H) by lia. wp_step.
  pose proof (rstate_advance _ _ _ _ _ _ _ _ n H ltac:(lia)) as H1.
  set (s1 := set_rdNext _ s) in *. pose proof Hc as Hc0.
  apply carries_record in Hc as (rec & W' & E & Hok & Hb & H0 & Hown & Hcase).
  destruct (split_header _ _ _ _ _ n E (length_fcgi_header _) ltac:(lia) ltac:(lia))
    as [[Hshort Hn]|[Hhdr HW]].
  - rewrite (proj2 (Z.ltb_lt _ _)) by lia. rewrite Hn, drop_all in H1.
    assert (drop (length B) B = []) as Hd by apply drop_all.
    eapply (IH k _ _ _ [] ls false 0 0 cont R); [exact H1|done|done| |cbn [app]|cbn [app]; rewrite length_app in Hk; lia|done].
    + split; [|split; [done|split; [done|done]]].
      exists [], [], (concat ls), cont. do 3 (split; [done|]). split; [|done].
      rewrite Hn, firstn_all, <- app_assoc. exact Hc0.
    + rewrite length_app in Hlen, Hpr. destruct Hpr as [HB|Hpr]; [|lia].
      destruct B; [done|cbn in Hlen; lia].
  - rewrite Hhdr, length_fcgi_header. cbn [Z.of_nat Z.ltb]. change (Z.of_nat 8 <? 8) with false.
    cbv iota. wp_step.
    destruct (interpret_record (FillBuffProc fuel []) fuel rec ty false s1 (drop n B) r w Hok Hb H0)
      as (p & Ei & Hp); [by rewrite Hr|done|].
    eapply wp_eq; [exact Ei|]. cbv beta iota.
    assert (length (drop n B ++ concat ls) < fuel /\ length (drop n B ++ concat ls) <= k)%nat
      as [Hlen' Hk'].
    { apply (f_equal length) in E. rewrite HW, <- HW in *. rewrite !length_app, length_fcgi_header in E.
      rewrite !length_app in *. lia. }
    rewrite Hr in Hp. destruct (decide (f_id rec = id)) as [Hi|Hi].
    + destruct (f_content rec) as [|x d] eqn:Ed.
      * destruct Hcase as [-> <-]. destruct Hp as (s2 & -> & He & H2). wp_step.
        apply HQ; [by eapply received_refl|]. exists (drop n B), ls, 0, (Z.of_nat (length (f_padding rec))).
        split; [done|]. split; [lia|]. left. done.
      * destruct Hcase as (W2 & cont2 & HW' & Hc2 & ->). destruct Hp as (s2 & -> & H2).
        eapply IH; [exact H2|done|done| |exact Hlen'|exact Hk'|done].
        split; [|split; [done|split; [cbn; lia|done]]].
        exists (x :: d), (f_padding rec), W2, cont2. rewrite HW, HW'. done.
    + destruct Hcase as (Hd & W2 & HW' & Hc2). destruct Hp as (s2 & -> & H2).
      eapply IH; [exact H2|done|done| |exact Hlen'|exact Hk'|done].
      split; [|split; [done|split; [cbn; lia|intros _; destruct (f_content rec); [done|cbn; lia]]]].
      exists (f_content rec), (f_padding rec), W2, cont. rewrite HW, HW'. done.
Qed.
(** Taking a part of the content or the padding off what is ahead. *)
Lemma app_split_at (B L X Y : list byte) m :
  B ++ L = X ++ Y -> (m <= length B)%nat -> (m <= length X)%nat ->
  X = take m B ++ drop m X /\ drop m B ++ L = drop m X ++ Y.
Proof.
  intros E HB HX. assert (take m B = take m X) as Et.
  { apply (f_equal (take m)) in E. by rewrite !take_app_le in E by lia. }
  split; [by rewrite Et, take_drop|].
  apply (f_equal (drop m)) in E. by rewrite !drop_app_le in E by lia.
Qed.

Lemma wp_padding_stage fuel k hdr s r B ls p cont R w
    (Q : FCGX_Stream * FCGX_Request -> world os -> Prop) :
  fill_spec fuel -> rstate ty false false false 0 p s B -> feed (ipcFd r) (w_ext w) ls ->
  requestId r = id -> ahead ty id false 0 p hdr (B ++ concat ls) cont R ->
  (length (B ++ concat ls) <= fuel)%nat -> B <> [] \/ (length (B ++ concat ls) < fuel)%nat ->
  (length (B ++ concat ls) <= k)%nat ->
  (forall s' w', received (ipcFd r) w w' -> filled k ty id cont R s' r w' -> Q (s', r) w') ->
  wp (turn (FillBuffProc fuel) fuel hdr (then_ (padding s) end_of_record) r) w Q.
Proof.
  intros IH H Hf Hr ((body & pad & W & cont' & HU & Hbody & Hpad & Hc & ->) & Hz & Hh & _) Hlen Hpr Hk HQ.
  assert (body = []) as -> by (destruct body; [done|cbn in Hbody; lia]). cbn [app] in *.
  pose proof (r_pnat _ _ _ _ _ _ _ _ H) as Hp0. destruct (decide (p = 0)) as [->|Hp].
  - assert (pad = []) as -> by (destruct pad; [done|cbn in Hpad; lia]). cbn [app] in HU.
    rewrite (padding_none _ _ _ _ _ _ _ H). cbn [then_]. rewrite (end_of_record_none _ _ _ _ _ _ _ H).
    eapply wp_header_stage; [done..|by rewrite HU|done|done|done|exact Hk|done].
  - assert (hdr = []) as -> by (destruct hdr; [done|destruct Hz; [done|lia]]).
    destruct (padding_skip _ _ _ _ _ _ _ _ H ltac:(lia)) as (s' & Hs).
    destruct (Z.leb_spec p (Z.of_nat (length B))) as [Hle|Hgt]; destruct Hs as [-> H1]; cbn [then_].
    + rewrite (end_of_record_none _ _ _ _ _ _ _ H1).
      destruct (app_split_at _ _ _ _ (Z.to_nat p) HU) as [_ HW]; [lia..|].
      rewrite (drop_ge pad) in HW by lia. cbn [app] in HW.
      assert (length (drop (Z.to_nat p) B ++ concat ls) < fuel /\
        length (drop (Z.to_nat p) B ++ concat ls) <= k)%nat as [Hl Hk']
        by (rewrite length_app, length_drop in *; lia).
      eapply wp_header_stage; [done..|by rewrite HW|done|lia|by right|exact Hk'|done].
    + cbn [turn]. destruct (app_split_at _ _ _ _ (length B) HU) as [_ HW]; [lia..|].
      rewrite drop_all in HW. cbn [app] in HW.
      eapply (IH k _ _ _ [] ls); [exact H1|done|done| |cbn [app]|cbn [app]; rewrite length_app in Hk; lia|done].
      * split; [|split; [done|split; [done|done]]].
        exists [], (drop (length B) pad), W, cont'. split; [done|]. split; [done|].
        split; [rewrite length_drop; lia|done].
      * rewrite length_app in Hlen, Hpr. destruct Hpr as [HB|Hpr]; [|lia].
        destruct B; [done|cbn in Hlen; lia].
Qed.

Lemma wp_fill fuel : fill_spec fuel.
Proof.
  induction fuel as [|fuel IH]; intros n hdr s r B ls sk c p cont R w Q H Hf Hr Ha Hlen Hk HQ; [lia|].
  cbn [FillBuffProc]. wp_step. eapply wp_refill; [done|done|by eapply ahead_nonempty|].
  clear s H Hf. intros s B' ls' w1 H Hf HB HU' Hrec. rewrite <- HU' in Ha, Hlen, Hk. clear B ls HU'.
  assert (forall s' w', received (ipcFd r) w1 w' -> filled n ty id cont R s' r w' -> Q (s', r) w') as HQ1
    by (intros s' w' Hrec'; apply HQ; by eapply received_trans).
  cbn [then_]. pose proof Ha as ((body & pad & W & cont' & HU & Hbody & Hpad & Hc & Hcont) & Hz & Hh & Hsk).
  pose proof (r_cnat _ _ _ _ _ _ _ _ H) as Hc0. destruct (decide (c = 0)) as [->|Hcn].
  - destruct sk; [specialize (Hsk eq_refl); lia|].
    rewrite (content_none _ _ _ _ _ _ _ H). cbn [then_].
    eapply wp_padding_stage; [done..|lia|by left|exact Hk|done].
  - assert (hdr = []) as -> by (destruct hdr; [done|destruct Hz; [done|lia]]). destruct sk.
    + destruct (content_skip _ _ _ _ _ _ _ H ltac:(lia)) as (s' & Hs).
      destruct (Z.leb_spec c (Z.of_nat (length B'))) as [Hle|Hgt]; destruct Hs as [-> H1]; cbn [then_].
      * destruct (app_split_at _ _ _ _ (Z.to_nat c) HU) as [_ HW]; [lia..|].
        rewrite (drop_ge body) in HW by lia. cbn [app] in HW.
        assert (length (drop (Z.to_nat c) B' ++ concat ls') < fuel /\
          length (drop (Z.to_nat c) B' ++ concat ls') <= n)%nat as [Hl Hk']
          by (rewrite length_app, length_drop in *; lia).
        eapply wp_padding_stage; [done|done|done|done| |lia|by right|exact Hk'|done].
        split; [|split; [done|split; [done|done]]]. exists [], pad, W, cont'. done.
      * cbn [turn]. destruct (app_split_at _ _ _ _ (length B') HU) as [_ HW]; [lia..|].
        rewrite drop_all in HW. cbn [app] in HW.
        eapply (IH n _ _ _ [] ls'); [exact H1|done|done| |cbn [app]|cbn [app]; rewrite length_app in Hk; lia|done].
        { split; [|split; [done|split; [done|intros _; lia]]].
          exists (drop (length B') body), pad, W, cont'. split; [done|].
          split; [rewrite length_drop; lia|done]. }
        rewrite length_app in Hlen. destruct B'; [done|cbn in Hlen; lia].
    + destruct (content_gives _ _ _ _ _ _ _ H ltac:(lia) HB) as (m & s' & -> & Hm & Hmc & H1 & Hg).
      cbn [then_ turn]. wp_step. apply HQ1; [by eapply received_refl|].
      destruct (app_split_at _ _ _ _ m HU) as [Hb HW]; [lia..|].
      exists B', ls', (c - Z.of_nat m), p. split; [done|]. split; [done|]. right.
      exists (take m B'), (drop m B'), (drop m body ++ cont').
      split; [intros E; apply (f_equal length) in E; rewrite length_take in E; cbn in E; lia|].
      split; [by rewrite take_drop|]. split; [by rewrite Hcont, Hb, <- app_assoc at 1|].
      split; [rewrite length_take, Nat.min_l by lia; done|]. split; [done|].
      split; [|split; [done|split; [cbn; lia|done]]].
      exists (drop m body), pad, W, cont'. split; [done|]. split; [rewrite length_drop; lia|done].
Qed.
End fill.

(** ** Reading from a source of bytes *)

(** [I cont s r w]: the open stream [s] still delivers [cont]; [E s r w]: it has ended.  What
    the functions that read need of the procedure that fills the buffer. *)
Record source (fill : FCGX_Stream -> FCGX_Request -> run) (gas : nat)
  (I : list byte -> FCGX_Stream -> FCGX_Request -> world os -> Prop)
  (E : FCGX_Stream -> FCGX_Request -> world os -> Prop) : Prop := {
  src_open cont s r w : I cont s r w -> isReader s = true /\ isClosed s = false;
  src_bytes cont s r w : I cont s r w -> exists d cont2, cont = d ++ cont2 /\
    stop s = rdNext s + Z.of_nat (length d) /\
    forall m, (m <= length d)%nat ->
      get_bytes (Z.of_nat m) s = Ret (take m d, set_rdNext (rdNext s + Z.of_nat m) s) /\
      I (drop m cont) (set_rdNext (rdNext s + Z.of_nat m) s) r w;
  src_fill cont s r w : I cont s r w -> rdNext s = stop s ->
    wp (fill s r) w (fun '(s', r') w' => r' = r /\ heap 0 w w' /\
      match cont with
      | [] => isClosed s' = true /\ E s' r w'
      | _ => I cont s' r w' /\ rdNext s' <> stop s'
      end);
  src_unget cont s r w v : I cont s r w -> I cont (set_stopUnget v s) r w;
  src_frame cont s r d w w' : I cont s r w -> frame d w w' -> I cont s r w';
  src_end_frame s r d w w' : E s r w -> frame d w w' -> E s r w';
  src_gas cont s r w : I cont s r w -> (S (length cont) < gas)%nat;
}.

Section source.
Context {fill : FCGX_Stream -> FCGX_Request -> run} {gas : nat}
  {I : list byte -> FCGX_Stream -> FCGX_Request -> world os -> Prop}
  {E : FCGX_Stream -> FCGX_Request -> world os -> Prop} (src : source fill gas I E).

Lemma wp_next_char x cont s r w (Q : Z * (FCGX_Stream * FCGX_Request) -> world os -> Prop) :
  I (x :: cont) s r w -> rdNext s <> stop s ->
  (forall s', I cont s' r w -> Q (b2z x, (s', r)) w) -> wp (next_char s r) w Q.
Proof.
  intros H Hn HQ. destruct (src_bytes _ _ _ _ src _ _ _ _ H) as (d & cont2 & Hd & Hst & Hb).
  destruct d as [|y d]; [cbn in Hst; lia|]. injection Hd as <- Hd.
  destruct (Hb 1%nat ltac:(cbn; lia)) as [Hg H1]. unfold next_char. wp_step.
  change 1 with (Z.of_nat 1). rewrite Hg. wp_steps. by apply HQ.
Qed.

Lemma wp_GetChar cont s r w (Q : Z * (FCGX_Stream * FCGX_Request) -> world os -> Prop) :
  I cont s r w ->
  (forall s' w', heap 0 w w' ->
     match cont with
     | [] => isClosed s' = true -> E s' r w' -> Q (EOF, (s', r)) w'
     | x :: cont' => I cont' s' r w' -> Q (b2z x, (s', r)) w'
     end) ->
  wp (FCGX_GetChar fill s r) w Q.
Proof.
  intros H HQ. unfold FCGX_GetChar. destruct (src_open _ _ _ _ src _ _ _ _ H) as [-> ->]. cbn [negb orb].
  destruct (Z.eqb_spec (rdNext s) (stop s)) as [He|Hn]; cbn [negb].
  - wp_step. eapply wp_mono; [by eapply (src_fill _ _ _ _ src)|].
    intros [s1 r1] w1 (-> & Hh & Hr). destruct cont as [|x cont].
    + destruct Hr as [Hc HE]. rewrite Hc. wp_step. by apply HQ.
    + destruct Hr as [H1 Hne]. destruct (src_open _ _ _ _ src _ _ _ _ H1) as [_ Hc]. rewrite Hc.
      change (rdNext (set_stopUnget _ s1)) with (rdNext s1).
      change (stop (set_stopUnget _ s1)) with (stop s1).
      rewrite (proj2 (Z.eqb_neq _ _)) by done. cbn [negb].
      eapply wp_next_char; [by apply (src_unget _ _ _ _ src)|done|]. intros s2 H2. by apply HQ.
  - destruct cont as [|x cont].
    + destruct (src_bytes _ _ _ _ src _ _ _ _ H) as (d & cont2 & Hd & Hst & _).
      symmetry in Hd. apply app_eq_nil in Hd as [-> _]. cbn in Hst. lia.
    + eapply wp_next_char; [done|done|]. intros s2 H2. apply HQ; [apply heap_refl|done].
Qed.

(** What [FCGX_GetStr] stores when [n] bytes are asked for. *)
Definition got (cont : list byte) (n : nat) (s : FCGX_Stream) (r : FCGX_Request) (w : world os) : Prop :=
  if decide (n <= length cont)%nat then I (drop n cont) s r w else isClosed s = true /\ E s r w.

Lemma wp_get_loop n fuel : forall str cont s r w
    (Q : list byte * (FCGX_Stream * FCGX_Request) -> world os -> Prop),
  I cont s r w -> (length str < n)%nat ->
  (length cont + (if decide (rdNext s = stop s) then 1 else 0) < fuel)%nat ->
  (forall s' w', heap 0 w w' -> got cont (n - length str) s' r w' ->
     Q (str ++ take (n - length str) cont, (s', r)) w') ->
  wp (get_loop fill fuel (Z.of_nat n) str s r) w Q.
Proof.
  induction fuel as [|fuel IH]; intros str cont s r w Q H Hn Hf HQ; [lia|]. cbn [get_loop].
  assert (forall str cont s w, I cont s r w -> (length str < n)%nat -> rdNext s = stop s ->
    (length cont < fuel)%nat ->
    (forall s' w', heap 0 w w' -> got cont (n - length str) s' r w' ->
       Q (str ++ take (n - length str) cont, (s', r)) w') ->
    wp (if isClosed s || negb (isReader s) then ret (str, (s, r))
        else let* '(s, r) := fill s r in
             if isClosed s then ret (str, (s, r))
             else get_loop fill fuel (Z.of_nat n) str (set_stopUnget (rdNext s) s) r) w Q) as Hnext.
  { clear str cont s w H Hn Hf HQ. intros str cont s w H Hn He Hf HQ.
    destruct (src_open _ _ _ _ src _ _ _ _ H) as [-> ->]. cbn [negb orb]. wp_step.
    eapply wp_mono; [by eapply (src_fill _ _ _ _ src)|]. intros [s1 r1] w1 (-> & Hh & Hr).
    destruct cont as [|x cont].
    - destruct Hr as [Hc HE]. rewrite Hc. wp_step. rewrite <- (app_nil_r str).
      specialize (HQ s1 w1 Hh). rewrite take_nil in HQ. apply HQ. unfold got. by rewrite decide_False by (cbn; lia).
    - destruct Hr as [H1 Hne]. destruct (src_open _ _ _ _ src _ _ _ _ H1) as [_ Hc]. rewrite Hc.
      eapply IH; [by apply (src_unget _ _ _ _ src)|done| |].
      + rewrite decide_False by done. lia.
      + intros s' w' Hh'. apply HQ. eapply heap_eq; [by eapply heap_trans|lia]. }
  destruct (Z.eqb_spec (rdNext s) (stop s)) as [He|Hne]; cbn [negb].
  - rewrite decide_True in Hf by done. apply (Hnext _ cont); [done..|lia|done].
  - rewrite decide_False in Hf by done.
    destruct (src_bytes _ _ _ _ src _ _ _ _ H) as (d & cont2 & -> & Hst & Hb).
    assert (0 < length d)%nat as Hd by lia.
    set (m := Nat.min (n - length str) (length d)).
    assert (Z.min (Z.of_nat n - Z.of_nat (length str)) (stop s - rdNext s) = Z.of_nat m) as -> by lia.
    destruct (Hb m ltac:(lia)) as [Hg H1]. wp_step. rewrite Hg. wp_step.
    destruct (Z.eqb_spec (Z.of_nat (length str) + Z.of_nat m) (Z.of_nat n)) as [Hd'|Hd'].
    + wp_step. assert (m = (n - length str)%nat) as Em by lia. rewrite Em in *.
      rewrite <- (take_app_le d cont2) by lia. apply HQ; [apply heap_refl|].
      unfold got. rewrite length_app, decide_True by lia. done.
    + assert (m = length d) as Em by lia. rewrite Em, firstn_all in *.
      rewrite drop_app_length in H1. eapply (Hnext _ cont2); [exact H1|rewrite length_app; lia| | |].
      * members. lia.
      * rewrite length_app in Hf. lia.
      * intros s' w' Hh Hgot. rewrite length_app in Hgot |- *.
        replace (n - (length str + length d))%nat with (n - length str - length d)%nat in * by lia.
        specialize (HQ s' w' Hh). rewrite take_app_ge, app_assoc in HQ by lia. apply HQ.
        unfold got in *. rewrite length_app, drop_app_ge by lia.
        repeat case_decide; try done; lia.
Qed.

Lemma wp_GetStr n cont s r w
    (Q : list byte * (FCGX_Stream * FCGX_Request) -> world os -> Prop) :
  I cont s r w ->
  (forall s' w', heap 0 w w' -> got cont n s' r w' -> Q (take n cont, (s', r)) w') ->
  wp (FCGX_GetStr fill gas (Z.of_nat n) s r) w Q.
Proof.
  intros H HQ. unfold FCGX_GetStr. destruct (src_open _ _ _ _ src _ _ _ _ H) as [-> ->]. cbn [negb orb].
  destruct (Z.leb_spec (Z.of_nat n) 0) as [Hn|Hn].
  { assert (n = 0%nat) as -> by lia. wp_step. apply HQ; [apply heap_refl|].
    unfold got. rewrite decide_True by lia. done. }
  destruct (Z.leb_spec (Z.of_nat n) (stop s - rdNext s)) as [Hle|Hgt].
  - destruct (src_bytes _ _ _ _ src _ _ _ _ H) as (d & cont2 & -> & Hst & Hb).
    destruct (Hb n ltac:(lia)) as [Hg H1]. wp_step. rewrite Hg. wp_steps.
    rewrite <- (take_app_le d cont2) by lia. apply HQ; [apply heap_refl|].
    unfold got. rewrite length_app, decide_True by lia. done.
  - pose proof (src_gas _ _ _ _ src _ _ _ _ H). apply (wp_get_loop n gas [] cont); [done|cbn; lia| |].
    + case_decide; lia.
    + cbn [length app]. intros s' w'. rewrite Nat.sub_0_r. apply HQ.
Qed.
End source.

(** ** A stream as a source *)

Section reading.
Context (fuel : nat) (ty id : Z) (R : list byte) (o0 : os).
Hypotheses (Hnb : ty <> FCGI_BEGIN_REQUEST) (Hid : id <> 0).

(** The reader has [cont] ahead, some of it in its buffer; [R] stands behind the end of the
    stream.  Since [o0], the connection has only been read. *)
Definition reading (cont : list byte) (s : FCGX_Stream) (r : FCGX_Request) (w : world os) : Prop :=
  requestId r = id /\ rcv (ipcFd r) o0 (w_ext w) /\
  exists d B ls c p cont2, feed (ipcFd r) (w_ext w) ls /\ cont = d ++ cont2 /\
    rstate ty false false false c p s (d ++ B) /\ stop s = rdNext s + Z.of_nat (length d) /\
    ahead ty id false c p [] (B ++ concat ls) cont2 R /\
    (S (length (d ++ B ++ concat ls)) < fuel)%nat.

Definition ended (s : FCGX_Stream) (r : FCGX_Request) (w : world os) : Prop :=
  requestId r = id /\ rcv (ipcFd r) o0 (w_ext w) /\
  exists B ls p, feed (ipcFd r) (w_ext w) ls /\ ends_at s /\
    rstate ty true false false 0 p s B /\ B ++ concat ls = R /\ (S (length R) < fuel)%nat.

Lemma carries_cont_length W cont R' : carries ty id W cont R' -> (length cont <= length W)%nat.
Proof.
  induction 1; rewrite ?encode_record_app, ?length_app; cbn [length f_content f_padding] in *; lia.
Qed.

Lemma ahead_length c p U cont :
  ahead ty id false c p [] U cont R -> (length cont <= length U)%nat.
Proof.
  intros ((body & pad & W & cont' & -> & _ & _ & Hc & ->) & _).
  apply carries_cont_length in Hc. rewrite !length_app. cbn [app] in Hc. lia.
Qed.

Lemma feed_frame fd d w w' ls : feed fd (w_ext w) ls -> frame d w w' -> feed fd (w_ext w') ls.
Proof. intros Hf Hfr. by rewrite (frame_ext _ _ _ Hfr). Qed.

Lemma reading_source : source (FillBuffProc fuel []) fuel reading ended.
Proof.
  split.
  - intros cont s r w (_ & _ & d & B & ls & c & p & cont2 & _ & _ & [] & _). done.
  - intros cont s r w (Hr & Hrc & d & B & ls & c & p & cont2 & Hf & -> & H & Hst & Ha & Hl).
    exists d, cont2. split; [done|]. split; [done|]. intros m Hm. split.
    { rewrite (get_bytes_ok _ _ _ _ _ _ _ _ m H) by (rewrite length_app; lia). by rewrite take_app_le. }
    split; [done|]. split; [done|]. exists (drop m d), B, ls, c, p, cont2.
    split; [done|]. split; [by rewrite drop_app_le|]. split.
    { rewrite <- drop_app_le by done. apply rstate_advance; [done|]. rewrite length_app. lia. }
    split; [members; rewrite length_drop; lia|]. split; [done|]. rewrite length_app, length_drop in *. lia.
  - intros cont s r w (Hr & Hrc & d & B & ls & c & p & cont2 & Hf & -> & H & Hst & Ha & Hl) He.
    assert (d = []) as -> by (destruct d; [done|cbn in Hst; lia]). cbn [app] in *.
    eapply (wp_fill ty id Hnb Hid fuel (length (B ++ concat ls)));
      [done|done|done|done|lia|lia|].
    intros s' w' [Hh Hrec] (B' & ls' & c' & p' & Hf' & Hl' & Hcase). split; [done|]. split; [done|].
    assert (rcv (ipcFd r) o0 (w_ext w')) as Hrc' by (by eapply rcv_trans).
    destruct Hcase as [(-> & Hend & H' & HR)|(d' & B2 & cont3 & Hd' & -> & -> & [Hg1 Hg2] & H' & Ha')].
    + split; [apply H'|]. split; [done|]. split; [done|]. exists B', ls', p'.
      split; [done|]. split; [done|]. split; [done|]. split; [done|]. rewrite <- HR. lia.
    + destruct d' as [|x d']; [done|]. cbn [app]. split.
      * split; [done|]. split; [done|]. exists (x :: d'), B2, ls', c', p', cont3.
        split; [done|]. split; [done|]. split; [done|]. split; [done|]. split; [done|].
        rewrite <- app_assoc in Hl'. lia.
      * rewrite Hg1. cbn [length]. lia.
  - intros cont s r w v (Hr & Hrc & d & B & ls & c & p & cont2 & Hf & -> & H & Hst & Ha & Hl).
    split; [done|]. split; [done|]. exists d, B, ls, c, p, cont2.
    split; [done|]. split; [done|]. split; [by apply rstate_stopUnget|]. done.
  - intros cont s r d0 w w' (Hr & Hrc & d & B & ls & c & p & cont2 & Hf & HH) Hfr.
    split; [done|]. split; [by rewrite (frame_ext _ _ _ Hfr)|]. exists d, B, ls, c, p, cont2.
    split; [by eapply feed_frame|done].
  - intros s r d0 w w' (Hr & Hrc & B & ls & p & Hf & HH) Hfr.
    split; [done|]. split; [by rewrite (frame_ext _ _ _ Hfr)|]. exists B, ls, p.
    split; [by eapply feed_frame|done].
  - intros cont s r w (Hr & Hrc & d & B & ls & c & p & cont2 & Hf & -> & H & Hst & Ha & Hl).
    apply ahead_length in Ha. rewrite !length_app in *. lia.
Qed.
End reading.

(** ** The content of one record *)

(** A reader that stops at the end of the record it is in: after the content comes the padding
    [pad], then [W]. *)
Section record.
Context (fuel : nat) (ty : Z) (pad W : list byte) (o0 : os).
Hypothesis (Hnone : pad ++ W <> []).

Definition in_record (cont : list byte) (s : FCGX_Stream) (r : FCGX_Request) (w : world os) : Prop :=
  rcv (ipcFd r) o0 (w_ext w) /\
  exists d B ls body, feed (ipcFd r) (w_ext w) ls /\ cont = d ++ body /\
    rstate ty false true false (Z.of_nat (length body)) (Z.of_nat (length pad)) s (d ++ B) /\
    stop s = rdNext s + Z.of_nat (length d) /\ B ++ concat ls = body ++ pad ++ W /\
    (S (length (d ++ B ++ concat ls)) < fuel)%nat.

Definition record_ended (s : FCGX_Stream) (r : FCGX_Request) (w : world os) : Prop :=
  rcv (ipcFd r) o0 (w_ext w) /\
  exists B ls, feed (ipcFd r) (w_ext w) ls /\ rstate ty true true false 0 0 s B /\
    B ++ concat ls = W.

Lemma wp_end_stage k s r B ls pd w (Q : FCGX_Stream * FCGX_Request -> world os -> Prop) :
  (forall s r B ls pd w (Q : FCGX_Stream * FCGX_Request -> world os -> Prop),
    rstate ty false true false 0 (Z.of_nat (length pd)) s B -> feed (ipcFd r) (w_ext w) ls ->
    B ++ concat ls = pd ++ W -> pd ++ W <> [] -> (length (B ++ concat ls) < k)%nat ->
    (forall s' w' B' ls', received (ipcFd r) w w' -> feed (ipcFd r) (w_ext w') ls' ->
       rstate ty true true false 0 0 s' B' -> B' ++ concat ls' = W -> Q (s', r) w') ->
    wp (FillBuffProc k [] s r) w Q) ->
  rstate ty false true false 0 (Z.of_nat (length pd)) s B -> feed (ipcFd r) (w_ext w) ls -> B <> [] ->
  B ++ concat ls = pd ++ W -> (length (B ++ concat ls) <= k)%nat ->
  (forall s' w' B' ls', received (ipcFd r) w w' -> feed (ipcFd r) (w_ext w') ls' ->
     rstate ty true true false 0 0 s' B' -> B' ++ concat ls' = W -> Q (s', r) w') ->
  wp (turn (FillBuffProc k) k [] (then_ (then_ (content s) padding) end_of_record) r) w Q.
Proof.
  intros IH H Hf HB HU Hk HQ. rewrite (content_none _ _ _ _ _ _ _ H). cbn [then_].
  assert (forall s B, rstate ty false true false 0 0 s B -> B ++ concat ls = W ->
    wp (turn (FillBuffProc k) k [] (end_of_record s) r) w Q) as Hend.
  { clear s B H HB HU Hk. intros s B H HU. unfold end_of_record. rewrite (r_eor _ _ _ _ _ _ _ _ H).
    cbn [turn]. wp_step. eapply HQ; [by eapply received_refl|done| |exact HU].
    same_reader H. }
  destruct (decide (pd = [])) as [->|Hp].
  - rewrite (padding_none _ _ _ _ _ _ _ H). cbn [then_]. by eapply Hend.
  - assert (0 < Z.of_nat (length pd)) as Hp0 by (destruct pd; [done|cbn; lia]).
    destruct (padding_skip _ _ _ _ _ _ _ _ H Hp0) as (s' & Hs).
    destruct (Z.leb_spec (Z.of_nat (length pd)) (Z.of_nat (length B))) as [Hle|Hgt];
      destruct Hs as [-> H1]; cbn [then_].
    + destruct (app_split_at _ _ _ _ (length pd) HU) as [_ HW]; [lia..|].
      rewrite drop_all in HW. cbn [app] in HW. rewrite Nat2Z.id in H1. by eapply Hend.
    + cbn [turn]. destruct (app_split_at _ _ _ _ (length B) HU) as [_ HW]; [lia..|].
      rewrite drop_all in HW. cbn [app] in HW.
      eapply (IH s' r [] ls (drop (length B) pd)); [|done|done| |cbn [app]|done].
      * rewrite length_drop. replace (Z.of_nat (length pd - length B)) with
          (Z.of_nat (length pd) - Z.of_nat (length B)) by lia. done.
      * intros E. apply (f_equal length) in E. rewrite length_app, length_drop in E. cbn in E. lia.
      * rewrite length_app in Hk. destruct B; [done|cbn in Hk; lia].
Qed.

Lemma wp_fill_end k : forall s r B ls pd w (Q : FCGX_Stream * FCGX_Request -> world os -> Prop),
  rstate ty false true false 0 (Z.of_nat (length pd)) s B -> feed (ipcFd r) (w_ext w) ls ->
  B ++ concat ls = pd ++ W -> pd ++ W <> [] -> (length (B ++ concat ls) < k)%nat ->
  (forall s' w' B' ls', received (ipcFd r) w w' -> feed (ipcFd r) (w_ext w') ls' ->
     rstate ty true true false 0 0 s' B' -> B' ++ concat ls' = W -> Q (s', r) w') ->
  wp (FillBuffProc k [] s r) w Q.
Proof.
  induction k as [|k IH]; intros s r B ls pd w Q H Hf HU Hne Hk HQ; [lia|]. cbn [FillBuffProc].
  wp_step. eapply wp_refill; [done|done|by rewrite HU|]. intros s1 B1 ls1 w1 H1 Hf1 HB1 HU1 Hr1.
  rewrite <- HU1 in HU, Hk. cbn [then_].
  eapply (wp_end_stage k); [done|done|done|done|exact HU|lia|].
  intros. eapply HQ; [by eapply received_trans|done..].
Qed.

Lemma record_source : source (FillBuffProc fuel []) fuel in_record record_ended.
Proof.
  split.
  - intros cont s r w (_ & d & B & ls & body & _ & _ & [] & _). done.
  - intros cont s r w (Hrc & d & B & ls & body & Hf & -> & H & Hst & HU & Hl).
    exists d, body. split; [done|]. split; [done|]. intros m Hm. split.
    { rewrite (get_bytes_ok _ _ _ _ _ _ _ _ m H) by (rewrite length_app; lia). by rewrite take_app_le. }
    split; [done|]. exists (drop m d), B, ls, body.
    split; [done|]. split; [by rewrite drop_app_le|]. split.
    { rewrite <- drop_app_le by done. apply rstate_advance; [done|]. rewrite length_app. lia. }
    split; [members; rewrite length_drop; lia|]. split; [done|].
    rewrite length_app, length_drop in *. lia.
  - intros cont s r w (Hrc & d & B & ls & body & Hf & -> & H & Hst & HU & Hl) He.
    assert (d = []) as -> by (destruct d; [done|cbn in Hst; lia]). cbn [app] in *.
    destruct body as [|x body].
    + eapply wp_fill_end; [exact H|done|exact HU|done|lia|].
      intros s' w' B' ls' [Hh Hrec] Hf' H' HW. split; [done|]. split; [done|]. split; [apply H'|].
      split; [by eapply rcv_trans|]. by exists B', ls'.
    + destruct fuel as [|k] eqn:Ek; [lia|]. cbn [FillBuffProc].
      wp_step. eapply wp_refill; [done|done|by rewrite HU|]. intros s1 B1 ls1 w1 H1 Hf1 HB1 HU1 [Hh Hr1].
      destruct (content_gives _ _ _ _ _ _ _ H1 ltac:(cbn; lia) HB1) as (m & s' & Ec & Hm & Hmc & H2 & Hg).
      cbn [then_]. rewrite Ec. cbn [then_ turn]. wp_step. split; [done|]. split; [done|].
      rewrite <- HU1 in HU, Hl. destruct (app_split_at _ _ _ _ m HU) as [Hb HW]; [lia..|].
      destruct Hg as [Hg1 Hg2]. split; [|lia]. split; [by eapply rcv_trans|].
      exists (take m B1), (drop m B1), ls1, (drop m (x :: body)). split; [done|]. split; [done|].
      rewrite take_drop. split.
      { rewrite length_drop. replace (Z.of_nat (length (x :: body) - m)) with
          (Z.of_nat (length (x :: body)) - Z.of_nat m) by lia. done. }
      split; [rewrite length_take; lia|]. split; [exact HW|].
      rewrite app_assoc, take_drop. lia.
  - intros cont s r w v (Hrc & d & B & ls & body & Hf & -> & H & HH).
    split; [done|]. exists d, B, ls, body. split; [done|]. split; [done|].
    split; [by apply rstate_stopUnget|]. done.
  - intros cont s r d0 w w' (Hrc & d & B & ls & body & Hf & HH) Hfr.
    split; [by rewrite (frame_ext _ _ _ Hfr)|]. exists d, B, ls, body. split; [by eapply feed_frame|done].
  - intros s r d0 w w' (Hrc & B & ls & Hf & HH) Hfr.
    split; [by rewrite (frame_ext _ _ _ Hfr)|]. exists B, ls. split; [by eapply feed_frame|done].
  - intros cont s r w (Hrc & d & B & ls & body & Hf & -> & H & Hst & HU & Hl).
    apply (f_equal length) in HU. rewrite !length_app in *. lia.
Qed.
End record.

(** ** Name-value pairs *)

(** A length on the wire: one byte, or four with the high bit of the first set. *)
Inductive length_bytes : Z -> list byte -> Prop :=
| length_short n : 0 <= n < 128 -> length_bytes n [z2b n]
| length_long n : 0 <= n < 2 ^ 31 ->
    length_bytes n [z2b (128 + n / 2 ^ 24); z2b (n / 2 ^ 16); z2b (n / 2 ^ 8); z2b n].

(** A pair whose entry an [int] can measure. *)
Definition pair_bytes (nv : list byte * list byte) (W : list byte) : Prop :=
  Z.of_nat (length nv.1) + Z.of_nat (length nv.2) + 2 <= INT_MAX /\
  exists ln lv, length_bytes (Z.of_nat (length nv.1)) ln /\ length_bytes (Z.of_nat (length nv.2)) lv /\
    W = ln ++ lv ++ nv.1 ++ nv.2.

Inductive pairs_bytes : list (list byte * list byte) -> list byte -> Prop :=
| pairs_nil : pairs_bytes [] []
| pairs_cons nv W ps Ws : pair_bytes nv W -> pairs_bytes ps Ws -> pairs_bytes (nv :: ps) (W ++ Ws).

(** The string an entry of the environment is. *)
Definition entry (nv : list byte * list byte) : list byte := nv.1 ++ [x3d] ++ nv.2 ++ [NUL].

Lemma long_bit n : 0 <= n < 128 -> Z.land (128 + n) 128 = 128 /\ Z.land (128 + n) 127 = n.
Proof.
  intros Hn. assert (forallb (fun k => (Z.land (128 + k) 128 =? 128) && (Z.land (128 + k) 127 =? k))
    (map Z.of_nat (seq 0 128)) = true) as H by (vm_compute; reflexivity).
  rewrite forallb_forall in H. specialize (H n).
  assert (In n (map Z.of_nat (seq 0 128))) as Hin.
  { apply in_map_iff. exists (Z.to_nat n). split; [lia|]. apply in_seq. lia. }
  apply H in Hin. apply andb_true_iff in Hin as [H1 H2]. lia.
Qed.

Lemma short_bit n : 0 <= n < 128 -> Z.land n 128 = 0.
Proof.
  intros Hn. assert (forallb (fun k => Z.land k 128 =? 0) (map Z.of_nat (seq 0 128)) = true) as H
    by (vm_compute; reflexivity).
  rewrite forallb_forall in H. apply Z.eqb_eq, H, in_map_iff. exists (Z.to_nat n).
  split; [lia|]. apply in_seq. lia.
Qed.

(** The number of four bytes. *)
Lemma four_bytes n : 0 <= n < 2 ^ 31 ->
  Z.shiftl (Z.land (b2z (z2b (128 + n / 2 ^ 24))) 127) 24 + Z.shiftl (b2z (z2b (n / 2 ^ 16))) 16 +
  Z.shiftl (b2z (z2b (n / 2 ^ 8))) 8 + b2z (z2b n) = n.
Proof.
  intros Hn. assert (0 <= n / 2 ^ 24 < 128) as Hh
    by (split; [apply Z.div_pos; lia|apply Z.div_lt_upper_bound; lia]).
  rewrite (one_byte (128 + _)) by lia. rewrite (proj2 (long_bit _ Hh)), !b2z_z2b.
  rewrite !Z.shiftl_mul_pow2 by lia.
  replace (n / 2 ^ 24) with (n / 2 ^ 8 / 2 ^ 8 / 2 ^ 8) by (rewrite !Z.div_div by lia; done).
  replace (n / 2 ^ 16) with (n / 2 ^ 8 / 2 ^ 8) by (rewrite !Z.div_div by lia; done).
  change (2 ^ 8) with 256. change (2 ^ 24) with 16777216. change (2 ^ 16) with 65536.
  pose proof (Z.div_mod n 256 ltac:(lia)). pose proof (Z.div_mod (n / 256) 256 ltac:(lia)).
  pose proof (Z.div_mod (n / 256 / 256) 256 ltac:(lia)). lia.
Qed.

(** ** Parameters in memory *)

(** As many as a vector can hold without its size overflowing. *)
Definition MAX_PARAMS : Z := 2 ^ 28.

Definition params_ok (p : Params) : Prop :=
  Z.of_nat (length (vec p)) < plength p /\ plength p <= Z.max 30 (2 * Z.of_nat (length (vec p))).

Lemma wp_NewParams {X} n (w : world X) (Q : Params -> world X -> Prop) :
  0 < n <= 30 -> mem_ok w -> (forall w', frame 2 w w' -> Q (MkParams [] n) w') ->
  wp (NewParams n) w Q.
Proof.
  intros Hn Hm HQ. unfold NewParams. wp_step. apply wp_Malloc; [done|done|]. intros _ w1 _ F1.
  wp_step. apply wp_Malloc; [unfold PTRDIFF_MAX; lia|by eapply frame_mem_ok|]. intros _ w2 _ F2.
  rewrite (proj2 (Z.ltb_lt _ _)) by lia. wp_step. apply HQ. solve_frame.
Qed.

Lemma wp_PutParam {X} p nv (w : world X) (Q : Params -> world X -> Prop) :
  params_ok p -> Z.of_nat (length (vec p)) < MAX_PARAMS -> mem_ok w ->
  (forall p' w', vec p' = vec p ++ [nv] -> params_ok p' -> frame 0 w w' -> Q p' w') ->
  wp (PutParam p nv) w Q.
Proof.
  intros [Hp1 Hp2] Hmax Hm HQ. unfold PutParam, MAX_PARAMS in *.
  rewrite (proj2 (Z.leb_gt _ _)) by lia.
  assert (length (vec p ++ [nv]) = S (length (vec p))) as Hl by (rewrite length_app; cbn; lia).
  destruct (Z.leb_spec (plength p) (Z.of_nat (length (vec p ++ [nv])))) as [Hle|Hgt].
  - wp_step. rewrite add_int_small by (unfold INT_MAX; lia). wp_step. wp_step.
    rewrite u64_small by (unfold SIZE_MAX; lia). apply wp_realloc; [lia| |].
    + intros b w1 _ _ _ F _. rewrite (proj2 (Z.leb_gt _ _)) by lia. wp_step. apply HQ; [done| |done].
      split; cbn [vec plength]; lia.
    + intros w1 Hno. exfalso. apply Hno. split; [done|]. unfold PTRDIFF_MAX. lia.
  - wp_step. apply HQ; [done| |apply frame_refl]. split; cbn [vec plength]; lia.
Qed.

Lemma wp_FreeParams {X} p (w : world X) (Q : unit -> world X -> Prop) :
  (forall w', frame (- Z.of_nat (length (vec p)) - 2) w w' -> Q tt w') -> wp (FreeParams (Some p)) w Q.
Proof.
  cbn [FreeParams]. generalize (vec p) as v. clear p. intros v. revert w.
  induction v as [|x v IH]; intros w HQ; cbn [fold_right].
  - wp_steps. apply HQ. cbn [length Z.of_nat]. solve_frame.
  - wp_step. wp_step. apply IH. intros w2 F. apply HQ. cbn [length]. solve_frame.
Qed.

Section read_params.
Context {fill : FCGX_Stream -> FCGX_Request -> run} {gas : nat}
  {I : list byte -> FCGX_Stream -> FCGX_Request -> world os -> Prop}
  {E : FCGX_Stream -> FCGX_Request -> world os -> Prop} (src : source fill gas I E).

Lemma got_all cont n s r w : (n <= length cont)%nat -> got (I := I) (E := E) cont n s r w -> I (drop n cont) s r w.
Proof. intros Hn. unfold got. by rewrite decide_True. Qed.

Lemma wp_read_length n x l cont s r w
    (Q : option Z * (FCGX_Stream * FCGX_Request) -> world os -> Prop) :
  length_bytes n (x :: l) -> I (l ++ cont) s r w ->
  (forall s' w', heap 0 w w' -> I cont s' r w' -> Q (Some n, (s', r)) w') ->
  wp (read_length fill gas (b2z x) s r) w Q.
Proof.
  intros Hl H HQ. unfold read_length. inversion Hl as [k Hk|k Hk]; subst; clear Hl.
  - rewrite !one_byte by lia. rewrite short_bit by lia. cbn [negb Z.eqb]. wp_step.
    apply HQ; [apply heap_refl|done].
  - assert (0 <= n / 2 ^ 24 < 128) as Hh
      by (split; [apply Z.div_pos; lia|apply Z.div_lt_upper_bound; lia]).
    rewrite (one_byte (128 + _)) at 1 by lia. rewrite (proj1 (long_bit _ Hh)). cbn [negb Z.eqb Pos.eqb].
    wp_step. change 3 with (Z.of_nat 3). eapply (wp_GetStr src); [exact H|]. intros s' w' Hh' Hg.
    apply got_all in Hg; [|cbn; lia]. cbn [firstn skipn app] in *.
    change (firstn 0 cont) with (@nil byte). cbv iota. wp_step.
    rewrite four_bytes by done. by apply HQ.
Qed.

Lemma wp_read_pair name value cont s r w
    (Q : option (list byte) * (FCGX_Stream * FCGX_Request) -> world os -> Prop) :
  I (name ++ value ++ cont) s r w -> mem_ok w ->
  Z.of_nat (length name) + Z.of_nat (length value) + 2 <= INT_MAX ->
  (forall s' w', heap 1 w w' -> I cont s' r w' -> Q (Some (entry (name, value)), (s', r)) w') ->
  wp (read_pair fill gas (Z.of_nat (length name)) (Z.of_nat (length value)) s r) w Q.
Proof.
  intros H Hm Hl HQ. unfold read_pair. wp_step.
  rewrite !add_int_small by (unfold INT_MAX in *; lia). cbn [obind].
  rewrite add_int_small by (unfold INT_MAX in *; lia). wp_step.
  set (nl := length name) in *. set (vl := length value) in *.
  wp_step. apply wp_Malloc; [unfold PTRDIFF_MAX, INT_MAX in *; lia|done|]. intros blk w1 Hblk F1.
  wp_step. eapply (wp_GetStr src); [by eapply (src_frame _ _ _ _ src)|].
  intros s2 w2 Hh2 Hg. apply got_all in Hg; [|rewrite length_app; lia].
  rewrite take_app_exact, drop_app_exact in * by done. wp_step.
  assert (length blk = (nl + vl + 2)%nat) as Hbl by lia.
  rewrite mem_write_ok by lia. wp_step. fold nl. rewrite Z.eqb_refl. cbn [negb]. wp_step.
  change (Z.to_nat 0) with 0%nat. rewrite take_0. cbn [app Nat.add]. fold nl.
  rewrite (mem_write_mid name (drop nl blk) [x3d]); [|fold nl; lia|rewrite length_drop; cbn; lia].
  wp_step. wp_step. eapply (wp_GetStr src); [exact Hg|].
  intros s3 w3 Hh3 Hg3. apply got_all in Hg3; [|rewrite length_app; lia].
  rewrite take_app_exact, drop_app_exact in * by done. wp_step.
  replace (Z.of_nat nl + 1) with (Z.of_nat (nl + 1)) by lia. rewrite app_assoc.
  rewrite (mem_write_mid (name ++ [x3d])); [|rewrite length_app; cbn; lia|rewrite !length_drop; cbn; lia].
  wp_step. fold vl. rewrite Z.eqb_refl. cbn [negb]. wp_step.
  replace (Z.of_nat nl + Z.of_nat vl + 1) with (Z.of_nat (nl + vl + 1)) by lia. rewrite app_assoc.
  rewrite (mem_write_mid ((name ++ [x3d]) ++ value)).
  2: rewrite !length_app; cbn; lia.
  2: rewrite !length_drop; cbn; lia.
  wp_step. wp_step.
  rewrite !drop_drop, drop_ge by (cbn [length]; lia).
  replace (((name ++ [x3d]) ++ value) ++ [NUL] ++ []) with (entry (name, value))
    by (unfold entry; cbn [fst snd]; by rewrite <- !app_assoc).
  apply HQ; [|done]. eapply heap_eq; [eapply heap_trans; [by apply frame_heap|]; by eapply heap_trans|lia].
Qed.

Lemma length_bytes_cons n l : length_bytes n l -> exists x l', l = x :: l'.
Proof. destruct 1; by eexists _, _. Qed.

(** A length and what is done with it; [eof] is what an end of the stream leads to. *)
Lemma wp_length {A} n l cont s r w (eof : FCGX_Stream -> FCGX_Request -> M os A)
    (f : option Z -> FCGX_Stream -> FCGX_Request -> M os A) (Q : A -> world os -> Prop) :
  length_bytes n l -> I (l ++ cont) s r w ->
  (forall s' w', heap 0 w w' -> I cont s' r w' -> wp (f (Some n) s' r) w' Q) ->
  wp (let* '(c, (s, r)) := FCGX_GetChar fill s r in
      if c =? EOF then eof s r
      else let* '(n, (s, r)) := read_length fill gas c s r in f n s r) w Q.
Proof.
  intros Hl H HQ. destruct (length_bytes_cons _ _ Hl) as (x & l' & ->). wp_step.
  eapply (wp_GetChar src); [exact H|]. intros s1 w1 Hh1 H1.
  rewrite (proj2 (Z.eqb_neq _ _)) by (pose proof (b2z_range x); unfold EOF; lia). wp_step.
  eapply wp_read_length; [done|exact H1|]. intros s2 w2 Hh2 H2. apply HQ; [|done].
  eapply heap_eq; [by eapply heap_trans|lia].
Qed.

Lemma wp_params_loop ps W : pairs_bytes ps W -> forall turns p s r w
    (Q : Z * Params * (FCGX_Stream * FCGX_Request) -> world os -> Prop),
  I W s r w -> params_ok p -> Z.of_nat (length (vec p) + length ps) <= MAX_PARAMS -> mem_ok w ->
  (length W < turns)%nat ->
  (forall p' s' w', vec p' = vec p ++ map entry ps -> params_ok p' -> isClosed s' = true ->
     heap (Z.of_nat (length ps)) w w' -> E s' r w' -> Q (0, p', (s', r)) w') ->
  wp (params_loop fill gas turns p s r) w Q.
Proof.
  induction 1 as [|nv W ps Ws Hnv Hps IH]; intros turns p s r w Q H Hp Hmax Hm Ht HQ;
    (destruct turns as [|turns]; [lia|]); cbn [params_loop].
  - wp_step. eapply (wp_GetChar src); [exact H|]. intros s' w' Hh Hc HE. rewrite Z.eqb_refl. wp_step.
    apply HQ; try done. by rewrite app_nil_r.
  - destruct nv as [name value]. destruct Hnv as (Hlen & ln & lv & Hn & Hv & ->). cbn [fst snd] in *.
    rewrite <- !app_assoc in H. eapply wp_length; [exact Hn|exact H|]. intros s1 w1 Hh1 H1.
    eapply wp_length; [exact Hv|exact H1|]. intros s2 w2 Hh2 H2. wp_step.
    eapply wp_read_pair; [exact H2|by eapply heap_mem_ok, heap_mem_ok|done|]. intros s3 w3 Hh3 H3.
    wp_step. apply wp_PutParam; [done|cbn in Hmax; lia|by eapply heap_mem_ok, heap_mem_ok, heap_mem_ok|].
    intros p' w4 Hp' Hok F4. apply IH; [by eapply (src_frame _ _ _ _ src)|done| | | |].
    + rewrite Hp', length_app. cbn in *. lia.
    + eapply frame_mem_ok; [done|]. by eapply heap_mem_ok, heap_mem_ok, heap_mem_ok.
    + destruct (length_bytes_cons _ _ Hn) as (? & ? & ->). rewrite !length_app in Ht. cbn in Ht. lia.
    + intros p2 s' w' Hv2 Hok2 Hcl Hh' HE. apply HQ; try done.
      * rewrite Hv2, Hp'. cbn [map]. by rewrite <- app_assoc.
      * eapply heap_eq; [|cbn [length]; rewrite Nat2Z.inj_succ].
        -- eapply heap_trans; [exact Hh1|]. eapply heap_trans; [exact Hh2|].
           eapply heap_trans; [exact Hh3|]. eapply heap_trans; [by apply frame_heap|exact Hh'].
        -- lia.
Qed.

Lemma wp_ReadParams ps W p s r w
    (Q : Z * Params * (FCGX_Stream * FCGX_Request) -> world os -> Prop) :
  pairs_bytes ps W -> I W s r w -> params_ok p ->
  Z.of_nat (length (vec p) + length ps) <= MAX_PARAMS -> mem_ok w ->
  (forall p' s' w', vec p' = vec p ++ map entry ps -> params_ok p' -> isClosed s' = true ->
     heap (Z.of_nat (length ps)) w w' -> E s' r w' -> Q (0, p', (s', r)) w') ->
  wp (ReadParams fill gas p s r) w Q.
Proof.
  intros. unfold ReadParams. eapply wp_params_loop; [done..| |done].
  pose proof (src_gas _ _ _ _ src _ _ _ _ H0). lia.
Qed.
End read_params.
