(* ===== verification/FcgiRequest.v ===== *)
(** * FastCGI requests (loungeact_fastcgi/fcgiapp.c)

    Accepting a request: the begin record, the parameters, and the streams of the request;
    finishing it: the streams are closed, what belongs to it is freed, and the connection is
    kept or closed. *)

From S2P Require Import Prelude FcgiFormat FcgiStream FcgiWriter FcgiReader.
From Stdlib Require Import Init.Byte.

#[local] Open Scope c_scope.

Definition FCGI_FAIL_ACCEPT_ON_INTR : Z := 1.

(** The request with its streams and parameters; [envp] is the vector of [paramsPtr]. *)
Record request := Req {
  req : FCGX_Request;
  req_in : option FCGX_Stream;
  req_out : option FCGX_Stream;
  req_err : option FCGX_Stream;
  paramsPtr : option Params;
}.

Definition envp (q : request) : list (list byte) :=
  match paramsPtr q with Some p => vec p | None => [] end.

Definition FCGX_InitRequest (sock fl : Z) : request :=
  Req (Request 0 0 (-1) false 0 0 0 fl sock) None None None None.

Definition FCGX_Free (q : request) (close : bool) : M os request :=
  FCGX_FreeStream (req_in q) ;;; FCGX_FreeStream (req_out q) ;;; FCGX_FreeStream (req_err q) ;;;
  FreeParams (paramsPtr q) ;;;
  if close then
    let* _ := OS_IpcClose (ipcFd (req q)) in
    ret (Req (set_ipcFd (-1) (req q)) None None None None)
  else ret (Req (req q) None None None None).

(** The error stream is closed first. *)
Definition FCGX_Finish_r (q : request) : M os request :=
  let close := keepConnection (req q) =? 0 in
  let* '(q, close) :=
    match req_in q with
    | Some i =>
        let* '(rc1, (err, r)) := FCGX_FClose (req_err q) (req q) in
        let* '(rc2, (out, r)) := FCGX_FClose (req_out q) r in
        ret (Req r (Some i) out err (paramsPtr q),
             close || negb (rc1 =? 0) || negb (rc2 =? 0) || negb (FCGX_GetError i =? 0))
    | None => ret (q, close)
    end in
  FCGX_Free q close.

Definition role_string (role : Z) : option (list byte) :=
  if role =? FCGI_RESPONDER then Some (lit "FCGI_ROLE=RESPONDER")
  else if role =? FCGI_AUTHORIZER then Some (lit "FCGI_ROLE=AUTHORIZER")
  else if role =? FCGI_FILTER then Some (lit "FCGI_ROLE=FILTER")
  else None.

Definition StringCopy (s : list byte) : M os (list byte) :=
  let* p := Malloc (Z.of_nat (length s) + 1) in
  let* p := lift (mem_write p 0 s) in
  lift (mem_write p (Z.of_nat (length s)) [NUL]).

(** One turn of the loop of [FCGX_Accept_r] over an open connection: the request begins and
    its parameters are read; [None] is the jump to the end of the turn. *)
Definition read_request (fuel : nat) (r : FCGX_Request)
  : M os (bool * request) :=
  let r := set_isBeginProcessed false r in
  let* s := NewReader 8192 0 in
  let* '(s, r) := FillBuffProc fuel [] s r in
  if negb (isBeginProcessed r) then ret (false, Req r (Some s) None None None)
  else
    match role_string (role r) with
    | None => ret (false, Req r (Some s) None None None)
    | Some roleStr =>
        let* p := NewParams 30 in
        let* str := StringCopy roleStr in
        let* p := PutParam p str in
        let* s := lift (SetReaderType s FCGI_PARAMS) in
        let* '(rc, p, (s, r)) := ReadParams (FillBuffProc fuel []) fuel p s r in
        ret (0 <=? rc, Req r (Some s) None None (Some p))
    end.

(** The status and the request; each turn that fails uses up a connection. *)
Fixpoint accept_turns (turns fuel : nat) (q : request) : M os (Z * request) :=
  match turns with
  | O => undef Diverges
  | S turns =>
      let* fd :=
        if ipcFd (req q) <? 0
        then OS_Accept (negb (Z.land (flags (req q)) FCGI_FAIL_ACCEPT_ON_INTR =? 0))
        else ret (ipcFd (req q)) in
      let q := Req (set_ipcFd fd (req q)) (req_in q) (req_out q) (req_err q) (paramsPtr q) in
      if fd <? 0 then
        let* e := OS_Errno in ret (if 0 <? e then - e else -9999, q)
      else
        let* '(ok, q) := read_request fuel (req q) in
        if ok then
          let* s := lift (match req_in q with
                          | Some s => SetReaderType s FCGI_STDIN
                          | None => Undef NullDeref
                          end) in
          let* out := NewWriter 8192 FCGI_STDOUT in
          let* err := NewWriter 512 FCGI_STDERR in
          ret (0, Req (set_nWriters 2 (req q)) (Some s) (Some out) (Some err) (paramsPtr q))
        else
          let* q := FCGX_Free q true in accept_turns turns fuel q
  end.

(** For a library that was initialised. *)
Definition FCGX_Accept_r (turns fuel : nat) (q : request) : M os (Z * request) :=
  let* q := FCGX_Finish_r q in accept_turns turns fuel q.

Definition FCGX_StartFilterData (s : FCGX_Stream) (r : FCGX_Request)
  : outcome (Z * FCGX_Stream) :=
  if negb (role r =? FCGI_FILTER) || negb (isReader s) || negb (isClosed s) ||
     negb (dtype (data s) =? FCGI_STDIN)
  then Ret (-1, SetError s FCGX_CALL_SEQ_ERROR)
  else let+ s := SetReaderType s FCGI_DATA in Ret (0, s).

Definition FCGX_SetExitStatus (status : Z) (r : FCGX_Request) : FCGX_Request :=
  set_appStatus status r.

(** Two writers are assumed, so that closing this one does not end the request. *)
Definition FCGX_CreateWriter (fd id buflen streamType : Z) (r : FCGX_Request)
  : M os (FCGX_Stream * FCGX_Request) :=
  let* _ := Malloc 80 in
  let r := set_nWriters 2 (set_requestId id (set_ipcFd fd r)) in
  let* s := NewWriter buflen streamType in ret (s, r).

(** A request over a connection that delivers it in pieces, answered. *)
Definition sample_input : list byte :=
  encode_records
    [FRec FCGI_BEGIN_REQUEST 1 [x00; x01; x00; x00; x00; x00; x00; x00] [];
     FRec FCGI_PARAMS 1 ([x04; x03] ++ lit "PATHone" ++ [x01; x80; x00; x00]) [x00; x00];
     FRec FCGI_PARAMS 1 ([x02] ++ lit "Qxy") [];
     FRec FCGI_PARAMS 1 [] [];
     FRec FCGI_STDIN 1 (lit "hello ") [x00; x00];
     FRec FCGI_STDIN 1 (lit "world") [x00; x00; x00];
     FRec FCGI_STDIN 1 [] []].

Example accept_sample :
  let o := Os ∅ [AcceptFails 103; AcceptConn (Conn [inr (take 21 sample_input);
    inr (drop 21 sample_input)] [] [])] 7 false [] in
  match (let* '(rc, q) := FCGX_Accept_r 1 200 (FCGX_InitRequest 0 0) in
         match req_in q with
         | Some s =>
             let* '(d, (s, r)) := FCGX_GetStr (FillBuffProc 200 []) 200 100 s (req q) in
             ret (rc, envp q, d, FCGI_errno s, ipcFd r)
         | None => undef NullDeref
         end) (world0 o) with
  | Ret (x, w) =>
      x = (0, [lit "FCGI_ROLE=RESPONDER" ++ [NUL]; lit "PATH=one" ++ [NUL]; lit "Q=xy" ++ [NUL]],
           lit "hello world", 0, 7)
  | Undef _ => False
  end.
Proof. vm_compute. reflexivity. Qed.

(** ** Accepting a request *)

Section begin.
Context (id : Z) (body : list byte) (W : list byte) (ty : Z).
Hypotheses (Hid : 0 < id < 65536) (Hbody : length body = 8%nat) (HW : W <> []).

Definition begin_record : frec := FRec FCGI_BEGIN_REQUEST id body [].

Definition role_of (body : list byte) : Z :=
  Z.shiftl (b2z (nth 0 body x00)) 8 + b2z (nth 1 body x00).

(** The request a begin record leaves. *)
Definition begun (r : FCGX_Request) : FCGX_Request :=
  set_isBeginProcessed true (set_role (role_of body)
    (set_keepConnection (Z.land (b2z (nth 2 body x00)) FCGI_KEEP_CONN) (set_requestId id r))).

Lemma wp_interpret_begin fuel s r B ls w (Q : phase * FCGX_Request -> world os -> Prop) :
  rstate ty false false false 0 0 s B -> feed (ipcFd r) (w_ext w) ls ->
  isBeginProcessed r = false -> B ++ concat ls = body ++ W ->
  (S (length (B ++ concat ls)) < fuel)%nat ->
  (forall s' w' B' ls', received (ipcFd r) w w' -> feed (ipcFd r) (w_ext w') ls' ->
     rstate ty false false false 0 0 s' B' -> B' ++ concat ls' = W ->
     Q (Return s', begun r) w') ->
  wp (interpret (FillBuffProc fuel []) fuel (fcgi_header_bytes (record_header begin_record)) s r) w Q.
Proof.
  intros H Hf Hb HU Hl HQ. unfold interpret, ProcessHeader.
  rewrite <- (app_nil_r (fcgi_header_bytes _)), fcgi_header_of_bytes. unfold record_header.
  cbn [version type requestIdB1 requestIdB0 contentLengthB1 contentLengthB0 paddingLength
    begin_record f_type f_id f_content f_padding].
  change (b2z x01 =? FCGI_VERSION_1) with true. cbn [negb].
  rewrite Hbody, !two_bytes, !one_byte by (unfold FCGI_BEGIN_REQUEST; cbn; lia). rewrite Z.eqb_refl.
  wp_step. unfold ProcessBeginRecord. rewrite (proj2 (Z.eqb_neq id 0)) by lia.
  members. rewrite Hb. change (negb (Z.of_nat 8 =? 8)) with false. cbn [orb].
  wp_step. change 8 with (Z.of_nat 8).
  eapply (wp_GetStr (record_source fuel ty [] W (w_ext w) HW) 8 body).
  { split; [by eapply received_refl|]. exists [], B, ls, body. rewrite Hbody. split; [done|].
    split; [done|]. split; [same_reader H|]. split; [members; cbn [length]; lia|].
    split; [exact HU|done]. }
  intros s2 w2 Hh Hg. apply got_all in Hg; [|lia].
  destruct Hg as (Hrc & d & B2 & ls2 & bd & Hf2 & Hd & H2 & _ & HU2 & _).
  rewrite drop_ge in Hd by lia. symmetry in Hd. apply app_eq_nil in Hd as [-> ->]. cbn [app length] in *.
  rewrite firstn_all2 by lia. specialize (HQ). unfold begun, role_of in HQ.
  destruct body as [|b1 [|b0 [|fl [|? [|? [|? [|? [|? [|]]]]]]]]]; try done. cbn [nth] in HQ.
  wp_step. wp_step. members. unfold after_header. cbn [Z.eqb BEGIN_RECORD STREAM_RECORD SKIP Pos.eqb].
  wp_step. wp_step. members. apply (HQ _ _ B2 ls2); [done|done| |exact HU2]. same_reader H2.
Qed.

(** The begin record in front of the reader, part of its header read already. *)
Lemma wp_begin_request fuel : forall hdr s r B ls w (Q : FCGX_Stream * FCGX_Request -> world os -> Prop),
  rstate ty false false false 0 0 s B -> feed (ipcFd r) (w_ext w) ls ->
  isBeginProcessed r = false -> (length hdr < 8)%nat ->
  hdr ++ B ++ concat ls = encode_record begin_record ++ W ->
  (S (length (B ++ concat ls)) < fuel)%nat ->
  (forall s' w' B' ls', received (ipcFd r) w w' -> feed (ipcFd r) (w_ext w') ls' ->
     rstate ty false false false 0 0 s' B' -> B' ++ concat ls' = W -> Q (s', begun r) w') ->
  wp (FillBuffProc fuel hdr s r) w Q.
Proof.
  induction fuel as [|fuel IH]; intros hdr s r B ls w Q H Hf Hb Hh HU Hl HQ; [lia|].
  rewrite encode_record_app in HU. cbn [FillBuffProc]. wp_step. eapply wp_refill; [done|done| |].
  { intros E. rewrite E in HU. apply (f_equal length) in HU.
    rewrite !length_app, length_fcgi_header in HU. cbn in HU. lia. }
  intros s1 B1 ls1 w1 H1 Hf1 HB1 HU1 Hr1. rewrite <- HU1 in HU, Hl. cbn [then_].
  rewrite (content_none _ _ _ _ _ _ _ H1). cbn [then_]. rewrite (padding_none _ _ _ _ _ _ _ H1).
  cbn [then_]. rewrite (end_of_record_none _ _ _ _ _ _ _ H1). unfold turn.
  pose proof (r_stop _ _ _ _ _ _ _ _ H1) as Hst.
  set (n := Nat.min (8 - length hdr) (length B1)).
  assert (Z.min (8 - Z.of_nat (length hdr)) (buffStop (data s1) - rdNext s1) = Z.of_nat n) as -> by lia.
  wp_step. rewrite (get_bytes_ok _ _ _ _ _ _ _ _ n H1) by lia. wp_step.
  pose proof (rstate_advance _ _ _ _ _ _ _ _ n H1 ltac:(lia)) as H2.
  set (s2 := set_rdNext _ s1) in *.
  destruct (split_header _ _ _ _ _ n HU (length_fcgi_header _) ltac:(lia) ltac:(lia))
    as [[Hshort Hn]|[-> HW2]].
  - rewrite (proj2 (Z.ltb_lt _ _)) by lia. rewrite Hn, drop_all in H2.
    eapply (IH _ _ _ [] ls1); [exact H2|done|done|done| | |].
    + rewrite encode_record_app, Hn, firstn_all, <- app_assoc. exact HU.
    + rewrite length_app in Hl. destruct B1; [done|cbn in *; lia].
    + intros. eapply HQ; [by eapply received_trans|done..].
  - rewrite length_fcgi_header. change (Z.of_nat 8 <? 8) with false. cbv iota. wp_step.
    cbn [begin_record f_content f_padding app] in HW2.
    eapply wp_interpret_begin; [exact H2|done|done|exact HW2| |].
    + assert (0 < length B1)%nat by (destruct B1; [done|cbn; lia]). rewrite length_app, length_drop in *. lia.
    + intros s3 w3 B3 ls3 Hr3 Hf3 H3 HU3. wp_step.
      eapply HQ; [by eapply received_trans|done..].
Qed.
End begin.

(** ** The parameters of a request *)

Lemma wp_StringCopy str w (Q : list byte -> world os -> Prop) :
  Z.of_nat (length str) < PTRDIFF_MAX -> mem_ok w -> (forall w', frame 1 w w' -> Q (str ++ [NUL]) w') ->
  wp (StringCopy str) w Q.
Proof.
  intros Hl Hm HQ. unfold StringCopy. wp_step.
  apply wp_Malloc; [lia|done|]. intros b w1 Hb F1.
  wp_step. rewrite (mem_write_ok b 0 str) by lia. wp_step. change (Z.to_nat 0) with 0%nat.
  rewrite take_0. cbn [app Nat.add].
  rewrite (mem_write_mid str _ [NUL]); [|done|rewrite length_drop; cbn; lia]. wp_step.
  rewrite drop_drop, drop_ge by (cbn [length]; lia). rewrite app_nil_r. by apply HQ.
Qed.

Lemma role_string_short role str : role_string role = Some str -> Z.of_nat (length str) < PTRDIFF_MAX.
Proof.
  unfold role_string. repeat case_match; intros [= <-]; vm_compute; done.
Qed.

(** The environment of a request. *)
Definition environment (str : list byte) (ps : list (list byte * list byte)) : list (list byte) :=
  (str ++ [NUL]) :: map entry ps.

Lemma wp_read_request fuel id body str content ps W1 W2 r ls w
    (Q : bool * request -> world os -> Prop) :
  0 < id < 65536 -> length body = 8%nat -> role_string (role_of body) = Some str ->
  feed (ipcFd r) (w_ext w) ls -> concat ls = encode_record (begin_record id body) ++ W1 ->
  carries FCGI_PARAMS id W1 content W2 -> pairs_bytes ps content ->
  Z.of_nat (length ps) < MAX_PARAMS -> (S (length (concat ls)) < fuel)%nat -> mem_ok w ->
  (forall s p w', let r' := begun id body (set_isBeginProcessed false r) in
     vec p = environment str ps -> ended fuel FCGI_PARAMS id W2 (w_ext w) s r' w' ->
     heap (6 + Z.of_nat (length ps)) w w' -> Q (true, Req r' (Some s) None None (Some p)) w') ->
  wp (read_request fuel r) w Q.
Proof.
  intros Hid Hbody Hrole Hf Hls Hc Hps Hmax Hfuel Hm HQ. unfold read_request. wp_step.
  apply wp_NewReader; [done|]. intros s1 w1 H1 F1. wp_step.
  set (r1 := set_isBeginProcessed false r).
  assert (W1 <> []) as HW1 by (apply carries_length in Hc; destruct W1; [cbn in Hc; lia|done]).
  assert (feed (ipcFd r1) (w_ext w1) ls) as Hf1 by (by rewrite (frame_ext _ _ _ F1)).
  eapply (wp_begin_request id body W1 0 Hid Hbody HW1 fuel []);
    [exact H1|exact Hf1|done|cbn; lia|exact Hls|done|].
  intros s2 w2 B2 ls2 [Hh2 Hrc2] Hf2 H2 HU2. cbv beta iota.
  set (r2 := begun id body r1) in *. cbn [negb isBeginProcessed r2 begun].
  change (isBeginProcessed r2) with true. cbn [negb].
  change (role r2) with (role_of body). rewrite Hrole. wp_step.
  assert (mem_ok w2) as Hm2 by (eapply heap_mem_ok; [done|by eapply frame_mem_ok]).
  apply wp_NewParams; [lia|done|]. intros w3 F3. wp_step.
  apply wp_StringCopy; [by eapply role_string_short|by eapply frame_mem_ok|]. intros w4 F4. wp_step.
  apply wp_PutParam; [done|cbn; unfold MAX_PARAMS; lia|by do 2 (eapply frame_mem_ok; [done|])|].
  intros p w5 Hp Hok F5. wp_step.
  destruct (SetReaderType_ok _ _ _ _ _ _ _ _ FCGI_PARAMS H2) as (s3 & E3 & Hst3 & H3). rewrite E3.
  wp_step. wp_step.
  assert (frame 3 w2 w5) as F25 by solve_frame.
  assert (rcv (ipcFd r2) (w_ext w) (w_ext w5)) as Hrc5.
  { rewrite (frame_ext _ _ _ F25). by rewrite <- (frame_ext _ _ _ F1). }
  eapply (wp_ReadParams (reading_source fuel FCGI_PARAMS id W2 (w_ext w) ltac:(done) ltac:(lia)) ps content);
    [done| |done|rewrite Hp; cbn; unfold MAX_PARAMS in *; lia|by eapply frame_mem_ok|].
  - split; [done|]. split; [done|]. exists [], B2, ls2, 0, 0, content.
    split; [by rewrite (frame_ext _ _ _ F25)|]. split; [done|]. split; [exact H3|].
    split; [cbn [length]; lia|]. split.
    + split; [|split; [done|split; [cbn; lia|done]]]. exists [], [], W1, content. rewrite HU2. done.
    + cbn [app]. rewrite HU2. rewrite Hls, length_app in Hfuel. lia.
  - intros p' s' w6 Hp' _ _ Hh6 HE. wp_step. apply HQ; [|exact HE|].
    + rewrite Hp', Hp. done.
    + eapply heap_eq; [eapply heap_trans; [by apply frame_heap|]; eapply heap_trans; [done|];
        eapply heap_trans; [by apply frame_heap|]; exact Hh6|lia].
Qed.

(** ** Connections *)

(** Answers of [accept] that are passed over. *)
Definition passed_over (fail_on_intr : bool) (a : accept_answer) : Prop :=
  match a with
  | AcceptFails e => (e = EINTR /\ fail_on_intr = false) \/ is_reasonable_accept_errno e = true
  | AcceptStranger | AcceptSilent => True
  | AcceptConn _ => False
  end.

(** The system after a connection was accepted. *)
Definition connected (c : connection) (rest : list accept_answer) (o : os) : os :=
  Os (<[os_next_fd o := c]> (os_fds o)) rest (os_next_fd o + 1) (shutdownPending o) (os_closed o).

Lemma wp_put_os {X} x (w : world X) (Q : unit -> world X -> Prop) :
  (forall w', heap 0 w w' -> w_ext w' = x -> Q tt w') -> wp (put_ext x) w Q.
Proof. intros H. apply H; [|done]. split; [cbn; lia|done]. Qed.

Lemma wp_accept_loop foi c rest noise : forall w (Q : Z -> world os -> Prop),
  Forall (passed_over foi) noise -> shutdownPending (w_ext w) = false ->
  (forall w', heap 0 w w' -> w_ext w' = connected c rest (w_ext w) -> Q (os_next_fd (w_ext w)) w') ->
  wp (accept_loop foi (noise ++ AcceptConn c :: rest)) w Q.
Proof.
  induction noise as [|a noise IH]; intros w Q Hn Hs HQ; cbn [app accept_loop]; wp_step; wp_step;
    rewrite Hs; wp_step; apply wp_put_os; intros w1 Hh1 E1.
  - wp_step. apply wp_put_os. intros w2 Hh2 E2. wp_step.
    apply HQ; [eapply heap_eq; [by eapply heap_trans|lia]|]. unfold connected. by rewrite E2, Hs.
  - apply list.Forall_cons in Hn as [Ha Hn].
    assert (forall w2, heap 0 w1 w2 -> w_ext w2 = w_ext w1 ->
      wp (accept_loop foi (noise ++ AcceptConn c :: rest)) w2 Q) as Hgo.
    { intros w2 Hh2 E2. rewrite E1 in E2. apply IH; [done|by rewrite E2|]. intros w3 Hh3 E3.
      rewrite E2 in E3 |- *. apply HQ; [|rewrite E3; unfold connected; cbn; by rewrite Hs].
      eapply heap_eq; [eapply heap_trans; [done|by eapply heap_trans]|lia]. }
    destruct a as [e| | |?]; cbn [passed_over] in Ha;
      [|by apply Hgo; [eapply heap_refl|]..|done].
    wp_step. wp_step. destruct ((e =? EINTR) && negb foi) eqn:Ei.
    + apply Hgo; [by apply frame_heap|by eapply frame_ext].
    + destruct Ha as [[-> ->]|Ha]; [done|]. rewrite Ha. wp_step. wp_step.
      apply Hgo; [apply frame_heap; solve_frame|]. by do 2 (erewrite frame_ext; [|done]).
Qed.

Lemma wp_OS_Accept foi c rest noise w (Q : Z -> world os -> Prop) :
  os_queue (w_ext w) = noise ++ AcceptConn c :: rest -> Forall (passed_over foi) noise ->
  shutdownPending (w_ext w) = false ->
  (forall w', heap 0 w w' -> w_ext w' = connected c rest (w_ext w) -> Q (os_next_fd (w_ext w)) w') ->
  wp (OS_Accept foi) w Q.
Proof. intros Hq ? ? ?. unfold OS_Accept. wp_step. wp_step. rewrite Hq. by eapply wp_accept_loop. Qed.

(** ** Accepted requests *)

(** What the wire holds for a request: its begin record, its parameters, its input. *)
Record on_wire (id : Z) (body str : list byte) (ps : list (list byte * list byte))
    (input rest wire : list byte) : Prop := {
  ow_id : 0 < id < 65536;
  ow_body : length body = 8%nat;
  ow_role : role_string (role_of body) = Some str;
  ow_few : Z.of_nat (length ps) < MAX_PARAMS;
  ow_wire : exists content W1 W2, wire = encode_record (begin_record id body) ++ W1 /\
    pairs_bytes ps content /\ carries FCGI_PARAMS id W1 content W2 /\
    carries FCGI_STDIN id W2 input rest;
}.

(** A request whose input [input] is to be read, and whose outputs hold nothing yet. *)
Record opened (fuel : nat) (o0 : os) (r : FCGX_Request) (env : list (list byte))
    (input rest : list byte) (q : request) (w : world os) : Prop := {
  op_req : req q = r;
  op_env : envp q = env;
  op_params : exists p, paramsPtr q = Some p;
  op_in : exists s, req_in q = Some s /\
    reading fuel FCGI_STDIN (requestId r) rest o0 input s r w;
  op_out : exists s, req_out q = Some s /\ holds (base false) false FCGI_STDOUT false s [];
  op_err : exists s, req_err q = Some s /\ holds (base false) false FCGI_STDERR false s [];
}.

Lemma wp_accept_open turns fuel q id body str ps input rest ls w
    (Q : Z * request -> world os -> Prop) :
  on_wire id body str ps input rest (concat ls) -> feed (ipcFd (req q)) (w_ext w) ls ->
  0 <= ipcFd (req q) -> (S (length (concat ls)) < fuel)%nat -> mem_ok w ->
  (forall q' w',
     opened fuel (w_ext w)
       (set_nWriters 2 (begun id body (set_isBeginProcessed false (set_ipcFd (ipcFd (req q)) (req q)))))
       (environment str ps) input rest q' w' ->
     heap (12 + Z.of_nat (length ps)) w w' -> Q (0, q') w') ->
  wp (accept_turns (S turns) fuel q) w Q.
Proof.
  intros [Hid Hbody Hrole Hfew (content & W1 & W2 & Hwire & Hps & Hc1 & Hc2)] Hf Hfd Hfuel Hm HQ.
  cbn [accept_turns]. rewrite (proj2 (Z.ltb_ge _ _)) by lia. wp_step. wp_step.
  rewrite (proj2 (Z.ltb_ge _ _)) by lia. cbn [req]. wp_step.
  eapply wp_read_request; [done|done|done|exact Hf|exact Hwire|done|done|done|done|done|].
  intros s p w1 r' Hp HE Hh1. cbv beta iota. wp_step. cbn [req_in].
  destruct HE as (Hr & Hrc & B & ls1 & pd & Hf1 & Hend & H1 & HU & Hl).
  destruct (SetReaderType_ok _ _ _ _ _ _ _ _ FCGI_STDIN H1) as (s2 & E2 & Hst2 & H2). rewrite E2.
  wp_step. wp_step. apply wp_NewWriter; [by eapply heap_mem_ok|]. intros out w2 Hout F2.
  wp_step. apply wp_NewWriter; [by eapply frame_mem_ok, heap_mem_ok|]. intros err w3 Herr F3.
  wp_step. assert (frame 6 w1 w3) as F13 by solve_frame.
  apply HQ; [|eapply heap_eq; [eapply heap_trans; [done|by apply frame_heap]|lia]].
  constructor; cbn [req envp paramsPtr req_in req_out req_err]; try done; eauto.
  exists s2. split; [done|]. split; [done|]. split; [by rewrite (frame_ext _ _ _ F13)|].
  exists [], B, ls1, 0, 0, input. split; [by rewrite (frame_ext _ _ _ F13)|].
  split; [done|]. split; [exact H2|]. split; [cbn [length]; lia|]. split.
  - split; [|split; [done|split; [cbn; lia|done]]]. exists [], [], W2, input. rewrite HU. done.
  - cbn [app]. rewrite HU. exact Hl.
Qed.
