(* ===== verification/FcgiAnswer.v ===== *)
(** * FastCGI requests answered (loungeact_fastcgi/fcgiapp.c)

    A request from end to end: it is accepted, its parameters and its input are read, bytes are
    put into its output and error streams and flushed in any order, and it is finished.  What
    the web server gets is a sequence of records that carry what was put into either stream,
    the ends of the streams, and one record that ends the request. *)

From S2P Require Import Prelude FcgiFormat FcgiStream FcgiWriter FcgiReader FcgiRequest.
From Stdlib Require Import Init.Byte.

#[local] Open Scope c_scope.

(** ** An application *)

(** What it does to the streams it answers with; [true] is the error stream. *)
Inductive output :=
| Put (err : bool) (d : list byte)
| Flush (err : bool).

Definition on_stream (err : bool)
    (f : FCGX_Stream -> FCGX_Request -> M os (Z * (FCGX_Stream * FCGX_Request))) (q : request)
  : M os request :=
  match (if err then req_err q else req_out q) with
  | None => undef NullDeref
  | Some s =>
      let* '(_, (s, r)) := f s (req q) in
      ret (if err then Req r (req_in q) (req_out q) (Some s) (paramsPtr q)
           else Req r (req_in q) (Some s) (req_err q) (paramsPtr q))
  end.

Definition run_output (op : output) (q : request) : M os request :=
  match op with
  | Put err d => on_stream err (FCGX_PutStr d (Z.of_nat (length d))) q
  | Flush err => on_stream err FCGX_FFlush q
  end.

Fixpoint run_outputs (ops : list output) (q : request) : M os request :=
  match ops with
  | [] => ret q
  | op :: ops => let* q := run_output op q in run_outputs ops q
  end.

(** The bytes put into a stream. *)
Fixpoint put_to (err : bool) (ops : list output) : list byte :=
  match ops with
  | [] => []
  | Put e d :: ops => (if Bool.eqb e err then d else []) ++ put_to err ops
  | Flush _ :: ops => put_to err ops
  end.

(** ** Records of data *)

Definition stream_type (err : bool) : Z := if err then FCGI_STDERR else FCGI_STDOUT.

Definition answer_record (id : Z) (rec : frec) : Prop :=
  exists err, data_record (stream_type err) id rec.

Lemma stream_of_data ty ty' id rs :
  Forall (data_record ty id) rs ->
  stream_of ty' rs = if decide (ty = ty') then concat (map f_content rs) else [].
Proof.
  intros H. unfold stream_of. case_decide as Ht.
  - f_equal. f_equal. induction H as [|rec rs (E & _) _ IH]; [done|].
    rewrite filter_cons, decide_True by congruence. by f_equal.
  - induction H as [|rec rs (E & _) _ IH]; [done|]. rewrite filter_cons, decide_False by congruence. done.
Qed.

Lemma emits_stream err id d e :
  emits false (stream_type err) id d e ->
  exists rs, e = encode_records rs /\ Forall (answer_record id) rs /\ nonempty e = nonempty d /\
    stream_of (stream_type err) rs = d /\ stream_of (stream_type (negb err)) rs = [].
Proof.
  intros (rs & -> & Hrs & Hd). exists rs. split; [done|]. split; [|split].
  - eapply list.Forall_impl; [exact Hrs|]. intros rec Hr. by exists err.
  - subst d. destruct Hrs as [|rec rs (_ & _ & Hc & _) _]; [done|].
    cbn. destruct rec as [? ? [|] ?]; [done|]. done.
  - rewrite !(stream_of_data _ _ _ _ Hrs). rewrite decide_True by done. split; [done|].
    by rewrite decide_False by (by destruct err).
Qed.

(** ** A request that is being answered *)

Definition stream_at (err : bool) (q : request) : option FCGX_Stream :=
  if err then req_err q else req_out q.

(** The records that went out and what either stream still holds. *)
Record answering (r : FCGX_Request) (i : FCGX_Stream) (p : Params) (w0 : world os)
    (put : bool -> list byte) (q : request) (w : world os) : Prop := {
  an_req : req q = r;
  an_in : req_in q = Some i;
  an_params : paramsPtr q = Some p;
  an_ready : ready (ipcFd r) (w_ext w);
  an_wire : exists rs, sent (ipcFd r) (encode_records rs) w0 w /\
    Forall (answer_record (requestId r)) rs /\
    forall err, exists s d, stream_at err q = Some s /\
      stream_of (stream_type err) rs ++ d = put err /\
      holds (base false) false (stream_type err) (nonempty (stream_of (stream_type err) rs)) s d;
}.

Lemma wp_on_stream r i p w0 put err x f q w (Q : request -> world os -> Prop) :
  answering r i p w0 put q w ->
  (forall a s d (Q : Z * (FCGX_Stream * FCGX_Request) -> world os -> Prop),
     holds (base false) false (stream_type err) a s d -> ready (ipcFd r) (w_ext w) ->
     (forall z s' w', put_leaves false (stream_type err) a r (d ++ x) (stop s) w s' w' ->
        Q (z, (s', r)) w') -> wp (f s r) w Q) ->
  (forall q' w', answering r i p w0 (fun e => put e ++ (if Bool.eqb e err then x else [])) q' w' ->
     Q q' w') ->
  wp (on_stream err f q) w Q.
Proof.
  intros [Hreq Hin Hp Hr (rs & Hs & Hrs & Hst)] Hf HQ. unfold on_stream.
  destruct (Hst err) as (s & d & Es & Hput & Hh). fold (stream_at err q). rewrite Es. wp_step.
  rewrite Hreq. eapply Hf; [done|done|]. intros z s' w' (gone & e & d' & Hd & He & Hh' & _ & Hs').
  apply emits_stream in He as (rs' & -> & Hrs' & Hne & Hg & Hg').
  wp_step. apply HQ. constructor; try (by destruct err); [by eapply sent_ready|].
  exists (rs ++ rs'). rewrite encode_records_app. split; [by eapply sent_trans|].
  split; [by apply list.Forall_app|]. intros e. rewrite stream_of_app.
  destruct (Bool.eqb_spec e err) as [->|Hn].
  - exists s', d'. split; [by destruct err|]. rewrite Hg, <- app_assoc, <- Hd, app_assoc, Hput.
    split; [done|]. by rewrite nonempty_app, <- Hne.
  - assert (e = negb err) as -> by (by destruct e, err). destruct (Hst (negb err)) as (s2 & d2 & E2 & P2 & H2).
    exists s2, d2. rewrite Hg', app_nil_r, app_nil_r. split; [by destruct err|]. done.
Qed.

Lemma wp_run_output r i p w0 put op q w (Q : request -> world os -> Prop) :
  answering r i p w0 put q w ->
  (forall q' w', answering r i p w0 (fun e => put e ++ put_to e [op]) q' w' -> Q q' w') ->
  wp (run_output op q) w Q.
Proof.
  intros H HQ. destruct op as [err d|err]; cbn [run_output].
  - eapply (wp_on_stream _ _ _ _ _ err d); [exact H| |].
    + intros a s d0 Q' Hh Hr HQ'. eapply wp_PutStr; [done..|]. intros s' w'. apply HQ'.
    + intros q' w' H'. apply HQ. destruct H' as [G1 G2 G3 G4 (rs & G5 & G6 & G7)].
      constructor; try done. exists rs. split; [done|]. split; [done|]. intros e.
      destruct (G7 e) as (s & d' & E1 & E2 & E3). exists s, d'. split; [done|]. split; [|done].
      rewrite E2. cbn [put_to]. rewrite app_nil_r. by destruct e, err.
  - eapply (wp_on_stream _ _ _ _ _ err []); [exact H| |].
    + intros a s d0 Q' Hh Hr HQ'. rewrite app_nil_r in HQ'. eapply wp_FFlush; [done..|].
      intros s' w'. apply HQ'.
    + intros q' w' H'. apply HQ. destruct H' as [G1 G2 G3 G4 (rs & G5 & G6 & G7)].
      constructor; try done. exists rs. split; [done|]. split; [done|]. intros e.
      destruct (G7 e) as (s & d' & E1 & E2 & E3). exists s, d'. split; [done|]. split; [|done].
      rewrite E2. cbn [put_to]. by destruct (Bool.eqb e err).
Qed.

Lemma put_to_cons e op ops : put_to e (op :: ops) = put_to e [op] ++ put_to e ops.
Proof. destruct op; cbn; [by rewrite app_nil_r|done]. Qed.

Lemma answering_same r i p w0 put put' q w :
  (forall e, put e = put' e) -> answering r i p w0 put q w -> answering r i p w0 put' q w.
Proof.
  intros E [G1 G2 G3 G4 (rs & G5 & G6 & G7)]. constructor; try done. exists rs.
  split; [done|]. split; [done|]. intros e. rewrite <- E. apply G7.
Qed.

Lemma wp_run_outputs r i p w0 ops : forall put q w (Q : request -> world os -> Prop),
  answering r i p w0 put q w ->
  (forall q' w', answering r i p w0 (fun e => put e ++ put_to e ops) q' w' -> Q q' w') ->
  wp (run_outputs ops q) w Q.
Proof.
  induction ops as [|op ops IH]; intros put q w Q H HQ; cbn [run_outputs].
  - wp_step. apply HQ. eapply answering_same; [|exact H]. intros e. by rewrite app_nil_r.
  - wp_step. eapply wp_run_output; [exact H|]. intros q1 w1 H1. eapply IH; [exact H1|].
    intros q' w' H'. apply HQ. eapply answering_same; [|exact H'].
    intros e. by rewrite (put_to_cons e op ops), app_assoc.
Qed.

(** ** Finishing *)

(** What was written to a connection, which may have been closed then. *)
Definition delivered (fd : Z) (d : list byte) (close : bool) (o o' : os) : Prop :=
  exists c c', os_fds o !! fd = Some c /\ c_out c' = c_out c ++ d /\ c_in c' = c_in c /\
    o' = if close
         then Os (delete fd (os_fds o)) (os_queue o) (os_next_fd o) (shutdownPending o)
                (c' :: os_closed o)
         else with_fds (<[fd := c']> (os_fds o)) o.

(** The pieces of a request that are freed with it. *)
Definition request_blocks (p : Params) : Z := 9 + Z.of_nat (length (vec p)) + 2.

Lemma wp_Free r i out err p close fd d o0 w (Q : request -> world os -> Prop) :
  ipcFd r = fd -> fd <> -1 ->
  (exists c c', os_fds o0 !! fd = Some c /\ w_ext w = with_fds (<[fd := c']> (os_fds o0)) o0 /\
     c_out c' = c_out c ++ d /\ c_in c' = c_in c) ->
  (forall q' w', heap (- request_blocks p) w w' -> delivered fd d close o0 (w_ext w') ->
     q' = Req (if close then set_ipcFd (-1) r else r) None None None None -> Q q' w') ->
  wp (FCGX_Free (Req r (Some i) (Some out) (Some err) (Some p)) close) w Q.
Proof.
  intros Hfd Hn (c & c' & Hc & Hw & Ho & Hi) HQ. unfold FCGX_Free. cbn [req_in req_out req_err paramsPtr req].
  wp_step. apply wp_FreeStream. intros w1 F1. wp_step. apply wp_FreeStream. intros w2 F2.
  wp_step. apply wp_FreeStream. intros w3 F3. wp_step. apply wp_FreeParams. intros w4 F4.
  assert (frame (- request_blocks p) w w4) as F by (unfold request_blocks; solve_frame).
  assert (w_ext w4 = with_fds (<[fd := c']> (os_fds o0)) o0) as Hw4 by (by rewrite (frame_ext _ _ _ F)).
  destruct close.
  - wp_step. unfold OS_IpcClose, OS_Close. rewrite Hfd, (proj2 (Z.eqb_neq _ _)) by done.
    wp_step. wp_step. rewrite Hw4. unfold with_fds. cbn [os_fds]. rewrite lookup_insert_eq. wp_step.
    apply wp_put_ext. intros w5 E5 L5 A5 _. wp_step. wp_step. apply HQ; [| |done].
    + destruct F as (? & ? & ?). split; [lia|]. intros Hm. unfold mem_ok in *. rewrite A5. auto.
    + exists c, c'. split; [done|]. split; [done|]. split; [done|]. rewrite E5. cbn.
      by rewrite delete_insert_eq.
  - wp_step. apply HQ; [by apply frame_heap|by exists c, c'|done].
Qed.

(** What the server gets: records of the two streams, none of them empty, whose contents are
    what was put; behind the last one of the error stream its end, when anything was put into
    it; then what is left of the output, its end, and the record that ends the request. *)
Definition error_end (id : Z) (put : list byte) : list frec :=
  if nonempty put then [eof_record FCGI_STDERR id] else [].

Definition answer_of (r : FCGX_Request) (put : bool -> list byte) (rs : list frec) : Prop :=
  exists body rest,
    rs = body ++ error_end (requestId r) (put true) ++ rest ++
         [eof_record FCGI_STDOUT (requestId r); end_record r] /\
    Forall (answer_record (requestId r)) body /\
    Forall (data_record FCGI_STDOUT (requestId r)) rest /\
    stream_of FCGI_STDOUT body ++ concat (map f_content rest) = put false /\
    stream_of FCGI_STDERR body = put true.

Lemma answer_ends r put rs re ro wrote d_o de :
  nWriters r = 2 -> Forall (answer_record (requestId r)) rs ->
  Forall (data_record FCGI_STDERR (requestId r)) re -> concat (map f_content re) = de ->
  Forall (data_record FCGI_STDOUT (requestId r)) ro -> concat (map f_content ro) = d_o ->
  stream_of FCGI_STDOUT rs ++ d_o = put false -> stream_of FCGI_STDERR rs ++ de = put true ->
  answer_of r put ((rs ++ re ++ closing FCGI_STDERR r (nonempty (stream_of FCGI_STDERR rs) || nonempty de)) ++
    ro ++ closing FCGI_STDOUT (set_nWriters (nWriters r - 1) r) wrote).
Proof.
  intros Hn Hrs Hre <- Hro <- Ho He. unfold closing. rewrite Hn. cbn [Z.eqb].
  change (FCGI_STDOUT =? FCGI_STDERR) with false. change (nWriters (set_nWriters (2 - 1) r)) with 1.
  change (requestId (set_nWriters (2 - 1) r)) with (requestId r).
  change (end_record (set_nWriters (2 - 1) r)) with (end_record r). rewrite Z.eqb_refl, Z.eqb_refl.
  cbn [andb Z.eqb Pos.eqb app]. rewrite app_nil_r, <- nonempty_app, He.
  exists (rs ++ re), ro. split_and!.
  - rewrite <- !app_assoc. do 2 f_equal. unfold error_end. by destruct (nonempty (put true)).
  - apply list.Forall_app. split; [done|]. eapply list.Forall_impl; [exact Hre|].
    intros rec Hr. by exists true.
  - done.
  - by rewrite stream_of_app, (stream_of_data _ _ _ _ Hre), app_nil_r.
  - by rewrite stream_of_app, (stream_of_data _ _ _ _ Hre).
Qed.

Lemma wp_Finish_r r i p w0 put q w (Q : request -> world os -> Prop) :
  answering r i p w0 put q w -> nWriters r = 2 -> ipcFd r <> -1 -> FCGX_GetError i = 0 ->
  (forall rs w', let close := keepConnection r =? 0 in
     heap (- request_blocks p) w w' -> answer_of r put rs ->
     delivered (ipcFd r) (encode_records rs) close (w_ext w0) (w_ext w') ->
     Q (Req (if close then set_ipcFd (-1) (set_nWriters 0 r) else set_nWriters 0 r) None None None None) w') ->
  wp (FCGX_Finish_r q) w Q.
Proof.
  intros [Hreq Hin Hp Hr (rs & Hs & Hrs & Hst)] Hnw Hfd Hi HQ. unfold FCGX_Finish_r.
  rewrite Hreq, Hin, Hp. cbv zeta.
  destruct (Hst true) as (se & de & Ee & Pe & He). destruct (Hst false) as (so & d_o & Eo & Po & Ho).
  cbn [stream_at] in Ee, Eo. rewrite Ee, Eo. wp_step. wp_step.
  eapply (wp_FClose FCGI_STDERR); [exact He|done|]. intros se' re w1 Hce Hre Hde Hs1. wp_step.
  eapply (wp_FClose FCGI_STDOUT); [exact Ho|by eapply sent_ready|].
  intros so' ro w2 Hco Hro Hdo Hs2. wp_step. rewrite Z.eqb_refl, Hi. cbn [negb orb].
  rewrite Z.eqb_refl, !orb_false_r.
  pose proof (sent_trans _ _ _ _ _ _ (sent_trans _ _ _ _ _ _ Hs Hs1) Hs2) as [Hh Hall].
  rewrite <- !encode_records_app in Hall.
  pose proof (fun o => answer_ends r put rs re ro o d_o de Hnw Hrs Hre Hde Hro Hdo Po Pe) as Hans.
  destruct Hall as (c & c' & Hc & Hw & Hout & Hc_in & _).
  eapply (wp_Free _ _ _ _ p _ (ipcFd r)); [done|done|by exists c, c'|].
  assert (set_nWriters (nWriters (set_nWriters (nWriters r - 1) r) - 1) (set_nWriters (nWriters r - 1) r) =
    set_nWriters 0 r) as -> by (members; by rewrite Hnw).
  intros q' w' Hh' Hd ->. refine (HQ _ w' _ (Hans _) Hd).
  eapply heap_eq; [eapply heap_trans; [apply Hs1|eapply heap_trans; [apply Hs2|exact Hh']]|lia].
Qed.

(** ** From the connection to the answer *)

(** A system whose next connection delivers [wire] in some pieces and takes what is written. *)
Record will_connect (fl : Z) (wire : list byte) (c : connection) (rest : list accept_answer)
    (o : os) : Prop := {
  wc_queue : exists noise, os_queue o = noise ++ AcceptConn c :: rest /\
    Forall (passed_over (negb (Z.land fl FCGI_FAIL_ACCEPT_ON_INTR =? 0))) noise;
  wc_running : shutdownPending o = false;
  wc_fd : 0 <= os_next_fd o;
  wc_pieces : exists ls, c_in c = map inr ls /\ Forall (fun l => l <> []) ls /\ concat ls = wire;
  wc_takes : takes_all c;
}.

(** The request of a begin record on the connection [fd]. *)
Definition request_of (sock fl id : Z) (body : list byte) (fd : Z) : FCGX_Request :=
  Request id (role_of body) fd true (Z.land (b2z (nth 2 body x00)) FCGI_KEEP_CONN) 0 2 fl sock.

Lemma wp_accept_connect turns fuel q w (Q : Z * request -> world os -> Prop) :
  ipcFd (req q) < 0 ->
  wp (OS_Accept (negb (Z.land (flags (req q)) FCGI_FAIL_ACCEPT_ON_INTR =? 0))) w (fun fd w1 =>
    0 <= fd /\
    wp (accept_turns (S turns) fuel
          (Req (set_ipcFd fd (req q)) (req_in q) (req_out q) (req_err q) (paramsPtr q))) w1 Q) ->
  wp (accept_turns (S turns) fuel q) w Q.
Proof.
  intros Hfd H. cbn [accept_turns]. rewrite (proj2 (Z.ltb_lt _ _)) by done. wp_step.
  eapply wp_mono; [exact H|]. cbv beta. intros fd w1 [Hpos H1]. cbn [accept_turns] in H1.
  set (q1 := Req _ _ _ _ _) in H1. assert ((ipcFd (req q1) <? 0) = false) as E by (cbn; lia).
  rewrite E in H1. exact H1.
Qed.

(** A request without streams and without a connection, before its first use or after one whose
    connection was closed. *)
Definition idle_request (r : FCGX_Request) : request := Req r None None None None.

Lemma wp_Finish_idle r w (Q : request -> world os -> Prop) :
  ipcFd r = -1 -> (forall w', w' = w -> Q (idle_request r) w') -> wp (FCGX_Finish_r (idle_request r)) w Q.
Proof.
  intros Hfd HQ. unfold FCGX_Finish_r. cbn [req req_in idle_request]. wp_step. wp_step.
  unfold FCGX_Free. cbn [req req_in req_out req_err paramsPtr FCGX_FreeStream FreeParams idle_request].
  do 4 (wp_step; wp_step). destruct (keepConnection r =? 0); [|by apply HQ].
  wp_step. unfold OS_IpcClose, OS_Close. rewrite Hfd. change (-1 =? -1) with true. wp_steps.
  destruct r; cbn in Hfd; subst. by apply HQ.
Qed.

(** The request a begin record makes of an idle one: its status is kept. *)
Definition next_request (r : FCGX_Request) (id : Z) (body : list byte) (fd : Z) : FCGX_Request :=
  set_nWriters 2 (begun id body (set_isBeginProcessed false (set_ipcFd fd r))).

Lemma wp_Accept_idle turns fuel r id body str ps input tail wire c rest w
    (Q : Z * request -> world os -> Prop) :
  ipcFd r = -1 ->
  will_connect (flags r) wire c rest (w_ext w) -> on_wire id body str ps input tail wire ->
  (S (length wire) < fuel)%nat -> mem_ok w ->
  (forall q w', opened fuel (connected c rest (w_ext w))
       (next_request r id body (os_next_fd (w_ext w))) (environment str ps) input tail q w' ->
     heap (12 + Z.of_nat (length ps)) w w' -> Q (0, q) w') ->
  wp (FCGX_Accept_r (S turns) fuel (idle_request r)) w Q.
Proof.
  intros Hr [(noise & Hq & Hn) Hs Hfd (ls & Hin & Hne & <-) Ht] Hw Hfuel Hm HQ. unfold FCGX_Accept_r.
  wp_step. apply wp_Finish_idle; [done|]. intros w0 ->.
  apply wp_accept_connect; [cbn; lia|]. cbn [req flags set_ipcFd idle_request].
  eapply wp_OS_Accept; [exact Hq|exact Hn|exact Hs|]. intros w1 Hh1 E1. split; [done|].
  eapply wp_accept_open; [exact Hw| |done|done|by eapply heap_mem_ok|].
  - exists c. rewrite E1. cbn. by rewrite lookup_insert_eq.
  - intros q' w' Ho Hh. rewrite E1 in Ho. apply HQ; [exact Ho|].
    eapply heap_eq; [eapply heap_trans; [exact Hh1|exact Hh]|lia].
Qed.

Lemma wp_Accept_r turns fuel sock fl id body str ps input tail wire c rest w
    (Q : Z * request -> world os -> Prop) :
  will_connect fl wire c rest (w_ext w) -> on_wire id body str ps input tail wire ->
  (S (length wire) < fuel)%nat -> mem_ok w ->
  (forall q w', opened fuel (connected c rest (w_ext w))
       (request_of sock fl id body (os_next_fd (w_ext w))) (environment str ps) input tail q w' ->
     heap (12 + Z.of_nat (length ps)) w w' -> Q (0, q) w') ->
  wp (FCGX_Accept_r (S turns) fuel (FCGX_InitRequest sock fl)) w Q.
Proof. by apply (wp_Accept_idle turns fuel (Request 0 0 (-1) false 0 0 0 fl sock)). Qed.

(** Reading from the input of a request that was opened. *)
Lemma wp_read_input fuel o0 r env input tail q w n s
    (Q : list byte * (FCGX_Stream * FCGX_Request) -> world os -> Prop) :
  opened fuel o0 r env input tail q w -> req_in q = Some s -> requestId r <> 0 ->
  (forall s' w', FCGI_errno s' = 0 -> rcv (ipcFd r) o0 (w_ext w') -> ready (ipcFd r) (w_ext w') ->
     heap 0 w w' -> Q (take n input, (s', r)) w') ->
  wp (FCGX_GetStr (FillBuffProc fuel []) fuel (Z.of_nat n) s r) w Q.
Proof.
  intros [Hr _ _ (i & Ei & Hi) _ _] Es Hid HQ. assert (i = s) as -> by congruence.
  eapply (wp_GetStr (reading_source fuel FCGI_STDIN (requestId r) tail o0 ltac:(done) Hid) n input);
    [exact Hi|]. intros s' w' Hh Hg. unfold got in Hg. case_decide.
  - destruct Hg as (_ & Hrc & d & B & ls & c & p & cont2 & Hf & _ & Hst & _).
    apply HQ; [apply Hst|done| |done]. destruct Hf as (c0 & Hc0 & _ & _ & Ht). by exists c0.
  - destruct Hg as (_ & _ & Hrc & B & ls & p & Hf & _ & Hst & _).
    apply HQ; [apply Hst|done| |done]. destruct Hf as (c0 & Hc0 & _ & _ & Ht). by exists c0.
Qed.

(** Answering a request whose input was read, and finishing it. *)
Lemma wp_outputs_finish fuel o0 r0 env input tail q w1 r s' p ops w2
    (Q : request -> world os -> Prop) :
  opened fuel o0 r0 env input tail q w1 -> paramsPtr q = Some p -> ready (ipcFd r) (w_ext w2) ->
  FCGI_errno s' = 0 -> nWriters r = 2 -> ipcFd r <> -1 ->
  (forall rs w', let close := keepConnection r =? 0 in
     heap (- (11 + Z.of_nat (length env))) w2 w' -> answer_of r (fun e => put_to e ops) rs ->
     delivered (ipcFd r) (encode_records rs) close (w_ext w2) (w_ext w') ->
     Q (Req (if close then set_ipcFd (-1) (set_nWriters 0 r) else set_nWriters 0 r) None None None None) w') ->
  wp (run_outputs ops (Req r (Some s') (req_out q) (req_err q) (paramsPtr q))) w2
    (fun q w => wp (FCGX_Finish_r q) w Q).
Proof.
  intros [Hr He _ _ (so & Eo & Hso) (se & Ee & Hse)] Hp Hready Herr Hnw Hfd HQ.
  eapply (wp_run_outputs r s' p w2 ops (fun _ => [])).
  { constructor; [done|done|exact Hp|exact Hready|]. exists [].
    split; [by apply sent_nil|]. split; [done|]. intros []; eexists _, [];
      (split; [cbn [stream_at req_err req_out]; first [exact Ee|exact Eo]|]); by split. }
  intros q3 w3 H3. eapply wp_Finish_r; [exact H3|done|done|exact Herr|].
  intros rs w4 close Hh4 Hans Hd. apply (HQ rs); [|exact Hans|exact Hd].
  destruct H3 as [_ _ _ _ (rs3 & [Hh3 _] & _)]. unfold envp in He. rewrite Hp in He.
  eapply heap_eq; [eapply heap_trans; [exact Hh3|exact Hh4]|]. unfold request_blocks. rewrite He. lia.
Qed.

(** ** The properties *)

(** Accepting a request and reading [n] bytes of its input. *)
Definition accept_and_read (turns fuel n : nat) (sock fl : Z) : M os (Z * list byte * request) :=
  let* '(rc, q) := FCGX_Accept_r turns fuel (FCGX_InitRequest sock fl) in
  match req_in q with
  | None => undef NullDeref
  | Some s =>
      let* '(d, (s, r)) := FCGX_GetStr (FillBuffProc fuel []) fuel (Z.of_nat n) s (req q) in
      ret (rc, d, Req r (Some s) (req_out q) (req_err q) (paramsPtr q))
  end.

(** However the connection cuts up a begin record, parameters and input, and
    whatever [accept] returned before it, [FCGX_Accept_r] succeeds, the environment is the
    role and the parameters in their order, and [FCGX_GetStr] yields the input. *)
Theorem request_accepted turns fuel n sock fl id body str ps input tail wire c rest w :
  will_connect fl wire c rest (w_ext w) -> on_wire id body str ps input tail wire ->
  (S (length wire) < fuel)%nat -> mem_ok w ->
  wp (accept_and_read (S turns) fuel n sock fl) w (fun '(rc, d, q) w' =>
    rc = 0 /\ envp q = environment str ps /\ d = take n input /\
    req q = request_of sock fl id body (os_next_fd (w_ext w))).
Proof.
  intros Hc Hw Hfuel Hm. unfold accept_and_read. wp_step.
  eapply wp_Accept_r; [done..|]. intros q w1 Ho _. pose proof Ho as [Hr He Hp (s & Es & _) _ _].
  cbv beta iota. rewrite Es, Hr. wp_step.
  eapply wp_read_input; [exact Ho|exact Es|destruct Hw; cbn; lia|]. intros s' w2 _ _ _ _. wp_step.
  split; [done|]. split; [exact He|]. done.
Qed.

(** A request from end to end. *)
Definition exchange (turns fuel n : nat) (sock fl : Z) (ops : list output) (status : Z)
  : M os (list byte * request) :=
  let* '(_, d, q) := accept_and_read turns fuel n sock fl in
  let* q := run_outputs ops
    (Req (FCGX_SetExitStatus status (req q)) (req_in q) (req_out q) (req_err q) (paramsPtr q)) in
  let* q := FCGX_Finish_r q in
  ret (d, q).

(** What is left of the connection: it is closed unless the server asked to keep it. *)
Definition connection_after (close : bool) (fd : Z) (c : connection) (o o' : os) : Prop :=
  if close then os_fds o' = delete fd (os_fds o) /\ os_closed o' = c :: os_closed o
  else os_fds o' !! fd = Some c /\ os_closed o' = os_closed o.

Lemma connection_delivered c rest o o2 o4 d close :
  rcv (os_next_fd o) (connected c rest o) o2 -> delivered (os_next_fd o) d close o2 o4 ->
  exists c', c_out c' = c_out c ++ d /\ connection_after close (os_next_fd o) c' o o4.
Proof.
  intros (c0 & c1 & H1 & -> & H2 & _) (c2 & c3 & K1 & K2 & _ & ->). cbn in *.
  rewrite lookup_insert_eq in H1, K1. injection H1 as <-. injection K1 as <-.
  exists c3. split; [congruence|]. unfold connection_after. destruct close; cbn.
  - by rewrite !delete_insert_eq.
  - by rewrite lookup_insert_eq.
Qed.

(** C15 (refinement): on a connection that takes what is written, whatever is put into the
    output and the error stream and flushed, in any order, the server gets records of this
    request, none of them empty, whose contents are, stream by stream, the bytes that were put:
    first those of both streams, then the end of the error stream when anything was put into
    it, the rest of the output, the end of the output, and one record that ends the request
    with its status.  The connection is closed unless it is to be kept, and no memory is lost. *)
Theorem request_answered turns fuel n sock fl id body str ps input tail wire c rest ops status w :
  will_connect fl wire c rest (w_ext w) -> on_wire id body str ps input tail wire ->
  (S (length wire) < fuel)%nat -> mem_ok w ->
  wp (exchange (S turns) fuel n sock fl ops status) w (fun '(d, q) w' =>
    let r := set_appStatus status (request_of sock fl id body (os_next_fd (w_ext w))) in
    d = take n input /\ w_live w' = w_live w /\
    exists rs c', answer_of r (fun e => put_to e ops) rs /\ c_out c' = c_out c ++ encode_records rs /\
      connection_after (keepConnection r =? 0) (os_next_fd (w_ext w)) c' (w_ext w) (w_ext w')).
Proof.
  intros Hc Hw Hfuel Hm. unfold exchange, accept_and_read. wp_step. wp_step.
  eapply wp_Accept_r; [done..|]. intros q w1 Ho Hh1. pose proof Ho as [Hr He (p & Hp) (s & Es & _) _ _].
  cbv beta iota. rewrite Es, Hr. wp_step.
  eapply wp_read_input; [exact Ho|exact Es|destruct Hw; cbn; lia|].
  intros s' w2 Herr Hrc Hready Hh2. wp_step. wp_step.
  cbn [req req_in req_out req_err paramsPtr]. set (r := FCGX_SetExitStatus status _).
  eapply wp_mono; [eapply (wp_outputs_finish _ _ _ _ _ _ q w1 r s' p ops w2); [exact Ho|done..|destruct Hc; cbn; lia|]|].
  2: { intros q3 w3 H3. wp_step. exact H3. }
  intros rs w4 close Hh4 Hans Hd. cbv beta. wp_step. cbv zeta. split; [done|].
  destruct Hh1 as [Hl1 _], Hh2 as [Hl2 _], Hh4 as [Hl4 _]. split.
  { unfold environment in Hl4. cbn [length] in Hl4. rewrite length_map in Hl4. lia. }
  exists rs. eapply connection_delivered in Hd as (c' & Hout & Hafter); [|exact Hrc].
  exists c'. split; [exact Hans|]. by split.
Qed.

(** ** On a concrete connection *)

Definition sample_begin : list byte := [x00; x01; x01; x00; x00; x00; x00; x00].

Definition sample_params : list (list byte * list byte) := [(lit "PATH", lit "one"); (lit "Q", lit "xy")].

(** A request that keeps the connection: its parameters are cut in the middle of a pair, one
    length takes four bytes, and a record of another request stands in the input. *)
Definition sample_records_of (body : list byte) : list frec :=
  [FRec FCGI_BEGIN_REQUEST 1 body [];
   FRec FCGI_PARAMS 1 ([x04; x03] ++ lit "PATHone" ++ [x01; x80; x00; x00]) [x00; x00];
   FRec FCGI_PARAMS 1 ([x02] ++ lit "Qxy") [];
   FRec FCGI_PARAMS 1 [] [];
   FRec FCGI_STDIN 1 (lit "hello ") [x00; x00];
   FRec FCGI_STDIN 2 (lit "other") [x00; x00; x00];
   FRec FCGI_STDIN 1 (lit "world") [x00; x00; x00];
   FRec FCGI_STDIN 1 [] []].

Definition sample_wire_of (body : list byte) : list byte := encode_records (sample_records_of body).

Definition sample_wire : list byte := sample_wire_of sample_begin.

Definition sample_connection : connection :=
  Conn [inr (take 21 sample_wire); inr (drop 21 sample_wire)] [inr 5; inr 0; inr 100] [].

Definition sample_world : world os :=
  world0 (Os ∅ [AcceptFails ECONNABORTED; AcceptStranger; AcceptConn sample_connection] 7 false []).

Lemma sample_connects : will_connect 0 sample_wire sample_connection [] (w_ext sample_world).
Proof.
  constructor; [|done|done| |].
  - exists [AcceptFails ECONNABORTED; AcceptStranger]. split; [done|].
    repeat (apply list.Forall_cons; split); [by right|done|by apply list.Forall_nil].
  - exists [take 21 sample_wire; drop 21 sample_wire]. split; [done|]. split; [|by vm_compute].
    repeat (apply list.Forall_cons; split); [by vm_compute..|by apply list.Forall_nil].
  - unfold takes_all. repeat (apply list.Forall_cons; split); eauto.
Qed.

Ltac record_ok := unfold frec_ok; repeat split; by vm_compute.

Lemma sample_on_wire_of body : length body = 8%nat -> role_of body = FCGI_RESPONDER ->
  on_wire 1 body (lit "FCGI_ROLE=RESPONDER") sample_params (lit "hello world") [] (sample_wire_of body).
Proof.
  intros Hb Hr. constructor; [lia|done|by rewrite Hr|by unfold MAX_PARAMS; cbn; lia|].
  eexists _, _, _. split; [reflexivity|].
  assert (forall X Y : list byte, X = Y -> pairs_bytes sample_params X -> pairs_bytes sample_params Y) as Heq
    by (by intros ? ? ->).
  split; [|split].
  2: { eapply (carries_own _ _ _ _ _ _ _); [record_ok|done|]. eapply carries_own; [record_ok|done|].
       apply carries_end. record_ok. }
  2: { change (lit "hello world") with (lit "hello " ++ lit "world" ++ []).
       eapply carries_own; [record_ok|done|]. eapply carries_other; [record_ok|done..|].
       eapply carries_own; [record_ok|done|]. refine (carries_end _ _ [] [] _). record_ok. }
  eapply (Heq (([x04] ++ [x03] ++ lit "PATH" ++ lit "one") ++
    ([x01] ++ [x80; x00; x00; x02] ++ lit "Q" ++ lit "xy") ++ [])); [reflexivity|].
  apply pairs_cons; [|apply pairs_cons; [|apply pairs_nil]]; (split; [unfold INT_MAX; cbn; lia|]);
    eexists _, _; (split; [|split; [|reflexivity]]).
  - exact (length_short 4 ltac:(lia)).
  - exact (length_short 3 ltac:(lia)).
  - exact (length_short 1 ltac:(lia)).
  - exact (length_long 2 ltac:(lia)).
Qed.

Lemma sample_on_wire :
  on_wire 1 sample_begin (lit "FCGI_ROLE=RESPONDER") sample_params (lit "hello world") [] sample_wire.
Proof. by apply sample_on_wire_of. Qed.

Lemma request_accepted_witness :
  wp (accept_and_read 1 500 8 0 0) sample_world (fun '(rc, d, q) w' =>
    rc = 0 /\ envp q = environment (lit "FCGI_ROLE=RESPONDER") sample_params /\
    d = take 8 (lit "hello world") /\ req q = request_of 0 0 1 sample_begin 7).
Proof.
  apply (request_accepted 0 500 8 0 0 1 sample_begin (lit "FCGI_ROLE=RESPONDER") sample_params
    (lit "hello world") [] sample_wire sample_connection [] sample_world).
  - apply sample_connects.
  - apply sample_on_wire.
  - vm_compute. lia.
  - done.
Defined.

Definition sample_outputs : list output :=
  [Put false (lit "Content-Type: text/plain"); Put true (lit "warning"); Flush false;
   Put false (lit "hi"); Flush true].

Lemma request_answered_witness :
  wp (exchange 1 500 20 0 0 sample_outputs 3) sample_world (fun '(d, q) w' =>
    let r := set_appStatus 3 (request_of 0 0 1 sample_begin 7) in
    d = lit "hello world" /\ w_live w' = w_live sample_world /\
    exists rs c', answer_of r (fun e => put_to e sample_outputs) rs /\
      c_out c' = c_out sample_connection ++ encode_records rs /\
      connection_after (keepConnection r =? 0) 7 c' (w_ext sample_world) (w_ext w')).
Proof.
  apply (request_answered 0 500 20 0 0 1 sample_begin (lit "FCGI_ROLE=RESPONDER") sample_params
    (lit "hello world") [] sample_wire sample_connection [] sample_outputs 3 sample_world).
  - apply sample_connects.
  - apply sample_on_wire.
  - vm_compute. lia.
  - done.
Defined.
