(* ===== verification/FcgiEnds.v ===== *)
(** * Reading FastCGI streams comes to an end (loungeact_fastcgi/fcgiapp.c)

    Whatever a connection delivers, be it no FastCGI at all, reading from it is no endless
    loop: every turn of [FillBuffProc] uses up bytes of the buffer or the connection, or ends
    the stream, also in the calls it makes of itself to read the content of a record.  Runs
    may still be undefined for other reasons; that they do not run for ever is what this file
    shows. *)

From S2P Require Import Prelude FcgiFormat FcgiStream FcgiWriter FcgiReader FcgiRequest.
From Stdlib Require Import Init.Byte.

#[local] Open Scope c_scope.

(** ** Runs that end *)

(** The run of [m] from [w] ends, and when it is defined its result satisfies [Q]. *)
Definition ends {X A} (m : M X A) (w : world X) (Q : A -> world X -> Prop) : Prop :=
  match m w with Ret (a, w') => Q a w' | Undef u => u <> Diverges end.

(** A computation without effects never loops. *)
Definition bounded {A} (o : outcome A) : Prop := o <> Undef Diverges.

Section rules.
Context {X : Type}.
Implicit Types w : world X.

Lemma ends_bind {A B} (m : M X A) (k : A -> M X B) w Q :
  ends m w (fun a w' => ends (k a) w' Q) -> ends (bind m k) w Q.
Proof. unfold ends, bind. by destruct (m w) as [[a w']|]. Qed.

Lemma ends_ret {A} (a : A) w (Q : A -> world X -> Prop) : Q a w -> ends (ret a) w Q.
Proof. done. Qed.

Lemma ends_mono {A} (m : M X A) w (Q Q' : A -> world X -> Prop) :
  ends m w Q -> (forall a w', Q a w' -> Q' a w') -> ends m w Q'.
Proof. unfold ends. destruct (m w) as [[a w']|]; auto. Qed.

Lemma ends_lift {A} (o : outcome A) w (Q : A -> world X -> Prop) :
  bounded o -> (forall a, o = Ret a -> Q a w) -> ends (lift o) w Q.
Proof. unfold bounded, ends, lift. destruct o; [auto|congruence]. Qed.

Lemma ends_value {A} (a : A) w (Q : A -> world X -> Prop) : Q a w -> ends (lift (Ret a)) w Q.
Proof. done. Qed.

Lemma ends_undef {A} u w (Q : A -> world X -> Prop) : u <> Diverges -> ends (undef u) w Q.
Proof. done. Qed.

Lemma ends_free w (Q : unit -> world X -> Prop) :
  (forall w', w_ext w' = w_ext w -> Q tt w') -> ends free w Q.
Proof. intros H. by apply H. Qed.

Lemma ends_realloc b n w (Q : option (list byte) -> world X -> Prop) :
  (forall p w', w_ext w' = w_ext w -> Q p w') -> ends (realloc b n) w Q.
Proof. intros H. by apply H. Qed.

Lemma ends_Malloc_length n w (Q : list byte -> world X -> Prop) :
  0 < n -> (forall b w', Z.of_nat (length b) = n -> w_ext w' = w_ext w -> Q b w') -> ends (Malloc n) w Q.
Proof.
  intros Hn H. unfold Malloc. apply ends_bind. unfold ends at 1, malloc.
  destruct (alloc_result n w); [apply ends_ret, H; [unfold junk_block; rewrite length_map, length_seq; lia|done]|].
  rewrite (proj2 (Z.eqb_neq _ _)) by lia. done.
Qed.

Lemma ends_Malloc n w (Q : list byte -> world X -> Prop) :
  (forall b w', w_ext w' = w_ext w -> Q b w') -> ends (Malloc n) w Q.
Proof.
  intros H. unfold Malloc. apply ends_bind. unfold ends at 1, malloc.
  destruct (alloc_result n w); [by apply H|]. apply ends_bind, ends_lift; [by unfold assert_that; case_match|].
  intros _ _. by apply H.
Qed.
End rules.

Lemma bounded_bind {A B} (o : outcome A) (k : A -> outcome B) :
  bounded o -> (forall a, o = Ret a -> bounded (k a)) -> bounded (obind o k).
Proof. unfold bounded. destruct o as [a|u]; cbn; [intros _ H; by apply H|congruence]. Qed.

Lemma bounded_read b i n : bounded (mem_read b i n).
Proof. unfold mem_read. by case_match. Qed.

Lemma bounded_write b i d : bounded (mem_write b i d).
Proof. unfold mem_write. by case_match. Qed.

Lemma bounded_add a b : bounded (add_int a b).
Proof. unfold add_int. by case_match. Qed.

Lemma bounded_assert b : bounded (assert_that b).
Proof. unfold assert_that. by case_match. Qed.

Lemma bounded_cstr b : bounded (cstr b).
Proof.
  unfold bounded. induction b as [|x b IH]; cbn; [done|]. case_match; [done|]. by destruct (cstr b).
Qed.

Create HintDb ends.
#[export] Hint Resolve bounded_read bounded_write bounded_add bounded_assert bounded_cstr : ends.

(** One step of a run that is shown to end. *)
Ltac ends_step :=
  lazymatch goal with
  | |- ends (bind _ _) _ _ => apply ends_bind
  | |- ends (ret _) _ _ => apply ends_ret
  | |- ends (undef _) _ _ => by apply ends_undef
  | |- ends free _ _ => apply ends_free; intros ? ?
  | |- ends (Malloc _) _ _ => apply ends_Malloc; intros ? ? ?
  | |- ends (lift (Ret _)) _ _ => apply ends_value
  | |- ends (lift _) _ _ => apply ends_lift; [by auto with ends|intros ? ?]
  end.

(** ** What a reader has still to take *)

(** The bytes a connection will deliver. *)
Definition pending (fd : Z) (o : os) : Z :=
  match os_fds o !! fd with
  | Some c => Z.of_nat (length (concat (map (fun x => match x with inl _ => [] | inr l => l end) (c_in c))))
  | None => 0
  end.

Definition left_in (s : FCGX_Stream) : Z := buffStop (data s) - rdNext s.

(** Bytes in the buffer and bytes to come. *)
Definition left_over (s : FCGX_Stream) (r : FCGX_Request) (w : world os) : Z :=
  left_in s + pending (ipcFd r) (w_ext w).

(** The buffer of a reader; [rbounds] holds inside of [FillBuffProc] too. *)
Definition rbounds (s : FCGX_Stream) : Prop :=
  0 <= rdNext s <= buffStop (data s) /\ buffStop (data s) <= bufflen s /\ 0 < bufflen s.

Definition rbounded (s : FCGX_Stream) : Prop :=
  rbounds s /\ (isClosed s = true \/ rdNext s <= stop s <= buffStop (data s)).

Lemma pending_nonneg fd o : 0 <= pending fd o.
Proof. unfold pending. case_match; lia. Qed.

Lemma left_nonneg s r w : rbounds s -> 0 <= left_over s r w.
Proof. intros (? & ? & ?). pose proof (pending_nonneg (ipcFd r) (w_ext w)). unfold left_over, left_in. lia. Qed.

Lemma ends_OS_Read fd n w (Q : Z * list byte -> world os -> Prop) :
  0 < n ->
  (forall count d w', pending fd (w_ext w') + Z.max 0 count <= pending fd (w_ext w) ->
     (0 < count -> count = Z.of_nat (length d) /\ count <= n) -> Q (count, d) w') ->
  ends (OS_Read fd n) w Q.
Proof.
  intros Hn HQ. unfold OS_Read, on_fd, pending in *. cbn [shutdownNow].
  unfold ends, bind, get_ext, put_ext, set_errno, ret.
  destruct (os_fds (w_ext w) !! fd) as [c|] eqn:Hc; cbn; [|apply HQ; cbn; rewrite ?Hc; lia].
  unfold conn_read. destruct (c_in c) as [|[e|l] rest] eqn:Ei; cbn.
  - apply HQ; cbn; [|lia]. rewrite lookup_insert_eq. cbn. rewrite Ei. cbn. lia.
  - apply HQ; cbn; [|lia]. rewrite lookup_insert_eq. cbn. lia.
  - apply HQ; cbn.
    + rewrite lookup_insert_eq. cbn. rewrite length_take, length_app.
      destruct (Z.ltb_spec n (Z.of_nat (length l))); cbn; rewrite ?length_app, ?length_drop; lia.
    + intros _. rewrite length_take. lia.
Qed.

(** Answers of a write. *)
Lemma ends_OS_Write fd d w (Q : Z -> world os -> Prop) :
  (forall k w', pending fd (w_ext w') = pending fd (w_ext w) ->
     k < 0 \/ (0 <= k <= Z.of_nat (length d) /\
       (k = Z.of_nat (length d) \/ (write_fuel fd (w_ext w') < write_fuel fd (w_ext w))%nat)) ->
     Q k w') ->
  ends (OS_Write fd d) w Q.
Proof.
  intros HQ. unfold OS_Write, on_fd, pending, write_fuel in *. cbn [shutdownNow].
  unfold ends, bind, get_ext, put_ext, set_errno, ret.
  destruct (os_fds (w_ext w) !! fd) as [c|] eqn:Hc; cbn; [|apply HQ; [cbn; by rewrite ?Hc|left; cbn; lia]].
  unfold conn_write. destruct (c_takes c) as [|[e|k] rest] eqn:Ei; cbn;
    (apply HQ; cbn; [by rewrite lookup_insert_eq|]); [right; lia|left; lia|right].
  split; [lia|right]. rewrite lookup_insert_eq. cbn. lia.
Qed.

Lemma ends_write_loop fd fuel : forall d w (Q : Z -> world os -> Prop),
  (write_fuel fd (w_ext w) <= fuel)%nat ->
  (forall rc w', pending fd (w_ext w') = pending fd (w_ext w) -> Q rc w') ->
  ends (write_loop fuel fd d) w Q.
Proof.
  induction fuel as [|fuel IH]; intros [|x d] w Q Hf HQ; cbn [write_loop]; try (ends_step; by apply HQ).
  - unfold write_fuel in Hf. case_match; lia.
  - ends_step. apply ends_OS_Write. intros k w1 Hp Hk. destruct (Z.ltb_spec k 0); [ends_step; by apply HQ|].
    destruct Hk as [?|(Hk & [->|Hlt])]; [lia| |].
    + rewrite Nat2Z.id, drop_all. destruct fuel; cbn [write_loop]; ends_step; by apply HQ.
    + apply IH; [lia|]. intros rc w' Hp'. apply HQ. congruence.
Qed.

Lemma ends_write_it_all fd d w (Q : Z -> world os -> Prop) :
  (forall rc w', pending fd (w_ext w') = pending fd (w_ext w) -> Q rc w') ->
  ends (write_it_all fd d) w Q.
Proof. intros HQ. unfold write_it_all. ends_step. by apply ends_write_loop. Qed.

(** ** Taking bytes through a procedure that fills the buffer *)

(** What is known of a reader after a step from [l0] bytes that are left over. *)
Definition taken (l0 : Z) (fd : Z) (s : FCGX_Stream) (r : FCGX_Request) (w : world os) : Prop :=
  rbounded s /\ ipcFd r = fd /\ left_over s r w <= l0.

Definition fills (l0 fd : Z) (s : FCGX_Stream) (r : FCGX_Request) (w : world os) : Prop :=
  taken l0 fd s r w /\ (isClosed s = true \/ rdNext s < stop s \/ left_over s r w < l0).

Lemma left_world s r w w' : pending (ipcFd r) (w_ext w') = pending (ipcFd r) (w_ext w) ->
  left_over s r w' = left_over s r w.
Proof. unfold left_over. by intros ->. Qed.

Lemma rbounded_error s e : rbounds s -> rbounded (SetError s e).
Proof. intros H. unfold SetError. case_match; (split; [exact H|by left]). Qed.

Lemma left_error s e r w : left_over (SetError s e) r w = left_over s r w.
Proof. unfold SetError. by case_match. Qed.

Lemma get_bytes_ends m s : rbounds s -> 0 <= m <= left_in s ->
  exists d, get_bytes m s = Ret (d, set_rdNext (rdNext s + m) s) /\ Z.of_nat (length d) = m.
Proof.
  intros (? & ? & ?) Hm. unfold left_in in *. unfold get_bytes, bufflen in *. rewrite mem_read_ok by lia.
  eexists. split; [reflexivity|]. rewrite length_take, length_drop. lia.
Qed.

Section taking.
Context (fill : FCGX_Stream -> FCGX_Request -> run) (most : Z).
Hypothesis (Hfill : forall s r w, rbounded s -> isClosed s = false -> left_over s r w <= most ->
  ends (fill s r) w (fun '(s', r') w' => fills (left_over s r w) (ipcFd r) s' r' w')).

Lemma taken_advance m s r w :
  rbounded s -> isClosed s = false -> 0 <= m <= stop s - rdNext s ->
  taken (left_over s r w - m) (ipcFd r) (set_rdNext (rdNext s + m) s) r w /\
  exists d, get_bytes m s = Ret (d, set_rdNext (rdNext s + m) s) /\ Z.of_nat (length d) = m.
Proof.
  intros [Hb [?|Hs]] Hc Hm; [congruence|]. split.
  - unfold taken, rbounded, rbounds, left_over, left_in in *. members. split_and!; lia.
  - apply get_bytes_ends; [done|]. unfold left_in. lia.
Qed.

Lemma next_char_ends s r w (Q : Z * (FCGX_Stream * FCGX_Request) -> world os -> Prop) :
  rbounded s -> isClosed s = false -> rdNext s <> stop s ->
  (forall s' x, taken (left_over s r w - 1) (ipcFd r) s' r w -> Q (b2z x, (s', r)) w) ->
  ends (next_char s r) w Q.
Proof.
  intros Hb Hc Hn HQ. unfold next_char. pose proof Hb as [_ [?|Hs]]; [congruence|].
  destruct (taken_advance 1 s r w Hb Hc ltac:(lia)) as (Ht & d & -> & Hd).
  ends_step. ends_step. ends_step. by apply HQ.
Qed.

Lemma GetChar_ends s r w (Q : Z * (FCGX_Stream * FCGX_Request) -> world os -> Prop) :
  rbounded s -> left_over s r w <= most ->
  (forall c s' r' w', taken (left_over s r w) (ipcFd r) s' r' w' ->
     c = EOF \/ left_over s' r' w' < left_over s r w -> Q (c, (s', r')) w') ->
  ends (FCGX_GetChar fill s r) w Q.
Proof.
  intros Hb Hl HQ. unfold FCGX_GetChar.
  destruct (isClosed s) eqn:Hc; cbn [orb]; [ends_step; apply HQ; [by split_and!|by left]|].
  destruct (isReader s) eqn:Hi; cbn [orb negb]; [|ends_step; apply HQ; [by split_and!|by left]].
  destruct (Z.eqb_spec (rdNext s) (stop s)) as [He|Hn]; cbn [negb].
  - ends_step. eapply ends_mono; [by apply Hfill|]. intros [s1 r1] w1 [(Hb1 & Hr1 & Hl1) Hp].
    destruct (isClosed s1) eqn:Hc1; [ends_step; apply HQ; [by split_and!|by left]|].
    change (rdNext (set_stopUnget _ s1)) with (rdNext s1). change (stop (set_stopUnget _ s1)) with (stop s1).
    destruct (Z.eqb_spec (rdNext s1) (stop s1)) as [He1|Hn1]; cbn [negb].
    + ends_step. ends_step. ends_step. apply HQ; [by split_and!|by left].
    + apply next_char_ends; [exact Hb1|done|done|]. intros s2 x (Hb2 & Hr2 & Hl2).
      change (left_over (set_stopUnget _ s1) r1 w1) with (left_over s1 r1 w1) in Hl2.
      apply HQ; [split_and!; [done|congruence|lia]|right; lia].
  - apply next_char_ends; [done..|]. intros s2 x (Hb2 & Hr2 & Hl2).
    apply HQ; [split_and!; [done..|lia]|right; lia].
Qed.

Lemma get_loop_ends gas : forall n str s r w
    (Q : list byte * (FCGX_Stream * FCGX_Request) -> world os -> Prop),
  rbounded s -> isClosed s = false -> left_over s r w <= most -> Z.of_nat (length str) < n ->
  left_over s r w + (if decide (rdNext s = stop s) then 1 else 0) < Z.of_nat gas ->
  (forall d s' r' w', taken (left_over s r w) (ipcFd r) s' r' w' ->
     isClosed s' = false \/ Z.of_nat (length d) < n -> Q (d, (s', r')) w') ->
  ends (get_loop fill gas n str s r) w Q.
Proof.
  induction gas as [|gas IH]; intros n str s r w Q Hb Hc Hl Hn Hg HQ.
  { pose proof (left_nonneg s r w (proj1 Hb)). case_decide; lia. }
  cbn [get_loop].
  assert (forall str s, rbounded s -> isClosed s = false -> left_over s r w <= most ->
    rdNext s = stop s -> left_over s r w < Z.of_nat gas -> Z.of_nat (length str) < n ->
    (forall d s' r' w', taken (left_over s r w) (ipcFd r) s' r' w' ->
       isClosed s' = false \/ Z.of_nat (length d) < n -> Q (d, (s', r')) w') ->
    ends (if isClosed s || negb (isReader s) then ret (str, (s, r))
          else let* '(s, r) := fill s r in
               if isClosed s then ret (str, (s, r))
               else get_loop fill gas n str (set_stopUnget (rdNext s) s) r) w Q) as Hnext.
  { clear str s Hb Hc Hl Hn Hg HQ. intros str s Hb Hc Hl He Hg Hn HQ. rewrite Hc. cbn [orb].
    destruct (isReader s); cbn [negb]; [|ends_step; apply HQ; [by split_and!|by right]].
    ends_step. eapply ends_mono; [by apply Hfill|]. intros [s1 r1] w1 [(Hb1 & Hr1 & Hl1) Hp].
    destruct (isClosed s1) eqn:Hc1; [ends_step; apply HQ; [by split_and!|by right]|].
    eapply IH; [exact Hb1|done| |done| |].
    - change (left_over s1 r1 w1 <= most). lia.
    - change (left_over s1 r1 w1 + (if decide (rdNext s1 = stop s1) then 1 else 0) < Z.of_nat gas).
      destruct Hp as [?|[?|?]]; [congruence| |]; case_decide; lia.
    - intros d s' r' w' (Hb' & Hr' & Hl'). change (left_over s' r' w' <= left_over s1 r1 w1) in Hl'.
      apply HQ. split_and!; [done|congruence|lia]. }
  destruct (Z.eqb_spec (rdNext s) (stop s)) as [He|Hne]; cbn [negb].
  - apply Hnext; try done. rewrite decide_True in Hg by done. lia.
  - pose proof Hb as [_ [?|Hs]]; [congruence|].
    set (m := Z.min (n - Z.of_nat (length str)) (stop s - rdNext s)).
    destruct (taken_advance m s r w Hb Hc ltac:(lia)) as ((Hb1 & _ & Hl1) & d & -> & Hd).
    ends_step. ends_step. destruct (Z.eqb_spec (Z.of_nat (length str) + m) n) as [Hm|Hm].
    + ends_step. apply HQ; [split_and!; [done..|lia]|by left].
    + apply Hnext; [done|done|lia|members; lia| |rewrite length_app; lia|].
      * rewrite decide_False in Hg by done. lia.
      * intros d' s' r' w' (Hb' & Hr' & Hl'). apply HQ. split_and!; [done..|lia].
Qed.

Lemma GetStr_ends gas n s r w (Q : list byte * (FCGX_Stream * FCGX_Request) -> world os -> Prop) :
  rbounded s -> left_over s r w <= most -> left_over s r w + 1 < Z.of_nat gas ->
  (forall d s' r' w', taken (left_over s r w) (ipcFd r) s' r' w' ->
     isClosed s' = false \/ Z.of_nat (length d) < n \/ n <= 0 -> Q (d, (s', r')) w') ->
  ends (FCGX_GetStr fill gas n s r) w Q.
Proof.
  intros Hb Hl Hg HQ. unfold FCGX_GetStr.
  destruct (Z.leb_spec n 0) as [Hn|Hn].
  { rewrite orb_true_r. ends_step. apply HQ; [by split_and!|lia]. }
  destruct (isClosed s) eqn:Hc; cbn [orb]; [ends_step; apply HQ; [by split_and!|cbn; lia]|].
  destruct (isReader s); cbn [orb negb]; [|ends_step; apply HQ; [by split_and!|cbn; lia]].
  destruct (Z.leb_spec n (stop s - rdNext s)) as [Hle|Hgt].
  - destruct (taken_advance n s r w Hb Hc ltac:(lia)) as ((Hb1 & _ & Hl1) & d & -> & Hd).
    ends_step. ends_step. ends_step. apply HQ; [split_and!; [done..|lia]|by left].
  - apply get_loop_ends; [done..|case_decide; lia|]. intros d s' r' w' Ht Hd. apply HQ; [done|].
    destruct Hd; auto.
Qed.

Lemma taken_weaken l l' fd s r w : taken l fd s r w -> l <= l' -> taken l' fd s r w.
Proof. intros (? & ? & ?) ?. split_and!; [done..|lia]. Qed.

Lemma taken_then l fd s r w l' s' r' w' :
  taken l fd s r w -> taken l' (ipcFd r) s' r' w' -> l' <= l -> taken l fd s' r' w'.
Proof. intros (? & ? & ?) (? & ? & ?) ?. split_and!; [done|congruence|lia]. Qed.

Lemma taken_error l fd s r w e : taken l fd s r w -> taken l fd (SetError s e) r w.
Proof.
  intros (Hb & ? & ?). split_and!; [apply rbounded_error, Hb|done|by rewrite left_error].
Qed.

Lemma taken_world l fd s r w w' :
  taken l fd s r w -> pending (ipcFd r) (w_ext w') = pending (ipcFd r) (w_ext w) -> taken l fd s r w'.
Proof. intros (? & ? & ?) Hp. split_and!; [done|done|by rewrite (left_world s r w w' Hp)]. Qed.

Lemma read_length_ends gas c s r w (Q : option Z * (FCGX_Stream * FCGX_Request) -> world os -> Prop) :
  rbounded s -> left_over s r w <= most -> left_over s r w + 1 < Z.of_nat gas ->
  (forall n s' r' w', taken (left_over s r w) (ipcFd r) s' r' w' -> Q (n, (s', r')) w') ->
  ends (read_length fill gas c s r) w Q.
Proof.
  intros Hb Hl Hg HQ. unfold read_length. case_match; [|ends_step; by apply HQ].
  ends_step. apply GetStr_ends; [done..|]. intros d s' r' w' Ht _.
  repeat case_match; ends_step; apply HQ; by try apply taken_error.
Qed.

Lemma read_pair_ends gas a b s r w
    (Q : option (list byte) * (FCGX_Stream * FCGX_Request) -> world os -> Prop) :
  rbounded s -> left_over s r w <= most -> left_over s r w + 1 < Z.of_nat gas ->
  (forall n s' r' w', taken (left_over s r w) (ipcFd r) s' r' w' -> Q (n, (s', r')) w') ->
  ends (read_pair fill gas a b s r) w Q.
Proof.
  intros Hb Hl Hg HQ. unfold read_pair. ends_step.
  apply ends_lift; [apply bounded_bind; [auto with ends|intros; auto with ends]|]. intros n _.
  ends_step. apply ends_Malloc. intros blk w1 E1.
  assert (left_over s r w1 = left_over s r w) as El by (apply left_world; by rewrite E1).
  rewrite <- El in Hl, Hg.
  assert (forall s' r' w', taken (left_over s r w) (ipcFd r) s' r' w' ->
    ends (free ;;; ret (None, (SetError s' FCGX_PARAMS_ERROR, r'))) w' Q) as Hfail.
  { intros s3 r3 w3 Ht3. ends_step. apply ends_free. intros w4 E4. ends_step.
    apply HQ, taken_error. eapply taken_world; [exact Ht3|by rewrite E4]. }
  ends_step. apply GetStr_ends; [done..|]. intros d s2 r2 w2 Ht2 _. rewrite El in *.
  pose proof Ht2 as (Hb2 & Hr2 & Hl2). ends_step. ends_step.
  case_match; [by apply Hfail|]. ends_step. ends_step. ends_step.
  apply GetStr_ends; [done|lia|lia|]. intros v s3 r3 w3 Ht3 _.
  assert (taken (left_over s r w) (ipcFd r) s3 r3 w3) as Ht by (by eapply taken_then).
  ends_step. ends_step. case_match; [by apply Hfail|]. ends_step. ends_step. ends_step. by apply HQ.
Qed.

Lemma PutParam_ends p nv w (Q : Params -> world os -> Prop) :
  (forall p' w', w_ext w' = w_ext w -> Q p' w') -> ends (PutParam p nv) w Q.
Proof.
  intros HQ. unfold PutParam. case_match; [ends_step|]. case_match; [|ends_step; by apply HQ].
  ends_step. ends_step. ends_step. apply ends_realloc. intros q w1 E1.
  destruct q; [|ends_step]. case_match; ends_step. by apply HQ.
Qed.

Lemma params_loop_ends gas : forall turns p s r w
    (Q : Z * Params * (FCGX_Stream * FCGX_Request) -> world os -> Prop),
  rbounded s -> left_over s r w <= most -> left_over s r w + 1 < Z.of_nat gas ->
  left_over s r w < Z.of_nat turns ->
  (forall rc p' s' r' w', taken (left_over s r w) (ipcFd r) s' r' w' -> Q (rc, p', (s', r')) w') ->
  ends (params_loop fill gas turns p s r) w Q.
Proof.
  induction turns as [|turns IH]; intros p s r w Q Hb Hl Hg Ht HQ.
  { pose proof (left_nonneg s r w (proj1 Hb)). lia. }
  cbn [params_loop]. ends_step. apply GetChar_ends; [done..|]. intros c s1 r1 w1 T1 Hc.
  pose proof T1 as (Hb1 & Hr1 & Hl1). destruct (Z.eqb_spec c EOF); [ends_step; by apply HQ|].
  destruct Hc as [?|Hc]; [done|]. ends_step.
  apply read_length_ends; [done|lia|lia|]. intros nl s2 r2 w2 T2. pose proof T2 as (Hb2 & Hr2 & Hl2).
  destruct nl as [nl|]; [|ends_step; apply HQ; by eapply taken_then].
  ends_step. apply GetChar_ends; [done|lia|]. intros c2 s3 r3 w3 T3 _. pose proof T3 as (Hb3 & Hr3 & Hl3).
  assert (taken (left_over s1 r1 w1) (ipcFd r1) s3 r3 w3) as T13 by (eapply taken_then; [done|done|lia]).
  case_match; [ends_step; apply HQ, taken_error; by eapply taken_then|].
  ends_step. apply read_length_ends; [done|lia|lia|]. intros vl s4 r4 w4 T4. pose proof T4 as (Hb4 & Hr4 & Hl4).
  assert (taken (left_over s1 r1 w1) (ipcFd r1) s4 r4 w4) as T14 by (eapply taken_then; [done|done|lia]).
  destruct vl as [vl|]; [|ends_step; apply HQ; by eapply taken_then].
  ends_step. apply read_pair_ends; [done|lia|lia|]. intros nv s5 r5 w5 T5. pose proof T5 as (Hb5 & Hr5 & Hl5).
  assert (taken (left_over s1 r1 w1) (ipcFd r1) s5 r5 w5) as T15 by (eapply taken_then; [done|done|lia]).
  destruct nv as [nv|]; [|ends_step; apply HQ; by eapply taken_then].
  ends_step. apply PutParam_ends. intros p' w6 E6.
  assert (left_over s5 r5 w6 = left_over s5 r5 w5) as El by (apply left_world; by rewrite E6).
  apply IH; [done|lia|lia|lia|]. intros rc p2 s7 r7 w7 T7. apply HQ.
  eapply taken_then; [exact T1|eapply taken_then; [eapply taken_world; [exact T15|by rewrite E6]|exact T7|lia]|lia].
Qed.

(** ** Records that are not the stream's *)

Lemma respond_ends d status s r w (Q : Z * (FCGX_Stream * FCGX_Request) -> world os -> Prop) :
  rbounded s ->
  (forall st s' w', taken (left_over s r w) (ipcFd r) s' r w' -> st = status \/ st = -1 ->
     Q (st, (s', r)) w') ->
  ends (respond d status s r) w Q.
Proof.
  intros Hb HQ. unfold respond. ends_step. apply ends_write_it_all. intros rc w1 Hp.
  assert (taken (left_over s r w) (ipcFd r) s r w1) as T by (eapply taken_world; [by split_and!|done]).
  case_match; [|ends_step; apply HQ; auto]. ends_step. unfold OS_Errno. unfold ends at 1.
  ends_step. apply HQ; [by apply taken_error|auto].
Qed.

Lemma FreeParams_ends p w (Q : unit -> world os -> Prop) :
  (forall w', w_ext w' = w_ext w -> Q tt w') -> ends (FreeParams (Some p)) w Q.
Proof.
  cbn [FreeParams]. generalize (vec p) as v. intros v. revert w.
  induction v as [|x v IH]; intros w HQ; cbn [fold_right]; ends_step; apply ends_free; intros w1 E1.
  - apply ends_free. intros w2 E2. apply HQ. congruence.
  - apply IH. intros w2 E2. apply HQ. congruence.
Qed.

Lemma bounded_answers es : forall b i, bounded (answer_values es b i).
Proof.
  induction es as [|e es IH]; intros b i; cbn [answer_values]; [done|].
  apply bounded_bind; [|intros name _].
  - unfold entry_name. apply bounded_bind; [auto with ends|]. intros x _. by case_match.
  - case_match; [|apply IH]. apply bounded_bind; [auto with ends|]. intros; apply IH.
Qed.

Lemma bounded_MakeHeader a b c d : bounded (MakeHeader a b c d).
Proof.
  unfold MakeHeader. repeat (apply bounded_bind; [auto with ends|intros ? _]). done.
Qed.

Lemma NewParams_ends n w (Q : Params -> world os -> Prop) :
  (forall p w', w_ext w' = w_ext w -> Q p w') -> ends (NewParams n) w Q.
Proof.
  intros HQ. unfold NewParams. ends_step. apply ends_Malloc. intros _ w1 E1. ends_step.
  apply ends_Malloc. intros _ w2 E2. apply ends_lift; [by case_match|]. intros p _. apply HQ. congruence.
Qed.

Lemma ProcessManagementRecord_ends gas ty s r w
    (Q : Z * (FCGX_Stream * FCGX_Request) -> world os -> Prop) :
  rbounded s -> left_over s r w <= most -> left_over s r w + 1 < Z.of_nat gas ->
  (forall st s' r' w', taken (left_over s r w) (ipcFd r) s' r' w' -> st <> BEGIN_RECORD ->
     Q (st, (s', r')) w') ->
  ends (ProcessManagementRecord fill gas ty s r) w Q.
Proof.
  intros Hb Hl Hg HQ. unfold ProcessManagementRecord. ends_step. apply NewParams_ends. intros p w1 E1.
  assert (left_over s r w1 = left_over s r w) as El by (apply left_world; by rewrite E1).
  ends_step. unfold stack_block, ends at 1. case_match.
  - ends_step. apply params_loop_ends; [done|lia|lia|lia|]. intros rc p' s2 r2 w2 T2. rewrite El in T2.
    pose proof T2 as (Hb2 & Hr2 & Hl2). case_match.
    + ends_step. apply FreeParams_ends. intros w3 E3. ends_step. apply HQ; [|done].
      eapply taken_world; [exact T2|by rewrite E3].
    + ends_step. apply ends_lift; [apply bounded_answers|]. intros [b i] _. ends_step.
      apply ends_lift; [apply bounded_MakeHeader|]. intros h _. ends_step. ends_step. ends_step.
      apply FreeParams_ends. intros w3 E3. ends_step. ends_step.
      apply respond_ends; [done|]. intros st s4 w4 T4 Hst. apply HQ; [|by destruct Hst; subst].
      eapply taken_then; [exact T2|exact T4|].
      rewrite (left_world s2 r2 w2 w3) by (by rewrite E3). done.
  - ends_step. apply ends_lift; [apply bounded_MakeHeader|]. intros h _. ends_step. ends_step.
    ends_step. ends_step. apply respond_ends; [done|]. intros st s4 w4 T4 Hst.
    rewrite El in T4. apply HQ; [done|by destruct Hst; subst].
Qed.

Lemma ProcessBeginRecord_ends gas id s r w
    (Q : Z * (FCGX_Stream * FCGX_Request) -> world os -> Prop) :
  rbounded s -> left_over s r w <= most -> left_over s r w + 1 < Z.of_nat gas ->
  (forall st s' r' w', taken (left_over s r w) (ipcFd r) s' r' w' ->
     st <> BEGIN_RECORD \/ isClosed s' = false -> Q (st, (s', r')) w') ->
  ends (ProcessBeginRecord fill gas id s r) w Q.
Proof.
  intros Hb Hl Hg HQ. unfold ProcessBeginRecord.
  case_match; [ends_step; apply HQ; [by split_and!|by left]|]. case_match.
  - ends_step. apply ends_lift; [apply bounded_MakeHeader|]. intros h _.
    apply respond_ends; [done|]. intros st s4 w4 T4 Hst. apply HQ; [done|left; by destruct Hst; subst].
  - ends_step. apply GetStr_ends; [done..|]. intros d s2 r2 w2 T2 Hd.
    change (left_over s (set_requestId id r) w) with (left_over s r w) in T2.
    change (ipcFd (set_requestId id r)) with (ipcFd r) in T2.
    repeat case_match; ends_step; apply HQ; try exact T2; try by left.
    right. cbn in Hd. destruct Hd as [?|[?|?]]; [done|lia..].
Qed.

Lemma ProcessHeader_ends gas h s r w
    (Q : Z * (FCGX_Stream * FCGX_Request) -> world os -> Prop) :
  rbounded s -> left_over s r w <= most -> left_over s r w + 1 < Z.of_nat gas ->
  (forall st s' r' w', taken (left_over s r w) (ipcFd r) s' r' w' ->
     st <> BEGIN_RECORD \/ isClosed s' = false -> Q (st, (s', r')) w') ->
  ends (ProcessHeader fill gas h s r) w Q.
Proof.
  intros Hb Hl Hg HQ. unfold ProcessHeader. case_match; [ends_step; apply HQ; [by split_and!|by left]|].
  set (s1 := upd_data _ s). assert (rbounded s1) as Hb1 by exact Hb.
  change (left_over s r w) with (left_over s1 r w) in *.
  case_match; [by apply ProcessBeginRecord_ends|].
  case_match; [apply ProcessManagementRecord_ends; [done..|]; intros; apply HQ; auto|].
  repeat case_match; ends_step; (apply HQ; [by split_and!|by left]).
Qed.
End taking.

(** ** The loop *)

(** What the stages of a turn leave of a reader: they use up [used] bytes, and some unless they
    go on. *)
Definition staged (s : FCGX_Stream) (p : phase) : Prop :=
  match p with
  | Return s' => rbounded s' /\ left_in s' <= left_in s /\ (isClosed s' = true \/ rdNext s' < stop s')
  | Again s' => rbounds s' /\ left_in s' < left_in s
  | Next s' => rbounds s' /\ left_in s' <= left_in s
  end.

Ltac staged_leaf := members; split_and!; try lia; try (by left); right; lia.

Lemma content_staged s :
  rbounds s -> rdNext s < buffStop (data s) ->
  match content s with
  | Next s' => rbounds s' /\ (left_in s' < left_in s \/ s' = s)
  | p => staged s p
  end.
Proof.
  intros Hb Hlt. unfold content.
  destruct (Z.ltb_spec 0 (contentLen (data s))) as [Hc|Hc]; [|split; [done|by right]]. destruct Hb as (H1 & H2 & H3).
  set (k := Z.min _ _). unfold staged, rbounded, rbounds, left_in; members.
  destruct (negb (skip (data s))); [staged_leaf|].
  destruct (Z.ltb_spec 0 (contentLen (data s) - k)); [staged_leaf|].
  members. split; [split_and!; lia|left; lia].
Qed.

Lemma stages_staged s :
  rbounds s -> rdNext s < buffStop (data s) ->
  staged s (then_ (then_ (content s) padding) end_of_record).
Proof.
  intros Hb Hlt. pose proof (content_staged s Hb Hlt) as Hc.
  destruct (content s) as [s1|s1|s1]; cbn [then_]; [exact Hc..|]. destruct Hc as [Hb1 Hc].
  assert (left_in s1 <= left_in s /\ (left_in s1 = 0 -> left_in s1 < left_in s)) as [Hle Hz]
    by (destruct Hc as [?| ->]; unfold left_in in *; lia).
  clear Hc Hlt. revert Hb1 Hle Hz. unfold padding.
  destruct (Z.ltb_spec 0 (paddingLen (data s1))); intros (H1 & H2 & H3) Hle Hz.
  - set (k := Z.min _ _). unfold left_in in *. members.
    destruct (Z.ltb_spec 0 (paddingLen (data s1) - k)); cbn [then_].
    + unfold staged, rbounds, left_in. staged_leaf.
    + unfold end_of_record, staged, rbounded, rbounds, left_in. members; destruct (eorStop (data s1)); staged_leaf.
  - cbn [then_]. unfold end_of_record, staged, rbounded, rbounds, left_in in *. members; destruct (eorStop (data s1)); staged_leaf.
Qed.

Lemma refill_ends s r w (Q : phase -> world os -> Prop) :
  rbounds s ->
  (forall p w', match p with
     | Return s' => rbounded s' /\ isClosed s' = true /\ left_over s' r w' <= left_over s r w
     | Again _ => False
     | Next s' => rbounds s' /\ rdNext s' < buffStop (data s') /\ left_over s' r w' <= left_over s r w
     end -> Q p w') ->
  ends (refill s r) w Q.
Proof.
  intros (H1 & H2 & H3) HQ. unfold refill. destruct (Z.eqb_spec (rdNext s) (buffStop (data s))) as [He|Hn].
  2: { ends_step. apply HQ. unfold rbounds. split_and!; lia. }
  ends_step. apply ends_OS_Read; [done|]. intros count d w1 Hp Hd.
  destruct (Z.leb_spec count 0) as [Hle|Hgt].
  - ends_step. unfold OS_Errno, ends at 1. ends_step. apply HQ.
    split; [apply rbounded_error; unfold rbounds; split_and!; lia|]. split; [by unfold SetError; case_match|].
    rewrite left_error. unfold left_over. lia.
  - destruct (Hd Hgt) as [-> Hcn]. ends_step. unfold bufflen in *. rewrite mem_write_ok by lia.
    ends_step. ends_step. apply HQ. unfold rbounds, left_over, left_in, bufflen. cbn.
    rewrite !length_app, length_drop. cbn. lia.
Qed.

Section loop.
Context (fuel : nat).

(** What [FillBuffProc] does on fewer than [fuel] bytes. *)
Definition fill_ends_spec : Prop := forall hdr s r w,
  rbounds s -> (length hdr < 8)%nat -> left_over s r w + 1 < Z.of_nat fuel ->
  ends (FillBuffProc fuel hdr s r) w (fun '(s', r') w' => fills (left_over s r w) (ipcFd r) s' r' w').

Hypothesis (IH : fill_ends_spec).

Lemma interpret_ends hdr s r w (Q : phase * FCGX_Request -> world os -> Prop) :
  rbounds s -> left_over s r w + 1 < Z.of_nat fuel ->
  (forall p r' w', ipcFd r' = ipcFd r ->
     match p with
     | Return s' => rbounded s' /\ left_over s' r' w' <= left_over s r w
     | Again s' | Next s' => rbounds s' /\ left_over s' r' w' <= left_over s r w
     end -> Q (p, r') w') ->
  ends (interpret (FillBuffProc fuel []) fuel hdr s r) w Q.
Proof.
  intros Hb Hl HQ. unfold interpret. ends_step. set (s1 := set_stop _ _).
  assert (rbounded s1) as Hb1 by (split; [exact Hb|right; destruct Hb; unfold s1; members; lia]).
  change (left_over s r w) with (left_over s1 r w) in *.
  eapply (ProcessHeader_ends (FillBuffProc fuel []) (left_over s1 r w)); [|done|lia|lia|].
  { intros s' r' w' Hs' _ Hl'. apply IH; [apply Hs'|cbn; lia|lia]. }
  intros st s2 r2 w2 (Hb2 & Hr2 & Hl2) Hst. ends_step.
  set (s3 := set_isClosed false _). assert (rbounds s3) as Hb3 by apply Hb2.
  change (left_over s2 r2 w2) with (left_over s3 r2 w2) in *. apply ends_lift.
  { unfold after_header. repeat case_match; try done. by apply bounded_bind; [auto with ends|]. }
  intros p Hp. ends_step. apply HQ; [done|]. unfold after_header in Hp. revert Hp.
  destruct (st =? STREAM_RECORD); [|destruct (st =? SKIP); [|destruct (Z.eqb_spec st BEGIN_RECORD) as [Hbegin|_];
    [|destruct (st =? MGMT_RECORD)]]].
  - destruct (contentLen (data s3) =? 0); intros [= <-]; [|done]. split; [split; [exact Hb3|by left]|done].
  - intros [= <-]. done.
  - intros [= <-]. split; [|done]. split; [exact Hb3|right].
    destruct Hst as [?|Hc]; [done|]. destruct Hb2 as [_ [?|?]]; [congruence|done].
  - intros [= <-]. done.
  - destruct (assert_that _); [|done]. intros [= <-]. split; [by apply rbounded_error|by rewrite left_error].
Qed.
End loop.

Lemma fill_ends fuel : fill_ends_spec fuel.
Proof.
  induction fuel as [|fuel IH]; intros hdr s r w Hb Hh Hl; [pose proof (left_nonneg s r w Hb); lia|].
  cbn [FillBuffProc]. ends_step. apply refill_ends; [done|]. intros p w1 Hp.
  destruct p as [s1|s1|s1]; [|done|]; cbn [then_].
  { destruct Hp as (Hb1 & Hc1 & Hl1). cbn [turn]. ends_step. split; [by split_and!|by left]. }
  destruct Hp as (Hb1 & Hlt & Hl1). pose proof (stages_staged s1 Hb1 Hlt) as Hst.
  assert (forall s2, left_over s2 r w1 - left_over s1 r w1 = left_in s2 - left_in s1) as Hd
    by (intros s2; unfold left_over; lia).
  assert (forall hdr s2, rbounds s2 -> (length hdr < 8)%nat -> left_over s2 r w1 < left_over s1 r w1 ->
    ends (FillBuffProc fuel hdr s2 r) w1 (fun '(s', r') w' => fills (left_over s r w) (ipcFd r) s' r' w')) as Hgo.
  { intros hdr2 s2 Hb2 Hh2 Hl2. eapply ends_mono; [apply IH; [done|done|lia]|].
    intros [s' r'] w' [(? & ? & ?) ?]. split; [split_and!; [done..|lia]|]. destruct H2 as [?|[?|?]]; auto. right. right. lia. }
  destruct (then_ _ _) as [s2|s2|s2]; unfold turn; cbn [staged] in Hst.
  - destruct Hst as (Hb2 & Hl2 & Hc2). ends_step. specialize (Hd s2).
    split; [split_and!; [done..|lia]|]. destruct Hc2; auto.
  - destruct Hst as (Hb2 & Hl2). apply Hgo; [done|done|specialize (Hd s2); lia].
  - destruct Hst as (Hb2 & Hl2). pose proof (Hd s2) as Hd2.
    set (count := Z.min _ _). destruct (get_bytes_ends count s2 Hb2) as (d & -> & Hdl);
      [destruct Hb2; unfold left_in in *; lia|].
    ends_step. ends_step. set (s3 := set_rdNext _ s2).
    assert (rbounds s3 /\ left_over s3 r w1 = left_over s2 r w1 - count) as [Hb3 Hl3].
    { destruct Hb2 as (? & ? & ?). unfold rbounds, left_over, left_in, s3 in *. members. split_and!; lia. }
    assert (left_over s3 r w1 < left_over s1 r w1) as Hl4.
    { destruct Hb2 as (? & ? & ?). unfold left_in in *. lia. }
    destruct (Z.ltb_spec (Z.of_nat (length (hdr ++ d))) 8); [apply Hgo; [done|lia|done]|].
    ends_step. apply interpret_ends; [done|done|lia|]. intros p r2 w2 Hr2 Hp2.
    assert (forall s4, rbounds s4 -> left_over s4 r2 w2 <= left_over s3 r w1 ->
      ends (FillBuffProc fuel [] s4 r2) w2 (fun '(s', r') w' => fills (left_over s r w) (ipcFd r) s' r' w')) as Hgo2.
    { intros s4 Hb4 Hl5. eapply ends_mono; [apply IH; [done|cbn; lia|lia]|].
      intros [s' r'] w' [(? & ? & ?) ?]. split; [split_and!; [done|congruence|lia]|]. right. right. lia. }
    destruct p as [s4|s4|s4]; destruct Hp2 as [Hb4 Hl5]; [|by apply Hgo2..].
    ends_step. split; [split_and!; [done..|lia]|]. right. right. lia.
Qed.

(** ** Requests *)

Lemma NewReader_ends n ty w (Q : FCGX_Stream -> world os -> Prop) :
  (forall s w', rbounded s -> left_in s = 0 -> w_ext w' = w_ext w -> Q s w') ->
  ends (NewReader n ty) w Q.
Proof.
  intros HQ. unfold NewReader, NewStream. pose proof (buffer_size_ok n) as [Hn _].
  ends_step. apply ends_Malloc. intros _ w1 E1. ends_step. apply ends_Malloc. intros _ w2 E2.
  ends_step. fold (buffer_size n). apply ends_Malloc_length; [lia|]. intros b w3 Hb E3. ends_step. apply HQ; [|done|congruence].
  unfold rbounded, rbounds, bufflen. cbn. lia.
Qed.

Lemma StringCopy_ends str w (Q : list byte -> world os -> Prop) :
  (forall b w', w_ext w' = w_ext w -> Q b w') -> ends (StringCopy str) w Q.
Proof.
  intros HQ. unfold StringCopy. ends_step. apply ends_Malloc. intros b w1 E1.
  ends_step. ends_step. ends_step. by apply HQ.
Qed.

Lemma SetReaderType_bounded s ty s' :
  rbounds s -> SetReaderType s ty = Ret s' ->
  rbounded s' /\ forall r w, left_over s' r w = left_over s r w.
Proof.
  intros Hb. unfold SetReaderType. destruct (assert_that _); [|done]. cbn [obind]. intros [= <-].
  split; [|done]. split; [exact Hb|right]. destruct Hb as (? & ? & ?). cbn. lia.
Qed.

Lemma read_request_ends fuel r w (Q : bool * request -> world os -> Prop) :
  pending (ipcFd r) (w_ext w) + 1 < Z.of_nat fuel ->
  (forall ok q s w', req_in q = Some s -> rbounded s ->
     left_over s (req q) w' <= pending (ipcFd r) (w_ext w) -> Q (ok, q) w') ->
  ends (read_request fuel r) w Q.
Proof.
  intros Hl HQ. unfold read_request. set (r0 := set_isBeginProcessed false r).
  ends_step. apply NewReader_ends. intros s1 w1 Hb1 Hl1 E1.
  assert (left_over s1 r0 w1 = pending (ipcFd r) (w_ext w)) as El by (unfold left_over; rewrite Hl1, E1; done).
  ends_step. eapply ends_mono; [apply fill_ends; [apply Hb1|cbn; lia|lia]|].
  intros [s2 r2] w2 [(Hb2 & Hr2 & Hl2) _].
  case_match; [ends_step; by apply (HQ _ _ s2); [|done|cbn; lia]|].
  destruct (role_string (role r2)) as [str|]; [|ends_step; by apply (HQ _ _ s2); [|done|cbn; lia]].
  ends_step. apply NewParams_ends. intros p w3 E3. ends_step. apply StringCopy_ends. intros b w4 E4.
  ends_step. apply PutParam_ends. intros p' w5 E5. ends_step.
  assert (left_over s2 r2 w5 = left_over s2 r2 w2) as E25 by (apply left_world; by rewrite E5, E4, E3).
  apply ends_lift; [by unfold SetReaderType; apply bounded_bind; [auto with ends|]|]. intros s3 Hs3.
  apply SetReaderType_bounded in Hs3 as [Hb3 El3]; [|apply Hb2]. ends_step.
  apply (params_loop_ends _ (left_over s3 r2 w5)); [|done|done|rewrite El3; lia|rewrite El3; lia|].
  { intros s r' w' Hs _ Hle. apply fill_ends; [apply Hs|cbn; lia|rewrite El3 in Hle; lia]. }
  intros rc p2 s4 r4 w6 (Hb4 & Hr4 & Hl4). ends_step. apply (HQ _ _ s4); [done|done|]. cbn.
  rewrite El3 in Hl4. lia.
Qed.

(** A connection that was opened: the request is read and [n] bytes of its input are. *)
Definition serve_connection (fuel : nat) (n : Z) (r : FCGX_Request) : M os (bool * list byte) :=
  let* '(ok, q) := read_request fuel r in
  match req_in q with
  | Some s =>
      let* s := lift (SetReaderType s FCGI_STDIN) in
      let* '(d, _) := FCGX_GetStr (FillBuffProc fuel []) fuel n s (req q) in
      ret (ok, d)
  | None => undef NullDeref
  end.

(** C20 (termination): whatever bytes and errors the connection delivers, in whatever pieces, and
    whether or not they are FastCGI, reading a request and its input comes to an end: with fuel
    for the bytes the connection holds no loop and no nested call of [FillBuffProc] runs out. *)
Theorem connection_reading_ends fuel n r w :
  pending (ipcFd r) (w_ext w) + 1 < Z.of_nat fuel ->
  serve_connection fuel n r w <> Undef Diverges.
Proof.
  intros Hl. assert (ends (serve_connection fuel n r) w (fun _ _ => True)) as H.
  { unfold serve_connection. ends_step. apply read_request_ends; [done|]. intros ok q s w1 Es Hb Hle.
    rewrite Es. ends_step. apply ends_lift; [by unfold SetReaderType; apply bounded_bind; [auto with ends|]|].
    intros s1 Hs1. apply SetReaderType_bounded in Hs1 as [Hb1 El]; [|apply Hb]. ends_step.
    apply (GetStr_ends _ (left_over s1 (req q) w1)); [|done|done|rewrite El; lia|].
    - intros s2 r' w' Hs _ Hle2. apply fill_ends; [apply Hs|cbn; lia|rewrite El in Hle2; lia].
    - intros. by ends_step. }
  unfold ends in H. intros E. by rewrite E in H.
Qed.

(** Bytes that are no FastCGI, an error in between, and the end of the connection. *)
Definition noise_world : world os :=
  world0 (Os (<[3 := Conn [inr (lit "GET / HTTP/1.1"); inl 4; inr (lit "Host")] [] []]> ∅) [] 4 false []).

Lemma connection_reading_ends_witness :
  serve_connection 30 10 (Request 0 0 3 false 0 0 0 0 0) noise_world <> Undef Diverges.
Proof. apply connection_reading_ends. vm_compute. done. Defined.
