(* ===== verification/FcgiManagement.v ===== *)
(** * FastCGI management records (loungeact_fastcgi/fcgiapp.c)

    A web server asks for variables of the library with a record of names; the answer is put
    together in a block of 64 bytes.  Three answers fit, four do not. *)

From S2P Require Import Prelude FcgiFormat FcgiStream FcgiWriter FcgiReader.
From Stdlib Require Import Init.Byte.

#[local] Open Scope c_scope.

(** ** Names and answers *)

(** A name that an entry can be cut back to. *)
Definition plain (name : list byte) : Prop := cstring name /\ x3d ∉ name.

(** What is answered for a name: a name-value pair, or nothing. *)
Definition answer (name : list byte) : list byte :=
  match known_value name with
  | Some v => [z2b (Z.of_nat (length name)); x01] ++ name ++ [v]
  | None => []
  end.

Definition answers (names : list (list byte)) : list byte := concat (map answer names).

Definition known (name : list byte) : bool := match known_value name with Some _ => true | None => false end.

Lemma cstr_prefix s t : cstring s -> NUL ∈ t -> exists t', cstr (s ++ t) = Ret (s ++ t') /\ cstr t = Ret t'.
Proof.
  intros Hs Ht. assert (exists t', cstr t = Ret t') as [t' Et].
  { induction t as [|x t IH]; [by apply not_elem_of_nil in Ht|]. apply elem_of_cons in Ht. cbn.
    destruct (byte_eqb_spec x NUL); [eauto|]. destruct Ht as [?|Ht]; [congruence|].
    destruct (IH Ht) as [t' ->]. eauto. }
  exists t'. split; [|done]. unfold cstring in Hs. induction s as [|x s IH]; [done|].
  apply not_elem_of_cons in Hs as [Hx Hs]. cbn. destruct (byte_eqb_spec x NUL); [congruence|].
  by rewrite IH.
Qed.

Lemma before_equals_app s t : x3d ∉ s -> before_equals (s ++ x3d :: t) = Some s.
Proof.
  induction s as [|x s IH]; intros Hs; [done|]. apply not_elem_of_cons in Hs as [Hx Hs].
  cbn. rewrite IH by done. destruct x; done.
Qed.

Lemma entry_name_plain name value : plain name -> entry_name (entry (name, value)) = Ret name.
Proof.
  intros [Hc He]. unfold entry_name, entry. cbn [fst snd].
  destruct (cstr_prefix name ([x3d] ++ value ++ [NUL]) Hc) as (t & -> & Et).
  { apply elem_of_app. right. apply elem_of_app. right. by apply list_elem_of_singleton. }
  cbn [obind]. cbn in Et. destruct (cstr (value ++ [NUL])) as [t2|]; [|done].
  injection Et as <-. by rewrite before_equals_app.
Qed.

Lemma answer_size name : if known name then 16 <= Z.of_nat (length (answer name)) <= 18 else answer name = [].
Proof.
  unfold known, answer, known_value. repeat case_decide; subst; try done; vm_compute; done.
Qed.

(** ** The answer in its block *)

Lemma answers_size names :
  16 * Z.of_nat (length (filter known names)) <= Z.of_nat (length (answers names)) <=
  18 * Z.of_nat (length (filter known names)).
Proof.
  unfold answers. induction names as [|n names IH]; [done|]. pose proof (answer_size n) as Hn.
  cbn [map concat]. rewrite length_app, filter_cons. destruct (known n) eqn:Ek.
  - rewrite decide_True by done. cbn [length]. lia.
  - rewrite decide_False by (by intros []). rewrite Hn. cbn [length]. lia.
Qed.

Lemma answer_values_ok es names : Forall2 (fun e n => entry_name e = Ret n) es names ->
  forall pre rest at_, at_ = Z.of_nat (length pre) ->
  if decide (length (answers names) < length rest)%nat then
    exists rest', answer_values es (pre ++ rest) at_ =
      Ret (pre ++ answers names ++ rest', at_ + Z.of_nat (length (answers names))) /\
      length rest = (length (answers names) + length rest')%nat
  else rest <> [] -> answer_values es (pre ++ rest) at_ = Undef OutOfBounds.
Proof.
  induction 1 as [|e n es names He Hes IH]; intros pre rest at_ ->; cbn [answer_values].
  { case_decide as Hd; [|intros Hr; destruct rest; [done|cbn in Hd; lia]].
    exists rest. cbn. by rewrite Z.add_0_r. }
  rewrite He. cbn [obind]. change (answers (n :: names)) with (answer n ++ answers names).
  unfold answer. destruct (known_value n) as [v|] eqn:Ek; [|by apply (IH pre)].
  set (x := [z2b (Z.of_nat (length n)); x01] ++ n ++ [v]).
  assert ([z2b (Z.of_nat (length n)); x01] ++ n ++ [v; NUL] = x ++ [NUL]) as ->
    by (unfold x; by rewrite <- !app_assoc).
  assert (length x = (length n + 3)%nat) as Hx by (unfold x; cbn; rewrite length_app; cbn; lia).
  clearbody x.
  destruct (decide (length x < length rest)%nat) as [Hfit|Hno].
  - rewrite (mem_write_mid pre rest); [|done|rewrite length_app; cbn [length]; lia]. cbn [obind].
    replace (pre ++ (x ++ [NUL]) ++ drop (length (x ++ [NUL])) rest) with
      ((pre ++ x) ++ NUL :: drop (length (x ++ [NUL])) rest) by (rewrite <- !app_assoc; done).
    assert (length (drop (length (x ++ [NUL])) rest) = length rest - (length x + 1))%nat as Ht
      by (rewrite length_drop, length_app; done).
    set (tl := drop _ rest) in *. clearbody tl.
    specialize (IH (pre ++ x) (NUL :: tl) (Z.of_nat (length pre) + Z.of_nat (length n) + 3)
      ltac:(rewrite length_app; lia)).
    cbn [length] in IH. rewrite !length_app. case_decide; case_decide; try lia.
    + destruct IH as (rest' & -> & Hl). exists rest'. rewrite <- !app_assoc. split; [|lia].
      do 2 f_equal. lia.
    + intros _. by apply IH.
  - rewrite length_app, decide_False by lia. intros Hr.
    rewrite mem_write_oob by (rewrite !length_app; cbn; lia). done.
Qed.

(** ** The record *)

Lemma rcv_out fd o o' : rcv fd o o' ->
  exists c c', os_fds o !! fd = Some c /\ os_fds o' !! fd = Some c' /\ c_out c' = c_out c.
Proof.
  intros (c & c' & H1 & -> & H2 & _). exists c, c'. split; [done|]. split; [|done].
  cbn. by rewrite lookup_insert_eq.
Qed.

Lemma entries_of_names ps : Forall (fun nv => plain nv.1) ps ->
  Forall2 (fun e n => entry_name e = Ret n) (map entry ps) (map fst ps).
Proof.
  induction 1 as [|[n v] ps Hn _ IH]; cbn [map]; [constructor|].
  constructor; [by apply entry_name_plain|done].
Qed.

Lemma wp_same_run {X A} (m m' : M X A) (w w' : world X) Q : m w = m' w' -> wp m' w' Q -> wp m w Q.
Proof. unfold wp. by intros ->. Qed.

Section management.
Context (fuel : nat) (ty : Z) (pad W : list byte) (o0 : os) (Hmore : pad ++ W <> []).
Context (ps : list (list byte * list byte)) (cont : list byte).
Hypotheses (Hps : pairs_bytes ps cont) (Hplain : Forall (fun nv => plain nv.1) ps)
  (Hfew : Z.of_nat (length ps) < MAX_PARAMS).

Let names := map fst ps.

(** Reading the names: what the function comes down to behind it. *)
Lemma management_names s r w :
  in_record fuel ty pad W o0 cont s r w -> mem_ok w ->
  exists response p s' w', length response = 64%nat /\ vec p = map entry ps /\
    heap (2 + Z.of_nat (length ps)) w w' /\ record_ended ty W o0 s' r w' /\
    forall A (K : list byte -> Params -> FCGX_Stream -> FCGX_Request -> M os A),
      (let* p := NewParams 3 in
       let* response := stack_block 64 in
       let* '(_, p, (s, r)) := ReadParams (FillBuffProc fuel []) fuel p s r in
       K response p s r) w = K response p s' r w'.
Proof.
  intros Hin Hm.
  assert (wp (let* p := NewParams 3 in
              let* response := stack_block 64 in
              let* x := ReadParams (FillBuffProc fuel []) fuel p s r in ret (response, x)) w
    (fun '(response, (_, p, (s', r'))) w' => length response = 64%nat /\ vec p = map entry ps /\
       heap (2 + Z.of_nat (length ps)) w w' /\ record_ended ty W o0 s' r w' /\ r' = r)) as H.
  { wp_step. apply wp_NewParams; [lia|done|]. intros w1 F1. wp_step. apply (wp_eq _ _ _ _ _ eq_refl).
    assert (in_record fuel ty pad W o0 cont s r w1) as Hin1
      by (eapply (src_frame _ _ _ _ (record_source fuel ty pad W o0 Hmore)); done).
    wp_step. eapply (wp_ReadParams (record_source fuel ty pad W o0 Hmore) ps cont);
      [done|exact Hin1|done|cbn; lia|by eapply frame_mem_ok|].
    intros p' s' w' Hv _ _ Hh HE. wp_step.
    split; [unfold junk_block; by rewrite length_map, length_seq|]. split; [done|]. split; [|done].
    eapply heap_eq; [eapply heap_trans; [by apply frame_heap|exact Hh]|lia]. }
  unfold wp, bind, ret in H |- *. destruct (NewParams 3 w) as [[p w1]|]; [|done].
  destruct (stack_block 64 w1) as [[b w2]|]; [|done].
  destruct (ReadParams _ _ _ _ _ w2) as [[[[z p'] [s' r']] w3]|]; [|done].
  destruct H as (H1 & H2 & H3 & H4 & ->). by exists b, p', s', w3.
Qed.

(** The block with the answer in it becomes a record. *)
Lemma response_record (b : list byte) :
  length b = 64%nat -> Z.of_nat (length (answers names)) < 56 ->
  exists response pd,
    answer_values (map entry ps) b 8 = Ret (response, 8 + Z.of_nat (length (answers names))) /\
    let len := Z.of_nat (length (answers names)) in
    let padded := AlignInt8 (u32 len) in
    let rec := FRec FCGI_GET_VALUES_RESULT FCGI_NULL_REQUEST_ID (answers names) pd in
    padded - len = Z.of_nat (length pd) /\ (length pd < 8)%nat /\
    (let+ response := mem_write response 0 (fcgi_header_bytes (record_header rec)) in
     mem_read response 0 (8 + padded)) = Ret (encode_record rec).
Proof.
  intros Hb Hl. rewrite <- (take_drop 8 b).
  assert (length (take 8 b) = 8%nat) as H8 by (rewrite length_take; lia).
  pose proof (answer_values_ok _ _ (entries_of_names ps Hplain) (take 8 b) (drop 8 b) 8 ltac:(lia)) as Ha.
  fold names in Ha. rewrite length_drop, decide_True in Ha by lia. destruct Ha as (rest & -> & Hr).
  set (len := Z.of_nat (length (answers names))) in *.
  destruct (AlignInt8_spec len ltac:(lia)) as [Hal Hmod].
  assert (AlignInt8 len <= 56) as Hmax.
  { pose proof (Z.div_mod (AlignInt8 len) 8 ltac:(lia)). lia. }
  set (pd := take (Z.to_nat (AlignInt8 len - len)) rest).
  assert (Z.of_nat (length pd) = AlignInt8 len - len) as Hpd by (unfold pd; rewrite length_take; lia).
  eexists _, pd. split; [reflexivity|]. cbv zeta. unfold u32. rewrite Z.mod_small by lia.
  split; [lia|]. split; [lia|].
  set (rec := FRec _ _ _ _). assert (length (fcgi_header_bytes (record_header rec)) = 8%nat) as Hh by done.
  rewrite mem_write_ok by (rewrite ?Hh, ?length_app; lia). cbn [obind]. rewrite Hh.
  change (Z.to_nat 0) with 0%nat. rewrite take_0. cbn [app Nat.add].
  rewrite drop_app_exact by done.
  assert (rest = pd ++ drop (length pd) rest) as Hrest.
  { unfold pd at 1. rewrite <- (take_drop (length pd) rest) at 1. f_equal. f_equal. lia. }
  rewrite Hrest. set (tl := drop _ _).
  replace (fcgi_header_bytes (record_header rec) ++ answers names ++ pd ++ tl) with (encode_record rec ++ tl)
    by (unfold encode_record; by rewrite <- !app_assoc).
  assert (8 + AlignInt8 len = Z.of_nat (length (encode_record rec))) as ->
    by (rewrite encode_record_length; cbn [f_content f_padding rec]; lia).
  rewrite mem_read_ok by (rewrite ?length_app; lia). change (Z.to_nat 0) with 0%nat.
  by rewrite drop_0, Nat2Z.id, take_app_length.
Qed.

Lemma names_size : Z.of_nat (length (answers names)) < 56 <-> (length (filter known names) <= 3)%nat.
Proof. pose proof (answers_size names). lia. Qed.

(** C25 (bounds): a request for variables is answered with a record of the name-value pairs of
    the variables the library knows, in the order they were asked for, when they are three at
    most, and nothing stays allocated; with four or more the answer is written past the end of
    its block of 64 bytes. *)
Theorem get_values_answered s r w :
  in_record fuel ty pad W o0 cont s r w -> mem_ok w ->
  ((length (filter known names) <= 3)%nat ->
   wp (ProcessManagementRecord (FillBuffProc fuel []) fuel FCGI_GET_VALUES s r) w
     (fun '(st, (s', r')) w' => st = MGMT_RECORD /\ r' = r /\ heap 0 w w' /\
        exists c c' pd, os_fds (w_ext w) !! ipcFd r = Some c /\ os_fds (w_ext w') !! ipcFd r = Some c' /\
          (length pd < 8)%nat /\
          c_out c' = c_out c ++ encode_record (FRec FCGI_GET_VALUES_RESULT 0 (answers names) pd))) /\
  ((4 <= length (filter known names))%nat ->
   ProcessManagementRecord (FillBuffProc fuel []) fuel FCGI_GET_VALUES s r w = Undef OutOfBounds).
Proof.
  intros Hin Hm. pose proof Hin as [Hrc0 _]. unfold ProcessManagementRecord.
  destruct (management_names s r w Hin Hm) as (b & p & s' & w' & Hb & Hp & Hh & (Hrc & B & ls & Hf & H & _) & HK).
  rewrite Z.eqb_refl. split; intros Hk.
  - eapply wp_same_run; [apply HK|]. unfold FCGX_GetError.
    rewrite (r_errno _ _ _ _ _ _ _ _ H), (r_clen _ _ _ _ _ _ _ _ H). cbn [negb Z.eqb orb]. rewrite Hp.
    destruct (response_record b Hb (proj2 names_size Hk)) as (rs & pd & Ea & Hpd & Hlt & Hrec).
    unfold FCGI_HEADER_LEN. rewrite Ea. wp_step. wp_step.
    replace (8 + Z.of_nat (length (answers names)) - 8) with (Z.of_nat (length (answers names))) by lia.
    rewrite Hpd, MakeHeader_ok by (unfold FCGI_MAX_LENGTH; rewrite <- ?names_size in Hk; lia).
    wp_step. wp_step. wp_step. revert Hrec. cbv zeta.
    destruct (mem_write rs 0 _) as [rs2|]; [|done]. cbn [obind]. intros Hrec. wp_step. wp_step.
    apply wp_FreeParams. intros w2 F2. wp_step. rewrite Hrec. wp_step. unfold respond. wp_step.
    apply wp_write_it_all.
    { destruct Hf as (c & Hc & _ & _ & Ht). exists c. by rewrite (frame_ext _ _ _ F2). }
    intros w3 [Hh3 (c2 & c3 & Hc2 & Hw3 & Ho3 & _)]. change (0 <? 0) with false. cbv iota. wp_step.
    split; [done|]. split; [done|]. split.
    { eapply heap_eq; [eapply heap_trans; [exact Hh|eapply heap_trans; [by apply frame_heap|exact Hh3]]|].
      rewrite Hp, length_map. lia. }
    destruct (rcv_out _ _ _ Hrc0) as (c0 & c1 & Hc0 & Hc1 & Ho1).
    destruct (rcv_out _ _ _ Hrc) as (c0' & c2' & Hc0' & Hc2' & Ho2).
    rewrite (frame_ext _ _ _ F2) in Hc2. exists c1, c3, pd. split; [done|].
    split; [rewrite Hw3; cbn; by rewrite lookup_insert_eq|]. split; [done|]. rewrite Ho3. by assert (c_out c2 = c_out c1) as -> by congruence.
  - rewrite HK. unfold FCGX_GetError.
    rewrite (r_errno _ _ _ _ _ _ _ _ H), (r_clen _ _ _ _ _ _ _ _ H). cbn [negb Z.eqb orb]. rewrite Hp.
    apply undef_head. unfold lift. pose proof names_size as Hsz.
    pose proof (answer_values_ok _ _ (entries_of_names ps Hplain) (take 8 b) (drop 8 b) 8) as Ha.
    fold names in Ha. rewrite length_drop, take_drop, decide_False in Ha by lia.
    unfold FCGI_HEADER_LEN. rewrite Ha; [done|rewrite length_take; lia|].
    intros E. apply (f_equal length) in E. rewrite length_drop in E. cbn in E. lia.
Qed.
End management.

(** ** On a concrete record *)

Definition sample_names (n : nat) : list (list byte * list byte) :=
  (lit "FCGI_MPXS_CONNS", []) :: (lit "OTHER", []) :: replicate n (lit "FCGI_MAX_CONNS", []).

Definition sample_pairs (n : nat) : list byte :=
  ([x0f] ++ [x00] ++ lit "FCGI_MPXS_CONNS" ++ []) ++ ([x05] ++ [x00] ++ lit "OTHER" ++ []) ++
  concat (replicate n ([x0e] ++ [x00] ++ lit "FCGI_MAX_CONNS" ++ [])).

Lemma sample_pairs_bytes n : pairs_bytes (sample_names n) (sample_pairs n).
Proof.
  assert (forall name a b, length_bytes (Z.of_nat (length name)) a -> length_bytes 0 b ->
    Z.of_nat (length name) <= 100 -> pair_bytes (name, []) (a ++ b ++ name ++ [])) as Hp.
  { intros name a b Ha Hb Hl. split; [unfold INT_MAX; cbn; lia|]. by exists a, b. }
  pose proof (length_short 0 ltac:(lia)) as H0.
  apply pairs_cons; [exact (Hp (lit "FCGI_MPXS_CONNS") [x0f] [x00] (length_short 15 ltac:(lia)) H0 ltac:(by vm_compute))|].
  apply pairs_cons; [exact (Hp (lit "OTHER") [x05] [x00] (length_short 5 ltac:(lia)) H0 ltac:(by vm_compute))|].
  induction n as [|n IH]; cbn [replicate concat]; [apply pairs_nil|].
  apply pairs_cons; [|exact IH]. exact (Hp (lit "FCGI_MAX_CONNS") [x0e] [x00] (length_short 14 ltac:(lia)) H0 ltac:(by vm_compute)).
Qed.

Lemma sample_names_plain n : Forall (fun nv => plain nv.1) (sample_names n).
Proof.
  assert (forall name, forallb (fun b => negb (Byte.eqb b NUL) && negb (Byte.eqb b x3d)) name = true ->
    plain name) as Hp.
  { intros name Hn. rewrite forallb_forall in Hn. split; intros Hin; apply list_elem_of_In, Hn in Hin; done. }
  constructor; [by apply Hp|]. constructor; [by apply Hp|].
  induction n as [|n IH]; cbn [replicate]; constructor; [by apply Hp|done].
Qed.

(** A reader in the middle of a record that asks for [2 + n] names. *)
Definition asking (n : nat) : FCGX_Stream :=
  Stream 0 0 0 0 true false false 0
    (StreamData (sample_pairs n ++ [x01] ++ replicate 32 x00) (Z.of_nat (length (sample_pairs n)) + 1) 0
       true false (Z.of_nat (length (sample_pairs n))) 0 false false).

Definition asked : FCGX_Request := Request 0 0 3 false 0 0 0 0 0.

Definition asking_world : world os := world0 (Os (<[3 := Conn [] [] []]> ∅) [] 4 false []).

Lemma asking_in_record n : (n <= 4)%nat ->
  in_record 500 0 [] [x01] (w_ext asking_world) (sample_pairs n) (asking n) asked asking_world.
Proof.
  intros Hn. split.
  { exists (Conn [] [] []), (Conn [] [] []). split; [done|]. split; [by vm_compute|done]. }
  exists [], (sample_pairs n ++ [x01]), [], (sample_pairs n). split.
  { exists (Conn [] [] []). split; [done|]. split; [done|]. split; [done|]. by apply list.Forall_nil. }
  split; [done|]. split; [|split; [done|split; [by rewrite app_nil_r|]]].
  - constructor; unfold bufflen; cbn [isReader isClosed FCGI_errno dtype data eorStop skip contentLen
      paddingLen asking rdNext buffStop buff app length]; try done; try lia.
    + rewrite length_app. cbn. lia.
    + rewrite length_app. cbn. lia.
    + rewrite length_app. cbn. lia.
    + change (x01 :: replicate 32 x00) with ([x01] ++ replicate 32 x00). rewrite app_assoc. change (Z.to_nat 0) with 0%nat. by rewrite drop_0, take_app_length.
  - do 5 (destruct n as [|n]; [vm_compute; lia|]). lia.
Qed.

Lemma get_values_answered_witness :
  wp (ProcessManagementRecord (FillBuffProc 500 []) 500 FCGI_GET_VALUES (asking 2) asked) asking_world
    (fun '(st, (s', r')) w' => st = MGMT_RECORD /\ r' = asked /\ heap 0 asking_world w' /\
       exists c c' pd, os_fds (w_ext asking_world) !! ipcFd asked = Some c /\
         os_fds (w_ext w') !! ipcFd asked = Some c' /\
         (length pd < 8)%nat /\
         c_out c' = c_out c ++ encode_record (FRec FCGI_GET_VALUES_RESULT 0
           (answers (map fst (sample_names 2))) pd)) /\
  ProcessManagementRecord (FillBuffProc 500 []) 500 FCGI_GET_VALUES (asking 3) asked asking_world =
    Undef OutOfBounds.
Proof.
  split.
  - refine (proj1 (get_values_answered 500 0 [] [x01] (w_ext asking_world) _ (sample_names 2)
      (sample_pairs 2) (sample_pairs_bytes 2) (sample_names_plain 2) _ (asking 2) asked asking_world _ _) _);
      [discriminate|by vm_compute|apply asking_in_record; lia|done|vm_compute; lia].
  - refine (proj2 (get_values_answered 500 0 [] [x01] (w_ext asking_world) _ (sample_names 3)
      (sample_pairs 3) (sample_pairs_bytes 3) (sample_names_plain 3) _ (asking 3) asked asking_world _ _) _);
      [discriminate|by vm_compute|apply asking_in_record; lia|done|vm_compute; lia].
Defined.
