(* ===== verification/AsyncIo.v ===== *)
(** * Asynchronous input and output (loungeact_fastcgi/os_unix.c)

    Reads and writes that are started, wait until [select] finds their file ready, and are
    completed by calling a procedure.  The state is a table with two entries for a file and
    four sets of files: those that wait and those found ready whose procedures are still to be
    called.  The procedures may start further operations and close files; the theorems on
    programs are for procedures that only start operations, since closing a file that was
    found ready breaks the counts, and for closing files the table covers, since it is indexed
    without a check. *)

From S2P Require Import Prelude.

#[local] Open Scope Z_scope.
#[local] Open Scope c_scope.

(** ** State *)

(** [procPtr] is a number that stands for a procedure, [buf] an address. *)
Record AioInfo := Aio {
  procPtr : option Z;
  clientData : Z;
  aio_fd : Z;
  aio_len : Z;
  aio_offset : Z;
  aio_buf : Z;
  inUse : bool;
}.

Definition zero_info : AioInfo := Aio None 0 0 0 0 0 false.

Definition set_inUse (b : bool) (e : AioInfo) : AioInfo :=
  Aio (procPtr e) (clientData e) (aio_fd e) (aio_len e) (aio_offset e) (aio_buf e) b.

Definition set_procPtr (p : option Z) (e : AioInfo) : AioInfo :=
  Aio p (clientData e) (aio_fd e) (aio_len e) (aio_offset e) (aio_buf e) (inUse e).

Definition AIO_RD_IX (fd : Z) : Z := fd * 2.
Definition AIO_WR_IX (fd : Z) : Z := fd * 2 + 1.

(** The index of a file's entry for reads or, when [w], for writes. *)
Definition AIO_IX (w : bool) (fd : Z) : Z := if w then AIO_WR_IX fd else AIO_RD_IX fd.

(** The sets of one direction: [readFdSet], [readFdSetPost] and [numRdPosted], or those for
    writes. *)
Record direction := Dir {
  FdSet : gset Z;
  FdSetPost : gset Z;
  numPosted : Z;
}.

(** An entry of the table is [None] as long as its memory has not been written. *)
Record aio := AioState {
  asyncIoInUse : bool;
  asyncIoTableSize : Z;
  asyncIoTable : option (list (option AioInfo));
  libInitialized : bool;
  rd : direction;
  wr : direction;
  maxFd : Z;
}.

Definition side (w : bool) (a : aio) : direction := if w then wr a else rd a.

Definition set_used (a : aio) : aio :=
  AioState true (asyncIoTableSize a) (asyncIoTable a) (libInitialized a) (rd a) (wr a) (maxFd a).
Definition set_table (n : Z) (t : option (list (option AioInfo))) (a : aio) : aio :=
  AioState (asyncIoInUse a) n t (libInitialized a) (rd a) (wr a) (maxFd a).
Definition set_side (w : bool) (d : direction) (a : aio) : aio :=
  if w then AioState (asyncIoInUse a) (asyncIoTableSize a) (asyncIoTable a) (libInitialized a) (rd a) d (maxFd a)
  else AioState (asyncIoInUse a) (asyncIoTableSize a) (asyncIoTable a) (libInitialized a) d (wr a) (maxFd a).
Definition set_maxFd (n : Z) (a : aio) : aio :=
  AioState (asyncIoInUse a) (asyncIoTableSize a) (asyncIoTable a) (libInitialized a) (rd a) (wr a) n.

Definition no_direction : direction := Dir ∅ ∅ 0.

Definition aio_start : aio := AioState false 16 None false no_direction no_direction (-1).

(** What happens outside: calls of [select] with the files asked for, transfers with their
    result, and calls of the procedures. *)
Inductive event :=
| Select (reads writes : gset Z)
| Transfer (w : bool) (fd buf len result : Z)
| Called (proc data result : Z).

(** The state of the library, the answers of the coming calls of [select] (the files that are
    ready, or a failure) and of [read] and [write], and what has happened. *)
Record host := Host {
  h_aio : aio;
  h_select : list (option (gset Z * gset Z));
  h_results : list Z;
  h_log : list event;
}.

Definition with_aio (a : aio) (h : host) : host :=
  Host a (h_select h) (h_results h) (h_log h).

Definition get_aio : M host aio := let* h := get_ext in ret (h_aio h).
Definition put_aio (a : aio) : M host unit :=
  let* h := get_ext in put_ext (with_aio a h).
Definition log (e : event) : M host unit :=
  let* h := get_ext in put_ext (Host (h_aio h) (h_select h) (h_results h) (h_log h ++ [e])).

(** The next result of a transfer; a file of which nothing is said is at its end. *)
Definition next_result : M host Z :=
  let* h := get_ext in
  match h_results h with
  | [] => ret 0
  | n :: rest => put_ext (Host (h_aio h) (h_select h) rest (h_log h)) ;;; ret n
  end.

(** ** Sets of files *)

Definition FD_SETSIZE : Z := 1024.

Definition FD_SET (fd : Z) (s : gset Z) : outcome (gset Z) :=
  if (0 <=? fd) && (fd <? FD_SETSIZE) then Ret ({[fd]} ∪ s) else Undef OutOfBounds.
Definition FD_CLR (fd : Z) (s : gset Z) : outcome (gset Z) :=
  if (0 <=? fd) && (fd <? FD_SETSIZE) then Ret (s ∖ {[fd]}) else Undef OutOfBounds.
Definition FD_ISSET (fd : Z) (s : gset Z) : outcome bool :=
  if (0 <=? fd) && (fd <? FD_SETSIZE) then Ret (bool_decide (fd ∈ s)) else Undef OutOfBounds.

(** ** The table *)

Definition SIZEOF_AIOINFO : Z := 40.

Definition table_get (i : Z) : M host AioInfo :=
  let* a := get_aio in
  match asyncIoTable a with
  | None => undef NullDeref
  | Some t =>
      if 0 <=? i then
        match t !! Z.to_nat i with
        | Some (Some e) => ret e
        | Some None => undef Uninitialised
        | None => undef OutOfBounds
        end
      else undef OutOfBounds
  end.

Definition table_set (i : Z) (e : AioInfo) : M host unit :=
  let* a := get_aio in
  match asyncIoTable a with
  | None => undef NullDeref
  | Some t =>
      if (0 <=? i) && (i <? Z.of_nat (length t))
      then put_aio (set_table (asyncIoTableSize a) (Some (<[Z.to_nat i := Some e]> t)) a)
      else undef OutOfBounds
  end.

Definition OS_LibInit : M host Z :=
  let* a := get_aio in
  if libInitialized a then ret 0
  else
    let* p := malloc (asyncIoTableSize a * SIZEOF_AIOINFO) in
    match p with
    | None => set_errno ENOMEM ;;; ret (-1)
    | Some _ =>
        let t := replicate (Z.to_nat (asyncIoTableSize a)) (Some zero_info) in
        let clear d := Dir ∅ ∅ (numPosted d) in
        put_aio (AioState (asyncIoInUse a) (asyncIoTableSize a) (Some t) true
                   (clear (rd a)) (clear (wr a)) (maxFd a)) ;;;
        ret 0
    end.

Definition OS_LibShutdown : M host unit :=
  let* a := get_aio in
  if negb (libInitialized a) then ret tt
  else
    free ;;;
    put_aio (AioState (asyncIoInUse a) (asyncIoTableSize a) None false (rd a) (wr a) (maxFd a)).

(** Only the second half is cleared; a table that did not exist has nothing in its first. *)
Definition GrowAsyncTable : M host unit :=
  let* a := get_aio in
  let size := asyncIoTableSize a in
  let* n := lift (add_int size size) in
  let* p := (match asyncIoTable a with
             | None => malloc (u64 (n * SIZEOF_AIOINFO))
             | Some _ => realloc [] (u64 (n * SIZEOF_AIOINFO))
             end) in
  match p with
  | None => set_errno ENOMEM ;;; undef Exits
  | Some _ =>
      let old := default (replicate (Z.to_nat size) None) (asyncIoTable a) in
      put_aio (set_table n (Some (old ++ replicate (Z.to_nat size) (Some zero_info))) a)
  end.

Fixpoint grow_loop (fuel : nat) (index : Z) : M host unit :=
  let* a := get_aio in
  if asyncIoTableSize a <=? index then
    match fuel with
    | O => undef Diverges
    | S fuel => GrowAsyncTable ;;; grow_loop fuel index
    end
  else ret tt.

(** A table of [int] size doubles at most so often. *)
Definition GROW_FUEL : nat := 32.

(** ** Starting and giving up operations *)

(** What [OS_AsyncRead] and [OS_AsyncWrite] share. *)
Definition async_start (w : bool) (fd offset buf len proc data : Z) : M host Z :=
  let* a := get_aio in
  let* index := lift (if w then let+ i := add_int fd fd in add_int i 1 else add_int fd fd) in
  put_aio (set_maxFd (if maxFd a <? fd then fd else maxFd a) (set_used a)) ;;;
  grow_loop GROW_FUEL index ;;;
  let* e := table_get index in
  if inUse e then undef AssertFails
  else
    table_set index (Aio (Some proc) data fd len offset buf true) ;;;
    let* a := get_aio in
    let* s := lift (FD_SET fd (FdSet (side w a))) in
    put_aio (set_side w (Dir s (FdSetPost (side w a)) (numPosted (side w a))) a) ;;;
    ret 0.

Definition OS_AsyncRead (fd offset buf len proc data : Z) : M host Z :=
  let* a := get_aio in
  match asyncIoTable a with
  | None => undef AssertFails
  | Some _ => async_start false fd offset buf len proc data
  end.

Definition OS_AsyncWrite (fd offset buf len proc data : Z) : M host Z :=
  async_start true fd offset buf len proc data.

Definition OS_AsyncReadStdin (buf len proc data : Z) : M host Z :=
  let* a := get_aio in
  put_aio (set_used a) ;;;
  let* e := table_get (AIO_RD_IX 0) in
  if inUse e then undef AssertFails
  else
    table_set (AIO_RD_IX 0) (Aio (Some proc) data 0 len 0 buf true) ;;;
    let* a := get_aio in
    let* s := lift (FD_SET 0 (FdSet (rd a))) in
    put_aio (set_maxFd (if maxFd a <? 0 then 0 else maxFd a)
               (set_side false (Dir s (FdSetPost (rd a)) (numPosted (rd a))) a)) ;;;
    ret 0.

(** One direction of a file is forgotten; the number of files found ready is left alone. *)
Definition forget (w : bool) (fd : Z) : M host unit :=
  let* a := get_aio in
  let d := side w a in
  let* s := lift (FD_CLR fd (FdSet d)) in
  let* p := lift (FD_CLR fd (FdSetPost d)) in
  put_aio (set_side w (Dir s p (numPosted d)) a) ;;;
  let* e := table_get (AIO_IX w fd) in
  if inUse e then table_set (AIO_IX w fd) (set_inUse false e) else ret tt.

(** What the client still sends is read and thrown away. *)
Fixpoint drain (fuel : nat) (fd : Z) : M host unit :=
  let* _ := lift (FD_SET fd ∅) in
  let* rv := next_result in
  if 0 <? rv then
    let* n := next_result in
    if 0 <? n then
      match fuel with O => undef Diverges | S fuel => drain fuel fd end
    else ret tt
  else ret tt.

Definition drain_all (fd : Z) : M host unit :=
  let* h := get_ext in drain (length (h_results h)) fd.

(** The part of closing a file that is only done when operations have been started. *)
Definition forget_file (fd : Z) : M host unit :=
  forget false fd ;;;
  forget true fd ;;;
  let* a := get_aio in
  if maxFd a =? fd then put_aio (set_maxFd (maxFd a - 1) a) else ret tt.

Definition OS_Close (fd : Z) : M host Z :=
  if fd =? -1 then ret 0
  else
    let* a := get_aio in
    (if asyncIoInUse a then forget_file fd else ret tt) ;;;
    let* rc := next_result in
    (if rc =? 0 then drain_all fd else ret tt) ;;;
    next_result.

Definition cancel_read (fd : Z) (e : AioInfo) : M host unit :=
  table_set (AIO_RD_IX fd) (set_inUse false e) ;;;
  let* a := get_aio in
  let* s := lift (FD_CLR fd (FdSet (rd a))) in
  put_aio (set_side false (Dir s (FdSetPost (rd a)) (numPosted (rd a))) a).

Definition OS_CloseRead (fd : Z) : M host Z :=
  let* e := table_get (AIO_RD_IX fd) in
  (if inUse e then cancel_read fd e else ret tt) ;;;
  next_result.

(** ** Waiting for files and calling the procedures *)

(** What a procedure of the program does to files. *)
Inductive action :=
| AsyncRead (fd offset buf len proc data : Z)
| AsyncWrite (fd offset buf len proc data : Z)
| AsyncReadStdin (buf len proc data : Z)
| Close (fd : Z)
| CloseRead (fd : Z).

Definition perform (c : action) : M host Z :=
  match c with
  | AsyncRead fd offset buf len proc data => OS_AsyncRead fd offset buf len proc data
  | AsyncWrite fd offset buf len proc data => OS_AsyncWrite fd offset buf len proc data
  | AsyncReadStdin buf len proc data => OS_AsyncReadStdin buf len proc data
  | Close fd => OS_Close fd
  | CloseRead fd => OS_CloseRead fd
  end.

Fixpoint perform_all (cs : list action) : M host unit :=
  match cs with
  | [] => ret tt
  | c :: cs => perform c ;;; perform_all cs
  end.

(** A loop over the numbers of files that only reads and writes sets. *)
Fixpoint for_each {S} (fds : list Z) (body : Z -> S -> outcome S) (s : S) : outcome S :=
  match fds with
  | [] => Ret s
  | fd :: fds => let+ s := body fd s in for_each fds body s
  end.

(** The files of [s] up to [maxFd]. *)
Definition copy_file (s : gset Z) (fd : Z) (cpy : gset Z) : outcome (gset Z) :=
  let+ b := FD_ISSET fd s in if b then FD_SET fd cpy else Ret cpy.

(** A ready file moves from the files that wait to those whose procedure is to be called. *)
Definition post_file (ready : gset Z) (fd : Z) (d : direction) : outcome direction :=
  let+ b := FD_ISSET fd ready in
  if b then
    let+ p := FD_SET fd (FdSetPost d) in
    let+ s := FD_CLR fd (FdSet d) in
    Ret (Dir s p (numPosted d + 1))
  else Ret d.

(** [select]: the kernel answers with those of the files asked for that are ready. *)
Definition next_select (reads writes : gset Z) : M host (option (gset Z * gset Z)) :=
  log (Select reads writes) ;;;
  let* h := get_ext in
  match h_select h with
  | [] => ret (Some (∅, ∅))
  | None :: rest => put_ext (Host (h_aio h) rest (h_results h) (h_log h)) ;;; ret None
  | Some (r, v) :: rest =>
      put_ext (Host (h_aio h) rest (h_results h) (h_log h)) ;;;
      ret (Some (reads ∩ r, writes ∩ v))
  end.

Section procedures.

(** The procedures of the program: what each does when it is called, after what happened
    before, with its data and the result of the transfer. *)
Variable procs : list event -> Z -> Z -> Z -> list action.

Definition call_proc (proc data n : Z) : M host unit :=
  let* h := get_ext in
  log (Called proc data n) ;;; perform_all (procs (h_log h) proc data n).

(** One direction of a turn of the last loop. *)
Definition serve (w : bool) (fd : Z) : M host unit :=
  let* a := get_aio in
  let d := side w a in
  let* posted := lift (FD_ISSET fd (FdSetPost d)) in
  if negb posted then ret tt
  else
    let* e := table_get (AIO_IX w fd) in
    if negb (inUse e) then ret tt
    else
      let* p := lift (FD_CLR fd (FdSetPost d)) in
      put_aio (set_side w (Dir (FdSet d) p (numPosted d - 1)) a) ;;;
      let* n := next_result in
      log (Transfer w (aio_fd e) (aio_buf e) (aio_len e) n) ;;;
      table_set (AIO_IX w fd) (set_procPtr None (set_inUse false e)) ;;;
      match procPtr e with
      | None => undef NullDeref
      | Some proc => call_proc proc (clientData e) n
      end.

(** [maxFd] may grow while the procedures run. *)
Fixpoint dispatch (fuel : nat) (fd : Z) : M host unit :=
  let* a := get_aio in
  if maxFd a <? fd then ret tt
  else
    match fuel with
    | O => undef Diverges
    | S fuel => serve false fd ;;; serve true fd ;;; dispatch fuel (fd + 1)
    end.

(** There are no more files than [FD_SETSIZE]. *)
Definition DISPATCH_FUEL : nat := Z.to_nat FD_SETSIZE.

(** The end of the step. *)
Definition dispatch_posted : M host Z :=
  let* a := get_aio in
  if (numPosted (rd a) =? 0) && (numPosted (wr a) =? 0) then ret 0
  else dispatch DISPATCH_FUEL 0 ;;; ret 0.

Definition OS_DoIo : M host Z :=
  let* a := get_aio in
  put_aio (set_used a) ;;;
  let fds := seqZ 0 (maxFd a + 1) in
  let* rcpy := lift (for_each fds (copy_file (FdSet (rd a))) ∅) in
  let* wcpy := lift (for_each fds (copy_file (FdSet (wr a))) ∅) in
  (if (numPosted (rd a) =? 0) && (numPosted (wr a) =? 0) then
     let* ready := next_select rcpy wcpy in
     match ready with
     | None => undef Exits
     | Some (r, v) =>
         let* a := get_aio in
         let* dr := lift (for_each fds (post_file r) (rd a)) in
         let* dw := lift (for_each fds (post_file v) (wr a)) in
         put_aio (set_side true dw (set_side false dr a))
     end
   else ret tt) ;;;
  dispatch_posted.

(** A call of the program: one of its operations or the loop's step. *)
Inductive operation := Act (c : action) | DoIo.

Definition run (o : operation) : M host Z :=
  match o with Act c => perform c | DoIo => OS_DoIo end.

Fixpoint run_all (os : list operation) : M host unit :=
  match os with
  | [] => ret tt
  | o :: os => run o ;;; run_all os
  end.
End procedures.

(** A client and a server of a reply: procedure 1 reads a request and starts the reply on the
    same file, procedure 2 has written it and reads the next request. *)
Definition t_procs (log : list event) (proc data n : Z) : list action :=
  if proc =? 1 then if n =? 0 then [Close data] else [AsyncWrite data 0 100 n 2 data]
  else if proc =? 2 then [AsyncRead data 0 100 64 1 data]
  else if proc =? 3 then [Close data] else [].

Definition host0 (answers : list (option (gset Z * gset Z))) (results : list Z) : world host :=
  world0 (Host aio_start answers results []).

Definition t_log {A} (o : outcome (A * world host)) : option (list event) :=
  match o with Ret (_, w) => Some (h_log (w_ext w)) | Undef _ => None end.

Example requests_answered :
  t_log ((OS_LibInit ;;; run_all t_procs [Act (AsyncRead 5 0 100 64 1 5); DoIo; DoIo])
    (host0 [Some ({[5]}, ∅); Some (∅, {[5]})] [10; 10])) =
  Some [Select {[5]} ∅; Transfer false 5 100 64 10; Called 1 5 10;
        Select ∅ {[5]}; Transfer true 5 100 10 10; Called 2 5 10].
Proof. vm_compute. reflexivity. Qed.

(** The procedure of file 3 closes file 4, which is ready too; nothing is waited for again. *)
Example closed_while_posted :
  t_log ((OS_LibInit ;;; run_all t_procs
    [Act (AsyncRead 3 0 100 64 3 4); Act (AsyncRead 4 0 100 64 1 4); DoIo;
     Act (AsyncRead 6 0 100 64 1 6); DoIo; DoIo])
    (host0 [Some ({[3; 4]}, ∅); Some ({[6]}, ∅)] [10])) =
  Some [Select {[3; 4]} ∅; Transfer false 3 100 64 10; Called 3 4 10].
Proof. vm_compute. reflexivity. Qed.

(** ** Runs that are defined unless the program is ended *)

Definition ended (u : ub) : Prop := u = AssertFails \/ u = Exits.

Definition safe {A} (m : M host A) (w : world host) (Q : A -> world host -> Prop) : Prop :=
  match m w with Ret (a, w') => Q a w' | Undef u => ended u end.

Section rules.
Implicit Types w : world host.

Lemma safe_bind {A B} (m : M host A) (k : A -> M host B) w Q :
  safe m w (fun a w' => safe (k a) w' Q) -> safe (bind m k) w Q.
Proof. unfold safe, bind. by destruct (m w) as [[a w']|]. Qed.

Lemma safe_mono {A} (m : M host A) w (Q Q' : A -> world host -> Prop) :
  safe m w Q -> (forall a w', Q a w' -> Q' a w') -> safe m w Q'.
Proof. unfold safe. destruct (m w) as [[a w']|]; auto. Qed.

Lemma safe_ret {A} (a : A) w (Q : A -> world host -> Prop) : Q a w -> safe (ret a) w Q.
Proof. done. Qed.

Lemma safe_lift {A} (o : outcome A) a w (Q : A -> world host -> Prop) :
  o = Ret a -> Q a w -> safe (lift o) w Q.
Proof. by intros ->. Qed.

Lemma safe_ended {A} u w (Q : A -> world host -> Prop) : ended u -> safe (undef u) w Q.
Proof. done. Qed.

Lemma safe_get w (Q : aio -> world host -> Prop) : Q (h_aio (w_ext w)) w -> safe get_aio w Q.
Proof. done. Qed.

Lemma safe_put a w (Q : unit -> world host -> Prop) :
  (forall w', w_ext w' = with_aio a (w_ext w) -> Q tt w') -> safe (put_aio a) w Q.
Proof. intros H. by apply H. Qed.
End rules.

(** ** What holds of the state *)

Definition entry (a : aio) (w : bool) (fd : Z) : option AioInfo :=
  match asyncIoTable a with
  | Some t => default None (t !! Z.to_nat (AIO_IX w fd))
  | None => None
  end.

(** The files with an operation. *)
Definition members (a : aio) (w : bool) : gset Z := FdSet (side w a) ∪ FdSetPost (side w a).

(** An entry that can be served. *)
Definition complete (fd : Z) (e : AioInfo) : Prop :=
  inUse e = true /\ aio_fd e = fd /\ is_Some (procPtr e).

(** The table is there and written; a file is at most in one set of a direction; exactly the
    files in a set have an entry in use, which is complete; they are not above [maxFd]; the
    files found ready have been counted. *)
Record sound (a : aio) : Prop := {
  sd_table : exists t, asyncIoTable a = Some t /\ Z.of_nat (length t) = asyncIoTableSize a;
  sd_entry w fd : 0 <= fd -> AIO_IX w fd < asyncIoTableSize a -> is_Some (entry a w fd);
  sd_size : 16 <= asyncIoTableSize a <= 4096;
  sd_max : -1 <= maxFd a < FD_SETSIZE;
  sd_apart w : FdSet (side w a) ## FdSetPost (side w a);
  sd_member w fd : fd ∈ members a w ->
    0 <= fd <= maxFd a /\ exists e, entry a w fd = Some e /\ complete fd e;
  sd_used w fd e : 0 <= fd -> entry a w fd = Some e -> inUse e = true -> fd ∈ members a w;
  sd_count w : numPosted (side w a) = Z.of_nat (size (FdSetPost (side w a)));
}.

(** No file is left over from an earlier step. *)
Definition quiet (a : aio) : Prop := forall w, FdSetPost (side w a) = ∅.

Lemma AIO_IX_inj w w' fd fd' :
  0 <= fd -> 0 <= fd' -> Z.to_nat (AIO_IX w fd) = Z.to_nat (AIO_IX w' fd') -> w = w' /\ fd = fd'.
Proof. unfold AIO_IX, AIO_RD_IX, AIO_WR_IX. destruct w, w'; lia. Qed.

Lemma AIO_IX_range w fd : 0 <= fd < FD_SETSIZE -> 0 <= AIO_IX w fd <= 2047.
Proof. unfold AIO_IX, AIO_RD_IX, AIO_WR_IX, FD_SETSIZE. destruct w; lia. Qed.

(** *** Steps on the table and the sets *)

Lemma side_set_side w w' d a : side w (set_side w' d a) = if eqb w w' then d else side w a.
Proof. by destruct w, w'. Qed.

Lemma entry_set_side w' d a w fd : entry (set_side w' d a) w fd = entry a w fd.
Proof. by destruct w'. Qed.

Lemma table_set_side w d a : asyncIoTable (set_side w d a) = asyncIoTable a /\
  asyncIoTableSize (set_side w d a) = asyncIoTableSize a /\ maxFd (set_side w d a) = maxFd a.
Proof. by destruct w. Qed.

(** The state after an entry was written. *)
Definition with_entry (w : bool) (fd : Z) (e : AioInfo) (a : aio) : aio :=
  set_table (asyncIoTableSize a)
    ((fun t => <[Z.to_nat (AIO_IX w fd) := Some e]> t) <$> asyncIoTable a) a.

Lemma side_with_entry w fd e a w' : side w' (with_entry w fd e a) = side w' a.
Proof. by destruct w'. Qed.

Lemma entry_with_entry w fd e a w' fd' :
  (exists t, asyncIoTable a = Some t /\ AIO_IX w fd < Z.of_nat (length t)) -> 0 <= fd -> 0 <= fd' ->
  entry (with_entry w fd e a) w' fd' =
    if decide (w = w' /\ fd = fd') then Some e else entry a w' fd'.
Proof.
  intros (t & E & L) H H'. unfold entry, with_entry. simpl. rewrite E. simpl.
  assert (0 <= AIO_IX w fd) by (unfold AIO_IX, AIO_RD_IX, AIO_WR_IX; destruct w; lia).
  case_decide as D.
  - destruct D as [-> ->]. rewrite list_lookup_insert_eq; [done|lia].
  - rewrite list_lookup_insert_ne; [done|]. intros ?. apply D, AIO_IX_inj; [lia..|congruence].
Qed.

Lemma safe_table_get a w fd e (m : world host) Q :
  h_aio (w_ext m) = a -> 0 <= fd -> entry a w fd = Some e -> Q e m -> safe (table_get (AIO_IX w fd)) m Q.
Proof.
  intros E H He HQ. unfold safe, table_get, bind, get_aio, get_ext, ret. simpl. unfold bind. simpl. rewrite E.
  unfold entry in He. destruct (asyncIoTable a) as [t|]; [|done].
  replace (0 <=? AIO_IX w fd) with true
    by (symmetry; apply Z.leb_le; unfold AIO_IX, AIO_RD_IX, AIO_WR_IX; destruct w; lia).
  destruct (t !! Z.to_nat (AIO_IX w fd)) as [[x|]|]; simplify_eq/=; done.
Qed.

Lemma safe_table_set a w fd e e' (m : world host) (Q : unit -> world host -> Prop) :
  h_aio (w_ext m) = a -> 0 <= fd -> entry a w fd = Some e ->
  (forall m', w_ext m' = with_aio (with_entry w fd e' a) (w_ext m) -> Q tt m') -> safe (table_set (AIO_IX w fd) e') m Q.
Proof.
  intros E H He HQ. unfold safe, table_set, bind, get_aio, get_ext, ret. simpl. unfold bind. simpl. rewrite E.
  unfold entry in He. destruct (asyncIoTable a) as [t|] eqn:T; [|done].
  assert (0 <= AIO_IX w fd) by (unfold AIO_IX, AIO_RD_IX, AIO_WR_IX; destruct w; lia).
  destruct (t !! Z.to_nat (AIO_IX w fd)) as [x|] eqn:L; [|done].
  apply lookup_lt_Some in L. replace (0 <=? AIO_IX w fd) with true by lia.
  replace (AIO_IX w fd <? Z.of_nat (length t)) with true by lia. simpl.
  apply HQ. simpl. unfold with_entry. by rewrite T.
Qed.

(** What making the table longer does. *)
Record grown (a a' : aio) : Prop := {
  gr_table : exists t, asyncIoTable a' = Some t /\ Z.of_nat (length t) = asyncIoTableSize a';
  gr_size : asyncIoTableSize a <= asyncIoTableSize a' <= 4096;
  gr_side w : side w a' = side w a;
  gr_max : maxFd a' = maxFd a;
  gr_kept w fd : 0 <= fd -> AIO_IX w fd < asyncIoTableSize a -> entry a' w fd = entry a w fd;
  gr_new w fd : 0 <= fd -> asyncIoTableSize a <= AIO_IX w fd < asyncIoTableSize a' ->
    entry a' w fd = Some zero_info;
}.

Definition tabled (a : aio) : Prop :=
  (exists t, asyncIoTable a = Some t /\ Z.of_nat (length t) = asyncIoTableSize a) /\
  16 <= asyncIoTableSize a <= 4096.

Lemma grown_refl a : tabled a -> grown a a.
Proof. intros [H S]. split; try done; lia. Qed.

Lemma grown_trans a b c : grown a b -> grown b c -> grown a c.
Proof.
  intros [T1 S1 D1 M1 K1 N1] [T2 S2 D2 M2 K2 N2]. split; [done|lia|congruence..| |].
  - intros w fd H L. rewrite K2, K1 by lia. done.
  - intros w fd H L. destruct (decide (AIO_IX w fd < asyncIoTableSize b)).
    + rewrite K2 by lia. apply N1; lia.
    + apply N2; lia.
Qed.

Lemma grown_tabled a a' : tabled a -> grown a a' -> tabled a'.
Proof. intros [_ S] [T S' _ _ _ _]. split; [done|lia]. Qed.

Lemma double_grown a t : asyncIoTable a = Some t -> Z.of_nat (length t) = asyncIoTableSize a ->
  16 <= asyncIoTableSize a <= 2048 ->
  grown a (set_table (asyncIoTableSize a + asyncIoTableSize a)
             (Some (t ++ replicate (Z.to_nat (asyncIoTableSize a)) (Some zero_info))) a).
Proof.
  intros E L S. split; simpl; try done; try lia.
  - eexists. split; [done|]. rewrite length_app, length_replicate. lia.
  - intros w fd H HL. unfold entry. simpl. rewrite E, lookup_app_l; [done|].
    unfold AIO_IX, AIO_RD_IX, AIO_WR_IX in *. destruct w; lia.
  - intros w fd H HL. unfold entry. simpl. rewrite lookup_app_r by (unfold AIO_IX in *; lia).
    rewrite lookup_replicate_2; [done|]. lia.
Qed.

Lemma safe_grow a index : forall fuel (m : world host) (Q : unit -> world host -> Prop),
  h_aio (w_ext m) = a -> tabled a -> index <= 2047 -> index < asyncIoTableSize a * 2 ^ Z.of_nat fuel ->
  (forall a' m', grown a a' -> index < asyncIoTableSize a' -> w_ext m' = with_aio a' (w_ext m) -> Q tt m') ->
  safe (grow_loop fuel index) m Q.
Proof.
  intros fuel. revert a. induction fuel as [|fuel IH]; intros a m Q E T Hi Hf HQ.
  all: simpl; apply safe_bind, safe_get; rewrite E.
  all: destruct (asyncIoTableSize a <=? index) eqn:C.
  2, 4: apply (HQ a); [by apply grown_refl|lia|]; by rewrite <- E; destruct (w_ext m).
  - simpl in Hf. lia.
  - destruct T as [(t & Ht & Hl) Hs].
    apply safe_bind. unfold GrowAsyncTable. apply safe_bind, safe_get. rewrite E, Ht.
    apply safe_bind. eapply safe_lift; [apply add_int_small; unfold INT_MAX; lia|].
    apply safe_bind. unfold safe at 1, realloc.
    destruct (alloc_result _ m); [|by right].
    apply safe_put. intros m1 E1. simpl in E1.
    pose proof (double_grown a t Ht Hl ltac:(lia)) as G.
    eapply IH; [by rewrite E1|apply (grown_tabled a); [split; eauto|done]|done| |].
    + simpl. rewrite Nat2Z.inj_succ, Z.pow_succ_r in Hf by lia. lia.
    + intros a' m' G' L' E'. apply (HQ a'); [by eapply grown_trans|done|].
      by rewrite E', E1.
Qed.

(** *** Operations are started *)

Lemma FD_SET_in fd s : 0 <= fd < FD_SETSIZE -> FD_SET fd s = Ret ({[fd]} ∪ s).
Proof. intros H. unfold FD_SET. by replace ((0 <=? fd) && (fd <? FD_SETSIZE)) with true by lia. Qed.

Lemma FD_CLR_in fd s : 0 <= fd < FD_SETSIZE -> FD_CLR fd s = Ret (s ∖ {[fd]}).
Proof. intros H. unfold FD_CLR. by replace ((0 <=? fd) && (fd <? FD_SETSIZE)) with true by lia. Qed.

Lemma FD_ISSET_in fd s : 0 <= fd < FD_SETSIZE -> FD_ISSET fd s = Ret (bool_decide (fd ∈ s)).
Proof. intros H. unfold FD_ISSET. by replace ((0 <=? fd) && (fd <? FD_SETSIZE)) with true by lia. Qed.

(** The table of [g] is the grown table of [a]; the operation's entry was not in use. *)
Definition start_state (w : bool) (fd : Z) (e : AioInfo) (g : aio) : aio :=
  let d := side w g in
  set_side w (Dir ({[fd]} ∪ FdSet d) (FdSetPost d) (numPosted d)) (with_entry w fd e g).

Definition raised (fd : Z) (a : aio) : aio :=
  set_maxFd (if maxFd a <? fd then fd else maxFd a) (set_used a).

(** Files found ready stay so, and entries in use stay as they are. *)
Definition keeps (a a' : aio) : Prop :=
  (forall w, FdSetPost (side w a') = FdSetPost (side w a)) /\
  (forall w fd e, 0 <= fd -> entry a w fd = Some e -> inUse e = true -> entry a' w fd = Some e).

Lemma keeps_refl a : keeps a a.
Proof. done. Qed.

Lemma keeps_trans a b c : keeps a b -> keeps b c -> keeps a c.
Proof. intros [P K] [P' K']. split; [intros w; by rewrite P'|eauto]. Qed.

Lemma sound_tabled a : sound a -> tabled a.
Proof. by intros [? ? ? _ _ _ _ _]. Qed.

Lemma entry_index a w fd e : sound a -> 0 <= fd -> entry a w fd = Some e -> AIO_IX w fd < asyncIoTableSize a.
Proof.
  intros S H He. destruct (sd_table _ S) as (t & Et & L). unfold entry in He. rewrite Et in He.
  destruct (t !! Z.to_nat (AIO_IX w fd)) as [x|] eqn:Ex; [|done].
  apply lookup_lt_Some in Ex. unfold AIO_IX, AIO_RD_IX, AIO_WR_IX in *. destruct w; lia.
Qed.

Section start.
Variables (a g : aio) (w : bool) (fd : Z) (e0 e : AioInfo).
Hypothesis (Ha : sound a) (Hg : grown (raised fd a) g) (Hfd : 0 <= fd < FD_SETSIZE)
  (Hix : AIO_IX w fd < asyncIoTableSize g)
  (He0 : entry g w fd = Some e0) (Hu : inUse e0 = false) (He : complete fd e).

Lemma start_side w' : side w' g = side w' a.
Proof. destruct Hg as [_ _ D _ _ _]. rewrite D. by destruct w'. Qed.

Lemma start_entry w' fd' : 0 <= fd' ->
  entry (start_state w fd e g) w' fd' =
  if decide (w = w' /\ fd = fd') then Some e else entry g w' fd'.
Proof.
  intros H. unfold start_state. rewrite entry_set_side. apply entry_with_entry; [|lia|done].
  destruct Hg as [(t & ? & L) _ _ _ _ _]. exists t. split; [done|]. lia.
Qed.

Lemma start_old w' fd' e' : 0 <= fd' -> entry a w' fd' = Some e' -> entry g w' fd' = Some e'.
Proof.
  intros H E. rewrite (gr_kept _ _ Hg); [done..|]. by eapply (entry_index a).
Qed.

(** An entry in use was there before the table grew. *)
Lemma start_in_use w' fd' e' : 0 <= fd' -> entry g w' fd' = Some e' -> inUse e' = true ->
  entry a w' fd' = Some e'.
Proof.
  intros H E U. destruct (decide (AIO_IX w' fd' < asyncIoTableSize a)) as [L|L].
  - by rewrite (gr_kept _ _ Hg w' fd' H L) in E.
  - destruct (decide (AIO_IX w' fd' < asyncIoTableSize g)) as [L'|L'].
    + rewrite (gr_new _ _ Hg w' fd' H) in E by (simpl; lia). by simplify_eq.
    + destruct Hg as [(t & Et & Lt) _ _ _ _ _]. unfold entry in E. rewrite Et in E.
      rewrite (proj2 (lookup_ge_None _ _)) in E; [done|lia].
Qed.

Lemma start_idle : fd ∉ members a w.
Proof.
  intros H. destruct (sd_member _ Ha _ _ H) as (_ & e1 & E1 & U & _).
  apply start_old in E1; [|lia]. congruence.
Qed.

Lemma start_members w' :
  members (start_state w fd e g) w' = (if eqb w' w then {[fd]} else ∅) ∪ members a w'.
Proof.
  unfold members, start_state. rewrite side_set_side, side_with_entry, !start_side.
  destruct (eqb w' w) eqn:B; [|set_solver]. apply eqb_prop in B as <-. simpl. set_solver.
Qed.

Lemma start_post w' : FdSetPost (side w' (start_state w fd e g)) = FdSetPost (side w' a) /\
  numPosted (side w' (start_state w fd e g)) = numPosted (side w' a).
Proof.
  unfold start_state. rewrite side_set_side, side_with_entry, !start_side.
  destruct (eqb w' w) eqn:B; [|done]. by apply eqb_prop in B as <-.
Qed.

Lemma start_max : maxFd (start_state w fd e g) = (if maxFd a <? fd then fd else maxFd a).
Proof.
  unfold start_state. rewrite (proj2 (proj2 (table_set_side _ _ _))). simpl.
  by rewrite (gr_max _ _ Hg).
Qed.

Lemma start_sound : sound (start_state w fd e g).
Proof.
  pose proof start_idle as Hidle. pose proof (sd_max _ Ha) as Hm.
  destruct (table_set_side w (Dir ({[fd]} ∪ FdSet (side w g)) (FdSetPost (side w g)) (numPosted (side w g)))
    (with_entry w fd e g)) as (T & S & _).
  pose proof (gr_size _ _ Hg) as Gs. pose proof (sd_size _ Ha) as As. simpl in Gs.
  split.
  - destruct Hg as [(t & Et & Lt) _ _ _ _ _]. unfold start_state. rewrite T, S. simpl. rewrite Et.
    eexists. split; [done|]. rewrite length_insert. lia.
  - intros w' fd' H L. unfold start_state in L. rewrite S in L. simpl in L.
    rewrite start_entry by done. case_decide; [done|].
    destruct (decide (AIO_IX w' fd' < asyncIoTableSize a)) as [L'|L'].
    + rewrite (gr_kept _ _ Hg w' fd' H L'). by apply (sd_entry _ Ha).
    + rewrite (gr_new _ _ Hg w' fd' H) by (simpl; lia). done.
  - unfold start_state. rewrite S. simpl. lia.
  - rewrite start_max. case_match; lia.
  - intros w'. unfold start_state. rewrite side_set_side, side_with_entry, !start_side.
    pose proof (sd_apart _ Ha w') as D. unfold members in Hidle.
    destruct (eqb w' w) eqn:B; [|done]. apply eqb_prop in B as <-. simpl. set_solver.
  - intros w' fd' H. rewrite start_members in H. rewrite start_max.
    apply elem_of_union in H as [H|H].
    + destruct (eqb w' w) eqn:B; [|set_solver]. apply eqb_prop in B as ->.
      apply elem_of_singleton in H as ->. split; [case_match; lia|].
      exists e. rewrite start_entry by lia. by rewrite decide_True.
    + destruct (sd_member _ Ha _ _ H) as (R & e' & E' & C). split; [case_match; lia|].
      exists e'. split; [|done]. rewrite start_entry by lia. rewrite decide_False.
      * apply start_old; [lia|done].
      * by intros [-> ->].
  - intros w' fd' e' H E' U. rewrite start_entry in E' by done. rewrite start_members.
    case_decide as D.
    + destruct D as [-> ->]. rewrite eqb_reflx. set_solver.
    + apply start_in_use in E'; [|done..]. pose proof (sd_used _ Ha _ _ _ H E' U). set_solver.
  - intros w'. destruct (start_post w') as [-> ->]. apply (sd_count _ Ha).
Qed.

Lemma start_keeps : keeps a (start_state w fd e g).
Proof.
  split; [intros w'; apply start_post|]. intros w' fd' e' H E' U.
  rewrite start_entry by done. rewrite decide_False; [by apply start_old|].
  intros [<- <-]. apply start_old in E'; [|done]. congruence.
Qed.
End start.

(** The state and only the state changes, from [a] in the way [R] says. *)
Definition changes (R : aio -> aio -> Prop) (m m' : world host) : Prop :=
  sound (h_aio (w_ext m')) /\ R (h_aio (w_ext m)) (h_aio (w_ext m')) /\
  w_ext m' = with_aio (h_aio (w_ext m')) (w_ext m).

Lemma safe_async_start w fd offset buf len proc data m :
  sound (h_aio (w_ext m)) -> 0 <= fd < FD_SETSIZE ->
  safe (async_start w fd offset buf len proc data) m (fun rc m' => rc = 0 /\ changes keeps m m').
Proof.
  set (a := h_aio (w_ext m)). intros S H. pose proof (AIO_IX_range w _ H) as R.
  pose proof (sound_tabled _ S) as T. pose proof (sd_size _ S) as Hs.
  apply safe_bind, safe_get. apply safe_bind. apply (safe_lift _ (AIO_IX w fd)).
  { unfold FD_SETSIZE in *. destruct w; rewrite add_int_small by (unfold INT_MAX; lia); simpl;
      rewrite ?add_int_small by (unfold INT_MAX; lia); f_equal; unfold AIO_IX, AIO_RD_IX, AIO_WR_IX; lia. }
  apply safe_bind, safe_put. intros m1 E1. apply safe_bind.
  apply (safe_grow (raised fd a)); [by rewrite E1|done|lia| |].
  { change (2 ^ Z.of_nat GROW_FUEL) with 4294967296. simpl. lia. }
  intros g m2 G L E2. rewrite E1 in E2. simpl in E2.
  assert (exists e0, entry g w fd = Some e0) as [e0 E0].
  { destruct (decide (AIO_IX w fd < asyncIoTableSize a)) as [L'|L'].
    - rewrite (gr_kept _ _ G w fd) by (simpl; lia). apply (sd_entry _ S); lia.
    - rewrite (gr_new _ _ G w fd) by (simpl; lia). eauto. }
  apply safe_bind. apply (safe_table_get g _ _ e0); [by rewrite E2|lia|done|].
  destruct (inUse e0) eqn:U; [by left|]. apply safe_bind.
  apply (safe_table_set g _ _ e0); [by rewrite E2|lia|done|].
  intros m3 E3. rewrite E2 in E3. set (e := Aio (Some proc) data fd len offset buf true) in *.
  apply safe_bind, safe_get. apply safe_bind. rewrite E3.
  eapply safe_lift; [by apply FD_SET_in|]. apply safe_bind, safe_put. intros m4 E4.
  assert (E5 : w_ext m4 = with_aio (start_state w fd e g) (w_ext m)).
  { rewrite E4, E3. unfold start_state. by rewrite <- !(side_with_entry w fd e g w). }
  assert (complete fd e) by (repeat split; eauto).
  split; [done|]. split; rewrite E5; simpl.
  - eapply start_sound; eauto.
  - split; [|done]. eapply start_keeps; eauto.
Qed.

(** *** Operations are given up *)

(** A file leaves the sets of a direction, its entry becomes [e'] and the count [n]. *)
Definition dropped (w : bool) (fd : Z) (e' : AioInfo) (n : Z) (a : aio) : aio :=
  let d := side w a in
  set_side w (Dir (FdSet d ∖ {[fd]}) (FdSetPost d ∖ {[fd]}) n) (with_entry w fd e' a).

Definition forgotten (w : bool) (fd : Z) (e : AioInfo) (a : aio) : aio :=
  dropped w fd (set_inUse false e) (numPosted (side w a)) a.

Lemma with_entry_same w fd e a : 0 <= fd -> entry a w fd = Some e -> with_entry w fd e a = a.
Proof.
  unfold entry, with_entry. intros H E. destruct (asyncIoTable a) as [t|] eqn:T; [|done].
  destruct (t !! Z.to_nat (AIO_IX w fd)) as [x|] eqn:L; [|done]. simpl in *. subst x.
  rewrite list_insert_id by done. destruct a; simpl in *. by subst.
Qed.

Section drop.
Variables (a : aio) (w : bool) (fd : Z) (e e' : AioInfo) (n : Z).
Hypothesis (Ha : sound a) (Hfd : 0 <= fd) (He : entry a w fd = Some e) (Hu : inUse e' = false)
  (Hn : n = Z.of_nat (size (FdSetPost (side w a) ∖ {[fd]}))).

Lemma dropped_entry w' fd' : 0 <= fd' ->
  entry (dropped w fd e' n a) w' fd' =
  if decide (w = w' /\ fd = fd') then Some e' else entry a w' fd'.
Proof.
  intros H. unfold dropped. rewrite entry_set_side. apply entry_with_entry; [|lia|done].
  destruct (sd_table _ Ha) as (t & Et & L). exists t. split; [done|].
  rewrite L. apply (entry_index a w fd e); [done|lia|done].
Qed.

Lemma dropped_members w' :
  members (dropped w fd e' n a) w' = members a w' ∖ (if eqb w' w then {[fd]} else ∅).
Proof.
  clear Ha Hfd He Hu Hn. unfold members, dropped. rewrite side_set_side, side_with_entry.
  destruct (eqb w' w) eqn:B; [|set_solver]. apply eqb_prop in B as <-. simpl. set_solver.
Qed.

Lemma dropped_post w' : FdSetPost (side w' (dropped w fd e' n a)) =
  FdSetPost (side w' a) ∖ (if eqb w' w then {[fd]} else ∅).
Proof.
  clear Ha Hfd He Hu Hn. unfold dropped. rewrite side_set_side, side_with_entry.
  destruct (eqb w' w) eqn:B; [|set_solver]. by apply eqb_prop in B as ->.
Qed.

Lemma dropped_max : maxFd (dropped w fd e' n a) = maxFd a /\
  asyncIoTableSize (dropped w fd e' n a) = asyncIoTableSize a.
Proof. clear Ha Hfd He Hu Hn. by destruct w. Qed.

Lemma dropped_sound : sound (dropped w fd e' n a).
Proof.
  destruct dropped_max as [M S]. split; rewrite ?S, ?M; try apply Ha.
  - destruct (sd_table _ Ha) as (t & Et & Lt). unfold dropped.
    rewrite (proj1 (table_set_side _ _ _)). simpl. rewrite Et.
    eexists. split; [done|]. by rewrite length_insert.
  - intros w' fd' H L. rewrite dropped_entry by done.
    case_decide; [done|]. by apply (sd_entry _ Ha).
  - intros w'. unfold dropped. rewrite side_set_side, side_with_entry.
    pose proof (sd_apart _ Ha w') as D. destruct (eqb w' w) eqn:B; [|done].
    apply eqb_prop in B as <-. simpl. set_solver.
  - intros w' fd' H. rewrite dropped_members in H. apply elem_of_difference in H as [H N].
    destruct (sd_member _ Ha _ _ H) as (R & x & Ex & C). split; [done|].
    exists x. rewrite dropped_entry by lia. rewrite decide_False; [done|].
    intros [<- <-]. rewrite eqb_reflx in N. set_solver.
  - intros w' fd' x H E U. rewrite dropped_entry in E by done. rewrite dropped_members.
    case_decide as D; [congruence|].
    pose proof (sd_used _ Ha _ _ _ H E U). apply elem_of_difference. split; [done|].
    destruct (eqb w' w) eqn:B; [|set_solver]. apply eqb_prop in B as ->.
    rewrite elem_of_singleton. intros ->. by apply D.
  - intros w'. unfold dropped. rewrite side_set_side, side_with_entry.
    destruct (eqb w' w) eqn:B; [done|]. apply (sd_count _ Ha).
Qed.
End drop.

(** Giving up a file that is not posted leaves the count right. *)
Lemma count_absent a w fd : sound a -> fd ∉ FdSetPost (side w a) ->
  numPosted (side w a) = Z.of_nat (size (FdSetPost (side w a) ∖ {[fd]})).
Proof.
  intros S H. rewrite (sd_count _ S). do 2 f_equal. set_solver.
Qed.

Lemma forgotten_sound a w fd e : sound a -> 0 <= fd -> entry a w fd = Some e ->
  fd ∉ FdSetPost (side w a) -> sound (forgotten w fd e a).
Proof. intros S H E P. eapply dropped_sound; eauto. by apply count_absent. Qed.

(** What giving up one direction or both directions of a file leaves. *)
Definition gives_up (fd : Z) (a a' : aio) : Prop :=
  (forall w, FdSetPost (side w a') = FdSetPost (side w a)) /\
  (forall w fd' e, 0 <= fd' -> fd' <> fd -> entry a w fd' = Some e -> entry a' w fd' = Some e) /\
  asyncIoTableSize a' = asyncIoTableSize a.

Lemma gives_up_trans fd a b c : gives_up fd a b -> gives_up fd b c -> gives_up fd a c.
Proof.
  intros (P1 & K1 & S1) (P2 & K2 & S2).
  split; [intros w; by rewrite P2|split; [eauto|congruence]].
Qed.

Lemma forgotten_gives_up w fd e a : sound a -> 0 <= fd -> entry a w fd = Some e ->
  fd ∉ FdSetPost (side w a) -> gives_up fd a (forgotten w fd e a).
Proof.
  intros S H E P. split; [|split].
  - intros w'. unfold forgotten. rewrite dropped_post.
    destruct (eqb w' w) eqn:B; [apply eqb_prop in B as ->|]; clear -P; set_solver.
  - intros w' fd' e' H' N E'. unfold forgotten. rewrite (dropped_entry a w fd e) by done.
    rewrite decide_False; [done|]. intros [_ ->]. done.
  - apply dropped_max.
Qed.

Lemma safe_forget w fd a e (m : world host) Q : h_aio (w_ext m) = a ->
  0 <= fd < FD_SETSIZE -> entry a w fd = Some e ->
  (forall m', w_ext m' = with_aio (forgotten w fd e a) (w_ext m) -> Q tt m') -> safe (forget w fd) m Q.
Proof.
  intros Ea H E HQ. apply safe_bind, safe_get. rewrite Ea.
  apply safe_bind. eapply safe_lift; [by apply FD_CLR_in|].
  apply safe_bind. eapply safe_lift; [by apply FD_CLR_in|].
  apply safe_bind, safe_put. intros m1 E1. set (b := set_side w _ a) in *.
  assert (Eb : entry b w fd = Some e) by (unfold b; by rewrite entry_set_side).
  apply safe_bind. apply (safe_table_get b w fd e); [by rewrite E1|lia|done|].
  destruct (inUse e) eqn:U.
  - apply (safe_table_set b w fd e); [by rewrite E1|lia|done|].
    intros m2 E2. apply HQ. rewrite E2, E1. unfold forgotten, dropped, with_aio, b. simpl. f_equal. by destruct w.
  - apply HQ. rewrite E1. unfold forgotten, dropped, b.
    replace (set_inUse false e) with e by (destruct e; simpl in *; by subst).
    by rewrite with_entry_same by (done || lia).
Qed.

(** A file closed for good may lower [maxFd]. *)
Lemma sound_lower fd a : sound a -> 0 <= fd -> maxFd a = fd -> (forall w, fd ∉ members a w) ->
  sound (set_maxFd (maxFd a - 1) a).
Proof.
  intros [T E S M A I U C] H Hm N. split; try done.
  - simpl. lia.
  - intros w fd' H'. destruct (I w fd' H') as (R & He). split; [|done]. simpl.
    assert (fd' <> fd) by (intros ->; by apply (N w)). lia.
Qed.

Lemma safe_next (m : world host) (Q : Z -> world host -> Prop) :
  (forall m', w_ext m' = Host (h_aio (w_ext m)) (h_select (w_ext m)) (tail (h_results (w_ext m))) (h_log (w_ext m)) ->
    Q (hd 0 (h_results (w_ext m))) m') -> safe next_result m Q.
Proof.
  intros H. unfold next_result. apply safe_bind. unfold safe, get_ext. simpl.
  destruct (h_results (w_ext m)) as [|n rest] eqn:E.
  - apply H. destruct (w_ext m). simpl in *. by subst.
  - unfold bind, put_ext. simpl. apply H. done.
Qed.

(** Only results of transfers have been used up. *)
Definition uses_results (m m' : world host) : Prop :=
  exists rs, w_ext m' = Host (h_aio (w_ext m)) (h_select (w_ext m)) rs (h_log (w_ext m)).

Lemma safe_drain fd : 0 <= fd < FD_SETSIZE -> forall fuel (m : world host),
  (length (h_results (w_ext m)) <= fuel)%nat -> safe (drain fuel fd) m (fun _ m' => uses_results m m').
Proof.
  intros H. induction fuel as [|fuel IH]; intros m L.
  all: simpl; apply safe_bind; (eapply safe_lift; [by apply FD_SET_in|]).
  all: apply safe_bind, safe_next; intros m1 E1.
  all: destruct (0 <? _) eqn:R1; [|apply safe_ret; unfold uses_results; rewrite E1; by eexists].
  all: destruct (h_results (w_ext m)) as [|r1 l]; simpl in L, R1; try lia.
  apply safe_bind, safe_next; intros m2 E2. rewrite E1 in E2. simpl in E2.
  destruct (0 <? hd 0 _); [|apply safe_ret; unfold uses_results; rewrite E2; by eexists].
  eapply safe_mono.
  - apply IH. rewrite E2. simpl. destruct l; simpl in *; lia.
  - intros _ m' [rs Er]. exists rs. by rewrite Er, E2.
Qed.

(** What a call of [OS_Close] or [OS_CloseRead] does for a file that is not posted. *)
Definition closes (fd : Z) (m m' : world host) : Prop :=
  sound (h_aio (w_ext m')) /\ gives_up fd (h_aio (w_ext m)) (h_aio (w_ext m')) /\
  h_log (w_ext m') = h_log (w_ext m).

Lemma gives_up_lower fd n a : gives_up fd a (set_maxFd n a).
Proof. by repeat split. Qed.

Lemma changes_none fd m : sound (h_aio (w_ext m)) -> changes (gives_up fd) m m.
Proof. intros S. split; [done|]. split; [by repeat split|]. by destruct (w_ext m). Qed.

Lemma safe_forget_file fd m : sound (h_aio (w_ext m)) -> 0 <= fd < FD_SETSIZE ->
  AIO_IX true fd < asyncIoTableSize (h_aio (w_ext m)) ->
  (forall w, fd ∉ FdSetPost (side w (h_aio (w_ext m)))) ->
  safe (forget_file fd) m (fun _ m' => changes (gives_up fd) m m').
Proof.
  set (a := h_aio (w_ext m)). intros S H L P.
  destruct (sd_entry _ S false fd) as [e Ee]; [lia|unfold AIO_IX, AIO_RD_IX, AIO_WR_IX in *; lia|].
  apply safe_bind, (safe_forget _ _ a e); [done..|]. intros m1 E1.
  assert (S1 : sound (forgotten false fd e a)) by (apply forgotten_sound; (done || lia)).
  pose proof (forgotten_gives_up false fd e a S ltac:(lia) Ee (P false)) as G1.
  destruct (sd_entry _ S1 true fd) as [e2 Ee2]; [lia|by rewrite (proj2 (proj2 G1))|].
  apply safe_bind, (safe_forget _ _ (forgotten false fd e a) e2); [by rewrite E1|done..|].
  intros m2 E2. rewrite E1 in E2. set (b := forgotten true fd e2 _) in *.
  assert (P1 : fd ∉ FdSetPost (side true (forgotten false fd e a))) by (rewrite (proj1 G1); apply P).
  assert (S2 : sound b) by (apply forgotten_sound; (done || lia)).
  pose proof (forgotten_gives_up true fd e2 _ S1 ltac:(lia) Ee2 P1) as G2. fold b in G2.
  pose proof (gives_up_trans _ _ _ _ G1 G2) as G.
  apply safe_bind, safe_get. rewrite E2. cbn [h_aio with_aio]. destruct (maxFd b =? fd) eqn:M.
  - apply safe_put. intros m3 E3. rewrite E2 in E3. unfold changes. rewrite E3. cbn [h_aio with_aio].
    split; [|split; [|done]].
    + apply (sound_lower fd); [done|lia|lia|]. intros w. unfold b, forgotten. rewrite !dropped_members.
      clear. destruct w; simpl; set_solver.
    + eapply gives_up_trans; [exact G|apply gives_up_lower].
  - apply safe_ret. unfold changes. rewrite E2. done.
Qed.

Lemma safe_OS_Close fd m : sound (h_aio (w_ext m)) -> 0 <= fd < FD_SETSIZE ->
  (asyncIoInUse (h_aio (w_ext m)) = true -> AIO_IX true fd < asyncIoTableSize (h_aio (w_ext m))) ->
  (forall w, fd ∉ FdSetPost (side w (h_aio (w_ext m)))) ->
  safe (OS_Close fd) m (fun _ m' => closes fd m m').
Proof.
  intros S H L P. unfold OS_Close. replace (fd =? -1) with false by lia.
  apply safe_bind, safe_get.
  apply safe_bind. eapply (safe_mono _ _ (fun _ m' => changes (gives_up fd) m m')).
  { destruct (asyncIoInUse _); [apply safe_forget_file; auto|by apply safe_ret, changes_none]. }
  intros _ m1 (S1 & G1 & E1).
  apply safe_bind, safe_next. intros m2 E2. apply safe_bind.
  eapply (safe_mono _ _ (fun _ m' => uses_results m2 m')).
  { destruct (hd 0 _ =? 0).
    - apply safe_bind. unfold safe at 1, get_ext. by apply safe_drain.
    - exists (h_results (w_ext m2)). by destruct (w_ext m2). }
  intros _ m3 [rs E3]. apply safe_next. intros m4 E4.
  unfold closes. rewrite E4, E3, E2, E1. done.
Qed.

Lemma safe_OS_CloseRead fd m : sound (h_aio (w_ext m)) -> 0 <= fd < FD_SETSIZE ->
  AIO_IX true fd < asyncIoTableSize (h_aio (w_ext m)) ->
  fd ∉ FdSetPost (rd (h_aio (w_ext m))) ->
  safe (OS_CloseRead fd) m (fun _ m' => closes fd m m').
Proof.
  set (a := h_aio (w_ext m)). intros S H L P.
  destruct (sd_entry _ S false fd) as [e Ee]; [lia|unfold AIO_IX, AIO_RD_IX, AIO_WR_IX in *; lia|].
  apply safe_bind, (safe_table_get a false fd e); [done|lia|done|].
  apply safe_bind. eapply (safe_mono _ _ (fun _ m' => changes (gives_up fd) m m')).
  { destruct (inUse e) eqn:U; [|by apply safe_ret, changes_none].
    apply safe_bind, (safe_table_set a false fd e); [done|lia|done|]. intros m1 E1.
    apply safe_bind, safe_get. rewrite E1. apply safe_bind.
    eapply safe_lift; [by apply FD_CLR_in|]. apply safe_put. intros m2 E2. rewrite E1 in E2.
    assert (E3 : w_ext m2 = with_aio (forgotten false fd e a) (w_ext m)).
    { assert (D : FdSetPost (rd a) ∖ {[fd]} = FdSetPost (rd a)) by (clear -P; set_solver).
      rewrite E2. unfold forgotten, dropped. simpl. by rewrite D. }
    unfold changes. rewrite E3. cbn [h_aio with_aio]. split; [apply forgotten_sound; (done || lia)|].
    split; [|done]. apply forgotten_gives_up; (done || lia). }
  intros _ m1 (S1 & G1 & E1). apply safe_next. intros m2 E2. unfold closes. rewrite E2, E1. done.
Qed.

(** *** The step of the loop *)

Lemma copy_files s : forall fds c, Forall (fun fd => 0 <= fd < FD_SETSIZE) fds ->
  for_each fds (copy_file s) c = Ret (c ∪ (s ∩ list_to_set fds)).
Proof.
  induction fds as [|fd fds IH]; intros c H; simpl; [f_equal; set_solver|].
  inversion_clear H as [|? ? H1 H2]. unfold copy_file at 1. rewrite FD_ISSET_in by done. simpl.
  case_bool_decide; simpl; rewrite ?FD_SET_in by done; simpl; rewrite IH by done; f_equal; set_solver.
Qed.

Lemma post_files ready : forall fds d, Forall (fun fd => 0 <= fd < FD_SETSIZE) fds -> NoDup fds ->
  (forall fd, fd ∈ fds -> fd ∉ FdSetPost d) -> numPosted d = Z.of_nat (size (FdSetPost d)) ->
  let now := ready ∩ list_to_set fds in
  let p := FdSetPost d ∪ now in
  for_each fds (post_file ready) d = Ret (Dir (FdSet d ∖ now) p (Z.of_nat (size p))).
Proof.
  induction fds as [|fd fds IH]; intros d H N Hp Hn now p; simpl.
  - unfold p, now. simpl. destruct d as [s q n]; simpl in *. subst n. do 2 f_equal; [set_solver..|].
    do 2 f_equal. set_solver.
  - inversion_clear H as [|? ? H1 H2]. inversion_clear N as [|? ? N1 N2].
    unfold post_file at 1. rewrite FD_ISSET_in by done. simpl. case_bool_decide as R; simpl.
    + rewrite FD_SET_in, FD_CLR_in by done. simpl. rewrite IH; try done; simpl.
      * do 2 f_equal; [unfold now; set_solver|unfold p, now; set_solver|].
        do 2 f_equal. unfold p, now. set_solver.
      * intros x Hx. pose proof (Hp x). set_solver.
      * rewrite size_union by (pose proof (Hp fd); set_solver). rewrite size_singleton. lia.
    + rewrite IH; try done.
      * assert (E : now = ready ∩ list_to_set fds) by (unfold now; set_solver).
        unfold p. by rewrite E.
      * intros x Hx. apply Hp. set_solver.
Qed.

(** The operations found ready, those of a file in the order reads, writes. *)
Definition job (a : aio) (w : bool) (fd : Z) : list (bool * AioInfo) :=
  if decide (fd ∈ FdSetPost (side w a)) then
    match entry a w fd with Some e => [(w, e)] | None => [] end
  else [].

Definition jobs (a : aio) (fds : list Z) : list (bool * AioInfo) :=
  flat_map (fun fd => job a false fd ++ job a true fd) fds.

(** What is seen of operations that are completed one after the other. *)
Fixpoint served (js : list (bool * AioInfo)) (results : list Z) : list event :=
  match js with
  | [] => []
  | (w, e) :: js =>
      let n := hd 0 results in
      Transfer w (aio_fd e) (aio_buf e) (aio_len e) n ::
      Called (default 0 (procPtr e)) (clientData e) n :: served js (tail results)
  end.

Lemma served_app js1 : forall js2 rs,
  served (js1 ++ js2) rs = served js1 rs ++ served js2 (drop (length js1) rs).
Proof.
  induction js1 as [|[w e] js1 IH]; intros js2 rs; simpl; [done|].
  rewrite IH. by destruct rs as [|r rs]; simpl; rewrite ?drop_nil.
Qed.

(** Operations a procedure may start at any time. *)
Definition starts (c : action) : Prop :=
  match c with
  | AsyncRead fd _ _ _ _ _ | AsyncWrite fd _ _ _ _ _ => 0 <= fd < FD_SETSIZE
  | _ => False
  end.

Lemma changes_keeps_refl m : sound (h_aio (w_ext m)) -> changes keeps m m.
Proof. intros S. split; [done|]. split; [apply keeps_refl|]. by destruct (w_ext m). Qed.

Lemma changes_keeps_trans m1 m2 m3 : changes keeps m1 m2 -> changes keeps m2 m3 -> changes keeps m1 m3.
Proof.
  intros (S1 & K1 & E1) (S2 & K2 & E2). split; [done|]. split; [by eapply keeps_trans|].
  by rewrite E2, E1.
Qed.

Lemma safe_start c m : starts c -> sound (h_aio (w_ext m)) ->
  safe (perform c) m (fun _ m' => changes keeps m m').
Proof.
  intros H S. destruct c; try done; simpl.
  - apply safe_bind, safe_get. destruct (sd_table _ S) as (t & -> & _).
    eapply safe_mono; [by apply safe_async_start|]. by intros ? ? [_ ?].
  - eapply safe_mono; [by apply safe_async_start|]. by intros ? ? [_ ?].
Qed.

Lemma safe_starts cs : forall m, Forall starts cs -> sound (h_aio (w_ext m)) ->
  safe (perform_all cs) m (fun _ m' => changes keeps m m').
Proof.
  induction cs as [|c cs IH]; intros m H S; simpl; [by apply safe_ret, changes_keeps_refl|].
  inversion_clear H as [|? ? H1 H2]. apply safe_bind. eapply safe_mono; [by apply safe_start|].
  intros ? m1 C1. eapply safe_mono; [apply IH; [done|apply C1]|].
  intros ? m2 C2. exact (changes_keeps_trans _ _ _ C1 C2).
Qed.

Lemma safe_log e (m : world host) (Q : unit -> world host -> Prop) :
  (forall m', w_ext m' = Host (h_aio (w_ext m)) (h_select (w_ext m)) (h_results (w_ext m)) (h_log (w_ext m) ++ [e]) ->
    Q tt m') -> safe (log e) m Q.
Proof. intros H. by apply H. Qed.

(** One direction of a turn: the operation of the file, when it was found ready, and nothing
    else is completed. *)
Record turn (w : bool) (fd : Z) (m m' : world host) : Prop := {
  tn_sound : sound (h_aio (w_ext m'));
  tn_post w' : FdSetPost (side w' (h_aio (w_ext m'))) =
    FdSetPost (side w' (h_aio (w_ext m))) ∖ (if eqb w' w then {[fd]} else ∅);
  tn_kept w' fd' e : 0 <= fd' -> (w', fd') <> (w, fd) -> entry (h_aio (w_ext m)) w' fd' = Some e ->
    inUse e = true -> entry (h_aio (w_ext m')) w' fd' = Some e;
  tn_select : h_select (w_ext m') = h_select (w_ext m);
  tn_results : h_results (w_ext m') = drop (length (job (h_aio (w_ext m)) w fd)) (h_results (w_ext m));
  tn_log : h_log (w_ext m') = h_log (w_ext m) ++ served (job (h_aio (w_ext m)) w fd) (h_results (w_ext m));
}.

(** Other operations are not affected by a turn. *)
Lemma turn_job w fd m m' w' fd' : sound (h_aio (w_ext m)) -> turn w fd m m' -> 0 <= fd' -> (w', fd') <> (w, fd) ->
  job (h_aio (w_ext m')) w' fd' = job (h_aio (w_ext m)) w' fd'.
Proof.
  intros S T H N. unfold job. rewrite (tn_post _ _ _ _ T).
  assert (D : fd' ∉ (if eqb w' w then {[fd]} else ∅ : gset Z)).
  { destruct (eqb w' w) eqn:B; [|set_solver]. apply eqb_prop in B as ->. set_solver. }
  destruct (decide (fd' ∈ FdSetPost (side w' (h_aio (w_ext m))))) as [P|P].
  - rewrite decide_True by set_solver.
    destruct (sd_member _ S w' fd') as (_ & e & E & U & _); [unfold members; set_solver|].
    by rewrite E, (tn_kept _ _ _ _ T _ _ _ H N E U).
  - by rewrite decide_False by set_solver.
Qed.

Section loop.
Variable procs : list event -> Z -> Z -> Z -> list action.
Hypothesis Hprocs : forall log proc data n, Forall starts (procs log proc data n).

(** The state in which the procedure of an operation is called. *)
Definition completed (w : bool) (fd : Z) (e : AioInfo) (a : aio) : aio :=
  dropped w fd (set_procPtr None (set_inUse false e)) (numPosted (side w a) - 1) a.

Lemma completed_sound a w fd e : sound a -> 0 <= fd -> entry a w fd = Some e ->
  fd ∈ FdSetPost (side w a) -> sound (completed w fd e a).
Proof.
  intros S H E P. eapply dropped_sound; eauto.
  rewrite (sd_count _ S), size_difference by set_solver. rewrite size_singleton.
  assert (size (FdSetPost (side w a)) <> 0%nat); [|lia].
  intros Z. apply size_empty_inv in Z. set_solver.
Qed.

Lemma serve_posted w fd e m : sound (h_aio (w_ext m)) -> 0 <= fd < FD_SETSIZE ->
  fd ∈ FdSetPost (side w (h_aio (w_ext m))) -> entry (h_aio (w_ext m)) w fd = Some e -> complete fd e ->
  safe (serve procs w fd) m (fun _ m' => turn w fd m m').
Proof.
  set (a := h_aio (w_ext m)). intros S H P E (U & Ef & [proc Ep]).
  assert (J : job a w fd = [(w, e)]) by (unfold job; by rewrite decide_True, E).
  apply safe_bind, safe_get. apply safe_bind. eapply safe_lift; [by apply FD_ISSET_in|].
  rewrite bool_decide_true by done. simpl. apply safe_bind, (safe_table_get a w fd e); [done|lia|done|].
  rewrite U. simpl. apply safe_bind. eapply safe_lift; [by apply FD_CLR_in|].
  apply safe_bind, safe_put. intros m1 E1. apply safe_bind, safe_next. intros m2 E2. rewrite E1 in *.
  apply safe_bind, safe_log. intros m3 E3. rewrite E2 in E3. set (b := set_side w _ _) in *.
  apply safe_bind, (safe_table_set b w fd e); [by rewrite E3|lia|unfold b; by rewrite entry_set_side|].
  intros m4 E4. rewrite E3 in E4. rewrite Ep. apply safe_bind. unfold safe at 1, get_ext.
  apply safe_bind, safe_log. intros m5 E5. rewrite E4 in E5. simpl in E5.
  assert (E6 : h_aio (w_ext m5) = completed w fd e a).
  { rewrite E5. simpl. unfold completed, dropped, b.
    assert (D : FdSet (side w a) ∖ {[fd]} = FdSet (side w a)) by (pose proof (sd_apart _ S w); set_solver).
    rewrite D. by destruct w. }
  pose proof (completed_sound a w fd e S ltac:(lia) E P) as S'.
  eapply safe_mono; [apply safe_starts; [apply Hprocs|by rewrite E6]|].
  intros ? m6 (S6 & (K6 & L6) & E7). rewrite E6 in K6, L6. split.
  - done.
  - intros w'. rewrite K6. unfold completed. apply dropped_post.
  - intros w' fd' x H' N Ex Ux. apply L6; [done| |done]. unfold completed.
    rewrite (dropped_entry a w fd e) by (done || lia). rewrite decide_False; [done|].
    intros [<- <-]. done.
  - by rewrite E7, E5.
  - fold a. rewrite E7, E5, J. simpl. by destruct (h_results (w_ext m)).
  - fold a. rewrite E7, E5, J. simpl. rewrite Ep, <- app_assoc. done.
Qed.

Lemma safe_serve w fd m : sound (h_aio (w_ext m)) -> 0 <= fd < FD_SETSIZE ->
  safe (serve procs w fd) m (fun _ m' => turn w fd m m').
Proof.
  intros S H. destruct (decide (fd ∈ FdSetPost (side w (h_aio (w_ext m))))) as [P|P].
  - destruct (sd_member _ S w fd) as (_ & e & E & C); [unfold members; set_solver|].
    by eapply serve_posted.
  - apply safe_bind, safe_get. apply safe_bind. eapply safe_lift; [by apply FD_ISSET_in|].
    rewrite bool_decide_false by done. apply safe_ret.
    assert (J : job (h_aio (w_ext m)) w fd = []) by (unfold job; by rewrite decide_False).
    split; rewrite ?J; simpl; rewrite ?app_nil_r, ?drop_0; try done.
    intros w'. destruct (eqb w' w) eqn:B; [apply eqb_prop in B as ->|]; set_solver.
Qed.

Lemma jobs_quiet a fds : quiet a -> jobs a fds = [].
Proof.
  intros Q. induction fds as [|fd fds IH]; [done|]. simpl. rewrite IH. unfold job.
  by rewrite !decide_False by (rewrite ?(Q false), ?(Q true); set_solver).
Qed.

(** The rest of the loop, from file [fd] on, has been run. *)
Definition finished (fd : Z) (m m' : world host) : Prop :=
  sound (h_aio (w_ext m')) /\ quiet (h_aio (w_ext m')) /\ h_select (w_ext m') = h_select (w_ext m) /\
  h_log (w_ext m') = h_log (w_ext m) ++
    served (jobs (h_aio (w_ext m)) (seqZ fd (FD_SETSIZE - fd))) (h_results (w_ext m)).

Definition none_below (fd : Z) (a : aio) : Prop :=
  forall w x, x ∈ FdSetPost (side w a) -> fd <= x.

Lemma finished_above fd m : sound (h_aio (w_ext m)) -> maxFd (h_aio (w_ext m)) < fd ->
  none_below fd (h_aio (w_ext m)) -> finished fd m m.
Proof.
  intros S M B. assert (Q : quiet (h_aio (w_ext m))).
  { intros w. apply set_eq. intros x. split; [|set_solver]. intros P.
    destruct (sd_member _ S w x) as [R _]; [unfold members; set_solver|]. specialize (B _ _ P). lia. }
  split; [done|]. split; [done|]. split; [done|]. rewrite jobs_quiet by done. by rewrite app_nil_r.
Qed.

Lemma turns_below fd m m1 m2 : none_below fd (h_aio (w_ext m)) -> turn false fd m m1 -> turn true fd m1 m2 ->
  none_below (fd + 1) (h_aio (w_ext m2)).
Proof.
  intros B T1 T2 w x P. rewrite (tn_post _ _ _ _ T2), (tn_post _ _ _ _ T1) in P.
  assert (x ∈ FdSetPost (side w (h_aio (w_ext m))) /\ x <> fd) as [Px Nx]
    by (destruct w; simpl in P; set_solver).
  specialize (B _ _ Px). lia.
Qed.

(** Two turns and the rest of the loop. *)
Lemma turns_finished fd m m1 m2 m3 : sound (h_aio (w_ext m)) -> 0 <= fd < FD_SETSIZE ->
  turn false fd m m1 -> turn true fd m1 m2 -> finished (fd + 1) m2 m3 -> finished fd m m3.
Proof.
  intros S H T1 T2 (S3 & Q3 & E3 & L3). pose proof (tn_sound _ _ _ _ T1) as S1.
  split; [done|]. split; [done|]. split; [by rewrite E3, (tn_select _ _ _ _ T2), (tn_select _ _ _ _ T1)|].
  assert (J : jobs (h_aio (w_ext m2)) (seqZ (fd + 1) (FD_SETSIZE - (fd + 1))) =
              jobs (h_aio (w_ext m)) (seqZ (fd + 1) (FD_SETSIZE - (fd + 1)))).
  { unfold jobs. rewrite !flat_map_concat_map. f_equal. apply map_ext_in. intros x Hx.
    apply list_elem_of_In, elem_of_seqZ in Hx.
    by rewrite !(turn_job true fd m1 m2), !(turn_job false fd m m1) by (done || lia || intros [=]; lia). }
  rewrite L3, J, (tn_log _ _ _ _ T2), (tn_log _ _ _ _ T1), (tn_results _ _ _ _ T2), (tn_results _ _ _ _ T1).
  rewrite (turn_job false fd m m1 true fd) by (done || lia).
  rewrite (seqZ_cons fd) by lia. replace (Z.succ fd) with (fd + 1) by lia.
  replace (Z.pred (FD_SETSIZE - fd)) with (FD_SETSIZE - (fd + 1)) by lia. simpl.
  rewrite <- !app_assoc, !served_app, drop_drop. done.
Qed.

(** From file [fd] on every operation found ready is completed, once and in order. *)
Lemma safe_dispatch : forall fuel fd m, sound (h_aio (w_ext m)) -> 0 <= fd ->
  fd + Z.of_nat fuel = FD_SETSIZE -> none_below fd (h_aio (w_ext m)) ->
  safe (dispatch procs fuel fd) m (fun _ m' => finished fd m m').
Proof.
  induction fuel as [|fuel IH]; intros fd m S H F B; simpl; apply safe_bind, safe_get.
  all: pose proof (sd_max _ S) as Hm.
  all: destruct (maxFd (h_aio (w_ext m)) <? fd) eqn:M; [apply safe_ret, finished_above; (done || lia)|].
  - lia.
  - apply safe_bind. eapply safe_mono; [apply safe_serve; [done|lia]|]. intros ? m1 T1.
    apply safe_bind. eapply safe_mono; [apply safe_serve; [apply T1|lia]|]. intros ? m2 T2.
    eapply safe_mono; [apply IH; [apply T2|lia|lia|exact (turns_below fd m m1 m2 B T1 T2)]|].
    intros ? m3 D. eapply turns_finished; [done|lia|exact T1|exact T2|exact D].
Qed.

(** *** The whole step *)

(** The state after [select] has found [r] and [v] ready. *)
Definition found (r v : gset Z) (a : aio) : aio :=
  let move s d := Dir (FdSet d ∖ s) s (Z.of_nat (size s)) in
  set_side true (move v (wr a)) (set_side false (move r (rd a)) a).

Definition pick {A} (w : bool) (x y : A) : A := if w then y else x.

Lemma side_found r v a w : side w (found r v a) =
  Dir (FdSet (side w a) ∖ pick w r v) (pick w r v) (Z.of_nat (size (pick w r v))).
Proof. by destruct w. Qed.

Lemma found_sound r v a : sound a -> quiet a -> r ⊆ FdSet (rd a) -> v ⊆ FdSet (wr a) -> sound (found r v a).
Proof.
  intros S Q Hr Hv.
  assert (E : forall w fd, entry (found r v a) w fd = entry a w fd) by done.
  assert (M : forall w, members (found r v a) w = members a w).
  { intros w. unfold members. rewrite side_found, (Q w). simpl.
    assert (P : pick w r v ⊆ FdSet (side w a)) by by destruct w.
    rewrite (right_id_L ∅ _), difference_union_L. set_solver. }
  destruct S as [T En Sz Mx Ap Me Us Co]. split; try done.
  - intros w. rewrite side_found. simpl. set_solver.
  - intros w fd. rewrite M, E. apply Me.
  - intros w fd e. rewrite M, E. apply Us.
  - intros w. by rewrite side_found.
Qed.

Lemma copied a w : sound a ->
  for_each (seqZ 0 (maxFd a + 1)) (copy_file (FdSet (side w a))) ∅ = Ret (FdSet (side w a)).
Proof.
  intros S. pose proof (sd_max _ S). rewrite copy_files.
  - f_equal. apply set_eq. intros x. split; [set_solver|]. intros Hx.
    destruct (sd_member _ S w x) as [R _]; [unfold members; set_solver|].
    apply elem_of_union_r, elem_of_intersection. split; [done|].
    apply elem_of_list_to_set, elem_of_seqZ. lia.
  - apply list.Forall_forall. intros x Hx%elem_of_seqZ. lia.
Qed.

Lemma posted a w s : sound a -> quiet a -> s ⊆ FdSet (side w a) ->
  for_each (seqZ 0 (maxFd a + 1)) (post_file s) (side w a) =
    Ret (Dir (FdSet (side w a) ∖ s) s (Z.of_nat (size s))).
Proof.
  intros S Q Hs. pose proof (sd_max _ S).
  assert (E : s ∩ list_to_set (seqZ 0 (maxFd a + 1)) = s).
  { apply set_eq. intros x. split; [set_solver|]. intros Hx.
    destruct (sd_member _ S w x) as [R _]; [unfold members; set_solver|].
    apply elem_of_intersection. split; [done|]. apply elem_of_list_to_set, elem_of_seqZ. lia. }
  rewrite post_files.
  - rewrite E, (Q w), (left_id_L ∅ _). done.
  - apply list.Forall_forall. intros x Hx%elem_of_seqZ. lia.
  - apply NoDup_seqZ.
  - intros fd _. rewrite (Q w). set_solver.
  - apply (sd_count _ S).
Qed.

(** The files the next call of [select] finds ready. *)
Definition ready (h : host) : gset Z * gset Z :=
  match h_select h with
  | Some (r, v) :: _ => (FdSet (rd (h_aio h)) ∩ r, FdSet (wr (h_aio h)) ∩ v)
  | _ => (∅, ∅)
  end.

(** A step: all operations found ready are completed. *)
Definition stepped (m m' : world host) : Prop :=
  let a := h_aio (w_ext m) in
  let (r, v) := ready (w_ext m) in
  sound (h_aio (w_ext m')) /\ quiet (h_aio (w_ext m')) /\
  h_select (w_ext m') = tail (h_select (w_ext m)) /\
  h_log (w_ext m') = h_log (w_ext m) ++ Select (FdSet (rd a)) (FdSet (wr a)) ::
    served (jobs (found r v a) (seqZ 0 FD_SETSIZE)) (h_results (w_ext m)).

Lemma set_used_sound a : sound a -> sound (set_used a).
Proof. by intros [? ? ? ? ? ? ? ?]. Qed.

Lemma quiet_count a w : sound a -> quiet a -> numPosted (side w a) = 0.
Proof. intros S Q. by rewrite (sd_count _ S), (Q w), size_empty. Qed.

Lemma safe_select r v m (Q : option (gset Z * gset Z) -> world host -> Prop) :
  r = FdSet (rd (h_aio (w_ext m))) -> v = FdSet (wr (h_aio (w_ext m))) ->
  (forall o m', w_ext m' = Host (h_aio (w_ext m)) (tail (h_select (w_ext m))) (h_results (w_ext m))
      (h_log (w_ext m) ++ [Select r v]) ->
    o = None \/ o = Some (ready (w_ext m)) -> Q o m') -> safe (next_select r v) m Q.
Proof.
  intros Er Ev H. apply safe_bind, safe_log. intros m1 E1. apply safe_bind. unfold safe, get_ext.
  rewrite E1. simpl. unfold ready in H. destruct (h_select (w_ext m)) as [|[[r' v']|] rest] eqn:E.
  - apply H; [by rewrite ?E1|by right].
  - unfold bind, put_ext. simpl. apply H; [by rewrite ?E1|right; by rewrite Er, Ev].
  - unfold bind, put_ext. simpl. apply H; [by rewrite ?E1|by left].
Qed.

Lemma ready_subset h : fst (ready h) ⊆ FdSet (rd (h_aio h)) /\ snd (ready h) ⊆ FdSet (wr (h_aio h)).
Proof. clear procs Hprocs. unfold ready. repeat case_match; simpl; set_solver. Qed.

Lemma safe_dispatch_posted m : sound (h_aio (w_ext m)) ->
  safe (dispatch_posted procs) m (fun rc m' => rc = 0 /\ finished 0 m m').
Proof.
  intros S. apply safe_bind, safe_get.
  destruct ((numPosted _ =? 0) && _) eqn:C.
  - apply safe_ret. split; [done|].
    assert (Q : quiet (h_aio (w_ext m))).
    { intros w. apply leibniz_equiv, size_empty_inv. pose proof (sd_count _ S w).
      destruct w; simpl in *; lia. }
    split; [done|]. split; [done|]. split; [done|]. rewrite jobs_quiet by done. by rewrite app_nil_r.
  - apply safe_bind. eapply safe_mono; [apply safe_dispatch; [done|lia|done|]|].
    + intros w x P. destruct (sd_member _ S w x) as [R _]; [unfold members; set_solver|]. lia.
    + intros ? m1 F. by apply safe_ret.
Qed.

Lemma jobs_used r v a fds : jobs (found r v (set_used a)) fds = jobs (found r v a) fds.
Proof. clear procs Hprocs. induction fds as [|fd fds IH]; [done|]. simpl. by rewrite IH. Qed.

Lemma safe_OS_DoIo m : sound (h_aio (w_ext m)) -> quiet (h_aio (w_ext m)) ->
  safe (OS_DoIo procs) m (fun rc m' => rc = 0 /\ stepped m m').
Proof.
  intros S0 Q0. pose proof (ready_subset (w_ext m)) as Hs.
  destruct (ready (w_ext m)) as [r v] eqn:Er. destruct Hs as [Hr Hv]. simpl in Hr, Hv.
  set (a := set_used (h_aio (w_ext m))).
  assert (S : sound a) by by apply set_used_sound. assert (Q : quiet a) by exact Q0.
  apply safe_bind, safe_get. apply safe_bind, safe_put. fold a. intros m1 E1.
  apply safe_bind. eapply safe_lift; [exact (copied a false S)|].
  apply safe_bind. eapply safe_lift; [exact (copied a true S)|].
  rewrite (quiet_count _ false S0 Q0 : numPosted (rd _) = 0), (quiet_count _ true S0 Q0 : numPosted (wr _) = 0).
  cbn [Z.eqb andb]. apply safe_bind. apply safe_bind.
  apply safe_select; [by rewrite E1|by rewrite E1|]. intros o m2 E2 [->|Ho]; [by right|].
  replace (ready (w_ext m1)) with (ready (w_ext m)) in Ho by (by rewrite E1).
  rewrite Er in Ho. subst o. rewrite E1 in E2. cbn [h_aio h_select h_results h_log with_aio] in E2.
  apply safe_bind, safe_get. rewrite E2. cbn [h_aio].
  apply safe_bind. eapply safe_lift; [exact (posted a false r S Q Hr)|].
  apply safe_bind. eapply safe_lift; [exact (posted a true v S Q Hv)|].
  apply safe_put. intros m3 E3. rewrite E2 in E3. change (set_side true _ _) with (found r v a) in E3.
  eapply safe_mono; [apply safe_dispatch_posted; rewrite E3; by apply found_sound|].
  intros rc m4 (-> & S4 & Q4 & E4 & L4). rewrite E3 in E4, L4.
  cbn [h_aio h_log h_select h_results with_aio] in E4, L4. rewrite <- app_assoc in L4.
  unfold a in L4. rewrite (Z.sub_0_r FD_SETSIZE), jobs_used in L4. split; [done|]. unfold stepped. rewrite Er. split; [done|]. split; [done|]. split; [done|]. exact L4.
Qed.
End loop.

(** ** Programs *)

(** A call the program may make: it starts operations, steps, and closes files, those only
    that the table has entries for once operations have been started. *)
Definition permitted (a : aio) (o : operation) : Prop :=
  match o with
  | Act (Close fd) =>
      fd = -1 \/ 0 <= fd < FD_SETSIZE /\
      (asyncIoInUse a = true -> AIO_IX true fd < asyncIoTableSize a)
  | Act (CloseRead fd) => 0 <= fd < FD_SETSIZE /\ AIO_IX true fd < asyncIoTableSize a
  | Act (AsyncReadStdin _ _ _ _) => True
  | Act c => starts c
  | DoIo => True
  end.

(** The states a program gets to after [OS_LibInit]. *)
Inductive reachable (procs : list event -> Z -> Z -> Z -> list action) : world host -> Prop :=
| reach_init m m' : h_aio (w_ext m) = aio_start -> OS_LibInit m = Ret (0, m') -> reachable procs m'
| reach_run m o r m' : reachable procs m -> permitted (h_aio (w_ext m)) o ->
    run procs o m = Ret (r, m') -> reachable procs m'.

(** Nothing is left over between the calls, and the state is sound. *)
Definition ready_state (a : aio) : Prop := sound a /\ quiet a.

Lemma safe_elim {A} (m : M host A) w (Q : A -> world host -> Prop) a w' :
  safe m w Q -> m w = Ret (a, w') -> Q a w'.
Proof. unfold safe. by intros H E; rewrite E in H. Qed.

Definition initialised : aio :=
  AioState false 16 (Some (replicate 16 (Some zero_info))) true no_direction no_direction (-1).

Lemma initialised_ready : ready_state initialised.
Proof.
  split; [|by intros []].
  assert (En : forall w fd e, entry initialised w fd = Some e -> e = zero_info).
  { intros w fd e. unfold entry, initialised. cbn [asyncIoTable].
    destruct (replicate _ _ !! _) as [x|] eqn:L; [|done].
    apply lookup_replicate in L as [-> _]. by intros [=]. }
  split; try done.
  - by eexists.
  - intros w fd H L. unfold entry, initialised. cbn [asyncIoTable]. rewrite lookup_replicate_2; [done|].
    unfold initialised in L. cbn [asyncIoTableSize] in L.
    unfold AIO_IX, AIO_RD_IX, AIO_WR_IX in *. destruct w; lia.
  - by intros [].
  - intros [] fd H; unfold members in H; simpl in H; set_solver.
  - intros w fd e H Ee U. by rewrite (En _ _ _ Ee) in U.
  - by intros [].
Qed.

Lemma init_ready m m' : h_aio (w_ext m) = aio_start -> OS_LibInit m = Ret (0, m') ->
  ready_state (h_aio (w_ext m')).
Proof.
  intros E H. replace (h_aio (w_ext m')) with initialised; [apply initialised_ready|].
  unfold OS_LibInit, bind, get_aio, get_ext in H. simpl in H. unfold bind, ret, malloc in H. simpl in H.
  rewrite E in H. simpl in H. destruct (alloc_result _ m); [|done].
  unfold put_aio, bind, get_ext, put_ext, ret in H. simpl in H. by simplify_eq/=.
Qed.

Lemma closes_ready fd m m' : quiet (h_aio (w_ext m)) -> closes fd m m' -> ready_state (h_aio (w_ext m')).
Proof. intros Q (S & (P & _) & _). split; [done|]. intros w. by rewrite P. Qed.

Lemma safe_ReadStdin buf len proc data m : sound (h_aio (w_ext m)) ->
  safe (OS_AsyncReadStdin buf len proc data) m (fun _ m' => changes keeps m m').
Proof.
  intros S. destruct (sd_entry _ S false 0) as [e E]; [lia|pose proof (sd_size _ S); unfold AIO_IX, AIO_RD_IX; lia|].
  set (a := h_aio (w_ext m)) in *. set (i := Aio (Some proc) data 0 len 0 buf true).
  apply safe_bind, safe_get. apply safe_bind, safe_put. intros m1 E1.
  apply safe_bind, (safe_table_get (set_used a) false 0 e); [by rewrite E1|lia|done|].
  destruct (inUse e) eqn:U; [by left|].
  apply safe_bind, (safe_table_set (set_used a) false 0 e); [by rewrite E1|lia|done|].
  intros m2 E2. rewrite E1 in E2. apply safe_bind, safe_get. rewrite E2. apply safe_bind.
  eapply safe_lift; [by apply FD_SET_in|]. apply safe_bind, safe_put. intros m3 E3. rewrite E2 in E3.
  assert (G : grown (raised 0 a) (raised 0 a)) by (apply grown_refl, (sound_tabled _ S)).
  assert (C : complete 0 i) by (repeat split; eauto).
  assert (E4 : w_ext m3 = with_aio (start_state false 0 i (raised 0 a)) (w_ext m)) by (by rewrite E3).
  assert (L : AIO_IX false 0 < asyncIoTableSize a) by (pose proof (sd_size _ S); unfold AIO_IX, AIO_RD_IX; lia).
  apply safe_ret. unfold changes. rewrite E4. cbn [h_aio with_aio]. fold a. split; [|split; [|done]].
  - eapply (start_sound a (raised 0 a) false 0 e i); done.
  - eapply (start_keeps a (raised 0 a) false 0 e i); done.
Qed.

Lemma safe_run procs o m : (forall log proc data n, Forall starts (procs log proc data n)) ->
  ready_state (h_aio (w_ext m)) -> permitted (h_aio (w_ext m)) o ->
  safe (run procs o) m (fun _ m' => ready_state (h_aio (w_ext m'))).
Proof.
  intros Hp [S Q] P.
  assert (K : forall m', changes keeps m m' -> ready_state (h_aio (w_ext m'))).
  { intros m' (S' & (P' & _) & _). split; [done|]. intros w. by rewrite P'. }
  destruct o as [c|]; [destruct c|].
  - eapply safe_mono; [by apply (safe_start (AsyncRead fd offset buf len proc data))|]. intros ? m'. apply K.
  - eapply safe_mono; [by apply (safe_start (AsyncWrite fd offset buf len proc data))|]. intros ? m'. apply K.
  - eapply safe_mono; [by apply safe_ReadStdin|]. intros ? m'. apply K.
  - destruct P as [->|[P1 P2]]; [by apply safe_ret|].
    eapply safe_mono; [apply safe_OS_Close; try done|].
    + intros w. rewrite (Q w). set_solver.
    + intros ? m'. by apply closes_ready.
  - destruct P as [P1 P2]. eapply safe_mono; [apply safe_OS_CloseRead; try done|].
    + rewrite (Q false : FdSetPost (rd _) = ∅). set_solver.
    + intros ? m'. by apply closes_ready.
  - eapply safe_mono; [by apply safe_OS_DoIo|]. intros ? m' [_ St]. unfold stepped in St.
    destruct (ready (w_ext m)). split; apply St.
Qed.

(** A file the table has no entries for is looked up in it all the same. *)
Lemma close_outside fd m : sound (h_aio (w_ext m)) -> 0 <= fd < FD_SETSIZE ->
  asyncIoTableSize (h_aio (w_ext m)) <= AIO_RD_IX fd ->
  (asyncIoInUse (h_aio (w_ext m)) = true -> OS_Close fd m = Undef OutOfBounds) /\
  OS_CloseRead fd m = Undef OutOfBounds.
Proof.
  intros S H L. destruct (sd_table _ S) as (t & Et & El).
  assert (G : forall m', asyncIoTable (h_aio (w_ext m')) = Some t ->
    table_get (AIO_RD_IX fd) m' = Undef OutOfBounds).
  { intros m' E'. unfold table_get, bind, get_aio, get_ext, ret. simpl. unfold bind. simpl. rewrite E'.
    rewrite lookup_ge_None_2 by lia. by case_match. }
  split; [intros U|by unfold OS_CloseRead, bind; rewrite G].
  unfold OS_Close. rewrite (proj2 (Z.eqb_neq _ _)) by lia.
  unfold bind at 1, get_aio at 1, bind at 1, get_ext at 1, ret at 1. rewrite U.
  unfold forget_file, forget, bind at 1 2 3 4 5 6 7 8, get_aio at 1, get_ext at 1, ret at 1.
  simpl. unfold bind, get_aio, get_ext, ret, lift. rewrite !FD_CLR_in by done. simpl.
  unfold put_aio, bind, get_ext, put_ext. simpl.
  by rewrite G.
Qed.

(** ** Files closed while they are posted *)

(** Whatever [m] does, when it returns its result satisfies [Q]. *)
Definition part {A} (m : M host A) (w : world host) (Q : A -> world host -> Prop) : Prop :=
  match m w with Ret (a, w') => Q a w' | Undef _ => True end.

(** The counts stay, no file is posted, and nothing is waited for or called. *)
Definition idle (m m' : world host) : Prop :=
  (forall w, numPosted (side w (h_aio (w_ext m'))) = numPosted (side w (h_aio (w_ext m)))) /\
  (forall w, FdSetPost (side w (h_aio (w_ext m'))) ⊆ FdSetPost (side w (h_aio (w_ext m)))) /\
  h_log (w_ext m') = h_log (w_ext m).

Lemma idle_refl m : idle m m.
Proof. done. Qed.

Lemma idle_trans m1 m2 m3 : idle m1 m2 -> idle m2 m3 -> idle m1 m3.
Proof.
  intros (N1 & P1 & L1) (N2 & P2 & L2). split; [intros w; by rewrite N2|].
  split; [intros w; by transitivity (FdSetPost (side w (h_aio (w_ext m2))))|by rewrite L2].
Qed.

Definition idles {A} (c : M host A) : Prop := forall m, part c m (fun _ m' => idle m m').

Section part_rules.
Context {A : Type}.
Implicit Types Q : A -> world host -> Prop.

Lemma part_bind {B} (c : M host B) (k : B -> M host A) w Q :
  part c w (fun b w' => part (k b) w' Q) -> part (bind c k) w Q.
Proof. unfold part, bind. by destruct (c w) as [[b w']|]. Qed.

Lemma part_ret (a : A) w Q : Q a w -> part (ret a) w Q.
Proof. done. Qed.

Lemma part_undef u w Q : part (undef u) w Q.
Proof. done. Qed.

Lemma part_get (k : aio -> M host A) w Q : part (k (h_aio (w_ext w))) w Q -> part (bind get_aio k) w Q.
Proof. done. Qed.

Lemma part_lift {B} (o : outcome B) (k : B -> M host A) w Q :
  (forall b, o = Ret b -> part (k b) w Q) -> part (bind (lift o) k) w Q.
Proof. unfold part, bind, lift. destruct o; [by intros H; apply H|done]. Qed.

(** A call that is idle, at a state that is idle since [m0]. *)
Lemma part_call {B} (c : M host B) (k : B -> M host A) m0 m Q : idles c -> idle m0 m ->
  (forall b m1, idle m0 m1 -> part (k b) m1 Q) -> part (bind c k) m Q.
Proof.
  intros H I K. specialize (H m). unfold part, bind in *. destruct (c m) as [[b m1]|]; [|done].
  apply K. by eapply idle_trans.
Qed.

Lemma part_put a (k : unit -> M host A) m0 m Q : idle m0 m ->
  (forall w, numPosted (side w a) = numPosted (side w (h_aio (w_ext m))) /\
             FdSetPost (side w a) ⊆ FdSetPost (side w (h_aio (w_ext m)))) ->
  (forall m1, idle m0 m1 -> part (k tt) m1 Q) -> part (bind (put_aio a) k) m Q.
Proof.
  intros I F K. apply K. eapply idle_trans; [exact I|].
  split; [intros w; apply F|split; [intros w; apply F|done]].
Qed.
End part_rules.

Lemma idles_ret {A} (a : A) : idles (ret a).
Proof. intros m. apply idle_refl. Qed.

Lemma idles_put a m0 m : idle m0 m ->
  (forall w, numPosted (side w a) = numPosted (side w (h_aio (w_ext m))) /\
             FdSetPost (side w a) ⊆ FdSetPost (side w (h_aio (w_ext m)))) ->
  part (put_aio a) m (fun _ m' => idle m0 m').
Proof.
  intros I F. eapply idle_trans; [exact I|].
  split; [intros w; apply F|split; [intros w; apply F|done]].
Qed.

Lemma idles_last {A} (c : M host A) m0 m : idles c -> idle m0 m -> part c m (fun _ m' => idle m0 m').
Proof.
  intros H I. specialize (H m). unfold part in *. destruct (c m) as [[b m1]|]; [|done].
  by eapply idle_trans.
Qed.

Create HintDb aio_idle.
#[local] Hint Resolve idles_ret : aio_idle.

(** The steps of an operation, each of which is idle. *)
Ltac same_posts := let s := fresh "s" in intros s; destruct s; split; (reflexivity || (simpl; set_solver)).
Ltac idle_step :=
  lazymatch goal with
  | |- part (bind get_aio _) _ _ => apply part_get; cbv beta
  | |- part (bind (lift _) _) _ _ => apply part_lift; intros ? ?
  | |- part (bind (put_aio _) _) _ _ => eapply part_put; [eassumption|same_posts|intros ? ?]
  | |- part (bind _ _) _ _ => eapply part_call; [solve [auto with aio_idle]|eassumption|intros ? ? ?]
  | |- part (ret _) _ _ => apply part_ret; assumption
  | |- part (undef _) _ _ => apply part_undef
  | |- part (put_aio _) _ _ => apply idles_put; [assumption|same_posts]
  | |- part (match ?x with _ => _ end) _ _ => destruct x eqn:?
  | |- part _ _ _ => apply idles_last; [solve [auto with aio_idle]|assumption]
  end.
Ltac idle_steps := let m := fresh "m" in intros m; pose proof (idle_refl m); repeat idle_step.

Lemma idles_table_get i : idles (table_get i).
Proof. unfold table_get. idle_steps. Qed.

Lemma idles_table_set i e : idles (table_set i e).
Proof. unfold table_set. idle_steps. Qed.

Lemma idles_next_result : idles next_result.
Proof.
  intros m. unfold part, next_result, bind, get_ext, put_ext, ret. simpl.
  by destruct (h_results (w_ext m)).
Qed.
#[local] Hint Resolve idles_table_get idles_table_set idles_next_result : aio_idle.

Lemma idles_malloc n : idles (malloc n).
Proof. by intros m. Qed.

Lemma idles_realloc b n : idles (realloc b n).
Proof. by intros m. Qed.

Lemma idles_set_errno n : idles (set_errno n).
Proof. by intros m. Qed.
#[local] Hint Resolve idles_malloc idles_realloc idles_set_errno : aio_idle.

Lemma idles_Grow : idles GrowAsyncTable.
Proof.
  unfold GrowAsyncTable. intros m; pose proof (idle_refl m). idle_step. idle_step.
  apply part_bind. destruct (asyncIoTable _); unfold part at 1; simpl; destruct (alloc_result _ m); try done.
  all: apply idles_put; [done|same_posts].
Qed.
#[local] Hint Resolve idles_Grow : aio_idle.

Lemma idles_grow_loop fuel : forall index, idles (grow_loop fuel index).
Proof. induction fuel as [|fuel IH]; intros index; simpl; idle_steps. Qed.
#[local] Hint Resolve idles_grow_loop : aio_idle.

Lemma idles_async_start w fd offset buf len proc data : idles (async_start w fd offset buf len proc data).
Proof. destruct w; unfold async_start, raised; idle_steps. Qed.
#[local] Hint Resolve idles_async_start : aio_idle.

Lemma FD_CLR_subset fd s p : FD_CLR fd s = Ret p -> p ⊆ s.
Proof. unfold FD_CLR. case_match; [|done]. intros [= <-]. set_solver. Qed.

Lemma idles_forget w fd : idles (forget w fd).
Proof.
  unfold forget. intros m; pose proof (idle_refl m). repeat idle_step.
  eapply part_put; [eassumption| |intros ? ?; repeat idle_step].
  match goal with H : FD_CLR _ (FdSetPost _) = _ |- _ => apply FD_CLR_subset in H end.
  intros s. rewrite side_set_side. destruct (eqb s w) eqn:B; [|done]. by apply eqb_prop in B as ->.
Qed.
#[local] Hint Resolve idles_forget : aio_idle.

Lemma idles_drain fd : forall fuel, idles (drain fuel fd).
Proof. induction fuel as [|fuel IH]; simpl; idle_steps. Qed.
#[local] Hint Resolve idles_drain : aio_idle.

Lemma idles_drain_all fd : idles (drain_all fd).
Proof. intros m. apply idles_drain. Qed.

Lemma idles_forget_file fd : idles (forget_file fd).
Proof. unfold forget_file. idle_steps. Qed.

Lemma idles_cancel_read fd e : idles (cancel_read fd e).
Proof. unfold cancel_read. idle_steps. Qed.

Lemma idles_if {A} (b : bool) (c d : M host A) : idles c -> idles d -> idles (if b then c else d).
Proof. by destruct b. Qed.
#[local] Hint Resolve idles_drain_all idles_forget_file idles_cancel_read idles_if : aio_idle.

Lemma idles_perform c : idles (perform c).
Proof.
  destruct c; simpl.
  - unfold OS_AsyncRead. idle_steps.
  - apply idles_async_start.
  - unfold OS_AsyncReadStdin. idle_steps.
  - unfold OS_Close. idle_steps.
  - unfold OS_CloseRead. idle_steps.
Qed.

(** Files have been counted as ready and none is: the count is never made up again. *)
Definition stalled (a : aio) : Prop := quiet a /\ (numPosted (rd a) <> 0 \/ numPosted (wr a) <> 0).

Lemma idle_stalled m m' : idle m m' -> stalled (h_aio (w_ext m)) -> stalled (h_aio (w_ext m')).
Proof.
  intros (N & P & _) [Q C]. split; [intros w; specialize (P w); rewrite (Q w) in P; set_solver|].
  pose proof (N false : numPosted (rd _) = numPosted (rd _)) as ->.
  by pose proof (N true : numPosted (wr _) = numPosted (wr _)) as ->.
Qed.

Lemma stalled_serve procs w fd m : quiet (h_aio (w_ext m)) ->
  part (serve procs w fd) m (fun _ m' => idle m m').
Proof.
  intros Q. unfold serve. apply part_get. apply part_lift. intros b H.
  unfold FD_ISSET in H. case_match; [|done]. simplify_eq.
  rewrite bool_decide_false; [|rewrite (Q w); set_solver]. apply part_ret, idle_refl.
Qed.

Lemma stalled_dispatch procs : forall fuel fd m, quiet (h_aio (w_ext m)) ->
  part (dispatch procs fuel fd) m (fun _ m' => idle m m').
Proof.
  assert (K : forall m m', idle m m' -> quiet (h_aio (w_ext m)) -> quiet (h_aio (w_ext m'))).
  { intros m m' (_ & P & _) Q w. specialize (P w). rewrite (Q w) in P. set_solver. }
  assert (C : forall m w fd (k : M host unit), quiet (h_aio (w_ext m)) ->
    (forall m1, quiet (h_aio (w_ext m1)) -> part k m1 (fun _ m' => idle m1 m')) ->
    part (serve procs w fd ;;; k) m (fun _ m' => idle m m')).
  { intros m w fd k Q H. apply part_bind. pose proof (stalled_serve procs w fd m Q) as S.
    unfold part in *. destruct (serve procs w fd m) as [[a m1]|]; [|done].
    specialize (H m1 (K _ _ S Q)). destruct (k m1) as [[b m2]|]; [|done]. by eapply idle_trans. }
  induction fuel as [|fuel IH]; intros fd m Q; simpl; apply part_get.
  all: destruct (_ <? fd); [apply part_ret, idle_refl|].
  { done. }
  apply C; [done|]. intros m1 Q1. apply C; [done|]. intros m2 Q2. by apply IH.
Qed.

Lemma stalled_DoIo procs m : stalled (h_aio (w_ext m)) -> part (OS_DoIo procs) m (fun _ m' => idle m m').
Proof.
  intros [Q C]. apply part_get. eapply part_put; [apply idle_refl|by intros []|]. intros m1 I1.
  apply part_lift. intros r _. apply part_lift. intros v _.
  replace ((numPosted (rd (h_aio (w_ext m))) =? 0) && (numPosted (wr (h_aio (w_ext m))) =? 0)) with false by lia.
  eapply part_call; [apply idles_ret|exact I1|]. intros _ m2 I2.
  apply part_get. destruct (_ && _); [by apply part_ret|].
  apply part_bind. pose proof (idle_stalled _ _ I2 (conj Q C)) as [Q2 _].
  pose proof (stalled_dispatch procs DISPATCH_FUEL 0 m2 Q2) as D. unfold part in *.
  destruct (dispatch _ _ _ m2) as [[a m3]|]; [|done]. by eapply idle_trans.
Qed.

Lemma stalled_run_all procs : forall os m, stalled (h_aio (w_ext m)) ->
  part (run_all procs os) m (fun _ m' => idle m m').
Proof.
  induction os as [|o os IH]; intros m S; simpl; [apply part_ret, idle_refl|]. apply part_bind.
  assert (R : part (run procs o) m (fun _ m' => idle m m'))
    by (destruct o; [apply idles_perform|by apply stalled_DoIo]).
  unfold part in *. destruct (run procs o m) as [[r m1]|]; [|done].
  specialize (IH m1 (idle_stalled _ _ R S)). destruct (run_all procs os m1) as [[u m2]|]; [|done].
  by eapply idle_trans.
Qed.

(** The close of a file: neither its operations nor the counts of posted files are restored. *)
Lemma forget_posts w fd m : part (forget w fd) m (fun _ m' =>
  FdSetPost (side w (h_aio (w_ext m'))) ⊆ FdSetPost (side w (h_aio (w_ext m))) ∖ {[fd]}).
Proof.
  unfold forget. apply part_get. apply part_lift. intros s _. apply part_lift. intros p Hp.
  apply part_bind. unfold part at 1. simpl.
  set (m1 := World _ _ _ _ _). set (c := bind (table_get _) _).
  assert (I : idles c) by (unfold c; idle_steps). specialize (I m1). unfold part in *.
  destruct (c m1) as [[u m2]|]; [|done]. destruct I as (_ & P & _). specialize (P w).
  replace (FdSetPost (side w (h_aio (w_ext m1)))) with p in P
    by (simpl; by rewrite side_set_side, eqb_reflx).
  unfold FD_CLR in Hp. case_match; [|done]. by simplify_eq.
Qed.

Lemma close_posts fd m : asyncIoInUse (h_aio (w_ext m)) = true -> fd <> -1 ->
  part (OS_Close fd) m (fun _ m' => idle m m' /\
    forall w, FdSetPost (side w (h_aio (w_ext m'))) ⊆ FdSetPost (side w (h_aio (w_ext m))) ∖ {[fd]}).
Proof.
  intros U N. unfold OS_Close. replace (fd =? -1) with false by lia. apply part_get. rewrite U.
  assert (F : part (forget_file fd) m (fun _ m' => idle m m' /\
    forall w, FdSetPost (side w (h_aio (w_ext m'))) ⊆ FdSetPost (side w (h_aio (w_ext m))) ∖ {[fd]})).
  { pose proof (idles_forget_file fd m) as I. revert I. unfold forget_file.
    pose proof (forget_posts false fd m) as P1. pose proof (idles_forget false fd m) as I1.
    set (k := bind get_aio _). assert (Ik : idles k) by (unfold k; idle_steps).
    unfold part, bind in *. destruct (forget false fd m) as [[u m1]|]; [|done].
    pose proof (forget_posts true fd m1) as P2. pose proof (idles_forget true fd m1) as I2.
    unfold part in *. destruct (forget true fd m1) as [[u2 m2]|]; [|done].
    specialize (Ik m2). unfold part in Ik. destruct (k m2) as [[u3 m3]|]; [|done].
    intros I. split; [done|]. destruct I1 as (_ & Q1 & _), I2 as (_ & Q2 & _), Ik as (_ & Q3 & _).
    intros []; [specialize (Q1 true); specialize (Q3 true)|specialize (Q2 false); specialize (Q3 false)]; set_solver. }
  apply part_bind. unfold part in *. destruct (forget_file fd m) as [[u m1]|]; [|done].
  destruct F as [I1 P1]. set (c := bind next_result _).
  assert (Ic : idles c) by (unfold c; idle_steps). specialize (Ic m1). unfold part in Ic.
  destruct (c m1) as [[rc m2]|]; [|done]. split; [by eapply idle_trans|].
  intros w. destruct Ic as (_ & P & _). specialize (P w). specialize (P1 w). set_solver.
Qed.

Lemma served_called w e : forall js rs, (w, e) ∈ js ->
  exists n, Called (default 0 (procPtr e)) (clientData e) n ∈ served js rs.
Proof.
  induction js as [|[w' e'] js IH]; intros rs H; [by apply elem_of_nil in H|].
  apply elem_of_cons in H as [[= <- <-]|H]; simpl.
  - eexists. right. left.
  - destruct (IH (tail rs) H) as [n Hn]. exists n. by do 2 right.
Qed.

Lemma found_jobs r v a w fd e : sound a -> entry a w fd = Some e -> fd ∈ pick w r v ->
  0 <= fd < FD_SETSIZE -> (w, e) ∈ jobs (found r v a) (seqZ 0 FD_SETSIZE).
Proof.
  intros S E P H. apply list_elem_of_In, in_flat_map. exists fd.
  split; [apply list_elem_of_In, elem_of_seqZ; lia|]. apply in_app_iff.
  assert (J : job (found r v a) w fd = [(w, e)]).
  { unfold job. rewrite side_found. simpl. rewrite decide_True by done.
    change (entry (found r v a) w fd) with (entry a w fd). by rewrite E. }
  destruct w; rewrite J; [right|left]; by left.
Qed.

Lemma ready_members a r v w fd : r ⊆ FdSet (rd a) -> v ⊆ FdSet (wr a) -> fd ∈ pick w r v -> fd ∈ members a w.
Proof. intros Hr Hv P. unfold members. destruct w; simpl in *; set_solver. Qed.

(** ** Properties *)

(** The value of a run, for examples. *)
Definition t_world {A} (o : outcome (A * world host)) : world host :=
  match o with Ret (_, w) => w | Undef _ => host0 [] [] end.

(** What is read from a file is written to it. *)
Definition t_echo (log : list event) (proc data n : Z) : list action :=
  let fd := data mod 1024 in
  if proc =? 1 then [AsyncWrite fd 0 100 n 2 fd] else [AsyncRead fd 0 100 64 1 fd].

Lemma t_echo_starts log proc data n : Forall starts (t_echo log proc data n).
Proof.
  pose proof (Z.mod_pos_bound data 1024). unfold t_echo.
  case_match; repeat constructor; simpl; unfold FD_SETSIZE; lia.
Qed.

Definition t_answers : world host := host0 [Some ({[5]}, ∅); Some ({[7]}, {[5]})] [10; 12; 14; 16].
Definition t_init : world host := t_world (OS_LibInit t_answers).
Definition t_started : world host := t_world (perform (AsyncRead 5 0 100 64 1 5) t_init).
Definition t_stepped : world host := t_world (OS_DoIo t_echo t_started).

Lemma t_started_reachable : reachable t_echo t_started.
Proof.
  apply (reach_run _ t_init (Act (AsyncRead 5 0 100 64 1 5)) 0).
  - apply (reach_init _ t_answers); vm_compute; reflexivity.
  - simpl. unfold FD_SETSIZE. lia.
  - vm_compute. reflexivity.
Qed.

Lemma t_stepped_reachable : reachable t_echo t_stepped.
Proof.
  apply (reach_run _ t_started DoIo 0); [apply t_started_reachable|done|].
  vm_compute. reflexivity.
Qed.

(** Files 3 and 4 were found ready and the procedure of file 3 is about to close file 4. *)
Definition t_during : world host :=
  t_world ((OS_LibInit ;;; run_all t_procs
      [Act (AsyncRead 3 0 100 64 9 4); Act (AsyncRead 4 0 100 64 1 4)] ;;;
    let* a := get_aio in
    put_aio (found {[3; 4]} ∅ (set_used a)) ;;; serve t_procs false 3) (host0 [Some ({[6]}, ∅)] [10])).

(** C17 (invariant): after any calls of a program whose procedures only start operations, and
    which closes files the table covers, or any before operations are started, the table, the
    sets of files and the counts agree and nothing found ready is left over; every further such
    call is defined and keeps this, unless an assertion or a failing call ends the program.
    Closing a file the table does not cover, once operations are started, reads behind it. *)
Theorem reachable_sound procs m :
  (forall log proc data n, Forall starts (procs log proc data n)) -> reachable procs m ->
  ready_state (h_aio (w_ext m)) /\
  (forall o, permitted (h_aio (w_ext m)) o ->
    safe (run procs o) m (fun _ m' => ready_state (h_aio (w_ext m')))) /\
  (forall fd, 0 <= fd < FD_SETSIZE -> asyncIoInUse (h_aio (w_ext m)) = true ->
    asyncIoTableSize (h_aio (w_ext m)) <= AIO_RD_IX fd ->
    run procs (Act (Close fd)) m = Undef OutOfBounds).
Proof.
  intros Hp R. assert (Q : ready_state (h_aio (w_ext m))).
  { induction R as [m m' E H|m o r m' R IH P H]; [by eapply init_ready|].
    eapply (safe_elim _ _ (fun _ m' => ready_state (h_aio (w_ext m')))); [|exact H].
    by apply safe_run. }
  split; [done|]. split; [intros o P; by apply safe_run|].
  intros fd H U L. by apply close_outside; [apply Q|..].
Qed.

(** C21 (liveness): a step waits for the files of all operations and completes every operation
    whose file is found ready, once, in the order of the files, reads first, whatever operations
    the procedures start meanwhile; each procedure is called with its data. *)
Theorem OS_DoIo_completes procs m :
  (forall log proc data n, Forall starts (procs log proc data n)) ->
  ready_state (h_aio (w_ext m)) ->
  safe (OS_DoIo procs) m (fun rc m' => rc = 0 /\ stepped m m' /\
    forall w fd, fd ∈ pick w (fst (ready (w_ext m))) (snd (ready (w_ext m))) ->
      exists e n, entry (h_aio (w_ext m)) w fd = Some e /\
        Called (default 0 (procPtr e)) (clientData e) n ∈ h_log (w_ext m')).
Proof.
  intros Hp [S Q]. eapply safe_mono; [by apply safe_OS_DoIo|]. intros rc m' [-> St].
  split; [done|]. split; [done|]. intros w fd P. unfold stepped in St.
  destruct (ready_subset (w_ext m)) as [Hr Hv].
  destruct (ready (w_ext m)) as [r v]. destruct St as (_ & _ & _ & L). simpl in P, Hr, Hv.
  pose proof (ready_members _ _ _ _ _ Hr Hv P) as M.
  destruct (sd_member _ S _ _ M) as (R & e & E & _). pose proof (sd_max _ S).
  destruct (served_called w e _ (h_results (w_ext m)) (found_jobs r v _ w fd e S E P ltac:(lia))) as [n Hn].
  exists e, n. split; [done|]. rewrite L. apply elem_of_app. right. by right.
Qed.

(** C33 (safety): when a procedure closes the only file that is left of those found ready, the
    count of ready files stays: whatever is called afterwards, files are never waited for again
    and no procedure is called. *)
Theorem posted_close_stalls procs fd m m1 rc os m2 :
  asyncIoInUse (h_aio (w_ext m)) = true -> fd <> -1 ->
  (forall w, FdSetPost (side w (h_aio (w_ext m))) ⊆ {[fd]}) ->
  numPosted (rd (h_aio (w_ext m))) <> 0 \/ numPosted (wr (h_aio (w_ext m))) <> 0 ->
  OS_Close fd m = Ret (rc, m1) -> run_all procs os m1 = Ret (tt, m2) ->
  h_log (w_ext m2) = h_log (w_ext m).
Proof.
  intros U N P C E1 E2. pose proof (close_posts fd m U N) as K. unfold part in K. rewrite E1 in K.
  destruct K as [(N1 & _ & L1) P1].
  assert (S : stalled (h_aio (w_ext m1))).
  { split; [intros w; specialize (P w); specialize (P1 w); set_solver|].
    pose proof (N1 false : numPosted (rd _) = numPosted (rd _)) as ->.
    by pose proof (N1 true : numPosted (wr _) = numPosted (wr _)) as ->. }
  pose proof (stalled_run_all procs os m1 S) as R. unfold part in R. rewrite E2 in R.
  destruct R as (_ & _ & ->). done.
Qed.

(** *** Witnesses *)

Lemma reachable_sound_witness :
  ready_state (h_aio (w_ext t_stepped)) /\ run t_echo (Act (Close 8)) t_stepped = Undef OutOfBounds.
Proof.
  destruct (reachable_sound t_echo t_stepped t_echo_starts t_stepped_reachable) as (H & _ & C).
  split; [exact H|]. apply C; [split; [lia|reflexivity]|reflexivity|vm_compute; discriminate].
Defined.

Lemma t_started_ready : ready_state (h_aio (w_ext t_started)).
Proof.
  assert (S : forall m, reachable t_echo m -> ready_state (h_aio (w_ext m))).
  { intros m R. induction R as [m m' E H|m o r m' R IH P H]; [by eapply init_ready|].
    eapply (safe_elim _ _ (fun _ m' => ready_state (h_aio (w_ext m')))); [|exact H].
    apply safe_run; [apply t_echo_starts|done..]. }
  apply S, t_started_reachable.
Qed.

Lemma OS_DoIo_completes_witness :
  h_log (w_ext t_stepped) = [Select {[5]} ∅; Transfer false 5 100 64 10; Called 1 5 10] /\
  safe (OS_DoIo t_echo) t_started (fun rc m' => rc = 0 /\ stepped t_started m' /\
    forall w fd, fd ∈ pick w (fst (ready (w_ext t_started))) (snd (ready (w_ext t_started))) ->
      exists e n, entry (h_aio (w_ext t_started)) w fd = Some e /\
        Called (default 0 (procPtr e)) (clientData e) n ∈ h_log (w_ext m')).
Proof.
  split; [vm_compute; reflexivity|].
  exact (OS_DoIo_completes t_echo t_started t_echo_starts t_started_ready).
Defined.

Lemma posted_close_stalls_witness :
  let m1 := t_world (OS_Close 4 t_during) in
  let os := [Act (AsyncRead 6 0 100 64 1 6); DoIo; DoIo; DoIo] in
  h_log (w_ext (t_world (run_all t_procs os m1))) = h_log (w_ext t_during).
Proof.
  intros m1 os. apply (posted_close_stalls t_procs 4 t_during m1 0 os).
  - vm_compute. reflexivity.
  - discriminate.
  - intros w. assert (FdSetPost (side w (h_aio (w_ext t_during))) = pick w {[4]} ∅) as ->
      by (destruct w; vm_compute; reflexivity).
    destruct w; [apply empty_subseteq|done].
  - left. vm_compute. discriminate.
  - vm_compute. reflexivity.
  - vm_compute. reflexivity.
Defined.
