(* ===== verification/FcgiPrintf.v ===== *)
(** * Formatted output (loungeact_fastcgi/fcgiapp.c, FCGX_VFPrintF)

    [sprintf] of the C library for one conversion, the scanner that takes conversions out of a
    format and rebuilds them one at a time, and the writing of the texts to a stream.  The
    texts are those of a reference reading of the format as long as fields are narrower than
    the buffer on the stack; a wider field runs over its buffer. *)

From S2P Require Import Prelude CFormat FcgiFormat FcgiStream FcgiWriter.
From Stdlib Require Import Init.Byte.

#[local] Open Scope c_scope.

(** ** [sprintf] for one conversion *)

Definition BLANK : byte := " "%byte.

Definition digit_of (upper : bool) (d : Z) : byte :=
  if d <? 10 then z2b (48 + d) else z2b ((if upper then 55 else 87) + d).

Fixpoint radix_aux (fuel : nat) (base : Z) (upper : bool) (z : Z) (acc : list byte) : list byte :=
  match fuel with
  | O => acc
  | S fuel =>
      let acc := digit_of upper (z mod base) :: acc in
      if z <? base then acc else radix_aux fuel base upper (z / base) acc
  end.

(** Twenty-two octal digits hold every 64 bit number. *)
Definition radix (base : Z) (upper : bool) (z : Z) : list byte := radix_aux 22 base upper z [].

(** [%d] without flags. *)
Definition print_d (z : Z) : list byte := if z <? 0 then "-"%byte :: print_llu (- z) else print_llu z.

(** A conversion: flags, width, precision ([-1] when there is none), size and operation. *)
Record spec := Spec {
  sp_flags : list byte;
  sp_width : Z;
  sp_prec : Z;
  sp_size : byte;
  sp_op : byte;
}.

Definition has_flag (sp : spec) (b : byte) : bool := existsb (Byte.eqb b) (sp_flags sp).

Definition is_flag (b : byte) : bool := existsb (Byte.eqb b) (lit "-0+ #").

Definition is_size (b : byte) : bool := existsb (Byte.eqb b) (lit "lLh").

(** [strspn]. *)
Fixpoint strspn (accept : byte -> bool) (s : list byte) : nat :=
  match s with
  | b :: s => if accept b then S (strspn accept s) else O
  | [] => O
  end.

(** The character [s] points to; a string without more characters is at its terminator. *)
Definition at0 (s : list byte) : byte := hd NUL s.

Definition number (ds : list byte) : Z := scan_digits ds 0.

(** What [sprintf] makes of the format it is given, from behind the percent sign. *)
Definition parse_spec (s : list byte) : spec :=
  let n := strspn is_flag s in
  let flags := take n s in
  let s := drop n s in
  let n := strspn is_digit s in
  let width := number (take n s) in
  let s := drop n s in
  let '(prec, s) :=
    if Byte.eqb (at0 s) "."%byte then
      let s := tail s in
      let n := strspn is_digit s in (number (take n s), drop n s)
    else (-1, s) in
  let '(size, s) := if is_size (at0 s) then (at0 s, tail s) else (BLANK, s) in
  Spec flags width prec size (at0 s).

(** A text in its field. *)
Definition pad (sp : spec) (text : list byte) : list byte :=
  let fill := replicate (Z.to_nat (sp_width sp) - length text) BLANK in
  if has_flag sp "-"%byte then text ++ fill else fill ++ text.

(** Digits of a number with its sign or prefix; zeros fill the field when they are asked for
    and there is no precision. *)
Definition number_text (sp : spec) (signed neg : bool) (z : Z) : list byte :=
  let op := sp_op sp in
  let base := if Byte.eqb op "o"%byte then 8
              else if Byte.eqb op "x"%byte || Byte.eqb op "X"%byte then 16 else 10 in
  let ds := if (z =? 0) && (sp_prec sp =? 0) then [] else radix base (Byte.eqb op "X"%byte) z in
  let ds := replicate (Z.to_nat (sp_prec sp) - length ds) "0"%byte ++ ds in
  let ds := if has_flag sp "#"%byte && (base =? 8) && negb (Byte.eqb (at0 ds) "0"%byte)
            then "0"%byte :: ds else ds in
  let head :=
    if signed then
      if neg then ["-"%byte] else if has_flag sp "+"%byte then ["+"%byte]
      else if has_flag sp BLANK then [BLANK] else []
    else if has_flag sp "#"%byte && (base =? 16) && negb (z =? 0) then ["0"%byte; op] else [] in
  if has_flag sp "0"%byte && negb (has_flag sp "-"%byte) && (sp_prec sp =? -1) then
    head ++ replicate (Z.to_nat (sp_width sp) - length (head ++ ds)) "0"%byte ++ ds
  else pad sp (head ++ ds).

Definition int_text (sp : spec) (z : Z) : list byte := number_text sp true (z <? 0) (Z.abs z).
Definition uint_text (sp : spec) (z : Z) : list byte := number_text sp false false z.
Definition char_text (sp : spec) (z : Z) : list byte := pad sp [z2b z].

(** [%s] reads up to the terminator or as many characters as the precision allows. *)
Fixpoint cstr_upto (n : nat) (blk : list byte) : outcome (list byte) :=
  match n, blk with
  | O, _ => Ret []
  | S n, [] => Undef OutOfBounds
  | S n, b :: blk =>
      if Byte.eqb b NUL then Ret [] else let+ s := cstr_upto n blk in Ret (b :: s)
  end.

Definition string_arg (prec : Z) (blk : list byte) : outcome (list byte) :=
  if prec =? -1 then cstr blk else cstr_upto (Z.to_nat prec) blk.

(** ** Arguments and the state of a call *)

Section printf.
(** Floating point numbers, the conversion [(double)] of a [long double], the exponent [frexp]
    finds for a [double], and the texts that C leaves to the library: of floating point numbers
    and pointers, for a conversion. *)
Context {real : Type}.

Inductive other := OtherPtr (z : Z) | OtherReal (long : bool) (d : real).

Variable to_double : real -> real.
Variable frexp : real -> Z.
Variable sprintf_other : spec -> other -> list byte.

Inductive varg :=
| VInt (z : Z)
| VLong (z : Z)
| VStr (s : option (list byte))
| VPtr (z : Z)
| VReal (long : bool) (d : real)
| VAddr (size : byte) (p : Z).

(** [va_arg] of a type the argument does not have is undefined. *)
Definition va_int (args : list varg) : outcome (Z * list varg) :=
  match args with VInt z :: args => Ret (z, args) | _ => Undef WrongType end.
Definition va_long (args : list varg) : outcome (Z * list varg) :=
  match args with VLong z :: args => Ret (z, args) | _ => Undef WrongType end.
Definition va_str (args : list varg) : outcome (option (list byte) * list varg) :=
  match args with VStr s :: args => Ret (s, args) | _ => Undef WrongType end.
Definition va_ptr (args : list varg) : outcome (Z * list varg) :=
  match args with VPtr z :: args => Ret (z, args) | _ => Undef WrongType end.
Definition va_real (long : bool) (args : list varg) : outcome (real * list varg) :=
  match args with
  | VReal l d :: args => if eqb l long then Ret (d, args) else Undef WrongType
  | _ => Undef WrongType
  end.
Definition va_addr (size : byte) (args : list varg) : outcome (Z * list varg) :=
  match args with
  | VAddr b p :: args => if Byte.eqb b size then Ret (p, args) else Undef WrongType
  | _ => Undef WrongType
  end.

(** ** Scanning *)

Definition PRINTF_BUFFLEN : Z := 100.
Definition FMT_BUFFLEN : Z := 25.

(** The rest of the format after a scan, with [None] for [goto ErrorReturn]. *)
Definition step A : Type := outcome (option A).

Definition sbind {A B} (m : step A) (k : A -> step B) : step B :=
  match m with Ret (Some a) => k a | Ret None => Ret None | Undef u => Undef u end.
Definition some {A} (o : outcome A) : step A := let+ a := o in Ret (Some a).
Definition error_return {A} : step A := Ret None.

Notation "'let?' x := m 'in' k" := (sbind m (fun x => k))
  (at level 10, x binder, m at level 100, k at level 200) : c_scope.

(** [text] and [nul] bytes behind it go to [fmtBuff], which holds [fb] so far. *)
Definition to_fmtBuff (fb text : list byte) (nul : Z) : outcome (list byte) :=
  if Z.of_nat (length fb + length text) + nul <=? FMT_BUFFLEN then Ret (fb ++ text)
  else Undef OutOfBounds.

(** The state of the slow scan: [fmtBuff] up to [fmtBuffPtr], [p] and the arguments. *)
Definition scan : Type := (list byte * list byte * list varg).

Definition CopyAndAdvance (n : nat) (st : scan) : outcome scan :=
  let '(fb, p, args) := st in
  let+ fb := to_fmtBuff fb (take n p) 0 in Ret (fb, drop n p, args).

Definition scan_flags (st : scan) : step scan :=
  let '(fb, p, args) := st in
  let n := strspn is_flag p in
  if 5 <? Z.of_nat n then error_return else some (CopyAndAdvance n st).

(** An argument that stands for a number is printed to [fmtBuff]. *)
Definition scan_star (z : Z) (st : scan) : outcome scan :=
  let '(fb, p, args) := st in
  let+ fb := to_fmtBuff fb (print_d z) 1 in Ret (fb, tail p, args).

Definition c_abs (z : Z) : outcome Z := if z =? - 2 ^ 31 then Undef SignedOverflow else Ret (Z.abs z).

Definition scan_width (st : scan) : step (Z * scan) :=
  let '(fb, p, args) := st in
  let n := strspn is_digit p in
  if (n =? 0)%nat then
    if Byte.eqb (at0 p) "*"%byte then
      let? '(minWidth, args) := some (va_int args) in
      let? a := some (c_abs minWidth) in
      if 999999 <? a then error_return
      else let? st := some (scan_star minWidth (fb, p, args)) in Ret (Some (minWidth, st))
    else Ret (Some (0, st))
  else if (n <=? 6)%nat then
    let minWidth := number (take n p) in
    let? st := some (CopyAndAdvance n st) in Ret (Some (minWidth, st))
  else error_return.

Definition scan_precision (st : scan) : step (Z * scan) :=
  let '(fb, p, args) := st in
  if Byte.eqb (at0 p) "."%byte then
    let? '(fb, p, args) := some (CopyAndAdvance 1 st) in
    let n := strspn is_digit p in
    if (n =? 0)%nat then
      if Byte.eqb (at0 p) "*"%byte then
        let? '(precision, args) := some (va_int args) in
        let precision := if precision <? 0 then 0 else precision in
        if 999999 <? precision then error_return
        else let? st := some (scan_star precision (fb, p, args)) in Ret (Some (precision, st))
      else Ret (Some (0, (fb, p, args)))
    else if (n <=? 6)%nat then
      let precision := number (take n p) in
      let? st := some (CopyAndAdvance n (fb, p, args)) in Ret (Some (precision, st))
    else error_return
  else Ret (Some (-1, st)).

(** A scanned conversion: what is in [fmtBuff], the numbers, the size modifier, the operation
    and the rest of the format. *)
Record scanned := Scanned {
  sc_fmt : list byte;
  sc_width : Z;
  sc_prec : Z;
  sc_size : byte;
  sc_op : byte;
  sc_rest : list byte;
}.

(** The operation is copied with the terminator when the format ends before it. *)
Definition scan_op (minWidth precision : Z) (st : scan) : step (scanned * list varg) :=
  let '(fb, p, args) := st in
  let? '(size, (fb, p, args)) :=
    (if is_size (at0 p) then
       let? st := some (CopyAndAdvance 1 st) in Ret (Some (at0 p, st))
     else Ret (Some (BLANK, st))) in
  let op := at0 p in
  let? fb := some (to_fmtBuff fb [op] 0) in
  if Z.of_nat (length fb) <? FMT_BUFFLEN then
    Ret (Some (Scanned fb minWidth precision size op (tail p), args))
  else Undef AssertFails.

(** [p] is behind the percent sign. *)
Definition scan_slow (p : list byte) (args : list varg) : step (scanned * list varg) :=
  let? st := scan_flags (["%"%byte], p, args) in
  let? '(minWidth, st) := scan_width st in
  let? '(precision, st) := scan_precision st in
  scan_op minWidth precision st.

Definition scan_fast (p : list byte) : scanned :=
  let op := at0 p in
  if is_size op then
    let op2 := at0 (tail p) in
    Scanned ["%"%byte; op; op2] 0 (-1) op op2 (drop 2 p)
  else Scanned ["%"%byte; op] 0 (-1) BLANK op (drop 1 p).

(** ** Buffers *)

(** What the slow path has read to find the size of the buffer. *)
Inductive held := HeldNothing | HeldStr (s : list byte) | HeldReal (long : bool) (d : real).

Definition is_op (ops : list byte) (op : byte) : bool := existsb (Byte.eqb op) ops.

(** [strlen], or [memchr(charPtrArg, '\0', precision)] as the number of characters before, cut to
    an [int]. *)
Definition string_length (prec : Z) (blk : list byte) : outcome Z :=
  let+ s := string_arg prec blk in Ret (s32 (Z.of_nat (length s))).

Definition null_text : list byte := lit "(null)" ++ [NUL].

(** The upper bound on what [sprintf] writes; a precision is 6 for floating point numbers when
    there is none. *)
Definition required (sc : scanned) (args : list varg) : step (Z * held * list varg) :=
  let op := sc_op sc in
  let precision := if sc_prec sc =? -1 then 6 else sc_prec sc in
  if is_op (lit "diuoxXcp") op then Ret (Some (Z.max (sc_prec sc) 46, HeldNothing, args))
  else if is_op (lit "s") op then
    let? '(s, args) := some (va_str args) in
    let s := default null_text s in
    let? n := some (string_length (sc_prec sc) s) in Ret (Some (n, HeldStr s, args))
  else if is_op (lit "f") op then
    let read long :=
      let? '(d, args) := some (va_real long args) in
      let exp := frexp (if long : bool then to_double d else d) in
      Ret (Some (precision + 3 + (if 0 <? exp then exp / 3 else 0), HeldReal long d, args)) in
    if Byte.eqb (sc_size sc) BLANK then read false
    else if Byte.eqb (sc_size sc) "L"%byte then read true
    else error_return
  else if is_op (lit "eEgG") op then Ret (Some (precision + 8, HeldNothing, args))
  else error_return.

(** The size of the buffer [sprintf] is given, and of the allocated one. *)
Definition choose_buffer (buffReqd minWidth : Z) (aux : option Z) : M os (Z * option Z) :=
  let* room := lift (add_int buffReqd 10) in
  let buffReqd := Z.max room minWidth in
  if buffReqd <=? PRINTF_BUFFLEN then ret (PRINTF_BUFFLEN, aux)
  else
    match aux with
    | Some auxBuffLen =>
        if auxBuffLen <? buffReqd then free ;;; Malloc buffReqd ;;; ret (buffReqd, Some buffReqd)
        else ret (auxBuffLen, aux)
    | None => Malloc buffReqd ;;; ret (buffReqd, Some buffReqd)
    end.

(** ** Conversions *)

(** [sprintf] to a buffer of [buffLen] bytes, and [strlen] of it. *)
Definition sprintf (buffLen : Z) (text : list byte) : outcome (list byte) :=
  if Z.of_nat (length text) + 1 <=? buffLen then cstr (text ++ [NUL]) else Undef OutOfBounds.

(** What the large switch does: text for the stream with the size of its buffer, a number
    stored for [%n], or nothing when [performedOp] is false. *)
Inductive performed :=
| Text (text : list byte) (buffLen : Z)
| Store (size : byte) (p : Z)
| NotPerformed.

Definition converted : Type := step (performed * list varg).

Definition written (buffLen : Z) (text : list byte) (args : list varg) : converted :=
  let? t := some (sprintf buffLen text) in Ret (Some (Text t buffLen, args)).

(** A case for every size modifier. *)
Definition by_size (size : byte) (plain l h : converted) : converted :=
  if Byte.eqb size BLANK then plain
  else if Byte.eqb size "l"%byte then l
  else if Byte.eqb size "h"%byte then h
  else error_return.

Definition convert_int (sc : scanned) (buffLen : Z) (args : list varg) : converted :=
  let sp := parse_spec (tail (sc_fmt sc)) in
  by_size (sc_size sc)
    (let? '(z, args) := some (va_int args) in written buffLen (int_text sp z) args)
    (let? '(z, args) := some (va_long args) in written buffLen (int_text sp z) args)
    (let? '(z, args) := some (va_int args) in written buffLen (int_text sp (s16 z)) args).

Definition convert_unsigned (sc : scanned) (buffLen : Z) (args : list varg) : converted :=
  let sp := parse_spec (tail (sc_fmt sc)) in
  by_size (sc_size sc)
    (let? '(z, args) := some (va_int args) in written buffLen (uint_text sp (u32 z)) args)
    (let? '(z, args) := some (va_long args) in written buffLen (uint_text sp (u64 z)) args)
    (let? '(z, args) := some (va_int args) in written buffLen (uint_text sp (u16 z)) args).

Definition convert_char (sc : scanned) (buffLen : Z) (args : list varg) : converted :=
  if Byte.eqb (sc_size sc) BLANK then
    let? '(z, args) := some (va_int args) in
    written buffLen (char_text (parse_spec (tail (sc_fmt sc))) z) args
  else error_return.

Definition convert_string (fastPath : bool) (sc : scanned) (h : held) (buffLen : Z) (args : list varg)
  : converted :=
  if Byte.eqb (sc_size sc) BLANK then
    if fastPath then
      let? '(s, args) := some (va_str args) in
      match s with
      | None => Undef NullDeref
      | Some blk =>
          let? t := some (cstr blk) in
          let? buffLen := some (add_int (s32 (Z.of_nat (length t))) 1) in
          Ret (Some (Text t buffLen, args))
      end
    else
      match h with
      | HeldStr s =>
          let sp := parse_spec (tail (sc_fmt sc)) in
          let? t := some (string_arg (sp_prec sp) s) in written buffLen (pad sp t) args
      | _ => Undef NullDeref
      end
  else error_return.

Definition convert_pointer (sc : scanned) (buffLen : Z) (args : list varg) : converted :=
  if Byte.eqb (sc_size sc) BLANK then
    let? '(z, args) := some (va_ptr args) in
    written buffLen (sprintf_other (parse_spec (tail (sc_fmt sc))) (OtherPtr z)) args
  else error_return.

Definition convert_count (sc : scanned) (args : list varg) : converted :=
  let store := let? '(p, args) := some (va_addr (sc_size sc) args) in
               Ret (Some (Store (sc_size sc) p, args)) in
  by_size (sc_size sc) store store store.

Definition convert_real (sc : scanned) (buffLen : Z) (args : list varg) : converted :=
  let read long :=
    let? '(d, args) := some (va_real long args) in
    written buffLen (sprintf_other (parse_spec (tail (sc_fmt sc))) (OtherReal long d)) args in
  if Byte.eqb (sc_size sc) BLANK then read false
  else if Byte.eqb (sc_size sc) "L"%byte then read true
  else error_return.

Definition convert_fixed (fastPath : bool) (sc : scanned) (h : held) (buffLen : Z) (args : list varg)
  : converted :=
  if fastPath then Ret (Some (NotPerformed, args))
  else
    match h with
    | HeldReal long d => written buffLen (sprintf_other (parse_spec (tail (sc_fmt sc))) (OtherReal long d)) args
    | _ => error_return
    end.

Definition convert (fastPath : bool) (sc : scanned) (h : held) (buffLen : Z) (args : list varg)
  : converted :=
  let op := sc_op sc in
  if is_op (lit "di") op then convert_int sc buffLen args
  else if is_op (lit "uoxX") op then convert_unsigned sc buffLen args
  else if is_op (lit "c") op then convert_char sc buffLen args
  else if is_op (lit "s") op then convert_string fastPath sc h buffLen args
  else if is_op (lit "p") op then convert_pointer sc buffLen args
  else if is_op (lit "n") op then convert_count sc args
  else if is_op (lit "f") op then convert_fixed fastPath sc h buffLen args
  else if is_op (lit "eEgG") op then convert_real sc buffLen args
  else if is_op (lit "%") op then
    if Byte.eqb (sc_size sc) BLANK then Ret (Some (Text ["%"%byte] buffLen, args)) else error_return
  else if Byte.eqb op NUL then error_return
  else Ret (Some (NotPerformed, args)).

(** ** The call *)

(** What a call works on: the stream, the arguments that are left, [streamCount], the size of
    the allocated buffer, and what was stored through pointers. *)
Record pstate := Pstate {
  p_stream : FCGX_Stream;
  p_request : FCGX_Request;
  p_args : list varg;
  p_count : Z;
  p_aux : option Z;
  p_stores : list (Z * Z);
}.

(** A turn of the loop gives the state and whether to go on. *)
Definition turn_result : Type := (bool * pstate).

Definition fails (st : pstate) : M os turn_result := ret (false, st).

(** [streamCount] is an [int]; a stretch of the format is added as a pointer difference, whose
    sum is cut to the width. *)
Definition add_count (stretch : bool) (count n : Z) : outcome Z :=
  if stretch then Ret (s32 (count + n)) else add_int count n.

(** Text for the stream: a stretch of the format or a conversion. *)
Definition emit (stretch : bool) (text : list byte) (st : pstate) : M os turn_result :=
  let n := s32 (Z.of_nat (length text)) in
  let* '(rc, (s, r)) := FCGX_PutStr text n (p_stream st) (p_request st) in
  let st := Pstate s r (p_args st) (p_count st) (p_aux st) (p_stores st) in
  if rc <? 0 then fails st
  else
    let* count := lift (add_count stretch (p_count st) n) in
    ret (true, Pstate s r (p_args st) count (p_aux st) (p_stores st)).

Definition stored (size : byte) (count : Z) : Z := if Byte.eqb size "h"%byte then s16 count else count.

(** The end of a turn: a conversion that was performed is written. *)
Definition finish_turn (o : performed) (st : pstate) : M os turn_result :=
  match o with
  | Text text buffLen =>
      let buffCount := s32 (Z.of_nat (length text)) in
      if buffCount <? buffLen then
        if 0 <? buffCount then emit false text st
        else if buffCount <? 0 then fails st else ret (true, st)
      else undef AssertFails
  | Store size p =>
      ret (true, Pstate (p_stream st) (p_request st) (p_args st) (p_count st) (p_aux st)
                   (p_stores st ++ [(p, stored size (p_count st))]))
  | NotPerformed => fails st
  end.

Definition with_args (args : list varg) (st : pstate) : pstate :=
  Pstate (p_stream st) (p_request st) args (p_count st) (p_aux st) (p_stores st).
Definition with_aux (aux : option Z) (st : pstate) : pstate :=
  Pstate (p_stream st) (p_request st) (p_args st) (p_count st) aux (p_stores st).

(** The second time round: [p] is behind the percent sign; with the rest of the format. *)
Definition slow_path (p : list byte) (st : pstate) : M os (turn_result * list byte) :=
  let* scanned := lift (scan_slow p (p_args st)) in
  match scanned with
  | None => ret ((false, st), [])
  | Some (sc, args) =>
      let* req := lift (required sc args) in
      match req with
      | None => ret ((false, st), [])
      | Some (buffReqd, h, args) =>
          let* '(buffLen, aux) := choose_buffer buffReqd (sc_width sc) (p_aux st) in
          let st := with_aux aux st in
          let* c := lift (convert false sc h buffLen args) in
          match c with
          | None => ret ((false, st), [])
          | Some (o, args) =>
              let* res := finish_turn o (with_args args st) in ret (res, sc_rest sc)
          end
      end
  end.

Definition conversion (p : list byte) (st : pstate) : M os (turn_result * list byte) :=
  let sc := scan_fast p in
  let* c := lift (convert true sc HeldNothing PRINTF_BUFFLEN (p_args st)) in
  match c with
  | None => ret ((false, st), [])
  | Some (NotPerformed, _) => slow_path p st
  | Some (o, args) =>
      let* res := finish_turn o (with_args args st) in ret (res, sc_rest sc)
  end.

(** [memchr] for the next percent sign. *)
Definition not_percent (b : byte) : bool := negb (Byte.eqb b "%"%byte).

(** [f] is what is left of the format; every turn takes a character at least. *)
Fixpoint format_loop (fuel : nat) (f : list byte) (st : pstate) : M os turn_result :=
  match f with
  | [] => ret (true, st)
  | _ =>
      match fuel with
      | O => undef Diverges
      | S fuel =>
          let n := strspn not_percent f in
          let* '(go, st) := (if (n =? 0)%nat then ret (true, st) else emit true (take n f) st) in
          if negb go then fails st
          else
            match drop n f with
            | [] => ret (true, st)
            | _ :: p =>
                let* '(go, st, rest) := conversion p st in
                if negb go then fails st else format_loop fuel rest st
            end
      end
  end.

Definition FCGX_VFPrintF (s : FCGX_Stream) (r : FCGX_Request) (format : list byte) (arg : list varg)
  : M os (Z * (FCGX_Stream * FCGX_Request) * list (Z * Z)) :=
  let* f := lift (cstr format) in
  let* '(go, st) := format_loop (length f) f (Pstate s r arg 0 None []) in
  (match p_aux st with Some _ => free | None => ret tt end) ;;;
  ret (if go : bool then p_count st else -1, (p_stream st, p_request st), p_stores st).

Definition FCGX_FPrintF := FCGX_VFPrintF.
End printf.

(** ** Examples *)

Definition t_stream : M os (FCGX_Stream * FCGX_Request) :=
  let* s := NewWriter 512 FCGI_STDOUT in ret (s, Request 258 1 5 true 0 3 1 0 0).

Definition t_os : world os := world0 (Os (<[5 := Conn [] [] []]> ∅) [] 6 false []).

(** The number returned, the bytes in the buffer of the stream, and what was stored. *)
Definition t_printf (format : list byte) (args : list (varg (real := unit)))
  : option (Z * list byte * list (Z * Z)) :=
  match (let* '(s, r) := t_stream in
         FCGX_FPrintF id (fun _ => 0) (fun _ _ => lit "real") s r (format ++ [NUL]) args) t_os with
  | Ret ((rc, (s, _), stores), _) =>
      Some (rc, take (Z.to_nat (wrNext s) - 8) (drop 8 (buff (data s))), stores)
  | Undef _ => None
  end.

Example print_numbers :
  t_printf (lit "a%d-%05d|%-6x|%+.3ld%%") [VInt 7; VInt (-42); VInt 255; VLong 5] =
  Some (21, lit "a7--0042|ff    |+005%", []).
Proof. vm_compute. reflexivity. Qed.

(** A negative width is only compared with zero: the text runs over the buffer. *)
Example negative_width_overruns : t_printf (lit "%*d") [VInt (-200); VInt 1] = None.
Proof. vm_compute. reflexivity. Qed.

(** A NUL character is lost. *)
Example nul_character_lost : t_printf (lit "%c!") [VInt 0] = Some (1, lit "!", []).
Proof. vm_compute. reflexivity. Qed.

(** ** The reference: what C says a format prints *)

Section reference.
Context {real : Type}.
Variable to_double : real -> real.
Variable frexp : real -> Z.
Variable exponent : real -> Z.
Variable sprintf_other : spec -> other (real := real) -> list byte.

(** [exponent] is the binary exponent of a number, also of a [long double] that is too large
    for a [double]: the call finds it for every number but those. *)
Definition exponent_found (long : bool) (d : real) : bool :=
  exponent d <=? Z.max 0 (frexp (if long then to_double d else d)).

(** The width with the flag a negative argument stands for. *)
Definition ref_width (p : list byte) (args : list (varg (real := real)))
  : option (list byte * Z * list byte * list varg) :=
  let n := strspn is_digit p in
  if (n =? 0)%nat then
    if Byte.eqb (at0 p) "*"%byte then
      match args with
      | VInt w :: args =>
          if (1 <=? Z.abs w) && (Z.abs w <? PRINTF_BUFFLEN)
          then Some (if w <? 0 then ["-"%byte] else [], Z.abs w, tail p, args) else None
      | _ => None
      end
    else Some ([], 0, p, args)
  else if (n <=? 6)%nat && (number (take n p) <? PRINTF_BUFFLEN)
       then Some ([], number (take n p), drop n p, args) else None.

Definition ref_precision (p : list byte) (args : list (varg (real := real)))
  : option (Z * list byte * list varg) :=
  if Byte.eqb (at0 p) "."%byte then
    let p := tail p in
    let n := strspn is_digit p in
    if (n =? 0)%nat && Byte.eqb (at0 p) "*"%byte then
      match args with
      | VInt z :: args => if (0 <=? z) && (z <=? 999999) then Some (z, tail p, args) else None
      | _ => None
      end
    else if (n <=? 6)%nat then Some (number (take n p), drop n p, args) else None
  else Some (-1, p, args).

(** A conversion behind its percent sign, in the limits of the code: five flags, fields
    narrower than the buffer, numbers of six digits. *)
Definition ref_directive (p : list byte) (args : list (varg (real := real)))
  : option (spec * list byte * list varg) :=
  let n := strspn is_flag p in
  if (5 <? n)%nat then None
  else
    match ref_width (drop n p) args with
    | None => None
    | Some (minus, width, p', args) =>
        match ref_precision p' args with
        | None => None
        | Some (prec, p', args) =>
            let '(size, p') := if is_size (at0 p') then (at0 p', tail p') else (BLANK, p') in
            if is_op (lit "diuoxXcspnfeEgG%") (at0 p')
            then Some (Spec (take n p ++ minus) width prec size (at0 p'), tail p', args) else None
        end
    end.

(** A conversion without flags, width and precision. *)
Definition plain (sp : spec) : bool :=
  match sp_flags sp with [] => (sp_width sp =? 0) && (sp_prec sp =? -1) | _ => false end.

(** The integer an argument stands for, for a size modifier. *)
Definition int_of (size : byte) (args : list (varg (real := real)))
  (half full long : Z -> Z) : option (Z * list varg) :=
  match args with
  | VInt z :: args =>
      if Byte.eqb size BLANK then Some (full z, args)
      else if Byte.eqb size "h"%byte then Some (half z, args) else None
  | VLong z :: args => if Byte.eqb size "l"%byte then Some (long z, args) else None
  | _ => None
  end.

(** The text of a conversion, and what it stores when [count] characters have been printed. *)
Definition ref_text (sp : spec) (args : list (varg (real := real))) (count : Z)
  : option (list byte * list (Z * Z) * list varg) :=
  let op := sp_op sp in
  let size := sp_size sp in
  let unsized := Byte.eqb size BLANK in
  if is_op (lit "di") op then
    '(z, args) ← int_of size args s16 id id; Some (int_text sp z, [], args)
  else if is_op (lit "uoxX") op then
    '(z, args) ← int_of size args u16 u32 u64; Some (uint_text sp z, [], args)
  else
    match args with
    | VInt z :: args =>
        if is_op (lit "c") op && unsized && negb (Byte.eqb (z2b z) NUL)
        then Some (char_text sp z, [], args) else None
    | VStr s :: args =>
        if is_op (lit "s") op && unsized && negb (plain sp && bool_decide (s = None)) then
          match string_arg (sp_prec sp) (default null_text s) with
          | Ret t => Some (pad sp t, [], args)
          | Undef _ => None
          end
        else None
    | VPtr z :: args =>
        if is_op (lit "p") op && unsized then Some (sprintf_other sp (OtherPtr z), [], args) else None
    | VReal long d :: args =>
        if is_op (lit "feEgG") op && Byte.eqb size (if long : bool then "L"%byte else BLANK) &&
           (negb (is_op (lit "f") op) || exponent_found long d)
        then Some (sprintf_other sp (OtherReal long d), [], args) else None
    | VAddr b a :: args =>
        if is_op (lit "n") op && plain sp && Byte.eqb size b && is_op [BLANK; "l"%byte; "h"%byte] b
        then Some ([], [(a, stored b count)], args) else None
    | _ => None
    end.

(** A percent sign takes no argument. *)
Definition ref_convert (sp : spec) (args : list (varg (real := real))) (count : Z)
  : option (list byte * list (Z * Z) * list varg) :=
  if Byte.eqb (sp_op sp) "%"%byte then
    if plain sp && Byte.eqb (sp_size sp) BLANK then Some (["%"%byte], [], args) else None
  else ref_text sp args count.

(** [prints f args n text stores]: with [n] characters printed before, the format [f] prints
    [text] and stores [stores]. *)
Inductive prints : list byte -> list varg -> Z -> list byte -> list (Z * Z) -> Prop :=
| prints_end args n : prints [] args n [] []
| prints_char b f args n text stores :
    b <> "%"%byte -> prints f args (n + 1) text stores -> prints (b :: f) args n (b :: text) stores
| prints_conv p args n sp rest args1 t st args2 text stores :
    ref_directive p args = Some (sp, rest, args1) -> ref_convert sp args1 n = Some (t, st, args2) ->
    prints rest args2 (n + Z.of_nat (length t)) text stores ->
    prints ("%"%byte :: p) args n (t ++ text) (st ++ stores).
End reference.

(** ** Scanning finds what the reference finds *)

(** *** Spans *)

Lemma strspn_take accept s : Forall (fun b => accept b = true) (take (strspn accept s) s).
Proof. induction s as [|b s IH]; simpl; [constructor|]. destruct (accept b) eqn:E; simpl; [by constructor|constructor]. Qed.

Lemma strspn_stop accept s : accept NUL = false -> accept (at0 (drop (strspn accept s) s)) = false.
Proof. intros H. induction s as [|b s IH]; simpl; [done|]. by destruct (accept b) eqn:E. Qed.

Lemma strspn_le accept s : (strspn accept s <= length s)%nat.
Proof. induction s as [|b s IH]; simpl; [lia|]. destruct (accept b); simpl; lia. Qed.

Lemma strspn_app accept l rest :
  Forall (fun b => accept b = true) l -> accept NUL = false -> accept (at0 rest) = false ->
  strspn accept (l ++ rest) = length l.
Proof.
  intros Hl Hn Hr. induction Hl as [|b l Hb Hl IH]; simpl.
  - destruct rest as [|b rest]; [done|]. simpl in *. by rewrite Hr.
  - by rewrite Hb, IH.
Qed.

Lemma strspn_zero accept s : accept NUL = false -> strspn accept s = 0%nat -> accept (at0 s) = false.
Proof. intros H. destruct s as [|b s]; simpl; [done|]. by destruct (accept b). Qed.

(** *** Numbers in a format *)

Definition digits (ds : list byte) : Prop := Forall (fun b => is_digit b = true) ds.

Lemma length_dec_aux fuel : forall z acc k, 0 <= z < 10 ^ Z.of_nat (S k) ->
  (length (dec_aux fuel z acc) <= S k + length acc)%nat.
Proof.
  induction fuel as [|fuel IH]; intros z acc k Hz; [simpl; lia|]. cbn [dec_aux].
  destruct (Z.ltb_spec z 10); [simpl; lia|].
  destruct k as [|k]; [simpl in Hz; lia|].
  etransitivity; [apply (IH _ _ k)|simpl; lia].
  split; [apply Z.div_pos; lia|]. apply Z.div_lt_upper_bound; [lia|].
  rewrite (Nat2Z.inj_succ (S k)), Z.pow_succ_r in Hz by lia. lia.
Qed.

Lemma print_llu_number z : 0 <= z <= ULLONG_MAX -> number (print_llu z) = z.
Proof.
  intros H. unfold number, print_llu. rewrite scan_digits_dec_aux; [done|].
  unfold ULLONG_MAX in H. change (10 ^ Z.of_nat 20) with 100000000000000000000. lia.
Qed.

Lemma digits_llu z : 0 <= z -> digits (print_llu z) /\ print_llu z <> [].
Proof.
  intros H. destruct (print_llu_digits z H) as (d & ds & -> & Hd & Hds & _). split; [by constructor|done].
Qed.

Lemma length_llu z k : 0 <= z < 10 ^ Z.of_nat (S k) -> (length (print_llu z) <= S k)%nat.
Proof. intros H. unfold print_llu. etransitivity; [by apply length_dec_aux|simpl; lia]. Qed.

Lemma small_width_text w : 1 <= w < 100 -> is_flag (at0 (print_llu w)) = false.
Proof.
  intros H. assert (C : forallb (fun w => negb (is_flag (at0 (print_llu w)))) (seqZ 1 99) = true)
    by (vm_compute; reflexivity).
  rewrite forallb_forall in C. specialize (C w). apply negb_true_iff, C.
  apply list_elem_of_In, elem_of_seqZ. lia.
Qed.

(** *** What [sprintf] finds in the rebuilt format *)

Definition precision_text (prec : Z) (ptext : list byte) : Prop :=
  prec = -1 /\ ptext = [] \/ exists ds, ptext = "."%byte :: ds /\ digits ds /\ prec = number ds.

Definition size_text (size : byte) : list byte := if is_size size then [size] else [].

Definition is_conversion (op : byte) : bool := is_op (lit "diuoxXcspnfeEgG%") op.

(** Facts about characters, by going through all of them. *)
Ltac all_bytes b := destruct b; try reflexivity; try discriminate; auto.

Lemma conversion_char op : is_conversion op = true ->
  is_flag op = false /\ is_digit op = false /\ Byte.eqb op "."%byte = false /\ is_size op = false.
Proof. intros H. repeat split; revert H; all_bytes op. Qed.

Lemma size_char size : is_size size = true ->
  is_flag size = false /\ is_digit size = false /\ Byte.eqb size "."%byte = false.
Proof. intros H. repeat split; revert H; all_bytes size. Qed.

Lemma tail_char size op : is_conversion op = true ->
  let b := at0 (size_text size ++ [op]) in
  is_flag b = false /\ is_digit b = false /\ Byte.eqb b "."%byte = false.
Proof.
  intros H. unfold size_text. destruct (is_size size) eqn:E; simpl.
  - by apply size_char.
  - destruct (conversion_char op H) as (? & ? & ? & _). done.
Qed.

Lemma parse_text flags wtext prec ptext size op :
  Forall (fun b => is_flag b = true) flags -> digits wtext -> is_flag (at0 wtext) = false ->
  precision_text prec ptext -> is_size size = true \/ size = BLANK -> is_conversion op = true ->
  parse_spec (flags ++ wtext ++ ptext ++ size_text size ++ [op]) =
    Spec flags (number wtext) prec size op.
Proof.
  intros Hf Hw Hw0 Hp Hs Ho. pose proof (tail_char size op Ho) as (T1 & T2 & T3). unfold parse_spec.
  set (t := size_text size ++ [op]) in *.
  assert (P : is_flag (at0 (ptext ++ t)) = false /\ is_digit (at0 (ptext ++ t)) = false).
  { destruct Hp as [[_ ->]|(ds & -> & _)]; done. }
  rewrite strspn_app; [|done|done|].
  2: { destruct wtext; [apply P|done]. }
  rewrite drop_app_length, take_app_length.
  rewrite strspn_app by (done || apply P). rewrite drop_app_length, take_app_length.
  assert (S : (if is_size (at0 t) then (at0 t, tail t) else (BLANK, t)) = (size, [op])).
  { unfold t, size_text. destruct Hs as [Hs| ->]; [by rewrite Hs; simpl; rewrite Hs|].
    simpl. by rewrite (proj2 (proj2 (proj2 (conversion_char op Ho)))). }
  destruct Hp as [[-> ->]|(ds & -> & Hd & ->)].
  - simpl. rewrite T3. rewrite S. done.
  - simpl. rewrite strspn_app by done. rewrite drop_app_length, take_app_length, S. done.
Qed.

(** *** The scanner *)

Section scanner.
Context {real : Type}.
Implicit Types args : list (varg (real := real)).

Lemma to_fmtBuff_ok fb text nul :
  Z.of_nat (length fb + length text) + nul <= 25 -> to_fmtBuff fb text nul = Ret (fb ++ text).
Proof. intros H. unfold to_fmtBuff, FMT_BUFFLEN. by rewrite (proj2 (Z.leb_le _ _)). Qed.

Lemma copy_ok n fb p args : (length fb + n <= 25)%nat ->
  CopyAndAdvance n (fb, p, args) = Ret (fb ++ take n p, drop n p, args).
Proof. intros H. unfold CopyAndAdvance. rewrite to_fmtBuff_ok; [done|]. rewrite length_take. lia. Qed.

Lemma digits_number_bound ds : digits ds -> 0 <= number ds < 10 ^ Z.of_nat (length ds).
Proof.
  unfold number. enough (G : forall v, digits ds -> 0 <= v ->
    0 <= scan_digits ds v < (v + 1) * 10 ^ Z.of_nat (length ds)) by (intros H; specialize (G 0 H); lia).
  induction ds as [|d ds IH]; intros v H Hv; simpl; [lia|].
  inversion_clear H as [|? ? H1 H2]. rewrite H1. unfold is_digit in H1.
  specialize (IH (v * 10 + (b2z d - 48)) H2 ltac:(lia)).
  rewrite Nat2Z.inj_succ, Z.pow_succ_r by lia. nia.
Qed.

Lemma scan_width_ok fb p args minus W p' args' :
  ref_width p args = Some (minus, W, p', args') -> is_flag (at0 p) = false -> (length fb <= 6)%nat ->
  exists wtext mw, scan_width (fb, p, args) = Ret (Some (mw, (fb ++ minus ++ wtext, p', args'))) /\
    Forall (fun b => is_flag b = true) minus /\ digits wtext /\ is_flag (at0 wtext) = false /\
    number wtext = W /\ mw < 100 /\ (length (minus ++ wtext) <= 7)%nat.
Proof.
  unfold ref_width, scan_width. intros H F L. pose proof (strspn_take is_digit p) as T.
  destruct (strspn is_digit p =? 0)%nat eqn:N.
  - destruct (Byte.eqb (at0 p) "*"%byte).
    + destruct args as [|[w| | | | |] args]; try done.
      destruct ((1 <=? Z.abs w) && _) eqn:B; [|done]. simplify_eq. unfold PRINTF_BUFFLEN in B.
      cbn [va_int some obind sbind]. unfold c_abs. replace (w =? - 2 ^ 31) with false by lia.
      cbn [some obind sbind].
      replace (999999 <? Z.abs w) with false by lia.
      destruct (digits_llu (Z.abs w)) as [D _]; [lia|].
      assert (Ln : (length (print_llu (Z.abs w)) <= 2)%nat) by (apply length_llu; simpl; lia).
      exists (print_llu (Z.abs w)), w. unfold scan_star, print_d.
      destruct (Z.ltb_spec w 0).
      * replace (- w) with (Z.abs w) by lia. rewrite to_fmtBuff_ok by (simpl; lia).
        simpl. rewrite print_llu_number by (unfold ULLONG_MAX; lia).
        repeat split; try done; try lia; [by constructor|apply small_width_text; lia].
      * replace (print_llu w) with (print_llu (Z.abs w)) by (f_equal; lia).
        rewrite to_fmtBuff_ok by lia. simpl. rewrite print_llu_number by (unfold ULLONG_MAX; lia).
        repeat split; try done; try lia. apply small_width_text; lia.
    + simplify_eq. exists [], 0. rewrite !app_nil_r. repeat split; try done; [by constructor|simpl; lia].
  - destruct (_ && _) eqn:B; [|done]. simplify_eq. unfold PRINTF_BUFFLEN in B.
    apply andb_true_iff in B as [B1 B2]. rewrite B1. apply Nat.leb_le in B1.
    rewrite copy_ok by lia. simpl. eexists _, _. split; [reflexivity|].
    repeat split; try done; try lia.
    + apply Nat.eqb_neq in N. destruct p as [|b p]; [done|]. simpl in N |- *.
      destruct (is_digit b) eqn:Hd; [|done]. by simpl.
    + rewrite length_take. lia.
Qed.

Lemma scan_precision_ok fb p args prec p' args' :
  ref_precision p args = Some (prec, p', args') -> (length fb <= 13)%nat ->
  exists ptext, scan_precision (fb, p, args) = Ret (Some (prec, (fb ++ ptext, p', args'))) /\
    precision_text prec ptext /\ (length ptext <= 7)%nat /\ -1 <= prec <= 999999.
Proof.
  unfold ref_precision, scan_precision. intros H L.
  destruct (Byte.eqb (at0 p) "."%byte) eqn:Dot.
  2: { simplify_eq. exists []. rewrite app_nil_r. repeat split; try done; [by left|simpl; lia..]. }
  rewrite copy_ok by lia. simpl.
  assert (E : exists q, p = "."%byte :: q).
  { destruct p as [|b q]; [done|]. exists q. f_equal. simpl in Dot. by destruct (byte_eqb_spec b "."%byte). }
  destruct E as [q ->]. simpl in H |- *. change (drop 0 q) with q in *.
  pose proof (strspn_take is_digit q) as T.
  destruct (strspn is_digit q =? 0)%nat eqn:N; simpl in H.
  - destruct (Byte.eqb (at0 q) "*"%byte).
    + destruct args as [|[z| | | | |] args]; try done. destruct (_ && _) eqn:B; [|done]. simplify_eq. simpl.
      replace (prec <? 0) with false by lia. replace (999999 <? prec) with false by lia.
      assert (Ln : (length (print_llu prec) <= 6)%nat) by (apply length_llu; simpl; lia).
      unfold scan_star, print_d. replace (prec <? 0) with false by lia.
      rewrite to_fmtBuff_ok by (rewrite length_app; simpl; lia). simpl.
      exists ("."%byte :: print_llu prec). rewrite <- app_assoc. simpl. repeat split; try lia; try done.
      right. exists (print_llu prec). rewrite print_llu_number by (unfold ULLONG_MAX; lia).
      split; [done|]. split; [|done]. apply digits_llu. lia.
    + apply Nat.eqb_eq in N. rewrite N in H. simpl in H. simplify_eq.
      exists ["."%byte]. repeat split; try done; simpl; try lia.
      right. exists []. repeat split. constructor.
  - destruct (_ <=? 6)%nat eqn:B; [|done]. simplify_eq. apply Nat.leb_le in B.
    rewrite take_0, to_fmtBuff_ok by (rewrite length_app, length_take; simpl; lia). simpl.
    pose proof (digits_number_bound _ T) as Bd. rewrite length_take in Bd.
    exists ("."%byte :: take (strspn is_digit q) q). rewrite <- app_assoc. simpl.
    assert (10 ^ Z.of_nat (Nat.min (strspn is_digit q) (length q)) <= 10 ^ 6) by (apply Z.pow_le_mono_r; lia).
    change (10 ^ 6) with 1000000 in *. repeat split; try lia; try done.
    + right. by eexists.
    + rewrite length_take. lia.
Qed.

#[local] Arguments scan_width : simpl never.
#[local] Arguments scan_precision : simpl never.
#[local] Arguments CopyAndAdvance : simpl never.

Lemma scan_op_ok fb mw prec q args size q' : (length fb <= 20)%nat ->
  (if is_size (at0 q) then (at0 q, tail q) else (BLANK, q)) = (size, q') ->
  scan_op mw prec (fb, q, args) =
    Ret (Some (Scanned (fb ++ size_text size ++ [at0 q']) mw prec size (at0 q') (tail q'), args)) /\
  (is_size size = true \/ size = BLANK).
Proof.
  intros L E. unfold scan_op. destruct (is_size (at0 q)) eqn:Hs.
  - injection E as <- <-. split; [|by left]. rewrite copy_ok by lia.
    destruct q as [|sz q]; [done|]. change (at0 (sz :: q)) with sz in *.
    change (take 1 (sz :: q)) with [sz]. change (drop 1 (sz :: q)) with q. change (tail (sz :: q)) with q.
    cbn [sbind some obind]. rewrite to_fmtBuff_ok by (rewrite length_app; cbn [length]; lia).
    cbn [sbind some obind]. unfold FMT_BUFFLEN, size_text. rewrite Hs, <- app_assoc.
    rewrite (proj2 (Z.ltb_lt _ _)); [done|]. rewrite !length_app. cbn [length app]. lia.
  - injection E as <- <-. split; [|by right]. cbn [sbind some obind].
    rewrite to_fmtBuff_ok by (cbn [length]; lia). cbn [sbind some obind]. unfold FMT_BUFFLEN.
    rewrite (proj2 (Z.ltb_lt _ _)); [done|]. rewrite length_app. cbn [length]. lia.
Qed.

Lemma ref_width_bound p args minus W p' args' :
  ref_width p args = Some (minus, W, p', args') -> 0 <= W < 100.
Proof.
  unfold ref_width, PRINTF_BUFFLEN. pose proof (digits_number_bound _ (strspn_take is_digit p)) as T.
  repeat case_match; intros; simplify_eq; lia.
Qed.

(** A scanned conversion that stands for a conversion of the reference. *)
Record scanned_as (sc : scanned) (sp : spec) (rest : list byte) : Prop := {
  sa_spec : parse_spec (tail (sc_fmt sc)) = sp;
  sa_width : sc_width sc < 100;
  sa_prec : sc_prec sc = sp_prec sp;
  sa_size : sc_size sc = sp_size sp;
  sa_op : sc_op sc = sp_op sp;
  sa_rest : sc_rest sc = rest;
  sa_range : -1 <= sp_prec sp <= 999999 /\ 0 <= sp_width sp < 100;
}.

(** The slow path finds the directive of the reference. *)
Lemma scan_slow_ok p args sp rest args' :
  ref_directive p args = Some (sp, rest, args') ->
  exists sc, scan_slow p args = Ret (Some (sc, args')) /\ scanned_as sc sp rest.
Proof.
  unfold ref_directive, scan_slow. intros H.
  destruct (5 <? strspn is_flag p)%nat eqn:N; [done|]. apply Nat.ltb_ge in N.
  unfold scan_flags. replace (5 <? Z.of_nat (strspn is_flag p)) with false by lia.
  rewrite copy_ok by (simpl; lia). cbn [some obind sbind].
  pose proof (strspn_take is_flag p) as Tf. pose proof (strspn_stop is_flag p eq_refl) as Sf.
  set (flags := take (strspn is_flag p) p) in *.
  assert (Lf : (length flags <= 5)%nat) by (unfold flags; rewrite length_take; lia).
  destruct (ref_width _ _) as [[[[minus W] p1] args1]|] eqn:Ew; [|done].
  pose proof (ref_width_bound _ _ _ _ _ _ Ew) as Wb.
  edestruct (scan_width_ok (["%"%byte] ++ flags)) as (wtext & mw & -> & Fm & Dw & Fw & Nw & Lw & Lm);
    [done|done|simpl; lia|]. cbn [sbind].
  destruct (ref_precision p1 args1) as [[[prec q] args2]|] eqn:Ep; [|done].
  edestruct (scan_precision_ok ((["%"%byte] ++ flags) ++ minus ++ wtext)) as (ptext & -> & Pt & Lp & Bp);
    [done|rewrite length_app; simpl; lia|]. cbn [sbind].
  destruct (if is_size (at0 q) then _ else _) as [size q'] eqn:Es.
  destruct (is_op _ (at0 q')) eqn:Ho; [|done].
  assert (sp = Spec (flags ++ minus) W prec size (at0 q') /\ rest = tail q' /\ args2 = args') as (-> & -> & ->)
    by by simplify_eq.
  edestruct (scan_op_ok (((["%"%byte] ++ flags) ++ minus ++ wtext) ++ ptext)) as [-> Hs];
    [rewrite !length_app in *; simpl; lia|done|].
  eexists. split; [done|]. constructor; try done. cbn [sc_fmt].
  rewrite <- !app_assoc. cbn [app tail]. rewrite <- Nw, app_assoc.
  apply parse_text; try done. by apply list.Forall_app.
Qed.
End scanner.

(** ** Texts and the buffers they need *)

Lemma length_radix_aux fuel : forall base upper z acc,
  (length (radix_aux fuel base upper z acc) <= fuel + length acc)%nat.
Proof.
  induction fuel as [|fuel IH]; intros base upper z acc; [simpl; lia|]. cbn [radix_aux].
  destruct (z <? base); [simpl; lia|]. etransitivity; [apply IH|simpl; lia].
Qed.

Lemma length_radix base upper z : (length (radix base upper z) <= 22)%nat.
Proof. unfold radix. etransitivity; [apply length_radix_aux|simpl; lia]. Qed.

Lemma length_pad sp text : length (pad sp text) = Nat.max (Z.to_nat (sp_width sp)) (length text).
Proof. unfold pad. destruct (has_flag _ _); rewrite length_app, length_replicate; lia. Qed.

(** Room for a number in any field: its digits, a sign or prefix, an octal zero. *)
Definition number_room (sp : spec) : Z := Z.max (sp_width sp) (Z.max (sp_prec sp) 22 + 3).

Lemma length_number sp signed neg z : Z.of_nat (length (number_text sp signed neg z)) <= number_room sp.
Proof.
  unfold number_text, number_room. set (base := if Byte.eqb (sp_op sp) "o"%byte then 8 else _).
  set (d0 := if (z =? 0) && (sp_prec sp =? 0) then [] else radix _ _ _).
  assert (L0 : (length d0 <= 22)%nat) by (unfold d0; destruct (_ && _); [simpl; lia|apply length_radix]).
  set (d1 := replicate _ _ ++ d0).
  assert (L1 : (length d1 <= Nat.max (Z.to_nat (sp_prec sp)) 22)%nat)
    by (unfold d1; rewrite length_app, length_replicate; lia).
  set (d2 := if _ && negb _ then _ :: d1 else d1).
  assert (L2 : (length d2 <= 1 + length d1)%nat) by (unfold d2; destruct (_ && negb _); simpl; lia).
  set (head := if signed then _ else _).
  assert (Lh : (length head <= 2)%nat) by (unfold head; repeat case_match; simpl; lia).
  clearbody d2 head. destruct (_ && (sp_prec sp =? -1)).
  - rewrite !length_app, length_replicate. lia.
  - rewrite length_pad, length_app. lia.
Qed.

(** *** No terminator inside *)

Lemma cstring_forall s : cstring s <-> Forall (fun b => b <> NUL) s.
Proof.
  unfold cstring. rewrite list.Forall_forall. split; [intros H b Hb ->; done|].
  intros H Hn. by apply (H _ Hn).
Qed.

Lemma cstring_replicate n b : b <> NUL -> cstring (replicate n b).
Proof. intros H. apply cstring_forall, Forall_replicate. done. Qed.

Lemma cstring_cons b s : cstring (b :: s) <-> b <> NUL /\ cstring s.
Proof. by rewrite !cstring_forall, list.Forall_cons. Qed.

Lemma digit_not_nul upper d : 0 <= d < 16 -> digit_of upper d <> NUL.
Proof.
  intros H E. apply (f_equal b2z) in E. unfold digit_of in E. change (b2z NUL) with 0 in E.
  destruct (d <? 10); [|destruct upper]; rewrite b2z_z2b, Z.mod_small in E; lia.
Qed.

Lemma cstring_radix_aux fuel : forall base upper z acc, 1 <= base <= 16 -> cstring acc ->
  cstring (radix_aux fuel base upper z acc).
Proof.
  induction fuel as [|fuel IH]; intros base upper z acc Hb H; [done|]. cbn [radix_aux].
  pose proof (Z.mod_pos_bound z base ltac:(lia)).
  assert (H1 : cstring (digit_of upper (z mod base) :: acc))
    by (apply cstring_cons; split; [apply digit_not_nul; lia|done]).
  destruct (z <? base); [done|by apply IH].
Qed.

Lemma cstring_pad sp text : cstring text -> cstring (pad sp text).
Proof.
  intros H. unfold pad. destruct (has_flag _ _); apply cstring_app; split; try done;
    by apply cstring_replicate.
Qed.

Lemma cstring_number sp signed neg z : sp_op sp <> NUL -> cstring (number_text sp signed neg z).
Proof.
  intros Hop. unfold number_text. set (base := if Byte.eqb (sp_op sp) "o"%byte then 8 else _).
  assert (Hb : 1 <= base <= 16) by (unfold base; repeat case_match; lia).
  set (d0 := if (z =? 0) && (sp_prec sp =? 0) then [] else radix _ _ _).
  assert (C0 : cstring d0)
    by (unfold d0; destruct (_ && _); [apply cstring_nil|apply cstring_radix_aux; [done|apply cstring_nil]]).
  set (d1 := replicate _ _ ++ d0).
  assert (C1 : cstring d1) by (apply cstring_app; split; [by apply cstring_replicate|done]).
  set (d2 := if _ && negb _ then _ :: d1 else d1).
  assert (C2 : cstring d2) by (unfold d2; destruct (_ && negb _); [by apply cstring_cons|done]).
  set (head := if signed then _ else _).
  assert (Ch : cstring head)
    by (unfold head; repeat case_match; rewrite ?cstring_cons; repeat split; try done; apply cstring_nil).
  clearbody d2 head. destruct (_ && (sp_prec sp =? -1)).
  - rewrite !cstring_app. repeat split; try done. by apply cstring_replicate.
  - apply cstring_pad, cstring_app. done.
Qed.

Lemma cstr_cstring blk s : cstr blk = Ret s -> cstring s.
Proof.
  revert s. induction blk as [|b blk IH]; intros s H; simpl in H; [done|].
  destruct (byte_eqb_spec b NUL); [injection H as <-; apply cstring_nil|].
  destruct (cstr blk); [|done]. injection H as <-. apply cstring_cons. split; [done|by apply IH].
Qed.

Lemma cstr_upto_cstring n : forall blk s, cstr_upto n blk = Ret s -> cstring s.
Proof.
  induction n as [|n IH]; intros [|b blk] s H; simpl in H; try (injection H as <-; apply cstring_nil); [done|].
  destruct (byte_eqb_spec b NUL); [injection H as <-; apply cstring_nil|].
  destruct (cstr_upto n blk) as [t|] eqn:E; [|done]. injection H as <-. apply cstring_cons. split; [done|by eapply IH].
Qed.

Lemma string_arg_cstring prec blk s : string_arg prec blk = Ret s -> cstring s.
Proof. unfold string_arg. case_match; [apply cstr_cstring|apply cstr_upto_cstring]. Qed.

Lemma sprintf_ok buffLen text : Z.of_nat (length text) < buffLen -> cstring text ->
  sprintf buffLen text = Ret text.
Proof.
  intros H C. unfold sprintf. rewrite (proj2 (Z.leb_le _ _)) by lia. by apply (cstr_app text []).
Qed.

(** ** The two paths compute the reference *)

Lemma byte_same b : Byte.eqb b b = true.
Proof. by destruct (byte_eqb_spec b b). Qed.

Lemma number_positive b ds : digits (b :: ds) -> b <> "0"%byte -> 1 <= number (b :: ds).
Proof.
  intros H N. inversion_clear H as [|? ? Hb Hd]. unfold number. simpl. rewrite Hb.
  assert (1 <= b2z b - 48).
  { unfold is_digit in Hb. assert (b2z b <> 48); [|lia].
    intros E. apply N, b2z_inj. by rewrite E. }
  enough (G : forall ds v, digits ds -> 1 <= v -> 1 <= scan_digits ds v) by (apply G; [done|lia]).
  clear. induction ds as [|d ds IH]; intros v H Hv; simpl; [done|].
  inversion_clear H as [|? ? H1 H2]. rewrite H1. unfold is_digit in H1. apply IH; [done|lia].
Qed.

Section paths.
Context {real : Type}.
Variable to_double : real -> real.
Variable frexp : real -> Z.
Variable exponent : real -> Z.
Variable sprintf_other : spec -> other (real := real) -> list byte.
Implicit Types args : list (varg (real := real)).

(** What is behind the percent sign of a conversion without flags, width and precision, and
    what starts any other. *)
Lemma directive_head p args sp rest args1 :
  ref_directive p args = Some (sp, rest, args1) ->
  (plain sp = true /\ p = size_text (sp_size sp) ++ sp_op sp :: rest /\ args1 = args /\
     is_conversion (sp_op sp) = true /\ (is_size (sp_size sp) = true \/ sp_size sp = BLANK) /\
     sp_flags sp = [] /\ sp_width sp = 0 /\ sp_prec sp = -1) \/
  (plain sp = false /\ is_flag (at0 p) || is_digit (at0 p) || is_op (lit "*.") (at0 p) = true).
Proof.
  unfold ref_directive. intros H. destruct (5 <? _)%nat; [done|].
  destruct (is_flag (at0 p)) eqn:F.
  { right. split; [|done]. destruct p as [|b p]; [done|]. simpl in F. simpl in H. rewrite F in H.
    repeat case_match; simplify_eq; done. }
  assert (N0 : strspn is_flag p = 0%nat) by (destruct p as [|b p]; [done|]; simpl in *; by rewrite F).
  rewrite N0 in H. change (drop 0 p) with p in H. change (take 0 p) with (@nil byte) in H. cbn [app] in H.
  destruct (is_digit (at0 p)) eqn:D.
  { right. split; [|done]. unfold ref_width in H. destruct p as [|b p]; [done|]. simpl in D.
    assert (T : digits (take (strspn is_digit (b :: p)) (b :: p))) by apply strspn_take.
    cbn [strspn] in H, T. rewrite D in H, T. cbn [Nat.eqb] in H.
    destruct (_ && _) eqn:B; [|done]. cbn [take firstn] in T, H.
    apply number_positive in T; [|intros ->; done].
    repeat case_match; simplify_eq; unfold plain; cbn [sp_flags sp_width sp_prec];
      rewrite (proj2 (Z.eqb_neq _ _)) by lia; done. }
  assert (N1 : strspn is_digit p = 0%nat) by (destruct p as [|b p]; [done|]; simpl in *; by rewrite D).
  unfold ref_width in H. rewrite N1 in H. cbn [Nat.eqb] in H.
  destruct (Byte.eqb (at0 p) "*"%byte) eqn:S.
  { right. split; [|by rewrite orb_true_iff; right; unfold is_op; simpl; rewrite S].
    repeat case_match; simplify_eq; unfold plain; cbn [sp_flags sp_width sp_prec]; try done;
      rewrite (proj2 (Z.eqb_neq _ _)) by lia; done. }
  unfold ref_precision in H. destruct (Byte.eqb (at0 p) "."%byte) eqn:P.
  { right. split; [|by rewrite orb_true_iff; right; unfold is_op; simpl; rewrite P, orb_true_r].
    pose proof (digits_number_bound _ (strspn_take is_digit (tail p))) as Bd.
    repeat case_match; simplify_eq; unfold plain; cbn [sp_flags sp_width sp_prec];
      rewrite (proj2 (Z.eqb_neq _ (-1))) by lia; done. }
  left. destruct (if is_size (at0 p) then _ else _) as [size q] eqn:E.
  destruct (is_op _ (at0 q)) eqn:O; [|done]. simplify_eq. cbn.
  assert (Q : q = at0 q :: tail q) by (destruct q; [done|done]).
  repeat split; try done.
  - destruct (is_size (at0 p)) eqn:Z; simplify_eq.
    + unfold size_text. rewrite Z. destruct p as [|b p]; [done|]. simpl. by f_equal.
    + done.
  - destruct (is_size (at0 p)) eqn:Z; simplify_eq; auto.
Qed.

(** *** Conversions that both paths treat alike *)

(** The bounds on the texts C leaves to the library, with any field; without terminators. *)
Definition real_precision (sp : spec) : Z := if sp_prec sp =? -1 then 6 else sp_prec sp.

Definition other_room (sp : spec) (o : other (real := real)) : Z :=
  match o with
  | OtherPtr _ => Z.max (sp_prec sp) 46 + 3
  | OtherReal _ d =>
      if Byte.eqb (sp_op sp) "f"%byte
      then real_precision sp + 3 + Z.max 0 (exponent d) / 3 + 5
      else real_precision sp + 9
  end.

Hypothesis sprintf_other_length : forall sp o, 0 <= sp_width sp -> -1 <= sp_prec sp ->
  Z.of_nat (length (sprintf_other sp o)) <= Z.max (sp_width sp) (other_room sp o).
Hypothesis sprintf_other_cstring : forall sp o, cstring (sprintf_other sp o).

Lemma written_ok buffLen t args : Z.of_nat (length t) < buffLen -> cstring t ->
  written buffLen t args = Ret (Some (Text t buffLen, args)).
Proof. intros L C. unfold written. by rewrite sprintf_ok. Qed.

Lemma is_op_one c op : is_op [c] op = true -> op = c.
Proof. unfold is_op. simpl. rewrite orb_false_r. by destruct (byte_eqb_spec op c). Qed.

Lemma conversion_not_nul ops op : is_op ops op = true -> NUL ∉ ops -> op <> NUL.
Proof.
  unfold is_op. intros H N ->. apply existsb_exists in H as (x & Hx & E).
  destruct (byte_eqb_spec NUL x); [subst|done]. by apply N, list_elem_of_In.
Qed.

(** What [buffReqd] is before the margin is added. *)
Definition common_need (sp : spec) : Z :=
  if is_op (lit "diuoxXcp") (sp_op sp) then Z.max (sp_prec sp) 46 else real_precision sp + 8.

(** The buffer has room for what is needed and for fields narrower than the fixed one. *)
Definition roomy (sp : spec) (buffLen : Z) : Prop := 100 <= buffLen /\ common_need sp + 10 <= buffLen.

Lemma convert_integers fastPath sc sp rest h args n t st args2 buffLen :
  scanned_as sc sp rest -> is_op (lit "diuoxX") (sp_op sp) = true ->
  ref_text to_double frexp exponent sprintf_other sp args n = Some (t, st, args2) -> roomy sp buffLen ->
  convert sprintf_other fastPath sc h buffLen args = Ret (Some (Text t buffLen, args2)) /\
  st = [] /\ Z.of_nat (length t) < buffLen.
Proof.
  intros [Hs Hw Hp Hz Ho Hr [Rp Rw]] O H [B1 B2]. unfold convert. rewrite Ho.
  assert (Nn : sp_op sp <> NUL) by (eapply conversion_not_nul; [exact O|vm_compute; set_solver]).
  assert (B : number_room sp < buffLen).
  { unfold number_room, common_need in *. replace (is_op (lit "diuoxXcp") (sp_op sp)) with true in B2
      by (symmetry; revert O; generalize (sp_op sp); intros b; all_bytes b). lia. }
  assert (W : forall signed neg z args, written (real := real) buffLen (number_text sp signed neg z) args =
    Ret (Some (Text (number_text sp signed neg z) buffLen, args)) /\
    Z.of_nat (length (number_text sp signed neg z)) < buffLen).
  { intros signed neg z a. pose proof (length_number sp signed neg z).
    split; [apply written_ok; [lia|by apply cstring_number]|lia]. }
  unfold ref_text, int_of, mbind, option_bind in H.
  unfold convert_int, convert_unsigned, by_size, int_text, uint_text in *. rewrite Hs, Hz.
  destruct (is_op (lit "di") (sp_op sp)) eqn:Od.
  2: replace (is_op (lit "uoxX") (sp_op sp)) with true in *
      by (symmetry; revert O Od; generalize (sp_op sp); intros b; all_bytes b).
  all: destruct args as [|[z|z| | | |] args]; try done.
  all: clear Hz; revert H; generalize (sp_size sp); intros sz H.
  all: destruct (byte_eqb_spec sz BLANK); [|destruct (byte_eqb_spec sz "l"%byte);
    [|destruct (byte_eqb_spec sz "h"%byte)]]; simplify_eq.
  all: cbn [va_int va_long some obind sbind]; refine (conj _ (conj eq_refl _)); [apply W|apply (W _ _ _ args2)].
Qed.

Lemma other_fits sp o buffLen : 0 <= sp_width sp -> -1 <= sp_prec sp ->
  Z.max (sp_width sp) (other_room sp o) < buffLen -> forall args, written (real := real) buffLen (sprintf_other sp o) args =
    Ret (Some (Text (sprintf_other sp o) buffLen, args)) /\
    Z.of_nat (length (sprintf_other sp o)) < buffLen.
Proof.
  intros B1 B2 B a. pose proof (sprintf_other_length sp o B1 B2). split; [|lia].
  apply written_ok; [lia|apply sprintf_other_cstring].
Qed.

(** Every conversion but [%s], [%f], [%n] and [%%]. *)
Lemma convert_common fastPath sc sp rest h args n t st args2 buffLen :
  scanned_as sc sp rest -> is_op (lit "diuoxXcpeEgG") (sp_op sp) = true ->
  ref_text to_double frexp exponent sprintf_other sp args n = Some (t, st, args2) -> roomy sp buffLen ->
  convert sprintf_other fastPath sc h buffLen args = Ret (Some (Text t buffLen, args2)) /\
  st = [] /\ Z.of_nat (length t) < buffLen.
Proof.
  intros S O H B. destruct (is_op (lit "diuoxX") (sp_op sp)) eqn:Oi; [by eapply convert_integers|].
  destruct S as [Hs Hw Hp Hz Ho Hr [Rp Rw]]. destruct B as [B1 B2]. unfold convert. rewrite Ho.
  unfold ref_text in H.
  replace (is_op (lit "di") (sp_op sp)) with false in *
    by (symmetry; revert Oi; generalize (sp_op sp); intros b; all_bytes b).
  replace (is_op (lit "uoxX") (sp_op sp)) with false in *
    by (symmetry; revert Oi; generalize (sp_op sp); intros b; all_bytes b).
  destruct args as [|[z|z|s|z|long d|b a] args]; try done.
  - destruct (is_op (lit "c") (sp_op sp)) eqn:Oc; [|done].
    destruct (Byte.eqb (sp_size sp) BLANK) eqn:Ez; [|done]. simpl in H.
    destruct (byte_eqb_spec (z2b z) NUL) as [|Nz]; [done|]. cbn [negb] in H. simplify_eq.
    unfold convert_char. rewrite Hz, Ez.
    cbn [va_int some obind sbind]. unfold char_text.
    assert (L : Z.of_nat (length (pad (parse_spec (tail (sc_fmt sc))) [z2b z])) < buffLen)
      by (rewrite length_pad; simpl; lia).
    split; [|done]. apply written_ok; [done|]. apply cstring_pad, cstring_cons. split; [done|apply cstring_nil].
  - exfalso. destruct (is_op (lit "s") (sp_op sp)) eqn:Os; [|done].
    apply is_op_one in Os. by rewrite Os in O.
  - destruct (is_op (lit "p") (sp_op sp)) eqn:Op; [|done]. apply is_op_one in Op.
    destruct (Byte.eqb (sp_size sp) BLANK) eqn:Ez; [|done]. simpl in H. simplify_eq.
    unfold common_need in B2. rewrite Op in B2 |- *. simpl in B2. simpl. unfold convert_pointer. rewrite Hz, Ez.
    cbn [va_ptr some obind sbind].
    destruct (other_fits (parse_spec (tail (sc_fmt sc))) (OtherPtr z) buffLen) with (args := args2) as [W L];
      [lia|lia|cbn [other_room]; lia|]. done.
  - assert (Of : Byte.eqb (sp_op sp) "f"%byte = false)
      by (revert O; generalize (sp_op sp); intros b; all_bytes b).
    destruct (is_op (lit "feEgG") (sp_op sp)) eqn:Oe; [|done].
    destruct (Byte.eqb (sp_size sp) _) eqn:Ez; [|done]. destruct (_ || _) in H; [|done]. simpl in H. simplify_eq.
    set (sp := parse_spec (tail (sc_fmt sc))) in *.
    assert (Os : is_op (lit "s") (sp_op sp) = false /\ is_op (lit "c") (sp_op sp) = false /\
      is_op (lit "p") (sp_op sp) = false /\ is_op (lit "n") (sp_op sp) = false /\
      is_op (lit "f") (sp_op sp) = false /\ is_op (lit "eEgG") (sp_op sp) = true /\
      is_op (lit "diuoxXcp") (sp_op sp) = false)
      by (revert Of Oe; generalize (sp_op sp); intros b; repeat split; all_bytes b).
    destruct Os as (-> & -> & -> & -> & -> & -> & On). unfold common_need in B2. rewrite On in B2.
    unfold convert_real. rewrite Hz.
    destruct (other_fits sp (OtherReal long d) buffLen) with (args := args2) as [W L];
      [lia|lia|cbn [other_room]; rewrite Of; lia|].
    fold sp. destruct long.
    + destruct (byte_eqb_spec (sp_size sp) "L"%byte) as [E|]; [|done]. rewrite E. simpl. by rewrite W.
    + rewrite Ez. simpl. by rewrite W.
  - exfalso. destruct (is_op (lit "n") (sp_op sp)) eqn:Os; [|done]. apply is_op_one in Os. by rewrite Os in O.
Qed.

(** *** The first time round *)

Lemma fast_not_performed p args : is_flag (at0 p) || is_digit (at0 p) || is_op (lit "*.") (at0 p) = true ->
  convert sprintf_other true (scan_fast p) HeldNothing PRINTF_BUFFLEN args = Ret (Some (NotPerformed, args)).
Proof.
  destruct p as [|b p]; [done|]. unfold convert, scan_fast. cbn [at0 hd]. intros H.
  destruct b; try discriminate H; reflexivity.
Qed.

(** What a conversion adds to the text, and what it stores. *)
Definition yields (o : performed) (t : list byte) (st : list (Z * Z)) (n : Z) : Prop :=
  match o with
  | Text t' buffLen => t' = t /\ st = [] /\ Z.of_nat (length t) < buffLen
  | Store size a => t = [] /\ st = [(a, stored size n)]
  | NotPerformed => False
  end.

Lemma scan_fast_as p sp rest : p = size_text (sp_size sp) ++ sp_op sp :: rest ->
  is_conversion (sp_op sp) = true -> (is_size (sp_size sp) = true \/ sp_size sp = BLANK) ->
  sp_flags sp = [] -> sp_width sp = 0 -> sp_prec sp = -1 -> scanned_as (scan_fast p) sp rest.
Proof.
  intros -> Hc Hs Hf Hw Hp. destruct sp as [fl wd pr sz op]. cbn [sp_size sp_op sp_flags sp_width sp_prec] in *. subst fl wd pr.
  assert (P : parse_spec (size_text sz ++ [op]) = Spec [] 0 (-1) sz op).
  { apply (parse_text [] [] (-1) [] sz op);
      [by apply list.Forall_nil|by apply list.Forall_nil|done|by left|done|done]. }
  unfold scan_fast, size_text in *. destruct (is_size sz) eqn:Z.
  - cbn [app at0 hd tail] in *. rewrite Z. constructor; try done; simpl; lia.
  - cbn [app at0 hd tail] in *. destruct (conversion_char op Hc) as (_ & _ & _ & ->).
    destruct Hs as [|E]; [done|]. constructor; try done; cbn; lia.
Qed.

Lemma fast_ok p args sp rest args1 n t st args2 :
  ref_directive p args = Some (sp, rest, args1) -> ref_convert to_double frexp exponent sprintf_other sp args1 n = Some (t, st, args2) ->
  plain sp = true -> Byte.eqb (sp_op sp) "f"%byte = false -> Z.of_nat (length t) <= INT_MAX - 10 ->
  exists o, convert sprintf_other true (scan_fast p) HeldNothing PRINTF_BUFFLEN args = Ret (Some (o, args2)) /\
    yields o t st n /\ sc_rest (scan_fast p) = rest.
Proof.
  intros D H Pl Nf Lt. destruct (directive_head p args sp rest args1 D) as [(_ & Ep & -> & Hc & Hs & Hf & Hw & Hp)|[E _]];
    [|congruence].
  pose proof (scan_fast_as p sp rest Ep Hc Hs Hf Hw Hp) as S. pose proof S as [Sp Sw Sr Sz So Srest _].
  unfold ref_convert in H. destruct (is_op (lit "diuoxXcpeEgG") (sp_op sp)) eqn:O.
  - assert (Np : Byte.eqb (sp_op sp) "%"%byte = false) by (revert O; generalize (sp_op sp); intros b; all_bytes b).
    rewrite Np in H. eapply convert_common in H as (C & -> & L); [|exact S|exact O|].
    + exists (Text t PRINTF_BUFFLEN). rewrite C. done.
    + unfold roomy, common_need, real_precision, PRINTF_BUFFLEN. rewrite Hp. case_match; simpl; lia.
  - assert (Os : sp_op sp = "s"%byte \/ sp_op sp = "n"%byte \/ sp_op sp = "%"%byte).
    { revert Hc Nf O. clear. generalize (sp_op sp). intros b. destruct b; try discriminate; auto. }
    unfold convert. rewrite So. destruct Os as [Os|[Os|Os]]; rewrite Os in H |- *.
    + unfold ref_text in H. rewrite Os in H. cbn -[string_arg plain default null_text] in H.
      destruct args as [|[z|z|s|z|long d|b a] args]; try done.
      destruct (Byte.eqb (sp_size sp) BLANK) eqn:Ez; [|done]. rewrite Pl in H. simpl in H.
      destruct s as [blk|]; [|done]. simpl in H. unfold string_arg in H. rewrite Hp in H. simpl in H.
      destruct (cstr blk) as [u|] eqn:Eu; [|done]. simplify_eq.
      assert (Epad : pad sp u = u) by by unfold pad, has_flag; rewrite Hf, Hw.
      rewrite Epad in Lt |- *. unfold INT_MAX in Lt.
      cbn. unfold convert_string. rewrite Sz, Ez. cbn [va_str some obind sbind]. rewrite Eu. cbn [some obind sbind].
      rewrite s32_small, add_int_small by (unfold INT_MAX; lia).
      eexists. split; [done|]. split; [|done]. repeat split. lia.
    + unfold ref_text in H. rewrite Os in H. cbn -[plain stored] in H.
      destruct args as [|[z|z|s|z|long d|b a] args]; try done. rewrite Pl in H. cbn -[stored] in H.
      destruct (byte_eqb_spec (sp_size sp) b) as [Eb|]; [|done]. cbn -[stored] in H.
      cbn. unfold convert_count. rewrite Sz, Eb.
      unfold by_size. unfold is_op in H. cbn [existsb] in H.
      destruct (Byte.eqb b BLANK) eqn:E1; [|destruct (Byte.eqb b "l"%byte) eqn:E2; [|destruct (Byte.eqb b "h"%byte) eqn:E3; [|done]]].
      all: simpl in H; simplify_eq; cbn [va_addr some obind sbind].
      all: rewrite byte_same; cbn [some obind sbind].
      all: eexists; split; [done|]; done.
    + rewrite Pl in H. simpl in H. destruct (Byte.eqb (sp_size sp) BLANK) eqn:Ez; [|done]. simplify_eq.
      cbn. rewrite Sz, Ez. eexists. split; [done|]. split; [|done]. done.
Qed.

(** *** The second time round *)

(** Exponents are those of floating point formats. *)
Hypothesis frexp_range : forall d, frexp d <= 2 ^ 20.

Lemma required_ok sc sp rest args n t st args2 :
  scanned_as sc sp rest -> is_conversion (sp_op sp) = true ->
  ref_convert to_double frexp exponent sprintf_other sp args n = Some (t, st, args2) ->
  plain sp = false \/ sp_op sp = "f"%byte -> Z.of_nat (length t) <= INT_MAX - 10 ->
  exists R h args1, required to_double frexp sc args = Ret (Some (R, h, args1)) /\ 0 <= R <= INT_MAX - 10 /\
    forall buffLen, 100 <= buffLen -> R + 10 <= buffLen ->
      convert sprintf_other false sc h buffLen args1 = Ret (Some (Text t buffLen, args2)) /\
      st = [] /\ Z.of_nat (length t) < buffLen.
Proof.
  intros S Hc H Pl Lt. pose proof S as [Sp Sw Sr Sz So Srest [Rp Rw]]. unfold ref_convert in H.
  destruct (Byte.eqb (sp_op sp) "%"%byte) eqn:Op.
  { destruct Pl as [Pl|Pl]; [by rewrite Pl in H|by rewrite Pl in Op]. }
  unfold required. rewrite So, Sr, Sz. fold (real_precision sp).
  assert (Rr : 0 <= real_precision sp <= 999999) by (unfold real_precision; case_match; lia).
  destruct (is_op (lit "diuoxXcpeEgG") (sp_op sp)) eqn:O.
  - assert (B : forall buffLen, 100 <= buffLen -> common_need sp + 10 <= buffLen ->
      convert sprintf_other false sc HeldNothing buffLen args = Ret (Some (Text t buffLen, args2)) /\
      st = [] /\ Z.of_nat (length t) < buffLen)
      by (intros buffLen B1 B2; by eapply convert_common).
    unfold common_need in B. destruct (is_op (lit "diuoxXcp") (sp_op sp)) eqn:O1.
    + eexists _, _, _. split; [done|]. split; [unfold INT_MAX; lia|exact B].
    + assert (is_op (lit "s") (sp_op sp) = false /\ is_op (lit "f") (sp_op sp) = false /\
        is_op (lit "eEgG") (sp_op sp) = true) as (-> & -> & ->)
        by (revert O O1; generalize (sp_op sp); intros b; repeat split; all_bytes b).
      eexists _, _, _. split; [done|]. split; [unfold INT_MAX; lia|exact B].
  - assert (Os : sp_op sp = "s"%byte \/ sp_op sp = "n"%byte \/ sp_op sp = "f"%byte).
    { revert Hc Op O. clear. generalize (sp_op sp). intros b. destruct b; try discriminate; auto. }
    unfold ref_text in H. unfold convert. rewrite So. destruct Os as [Os|[Os|Os]]; rewrite Os in H |- *.
    + cbn -[string_arg plain default null_text bool_decide] in H.
      destruct args as [|[z|z|s|z|long d|b a] args]; try done.
      destruct (Byte.eqb (sp_size sp) BLANK) eqn:Ez; [|done]. cbn [andb] in H.
      destruct (negb _); [|done].
      destruct (string_arg (sp_prec sp) (default null_text s)) as [u|] eqn:Eu; [|done]. simplify_eq.
      cbn -[string_length null_text]. unfold string_length. rewrite Eu. cbn [some obind sbind].
      set (sp := parse_spec (tail (sc_fmt sc))) in *. pose proof (length_pad sp u) as Lp.
      unfold INT_MAX in *. rewrite s32_small by lia. eexists _, _, _. split; [done|]. split; [lia|]. intros buffLen B1 B2.
      unfold convert_string. rewrite Sz, Ez. fold sp. rewrite Eu. cbn [some obind sbind].
      assert (L : Z.of_nat (length (pad sp u)) < buffLen) by lia.
      split; [|done]. apply written_ok; [done|]. by eapply cstring_pad, string_arg_cstring.
    + exfalso. destruct Pl as [Pl|Pl]; [|congruence]. cbn -[plain stored] in H. rewrite Pl in H.
      by destruct args as [|[z|z|s|z|long d|b a] args].
    + cbn in H. destruct args as [|[z|z|s|z|long d|b a] args]; try done.
      destruct (Byte.eqb (sp_size sp) _) eqn:Ez; [|done]. cbn [andb] in H.
      destruct (exponent_found _ _ _ long d) eqn:Ef; [|done]. simplify_eq. cbn -[Z.div Z.add].
      apply Z.leb_le in Ef. set (x := if long then to_double d else d) in *.
      set (sp := parse_spec (tail (sc_fmt sc))) in *.
      set (R := real_precision sp + 3 + (if 0 <? frexp x then frexp x / 3 else 0)).
      assert (HR : 0 <= R <= INT_MAX - 10 /\
        real_precision sp + 3 + Z.max 0 (exponent d) / 3 <= R).
      { unfold R, INT_MAX. pose proof (frexp_range x).
        assert (Z.max 0 (exponent d) / 3 <= Z.max 0 (frexp x) / 3) by (apply Z.div_le_mono; lia).
        destruct (Z.ltb_spec 0 (frexp x)).
        - pose proof (Z.div_pos (frexp x) 3). pose proof (Z.div_le_upper_bound (frexp x) 3 (2 ^ 20)).
          rewrite (Z.max_r 0 (frexp x)) in * by lia. lia.
        - rewrite (Z.max_l 0 (frexp x)) in * by lia. change (0 / 3) with 0 in *. lia. }
      destruct HR as [HR HE].
      exists R, (HeldReal long d), args2. split.
      { destruct long.
        - destruct (byte_eqb_spec (sp_size sp) "L"%byte) as [E|]; [|done]. rewrite E. done.
        - rewrite Ez. done. }
      split; [done|]. intros buffLen B1 B2. unfold convert_fixed. fold sp.
      destruct (other_fits sp (OtherReal long d) buffLen) with (args := args2) as [W L]; [lia|lia| |done].
      unfold other_room. rewrite Os. cbn -[Z.div Z.add Z.max]. lia.
Qed.
End paths.
