(* ===== verification/FcgiPrintfRun.v ===== *)
(** * What formatted output sends (loungeact_fastcgi/fcgiapp.c, FCGX_VFPrintF)

    The run of a call over a stream: the stream gets the text of the reference, the count is
    its length and the buffer is freed; a field of a hundred characters or more runs over the
    buffer it is printed to. *)

From S2P Require Import Prelude CFormat FcgiFormat FcgiStream FcgiWriter FcgiPrintf.
From Stdlib Require Import Init.Byte.

#[local] Open Scope c_scope.

(** The world with [k] blocks less. *)
Definition relive (k : Z) (w : world os) : world os :=
  World (w_alloc w) (w_junk w) (w_live w - k) (w_errno w) (w_ext w).

Lemma sent_relive fd e k w1 w2 : sent fd e w1 w2 -> sent fd e (relive k w1) (relive k w2).
Proof. intros [[Hl Hm] H]. split; [split; [simpl; lia|done]|done]. Qed.

Lemma sent_frame fd e k d w0 w1 w2 : frame d w1 w2 -> sent fd e w0 (relive k w1) ->
  sent fd e w0 (relive (k + d) w2).
Proof.
  intros (E & L & Mm) [[Hl Hm] (c & c' & H)]. split; [split; [simpl in *; lia|by intros M; apply Mm, Hm]|].
  exists c, c'. simpl in *. by rewrite E.
Qed.

Section run.
Context {real : Type}.
Variable to_double : real -> real.
Variable frexp : real -> Z.
Variable exponent : real -> Z.
Variable sprintf_other : spec -> other (real := real) -> list byte.
Hypothesis sprintf_other_length : forall sp o, 0 <= sp_width sp -> -1 <= sp_prec sp ->
  Z.of_nat (length (sprintf_other sp o)) <= Z.max (sp_width sp) (other_room exponent sp o).
Hypothesis sprintf_other_cstring : forall sp o, cstring (sprintf_other sp o).
Hypothesis frexp_range : forall d, frexp d <= 2 ^ 20.

(** The stream and the world a call starts from. *)
Variables (raw : bool) (ty : Z) (a : bool) (r : FCGX_Request) (d : list byte) (st0 : Z) (w0 : world os).
Hypothesis Hready : ready (ipcFd r) (w_ext w0).

Definition aux_live (st : pstate (real := real)) : Z := match p_aux st with Some _ => 1 | None => 0 end.

(** After [text]: it has been put, counted, and only the allocated buffer is more. *)
Record going (text : list byte) (st : pstate (real := real)) (w : world os) : Prop := {
  go_put : put_leaves raw ty a r (d ++ text) st0 w0 (p_stream st) (relive (aux_live st) w);
  go_request : p_request st = r;
  go_count : p_count st = Z.of_nat (length text);
  go_aux : match p_aux st with Some l => 100 <= l | None => True end;
  go_mem : mem_ok w;
}.

Lemma going_args args text st w : going text st w -> going text (with_args args st) w.
Proof. by intros []. Qed.

Lemma wp_emit stretch text x st w (Q : turn_result -> world os -> Prop) :
  going text st w -> Z.of_nat (length (text ++ x)) <= INT_MAX ->
  (forall s' w', let st' := Pstate s' r (p_args st) (Z.of_nat (length (text ++ x))) (p_aux st) (p_stores st) in
     going (text ++ x) st' w' -> Q (true, st') w') ->
  wp (emit stretch x st) w Q.
Proof.
  intros [(gone & e & d' & Ed & He & Hh & Hst & Hs) Er Ec Ha Hm] L HQ.
  assert (Lx : Z.of_nat (length (text ++ x)) = Z.of_nat (length text) + Z.of_nat (length x))
    by (rewrite length_app; lia).
  unfold INT_MAX in L. unfold emit. rewrite Er, s32_small by lia. wp_step. eapply wp_PutStr; [exact Hh| |].
  { pose proof (sent_ready _ _ _ _ Hready Hs) as R. exact R. }
  intros s' w' (gone2 & e2 & d2 & Ed2 & He2 & Hh2 & Hst2 & Hs2). rewrite (proj2 (Z.ltb_ge _ _)) by lia.
  cbn [p_count]. assert (add_count stretch (p_count st) (Z.of_nat (length x)) = Ret (Z.of_nat (length (text ++ x)))) as ->.
  { rewrite Ec, Lx. unfold add_count. destruct stretch; [by rewrite s32_small by lia|].
    apply add_int_small; unfold INT_MAX; lia. }
  wp_steps. apply HQ. split; try done.
  - exists (gone ++ gone2), (e ++ e2), d2. cbn [p_stream]. split; [|split; [by apply emits_app|]].
    + by rewrite app_assoc, Ed, <- app_assoc, Ed2, app_assoc.
    + rewrite nonempty_app, orb_assoc. split; [done|]. split; [congruence|].
      eapply sent_trans; [exact Hs|]. by apply (sent_relive _ _ _ w w').
  - destruct Hs2 as [[_ M] _]. by apply M.
Qed.

(** The buffer the slow path takes. *)
Lemma wp_choose_buffer R mw text st w (Q : Z * option Z -> world os -> Prop) :
  going text st w -> mw < 100 -> 0 <= R <= INT_MAX - 10 ->
  (forall buffLen aux w', going text (with_aux aux st) w' -> 100 <= buffLen -> R + 10 <= buffLen ->
     Q (buffLen, aux) w') ->
  wp (choose_buffer R mw (p_aux st)) w Q.
Proof.
  intros G Hm HR HQ. pose proof G as [Gp Gr Gc Ga Gm]. unfold choose_buffer, PRINTF_BUFFLEN, INT_MAX in *.
  rewrite add_int_small by (unfold INT_MAX; lia). wp_step. wp_step.
  set (req := Z.max (R + 10) mw). assert (Hq : 0 <= req <= PTRDIFF_MAX) by (unfold req, PTRDIFF_MAX; lia).
  assert (K : forall aux w' k, match aux with Some l => 100 <= l | None => True end ->
    match aux with Some _ => 1 | None => 0 end = aux_live st + k -> frame k w w' -> going text (with_aux aux st) w').
  { intros aux w' k Hl Hk F. destruct Gp as (gone & e & d' & Ed & He & Hh & Hst & Hs).
    split; try done; [|by eapply frame_mem_ok].
    exists gone, e, d'. do 4 (split; [done|]). unfold aux_live. cbn [p_aux with_aux]. rewrite Hk.
    by eapply sent_frame. }
  destruct (Z.leb_spec req 100).
  { wp_step. apply HQ; [|lia|lia]. apply (K _ _ 0); [done|unfold aux_live; lia|apply frame_refl]. }
  unfold aux_live in K. destruct (p_aux st) as [l|] eqn:A.
  - destruct (Z.ltb_spec l req).
    + wp_step. apply wp_free. intros w1 F1 _. wp_step. apply wp_Malloc; [lia|by eapply frame_mem_ok|].
      intros blk w2 _ F2. wp_step. apply HQ; [|lia|lia].
      apply (K _ _ 0); [lia|done|]. eapply frame_eq; [by eapply frame_trans|lia].
    + wp_step. apply HQ; [|lia|lia]. apply (K _ _ 0); [done|done|apply frame_refl].
  - wp_step. apply wp_Malloc; [lia|done|]. intros blk w1 _ F. wp_step. apply HQ; [|lia|lia].
    by apply (K _ _ 1); [lia|..].
Qed.

(** The end of a turn. *)
Lemma wp_finish_turn o text t stores st w (Q : turn_result -> world os -> Prop) :
  going text st w -> yields o t stores (Z.of_nat (length text)) ->
  Z.of_nat (length (text ++ t)) <= INT_MAX ->
  (forall st' w', going (text ++ t) st' w' -> p_args st' = p_args st ->
     p_stores st' = p_stores st ++ stores -> Q (true, st') w') ->
  wp (finish_turn o st) w Q.
Proof.
  intros G Y L HQ. pose proof (go_count _ _ _ G) as Ec. destruct o as [t' bl|size p|]; [| |done].
  - destruct Y as (-> & -> & B). assert (Lt : Z.of_nat (length t) <= Z.of_nat (length (text ++ t))) by (rewrite length_app; lia).
    unfold finish_turn. unfold INT_MAX in L. rewrite s32_small by lia. rewrite (proj2 (Z.ltb_lt _ _)) by lia.
    destruct t as [|b t].
    + change (wp (ret (true, st)) w Q). wp_step. apply HQ; [by rewrite app_nil_r|done|by rewrite app_nil_r].
    + rewrite (proj2 (Z.ltb_lt 0 _)) by (simpl; lia). eapply wp_emit; [done|done|]. intros s' w' st' G'. apply HQ; [done|done|]. by rewrite app_nil_r.
  - destruct Y as (-> & ->). unfold finish_turn. wp_step. rewrite Ec.
    apply HQ; [|done|done]. rewrite app_nil_r. destruct G. by split.
Qed.

Lemma directive_conversion p (args args1 : list (varg (real := real))) sp rest :
  ref_directive p args = Some (sp, rest, args1) -> is_conversion (sp_op sp) = true.
Proof.
  unfold ref_directive. intros H.
  destruct (5 <? _)%nat; [done|]. destruct (ref_width _ _) as [[[[? ?] ?] ?]|]; [|done].
  destruct (ref_precision _ _) as [[[? q] ?]|]; [|done].
  destruct (if is_size (at0 q) then _ else _) as [size q'].
  destruct (is_op _ (at0 q')) eqn:O; [|done]. by simplify_eq.
Qed.

(** A conversion prints what the reference says. *)
Lemma wp_conversion p sp rest args1 t stores args2 text st w (Q : turn_result * list byte -> world os -> Prop) :
  going text st w -> ref_directive p (p_args st) = Some (sp, rest, args1) ->
  ref_convert to_double frexp exponent sprintf_other sp args1 (Z.of_nat (length text)) = Some (t, stores, args2) ->
  Z.of_nat (length (text ++ t)) <= INT_MAX - 10 ->
  (forall st' w', going (text ++ t) st' w' -> p_args st' = args2 -> p_stores st' = p_stores st ++ stores ->
     Q ((true, st'), rest) w') ->
  wp (conversion to_double frexp sprintf_other p st) w Q.
Proof.
  intros G D H L HQ. unfold conversion. wp_step.
  destruct (plain sp && negb (Byte.eqb (sp_op sp) "f"%byte)) eqn:P.
  - apply andb_true_iff in P as [P1 P2]. apply negb_true_iff in P2.
    destruct (fast_ok to_double frexp exponent sprintf_other sprintf_other_length sprintf_other_cstring _ _ _ _ _ _ _ _ _ D H P1 P2)
      as (o & -> & Y & <-); [rewrite length_app in L; lia|].
    wp_step. destruct o as [t' bl|size q|]; [| |done].
    all: wp_step; eapply wp_finish_turn; [by apply going_args|exact Y|lia|].
    all: intros st' w' G' Ea Es; wp_step; by apply HQ.
  - assert (N : convert sprintf_other true (scan_fast p) HeldNothing PRINTF_BUFFLEN (p_args st) =
      Ret (Some (NotPerformed, p_args st))).
    { destruct (directive_head p _ _ _ _ D) as [(P1 & Ep & _ & Hc & Hs & Hf & Hw & Hp)|[_ B]];
        [|by apply fast_not_performed].
      rewrite P1 in P. simpl in P. apply negb_false_iff in P.
      pose proof (scan_fast_as p sp rest Ep Hc Hs Hf Hw Hp) as [_ _ _ _ So _ _].
      destruct (byte_eqb_spec (sp_op sp) "f"%byte) as [E|]; [|done]. unfold convert. by rewrite So, E. }
    rewrite N. wp_step. unfold slow_path.
    destruct (scan_slow_ok _ _ _ _ _ D) as (sc & -> & S). wp_step. wp_step.
    assert (Ps : plain sp = false \/ sp_op sp = "f"%byte).
    { destruct (plain sp); [right|by left]. destruct (byte_eqb_spec (sp_op sp) "f"%byte); done. }
    destruct (required_ok to_double frexp exponent sprintf_other sprintf_other_length sprintf_other_cstring frexp_range
      sc sp rest _ _ _ _ _ S (directive_conversion _ _ _ _ _ D) H Ps) as (R & h & args' & -> & HR & C);
      [rewrite length_app in L; lia|].
    wp_step. wp_step. wp_step. eapply wp_choose_buffer; [exact G|apply S|done|].
    intros bl aux w' G' B1 B2. destruct (C bl B1 B2) as (-> & -> & Lt). wp_step. wp_step. wp_step.
    eapply (wp_finish_turn _ _ t []); [by apply going_args|done|lia|].
    intros st' w'' G'' Ea Es. wp_step. rewrite (sa_rest _ _ _ S). by apply HQ.
Qed.

Lemma length_tail {A} (l : list A) : (length (tail l) <= length l)%nat.
Proof. destruct l; simpl; lia. Qed.

Lemma directive_rest p (args args1 : list (varg (real := real))) sp rest :
  ref_directive p args = Some (sp, rest, args1) -> (length rest <= length p)%nat.
Proof.
  unfold ref_directive. intros H. destruct (5 <? _)%nat; [done|].
  assert (W : forall q (x y : list (varg (real := real))) m z q', ref_width q x = Some (m, z, q', y) ->
    (length q' <= length q)%nat).
  { intros q x y m z q' E. unfold ref_width in E. pose proof (length_tail q).
    repeat case_match; simplify_eq; rewrite ?length_drop; lia. }
  assert (P : forall q (x y : list (varg (real := real))) z q', ref_precision q x = Some (z, q', y) ->
    (length q' <= length q)%nat).
  { intros q x y z q' E. unfold ref_precision in E. pose proof (length_tail q). pose proof (length_tail (tail q)).
    repeat case_match; simplify_eq; rewrite ?length_drop; lia. }
  destruct (ref_width _ _) as [[[[m z] q] x]|] eqn:Ew; [|done]. apply W in Ew. rewrite length_drop in Ew.
  destruct (ref_precision _ _) as [[[z' q'] y]|] eqn:Ep; [|done]. apply P in Ep.
  pose proof (length_tail q'). pose proof (length_tail (tail q')).
  destruct (is_size (at0 q')); destruct (is_op _ _); simplify_eq; lia.
Qed.

Lemma strspn_next accept s : forall b t, drop (strspn accept s) s = b :: t -> accept b = false.
Proof.
  induction s as [|c s IH]; intros b t; simpl; [done|].
  destruct (accept c) eqn:E; simpl; [apply IH|by intros [= <- <-]].
Qed.

Lemma prints_chunk f : forall args n text stores, prints to_double frexp exponent sprintf_other f args n text stores ->
  let k := strspn not_percent f in
  exists text', text = take k f ++ text' /\
    prints to_double frexp exponent sprintf_other (drop k f) args (n + Z.of_nat k) text' stores.
Proof.
  induction f as [|b f IH]; intros args n text stores H k.
  - exists text. unfold k. simpl. by rewrite Z.add_0_r.
  - unfold k. cbn [strspn]. unfold not_percent at 1 3 5. destruct (byte_eqb_spec b "%"%byte) as [E|N]; cbn [negb].
    + exists text. cbn. by rewrite Z.add_0_r.
    + inversion H as [|b' f' args' n' text1 st' Hb Hp|]; [subst|congruence].
      destruct (IH _ _ _ _ Hp) as (text' & -> & Hp').
      exists text'. cbn [take drop firstn skipn app]. split; [done|].
      replace (n + Z.of_nat (S (strspn not_percent f))) with (n + 1 + Z.of_nat (strspn not_percent f)) by lia. done.
Qed.

Lemma wp_format_loop fuel : forall f st w printed text stores (Q : turn_result -> world os -> Prop),
  going printed st w -> prints to_double frexp exponent sprintf_other f (p_args st) (Z.of_nat (length printed)) text stores ->
  (length f <= fuel)%nat -> Z.of_nat (length (printed ++ text)) <= INT_MAX - 10 ->
  (forall st' w', going (printed ++ text) st' w' -> p_stores st' = p_stores st ++ stores -> Q (true, st') w') ->
  wp (format_loop to_double frexp sprintf_other fuel f st) w Q.
Proof.
  assert (Nil : forall args n text stores, prints to_double frexp exponent sprintf_other [] args n text stores -> text = [] /\ stores = [])
    by (intros args n text stores H; by inversion H).
  induction fuel as [|fuel IH]; intros f st w printed text stores Q G H L B HQ.
  all: destruct f as [|b0 f0]; [apply Nil in H as [-> ->]; simpl; wp_step; apply HQ; by rewrite ?app_nil_r|].
  { simpl in L. lia. }
  set (f := b0 :: f0) in *. cbn [format_loop]. fold f. replace (match f with [] => _ | _ => _ end) with
    (let n := strspn not_percent f in
     let* '(go, st) := (if (n =? 0)%nat then ret (true, st) else emit true (take n f) st) in
     if negb go then fails st
     else match drop n f with
          | [] => ret (true, st)
          | _ :: p =>
              let* '(go, st, rest) := conversion to_double frexp sprintf_other p st in
              if negb go then fails st else format_loop to_double frexp sprintf_other fuel rest st
          end) by done.
  destruct (prints_chunk _ _ _ _ _ H) as (text' & -> & H'). set (k := strspn not_percent f) in *.
  assert (Lk : length (take k f) = k) by (rewrite length_take; unfold k; pose proof (strspn_le not_percent f); lia).
  assert (Rest : forall st1 w1, going (printed ++ take k f) st1 w1 -> p_args st1 = p_args st ->
    p_stores st1 = p_stores st ->
    wp (match drop k f with
        | [] => ret (true, st1)
        | _ :: p =>
            let* '(go, st, rest) := conversion to_double frexp sprintf_other p st1 in
            if negb go then fails st else format_loop to_double frexp sprintf_other fuel rest st
        end) w1 Q).
  { intros st1 w1 G1 Ea Es. rewrite app_assoc in B, HQ.
    pose proof (strspn_next not_percent f) as Sp. fold k in Sp.
    assert (Ld : (length (drop k f) <= S fuel)%nat) by (rewrite length_drop; lia).
    rewrite <- Lk in H' at 2. rewrite <- Nat2Z.inj_add, <- length_app in H'.
    destruct (drop k f) as [|b p].
    - apply Nil in H' as [-> ->]. wp_step. rewrite !app_nil_r in HQ. apply HQ; [done|]. by rewrite Es.
    - inversion H' as [|b' f' args' n' t2 st' Hb Hp|p' args n sp rest args1 t st' args2 t2 st2 D C Hp]; subst.
      { exfalso. specialize (Sp b p eq_refl). unfold not_percent in Sp. by destruct (byte_eqb_spec b "%"%byte). }
      rewrite app_assoc in B, HQ. wp_step. eapply wp_conversion; [exact G1|by rewrite Ea|exact C| |].
      { rewrite length_app in B. lia. }
      intros st2' w2 G2 Ea2 Es2. cbn [negb]. eapply IH; [exact G2|rewrite Ea2| |exact B|].
      + by rewrite length_app, Nat2Z.inj_add.
      + apply directive_rest in D. simpl in Ld. lia.
      + intros st3 w3 G3 Es3. apply HQ; [done|]. by rewrite Es3, Es2, Es, app_assoc. }
  cbv zeta. wp_step. destruct (Nat.eqb_spec k 0) as [E|N].
  - wp_step. cbn [negb]. apply Rest; [|done|done]. rewrite E, take_0, app_nil_r. done.
  - eapply wp_emit; [exact G| |].
    + rewrite app_assoc, length_app in B. lia.
    + intros s' w' st' G'. cbn [negb]. by apply Rest.
Qed.
End run.

(** ** Properties *)

(** What the library is relied on for: its texts of floating point numbers and pointers are as
    long as their fields, or as the sign, the digits before the point, of which there are at
    most one for every three binary places of the number, the point and the digits behind it
    that the precision asks for; they hold no NUL; the exponent of a [double] is small. *)
Record other_texts {real : Type} (frexp exponent : real -> Z) (sprintf_other : spec -> other (real := real) -> list byte)
  : Prop := {
  ot_length sp o : 0 <= sp_width sp -> -1 <= sp_prec sp ->
    Z.of_nat (length (sprintf_other sp o)) <= Z.max (sp_width sp) (other_room exponent sp o);
  ot_cstring sp o : cstring (sprintf_other sp o);
  ot_range d : frexp d <= 2 ^ 20;
}.

(** C16 (equivalence): on a connection that takes what is written and with memory that lasts, a
    call prints what the reference reading of the format prints ([prints]): the stream gets the
    text, in records that go out when its buffer is full, the length is returned, the numbers
    of [%n] are stored, and no memory stays allocated.  The reference reads at most five flags,
    fields narrower than a hundred characters, precisions up to 999999 and arguments of the
    types the format asks for.  It leaves out what the code gets wrong: a [*] width of 0, a
    negative [*] precision, the NUL character for [%c], the null pointer for a plain [%s], and
    a [%Lf] of a number too large for a [double] ([exponent_found]). *)
Theorem formatted_output_correct {real : Type} (to_double : real -> real) (frexp exponent : real -> Z) sprintf_other
   ty a s r d w f rest args text stores :
  other_texts frexp exponent sprintf_other -> mem_ok w -> ready (ipcFd r) (w_ext w) -> holds 8 false ty a s d ->
  cstring f -> prints to_double frexp exponent sprintf_other f args 0 text stores -> Z.of_nat (length text) <= INT_MAX - 10 ->
  wp (FCGX_FPrintF to_double frexp sprintf_other s r (f ++ NUL :: rest) args) w (fun '(rc, (s', r'), st) w' =>
    rc = Z.of_nat (length text) /\ r' = r /\ st = stores /\
    put_leaves false ty a r (d ++ text) (stop s) w s' w').
Proof.
  intros [Hl Hc Hr] Hm Rd Hh Cf Hp L. unfold FCGX_FPrintF, FCGX_VFPrintF. rewrite cstr_app by done.
  wp_step. wp_step. wp_step.
  assert (G0 : going false ty a r d (stop s) w [] (Pstate s r args 0 None []) w).
  { split; try done. rewrite app_nil_r. cbn [p_stream]. destruct (put_leaves_now false ty a r d s w Hh Rd)
      as (gone & e & d' & Ed & He & Hh' & Hst & Hs).
    exists gone, e, d'. do 4 (split; [done|]). destruct Hs as [[H1 H2] H3].
    split; [split; [unfold aux_live; simpl; lia|done]|exact H3]. }
  eapply (wp_format_loop to_double frexp exponent sprintf_other Hl Hc Hr false ty a r d (stop s) w Rd _ _ _ _ [] text stores);
    [exact G0|done|lia|done|].
  intros st' w' [(gone & e & d' & Ed & He & Hh' & Hst & Hs) Er Ec _ Hm'] Es. cbn [p_stores app] in *.
  assert (Fin : forall w'', frame (- aux_live st') w' w'' ->
    p_count st' = Z.of_nat (length text) /\ p_request st' = r /\ p_stores st' = stores /\
    put_leaves false ty a r (d ++ text) (stop s) w (p_stream st') w'').
  { intros w'' F. do 3 (split; [done|]). exists gone, e, d'. do 4 (split; [done|]).
    pose proof (sent_frame _ _ _ _ _ _ _ F Hs) as [[H1 H2] H3].
    split; [split; [simpl in *; lia|exact H2]|exact H3]. }
  unfold aux_live in Fin. wp_step. destruct (p_aux st').
  - apply wp_free. intros w'' F _. wp_step. by apply Fin.
  - wp_step. wp_step. apply Fin, frame_refl.
Qed.

(** *** A wide field *)

Lemma digit_not_flag b : is_digit b = true -> b <> "0"%byte -> is_flag b = false.
Proof. intros H N. destruct b; try discriminate H; reflexivity || done. Qed.

(** What the scanner finds behind the percent sign of a decimal with a width. *)
Lemma scan_wide {real : Type} ds (args : list (varg (real := real))) :
  digits ds -> at0 ds <> "0"%byte -> ds <> [] -> (length ds <= 6)%nat ->
  scan_slow (ds ++ ["d"%byte]) args =
    Ret (Some (Scanned (["%"%byte] ++ ds ++ ["d"%byte]) (number ds) (-1) BLANK "d"%byte [], args)).
Proof.
  intros D N Ne L.
  assert (F : is_flag (at0 ds) = false).
  { destruct ds as [|b ds]; [done|]. inversion_clear D. by apply digit_not_flag. }
  assert (S0 : strspn is_flag (ds ++ ["d"%byte]) = 0%nat) by (destruct ds; [done|]; simpl in *; by rewrite F).
  assert (S1 : strspn is_digit (ds ++ ["d"%byte]) = length ds) by by apply strspn_app.
  unfold scan_slow, scan_flags. rewrite S0. change (5 <? Z.of_nat 0) with false. rewrite copy_ok by (simpl; lia).
 
  cbn [some obind sbind]. change (take 0 _) with (@nil byte). change (drop 0 ?l) with l. rewrite app_nil_r.
  unfold scan_width. rewrite S1.
  assert (length ds <> 0%nat) by by destruct ds.
  rewrite (proj2 (Nat.eqb_neq _ _)) by done. rewrite (proj2 (Nat.leb_le _ _)) by done.
  rewrite copy_ok by (simpl; lia). cbn [some obind sbind]. rewrite take_app_length, drop_app_length.
  unfold scan_precision. cbn [at0 hd]. change (Byte.eqb "d" ".") with false. cbn [sbind].
  destruct (scan_op_ok (["%"%byte] ++ ds) (number ds) (-1) ["d"%byte] args BLANK ["d"%byte]) as [-> _];
    [simpl; lia|done|]. cbn [size_text]. change (size_text BLANK) with (@nil byte). by rewrite <- app_assoc.
Qed.

(** A number fills its field. *)
Lemma number_text_width sp signed neg z : sp_width sp <= Z.of_nat (length (number_text sp signed neg z)).
Proof.
  unfold number_text. set (head := if signed then _ else _). set (ds := if _ && negb _ then _ else _).
  destruct (_ && (sp_prec sp =? -1)).
  - rewrite !length_app, length_replicate. lia.
  - rewrite length_pad. lia.
Qed.

(** The buffer for a field that needs more than everything else is as long as the field. *)
Lemma wide_buffer ds w (Q : Z * option Z -> world os -> Prop) :
  digits ds /\ (length ds <= 6)%nat /\ 100 <= number ds -> mem_ok w ->
  (forall aux w' bl, bl = number ds -> Q (bl, aux) w') -> wp (choose_buffer 46 (number ds) None) w Q.
Proof.
  intros (D & L & W) Hm HQ. pose proof (digits_number_bound ds D) as B.
  assert (10 ^ Z.of_nat (length ds) <= 10 ^ 6) by (apply Z.pow_le_mono_r; lia).
  unfold choose_buffer, PRINTF_BUFFLEN. change (add_int 46 10) with (Ret 56). wp_step. wp_step.
  rewrite Z.max_r by lia. destruct (Z.leb_spec (number ds) 100).
  - wp_step. apply HQ. lia.
  - wp_step. apply wp_Malloc; [unfold PTRDIFF_MAX; lia|done|]. intros blk w' _ _. wp_step. by apply HQ.
Qed.

(** A decimal in a field of a hundred characters or more is written past the end
    of its buffer, which has as many bytes as the field and no room for the terminator. *)
Theorem wide_field_overruns {real : Type} (to_double : real -> real) (frexp : real -> Z) sprintf_other ds z s r w rest :
  digits ds -> at0 ds <> "0"%byte -> (length ds <= 6)%nat -> 100 <= number ds -> mem_ok w ->
  FCGX_FPrintF to_double frexp sprintf_other s r ("%"%byte :: ds ++ "d"%byte :: NUL :: rest) [VInt z] w = Undef OutOfBounds.
Proof.
  intros D N L W Hm.
  assert (Ne : ds <> []) by by intros ->.
  assert (C : cstring ("%"%byte :: ds ++ ["d"%byte])).
  { apply cstring_cons. split; [done|]. apply cstring_app. split; [|by apply cstring_cons].
    apply cstring_forall. eapply list.Forall_impl; [exact D|]. by intros b Hb ->. }
  unfold FCGX_FPrintF, FCGX_VFPrintF.
  replace ("%"%byte :: ds ++ "d"%byte :: NUL :: rest) with (("%"%byte :: ds ++ ["d"%byte]) ++ NUL :: rest)
    by (cbn [app]; by rewrite <- app_assoc).
  apply undef_bind. rewrite cstr_app by done. wp_step. set (f := "%"%byte :: ds ++ ["d"%byte]).
  apply undef_head. change (length f) with (S (length (ds ++ ["d"%byte]))). cbn [format_loop].
  change (strspn not_percent f) with 0%nat. cbn [Nat.eqb]. apply undef_bind. wp_step. cbn [negb].
  change (drop 0 f) with f. unfold f at 1. apply undef_head.
  unfold conversion. apply undef_bind.
  rewrite fast_not_performed.
  2: { destruct ds as [|b ds']; [done|]. inversion_clear D as [|? ? Hb]. cbn [app at0 hd]. rewrite Hb.
       by rewrite orb_true_r. }
  wp_step. unfold slow_path. apply undef_bind. cbn [p_args]. rewrite scan_wide by done. wp_step.
  apply undef_bind. replace (required _ _ _ _) with (Ret (Some (46, HeldNothing (real := real), [VInt (real := real) z]))) by done.
  wp_step. apply undef_bind. cbn [sc_width p_aux]. apply wide_buffer; [done|done|].
  intros aux w' bl ->. apply undef_head. unfold lift, convert. cbn [sc_op].
  change (is_op (lit "di") "d") with true. unfold convert_int. cbn [sc_size sc_fmt tail app].
  change (by_size BLANK ?x ?y ?z) with x. cbn [va_int some obind sbind].
  assert (P : parse_spec (ds ++ ["d"%byte]) = Spec [] (number ds) (-1) BLANK "d"%byte).
  { apply (parse_text [] ds (-1) [] BLANK "d"%byte); [by apply list.Forall_nil|done| |by left|by right|done].
    destruct ds as [|b ds']; [done|]. inversion_clear D. by apply digit_not_flag. }
  rewrite P.
  unfold written, sprintf, int_text. set (t := number_text _ _ _ _).
  assert (Lt : number ds <= Z.of_nat (length t)) by apply (number_text_width (Spec [] (number ds) (-1) BLANK "d"%byte)).
  by rewrite (proj2 (Z.leb_gt _ _)) by lia.
Qed.

(** *** Witnesses *)

(** A library that knows one floating point number. *)
Definition t_other (sp : spec) (o : other (real := unit)) : list byte :=
  match o with
  | OtherPtr z => pad sp (lit "0x" ++ radix 16 false z)
  | OtherReal _ _ => pad sp (lit "1.5")
  end.

Lemma t_other_texts : other_texts (fun _ => 1) (fun _ => 1) t_other.
Proof.
  split; [| |lia].
  - intros sp o Hw Hp. unfold t_other, other_room, real_precision.
    change (Z.max 0 1 / 3) with 0.
    destruct o; rewrite length_pad; [|change (length (lit "1.5")) with 3%nat; cbn [sp_width]; repeat case_match; lia].
    rewrite length_app. pose proof (length_radix 16 false z). simpl length. lia.
  - intros sp o. destruct o; apply cstring_pad; [|vm_compute; set_solver].
    apply cstring_app. split; [vm_compute; set_solver|]. apply cstring_radix_aux; [lia|apply cstring_nil].
Qed.

Definition t_writer : FCGX_Stream :=
  match NewWriter 512 FCGI_STDOUT t_os with
  | Ret (s, _) => s
  | Undef _ => Stream 0 0 0 0 false false false 0 (StreamData [] 0 0 false false 0 0 false false)
  end.

Lemma t_writer_holds : holds 8 false FCGI_STDOUT false t_writer [].
Proof. constructor; vm_compute; first [reflexivity | discriminate | split; discriminate]. Qed.

Definition t_format : list byte := lit "n=%03d %s %.1f%%".
Definition t_args : list (varg (real := unit)) := [VInt 7; VStr (Some (lit "ab" ++ [NUL])); VReal false tt].

Lemma t_prints : prints id (fun _ => 1) (fun _ => 1) t_other t_format t_args 0 (lit "n=007 ab 1.5%") [].
Proof.
  change (prints id (fun _ => 1) (fun _ => 1) t_other t_format t_args 0
    ("n"%byte :: "="%byte :: lit "007" ++ BLANK :: lit "ab" ++ BLANK :: lit "1.5" ++ lit "%" ++ [])
    ([] ++ [] ++ [] ++ [] ++ [])).
  do 2 (apply prints_char; [done|]). eapply prints_conv; [vm_compute; reflexivity|vm_compute; reflexivity|].
  apply prints_char; [done|]. eapply prints_conv; [vm_compute; reflexivity|vm_compute; reflexivity|].
  apply prints_char; [done|]. eapply prints_conv; [vm_compute; reflexivity|vm_compute; reflexivity|].
  eapply prints_conv; [vm_compute; reflexivity|vm_compute; reflexivity|]. apply prints_end.
Qed.

Lemma formatted_output_correct_witness :
  let r := Request 258 1 5 true 0 3 1 0 0 in
  wp (FCGX_FPrintF id (fun _ => 1) t_other t_writer r (t_format ++ NUL :: []) t_args) t_os
    (fun '(rc, (s', r'), st) w' => rc = 13 /\ r' = r /\ st = [] /\
       put_leaves false FCGI_STDOUT false r (lit "n=007 ab 1.5%") (stop t_writer) t_os s' w').
Proof.
  intros r. apply (formatted_output_correct id (fun _ => 1) (fun _ => 1) t_other FCGI_STDOUT false t_writer r [] t_os t_format []
    t_args (lit "n=007 ab 1.5%") []).
  - apply t_other_texts.
  - reflexivity.
  - exists (Conn [] [] []). split; [reflexivity|apply list.Forall_nil; exact I].
  - apply t_writer_holds.
  - vm_compute. set_solver.
  - apply t_prints.
  - vm_compute. discriminate.
Defined.

Lemma wide_field_overruns_witness :
  FCGX_FPrintF id (fun _ => 1) t_other t_writer (Request 258 1 5 true 0 3 1 0 0)
    ("%"%byte :: lit "100" ++ "d"%byte :: NUL :: []) [VInt 5] t_os = Undef OutOfBounds.
Proof.
  apply (wide_field_overruns id (fun _ => 1) t_other (lit "100") 5).
  - repeat constructor.
  - discriminate.
  - vm_compute. lia.
  - vm_compute. discriminate.
  - reflexivity.
Defined.

(** ** A number too large for a [double] *)

(** A library whose numbers are powers of two, known by their exponents. *)
Definition power_text (sp : spec) (o : other (real := Z)) : list byte :=
  match o with
  | OtherPtr _ => lit "0x0"
  | OtherReal _ e => replicate (Z.to_nat (e / 4)) "9"%byte ++ lit ".000000"
  end.

(** As a [double] it is infinite, for which [frexp] gives no exponent. *)
Definition power_to_double (e : Z) : Z := if 1024 <? e then 0 else e.

Definition print_power (long : bool) (e : Z) : option Z :=
  match FCGX_FPrintF power_to_double id power_text t_writer (Request 258 1 5 true 0 3 1 0 0)
          ((if long then lit "%Lf" else lit "%f") ++ [NUL]) [VReal long e] t_os with
  | Ret ((rc, _, _), _) => Some rc
  | Undef _ => None
  end.

(** 2 to the power of 1024 still has a buffer for its digits; of a number of four thousand
    digits they run over the hundred bytes on the stack. *)
Example power_printed : print_power true 1024 = Some 263.
Proof. vm_compute. reflexivity. Qed.

Example long_double_overruns : print_power true 16000 = None.
Proof. vm_compute. reflexivity. Qed.
