(* ===== verification/FcgiAccept.v ===== *)
(** * Accepting a connection (loungeact_fastcgi/os_unix.c, OS_Accept)

    The three loops around [accept]: calls that a signal interrupts are repeated, clients whose
    address is not in the list of web servers are closed, and so are local clients that send
    nothing in time.  Every call of [accept] has an answer, and a signal may arrive by its end.
    Without signals the loops do what the one loop of FcgiStream does, on which the theorems
    on requests rest; a signal after a client was refused keeps them running forever. *)

From S2P Require Import Prelude FcgiFormat FcgiStream AsyncIo.
From Stdlib Require Import Init.Byte.

#[local] Open Scope c_scope.

(** ** State *)

Definition AF_UNIX : Z := 1.
Definition AF_INET : Z := 2.

(** The members of an address the code reads: [sin_family] and [s_addr]. *)
Record sockaddr := SockAddr {
  sin_family : Z;
  s_addr : Z;
}.

(** A client: its address, whether it sends something within the time it is given, and the
    connection. *)
Record client := Client {
  cl_sa : sockaddr;
  cl_sends : bool;
  cl_conn : connection;
}.

(** The open files, the answers of the calls of [accept] to come, each with whether the signal
    to end arrives by the end of the call, and what the handler of the signal sets. *)
Record net := Net {
  n_fds : gmap Z client;
  n_calls : list (bool * (Z + client));
  n_shutdown : bool;
  n_closed : list connection;
}.

(** POSIX opens the lowest number that is not in use. *)
Fixpoint first_free (fuel : nat) (fds : gmap Z client) (k : Z) : Z :=
  match fuel with
  | O => k
  | S fuel => match fds !! k with None => k | Some _ => first_free fuel fds (k + 1) end
  end.

Definition lowest_unused (fds : gmap Z client) : Z := first_free (size fds) fds 0.

Definition get_errno : M net Z := fun w => Ret (w_errno w, w).

(** [accept]: a descriptor with the address of the client, or -1. *)
Definition sys_accept : M net (Z * option sockaddr) :=
  let* n := get_ext in
  match n_calls n with
  | [] => undef Diverges
  | (signal, r) :: calls =>
      let stop := n_shutdown n || signal in
      match r with
      | inl e =>
          put_ext (Net (n_fds n) calls stop (n_closed n)) ;;; set_errno e ;;; ret (-1, None)
      | inr c =>
          let fd := lowest_unused (n_fds n) in
          put_ext (Net (<[fd := c]> (n_fds n)) calls stop (n_closed n)) ;;; ret (fd, Some (cl_sa c))
      end
  end.

(** [close]. *)
Definition sys_close (fd : Z) : M net Z :=
  let* n := get_ext in
  match n_fds n !! fd with
  | None => set_errno EBADF ;;; ret (-1)
  | Some c => put_ext (Net (delete fd (n_fds n)) (n_calls n) (n_shutdown n) (cl_conn c :: n_closed n)) ;;; ret 0
  end.

(** [select] on one file with a timeout: a file that is not open is an error. *)
Definition is_af_unix_keeper (fd : Z) : M net bool :=
  let* read_fds := lift (FD_SET fd ∅) in
  let* n := get_ext in
  match n_fds n !! fd with
  | None => set_errno EBADF ;;; ret false
  | Some c => lift (FD_ISSET fd (if cl_sends c then read_fds else ∅))
  end.

(** [USE_LOCKING] is not defined. *)
Definition AcquireLock : M net Z := ret 0.
Definition ReleaseLock : M net Z := ret 0.

(** ** The list of web servers *)

Section accept.
(** The address a text stands for, or [INADDR_NONE]. *)
Variable inet_addr : list byte -> Z.

Definition str_dup (str : list byte) : M net (option (list byte)) :=
  let* s := lift (cstr str) in
  let* sdup := malloc (Z.of_nat (length s) + 1) in
  match sdup with
  | None => ret None
  | Some blk => let* blk := lift (mem_write blk 0 (s ++ [NUL])) in ret (Some blk)
  end.

(** [strchr] for a comma: what is before it, and behind it. *)
Fixpoint cut_comma (s : list byte) : list byte * option (list byte) :=
  match s with
  | [] => ([], None)
  | b :: s =>
      if Byte.eqb b ","%byte then ([], Some s)
      else let '(cur, next) := cut_comma s in (b :: cur, next)
  end.

Fixpoint addr_loop (fuel : nat) (cur : list byte) (addr : Z) : outcome bool :=
  match fuel with
  | O => Undef Diverges
  | S fuel =>
      let '(cur, next) := cut_comma cur in
      if inet_addr cur =? addr then Ret true
      else match next with None => Ret false | Some next => addr_loop fuel next addr end
  end.

Definition ClientAddrOK (sa : sockaddr) (clientList : option (list byte)) : M net bool :=
  match clientList with
  | None => ret true
  | Some l =>
      let* first := lift (mem_read l 0 1) in
      if bool_decide (first = [NUL]) then ret true
      else
        let* copy := str_dup l in
        let* result := lift (match copy with
                             | None => Ret false
                             | Some blk =>
                                 let+ cur := cstr blk in addr_loop (S (length cur)) cur (s_addr sa)
                             end) in
        (match copy with Some _ => free | None => ret tt end) ;;;
        ret result
  end.

(** ** The loops *)

Section loops.
Context (fail_on_intr : bool) (webServerAddrs : option (list byte)).

(** [do ... while]: with the last descriptor, and the address that is in [sa]. *)
Fixpoint accept_retry (fuel : nat) (socket : Z) (sa : option sockaddr) : M net (Z * option sockaddr) :=
  match fuel with
  | O => undef Diverges
  | S fuel =>
      let* n := get_ext in
      if n_shutdown n then ret (socket, sa)
      else
        let* '(socket, from) := sys_accept in
        let sa := match from with Some a => Some a | None => sa end in
        let* errno := get_errno in
        let* n := get_ext in
        if (socket <? 0) && (errno =? EINTR) && negb fail_on_intr && negb (n_shutdown n)
        then accept_retry fuel socket sa else ret (socket, sa)
  end.

(** The rest of a turn of the loop inside the lock: [None] for [return -1]. *)
Definition client_turn (again : Z -> option sockaddr -> M net (option (Z * sockaddr)))
    (socket : Z) (sa : option sockaddr) : M net (option (Z * sockaddr)) :=
  if socket <? 0 then
    let* errno := get_errno in
    let* n := get_ext in
    if n_shutdown n || negb (is_reasonable_accept_errno errno) then
      let* _ := ReleaseLock in
      (if negb (n_shutdown n) then set_errno errno else ret tt) ;;; ret None
    else set_errno 0 ;;; again socket sa
  else
    match sa with
    | None => undef Uninitialised
    | Some a =>
        if negb (sin_family a =? AF_INET) then ret (Some (socket, a))
        else
          let* ok := ClientAddrOK a webServerAddrs in
          if ok : bool then ret (Some (socket, a))
          else let* _ := sys_close socket in again socket sa
    end.

Fixpoint accept_client (fuel : nat) (socket : Z) (sa : option sockaddr) : M net (option (Z * sockaddr)) :=
  match fuel with
  | O => undef Diverges
  | S fuel => let* '(socket, sa) := accept_retry fuel socket sa in client_turn (accept_client fuel) socket sa
  end.

(** The rest of a turn of the outer loop. *)
Definition lock_turn (again : Z -> option sockaddr -> M net Z) (r : option (Z * sockaddr)) : M net Z :=
  match r with
  | None => ret (-1)
  | Some (socket, a) =>
      let* rc := ReleaseLock in
      if negb (rc =? 0) then ret (-1)
      else if negb (sin_family a =? AF_UNIX) then ret socket
      else
        let* keep := is_af_unix_keeper socket in
        if keep : bool then ret socket
        else let* _ := sys_close socket in again socket (Some a)
  end.

Fixpoint accept_lock (fuel : nat) (socket : Z) (sa : option sockaddr) : M net Z :=
  match fuel with
  | O => undef Diverges
  | S fuel =>
      let* rc := AcquireLock in
      if negb (rc =? 0) then ret (-1)
      else let* r := accept_client fuel socket sa in lock_turn (accept_lock fuel) r
  end.

(** The listening socket is the one whose answers the state holds. *)
Definition OS_Accept (fuel : nat) : M net Z := accept_lock fuel (-1) None.
End loops.
End accept.

(** ** Examples *)

Definition t_inet_addr (s : list byte) : Z :=
  if bool_decide (s = lit "10.0.0.1") then 16777226
  else if bool_decide (s = lit "10.0.0.2") then 33554442 else 4294967295.

Definition t_list : option (list byte) := Some (lit "10.0.0.1,10.0.0.2" ++ [NUL]).
Definition t_client (family addr : Z) (sends : bool) (s : list byte) : client :=
  Client (SockAddr family addr) sends (Conn [inr s] [] []).
Definition t_net (calls : list (bool * (Z + client))) : net := Net ∅ calls false [].

Definition t_accepted (calls : list (bool * (Z + client))) : option (Z * list (Z * connection)) :=
  match OS_Accept t_inet_addr false t_list 10 (world0 (t_net calls)) with
  | Ret (fd, w) => Some (fd, map_to_list (cl_conn <$> n_fds (w_ext w)))
  | Undef _ => None
  end.

Example accept_some :
  t_accepted [(false, inl EINTR); (false, inl ECONNRESET); (false, inr (t_client AF_INET 5 true []));
              (false, inr (t_client AF_UNIX 0 false [])); (false, inr (t_client AF_INET 33554442 true (lit "x")))] =
  Some (0, [(0, Conn [inr (lit "x")] [] [])]).
Proof. vm_compute. reflexivity. Qed.

Example accept_interrupted : t_accepted [(true, inl EINTR)] = Some (-1, []).
Proof. vm_compute. reflexivity. Qed.

(** ** Descriptors *)

Lemma first_free_spec fuel : forall fds k,
  fds !! first_free fuel fds k = None \/
  first_free fuel fds k = k + Z.of_nat fuel /\ forall i, k <= i < k + Z.of_nat fuel -> is_Some (fds !! i).
Proof.
  induction fuel as [|fuel IH]; intros fds k; cbn [first_free].
  - right. split; [lia|]. intros i Hi. lia.
  - destruct (fds !! k) eqn:E; [|by left].
    destruct (IH fds (k + 1)) as [H|[-> H]]; [by left|right]. split; [lia|].
    intros i Hi. destruct (decide (i = k)) as [->|]; [by rewrite E|]. apply H. lia.
Qed.

(** A map that has the numbers below [n] has as many entries. *)
Lemma size_range {A} (m : gmap Z A) (n : nat) :
  (forall i, 0 <= i < Z.of_nat n -> is_Some (m !! i)) -> (n <= size m)%nat.
Proof.
  intros H. rewrite <- size_dom.
  assert (Hn : size (list_to_set (seqZ 0 (Z.of_nat n)) : gset Z) = n).
  { rewrite size_list_to_set by apply NoDup_seqZ. rewrite length_seqZ. lia. }
  rewrite <- Hn at 1. apply subseteq_size. intros i Hi.
  apply elem_of_list_to_set, elem_of_seqZ in Hi. apply elem_of_dom, H. lia.
Qed.

(** The lowest unused number is unused: not all of as many numbers as there are files and one
    more can be in use. *)
Lemma lowest_unused_free fds : fds !! lowest_unused fds = None.
Proof.
  unfold lowest_unused. destruct (first_free_spec (size fds) fds 0) as [H|[-> H]]; [done|].
  destruct (fds !! (0 + Z.of_nat (size fds))) eqn:E; [|done]. exfalso.
  assert (S (size fds) <= size fds)%nat; [|lia]. apply size_range. intros i Hi.
  destruct (decide (i = Z.of_nat (size fds))) as [->|]; [by rewrite Z.add_0_l in E; rewrite E|].
  apply H. lia.
Qed.

Lemma first_free_ge fuel : forall fds k, k <= first_free fuel fds k.
Proof.
  induction fuel as [|fuel IH]; intros fds k; cbn [first_free]; [lia|].
  destruct (fds !! k); [|lia]. pose proof (IH fds (k + 1)). lia.
Qed.

Lemma lowest_unused_nonneg fds : 0 <= lowest_unused fds.
Proof. apply first_free_ge. Qed.

(** ** The list of web servers *)

(** A list without commas in its items, as text. *)
Fixpoint items (s cur : list byte) : list (list byte) :=
  match s with
  | [] => [cur]
  | b :: s => if Byte.eqb b ","%byte then cur :: items s [] else items s (cur ++ [b])
  end.

(** The addresses a list allows: all when it is missing or empty. *)
Definition allowed (inet_addr : list byte -> Z) (addr : Z) (l : option (list byte)) : bool :=
  match l with
  | None | Some [] => true
  | Some s => existsb (fun t => inet_addr t =? addr) (items s [])
  end.

Section lists.
Variable inet_addr : list byte -> Z.

Lemma items_cut s : forall cur, items s cur =
  match cut_comma s with
  | (a, None) => [cur ++ a]
  | (a, Some next) => (cur ++ a) :: items next []
  end.
Proof.
  induction s as [|b s IH]; intros cur; cbn [items cut_comma]; [by rewrite app_nil_r|].
  destruct (Byte.eqb b ","%byte); [by rewrite app_nil_r|]. rewrite IH.
  destruct (cut_comma s) as [a [next|]]; by rewrite <- app_assoc.
Qed.

Lemma cut_comma_length s a next : cut_comma s = (a, Some next) -> (length next < length s)%nat.
Proof.
  revert a. induction s as [|b s IH]; intros a; cbn [cut_comma]; [done|].
  destruct (Byte.eqb b ","%byte); [intros [= <- <-]; simpl; lia|].
  destruct (cut_comma s) as [a' next']. intros [= <- ->]. specialize (IH a' eq_refl). simpl. lia.
Qed.

(** One turn for every item is enough. *)
Lemma addr_loop_spec fuel : forall cur addr, (length cur < fuel)%nat ->
  addr_loop inet_addr fuel cur addr = Ret (existsb (fun t => inet_addr t =? addr) (items cur [])).
Proof.
  induction fuel as [|fuel IH]; intros cur addr L; [lia|]. cbn [addr_loop].
  rewrite items_cut. destruct (cut_comma cur) as [a [next|]] eqn:E; cbn [existsb app].
  - apply cut_comma_length in E. destruct (inet_addr a =? addr); [done|]. cbn [orb]. apply IH. lia.
  - by destruct (inet_addr a =? addr).
Qed.

(** What the list is in memory. *)
Definition addrs_block (l : option (list byte)) (blk : option (list byte)) : Prop :=
  match l, blk with
  | None, None => True
  | Some s, Some b => cstring s /\ Z.of_nat (length s) + 1 <= PTRDIFF_MAX /\ exists rest, b = s ++ NUL :: rest
  | _, _ => False
  end.

(** Without a failing allocation a client passes when its address is allowed, and the copy of the
    list is freed. *)
Lemma wp_ClientAddrOK sa l blk (w : world net) (Q : bool -> world net -> Prop) :
  mem_ok w -> addrs_block l blk ->
  (forall w', frame 0 w w' -> w_errno w' = w_errno w -> Q (allowed inet_addr (s_addr sa) l) w') ->
  wp (ClientAddrOK inet_addr sa blk) w Q.
Proof.
  intros Hm Hb HQ. destruct l as [s|], blk as [b|]; try done; [|by apply HQ; [apply frame_refl|]].
  destruct Hb as (Hs & Hl & rest & ->). unfold ClientAddrOK. wp_step.
  destruct s as [|c s]; [wp_step; apply HQ; [apply frame_refl|done]|].
  wp_step. change (take (Z.to_nat 1) _) with [c].
  assert (Hc : c <> NUL) by (intros ->; apply Hs; left).
  rewrite bool_decide_eq_false_2 by congruence.
  wp_step. unfold str_dup. rewrite cstr_app by done. wp_step. wp_step. wp_step.
  apply wp_malloc; [lia| |intros w1 N; by destruct N].
  intros blk w1 L1 _ F1 E1. wp_step. wp_step. wp_step. wp_step.
  change (take (Z.to_nat 0) blk) with (@nil byte). cbn [app Z.to_nat].
  replace (c :: (s ++ [NUL]) ++ _) with ((c :: s) ++ NUL :: drop (Z.to_nat 0 + length (c :: s ++ [NUL])) blk)
    by by rewrite <- app_assoc.
  rewrite cstr_app by done. cbn [obind]. rewrite addr_loop_spec by lia. wp_step. wp_step. wp_step.
  apply HQ; [solve_frame|congruence].
Qed.
End lists.

(** ** The one loop of FcgiStream stands for the three *)

(** What an answer is to the requests above. *)
Definition answer_of (inet_addr : list byte -> Z) (l : option (list byte)) (r : Z + client) : accept_answer :=
  match r with
  | inl e => AcceptFails e
  | inr c =>
      if (sin_family (cl_sa c) =? AF_INET) && negb (allowed inet_addr (s_addr (cl_sa c)) l) then AcceptStranger
      else if (sin_family (cl_sa c) =? AF_UNIX) && negb (cl_sends c) then AcceptSilent
      else AcceptConn (cl_conn c)
  end.

(** A signal does not arrive. *)
Definition undisturbed (calls : list (bool * (Z + client))) : Prop := Forall (fun c => fst c = false) calls.

(** A client that was just accepted is closed, or waited for. *)
Lemma sys_close_new al jk lv er fds k c calls sd cl : fds !! k = None ->
  sys_close k (World al jk lv er (Net (<[k := c]> fds) calls sd cl)) =
    Ret (0, World al jk lv er (Net fds calls sd (cl_conn c :: cl))).
Proof.
  intros H. unfold sys_close, bind. cbn. rewrite lookup_insert_eq. cbn.
  by rewrite delete_insert_id.
Qed.

Lemma keeper_spec fd (w : world net) c : n_fds (w_ext w) !! fd = Some c -> 0 <= fd < FD_SETSIZE ->
  is_af_unix_keeper fd w = Ret (cl_sends c, w).
Proof.
  intros H [H1 H2]. unfold is_af_unix_keeper, FD_SET, FD_ISSET, bind, get_ext.
  rewrite (proj2 (Z.leb_le _ _) H1), (proj2 (Z.ltb_lt _ _) H2). cbn. rewrite H. unfold lift.
  destruct (cl_sends c); [|done]. by rewrite bool_decide_eq_true_2 by set_solver.
Qed.

#[local] Arguments sys_close : simpl never.
#[local] Arguments is_af_unix_keeper : simpl never.

Section simulation.
Context (inet_addr : list byte -> Z) (l blk : option (list byte)) (fail_on_intr : bool).
Hypothesis Hblk : addrs_block l blk.

Record agrees (wa : world os) (wn : world net) : Prop := {
  ag_fds : os_fds (w_ext wa) = cl_conn <$> n_fds (w_ext wn);
  ag_queue : os_queue (w_ext wa) = map (fun c => answer_of inet_addr l (snd c)) (n_calls (w_ext wn));
  ag_shutdown : shutdownPending (w_ext wa) = n_shutdown (w_ext wn);
  ag_errno : w_errno wa = w_errno wn;
  ag_live : w_live wa = w_live wn;
  ag_mem : mem_ok wn;
}.

(** The same result in worlds that agree, or both runs wait for a client forever. *)
Definition corresponds (ra : outcome (Z * world os)) (rn : outcome (Z * world net)) : Prop :=
  match ra, rn with
  | Ret (a, wa), Ret (b, wn) => a = b /\ agrees wa wn
  | Undef u, Undef v => u = Diverges /\ v = Diverges
  | _, _ => False
  end.

#[local] Abbreviation retry := (accept_retry fail_on_intr).
#[local] Abbreviation client_loop := (accept_client inet_addr fail_on_intr blk).
#[local] Abbreviation lock_loop := (accept_lock inet_addr fail_on_intr blk).

(** What the loops have left to do from the innermost one. *)
Definition rest_of_loops (f1 f2 f3 : nat) (socket : Z) (sa : option sockaddr) : M net Z :=
  let* r := (let* '(socket, sa) := retry f1 socket sa in client_turn inet_addr blk (client_loop f2) socket sa) in
  lock_turn (lock_loop f3) r.

Lemma lock_loop_unfold f socket sa w :
  lock_loop (S (S f)) socket sa w = rest_of_loops f f (S f) socket sa w.
Proof. reflexivity. Qed.

Lemma client_loop_unfold f f3 socket sa w :
  bind (client_loop (S f) socket sa) (lock_turn (lock_loop f3)) w = rest_of_loops f f f3 socket sa w.
Proof. reflexivity. Qed.

(** The check of the address changes nothing that matters. *)
Lemma ClientAddrOK_run sa (w : world net) : mem_ok w -> exists w',
  ClientAddrOK inet_addr sa blk w = Ret (allowed inet_addr (s_addr sa) l, w') /\
  w_ext w' = w_ext w /\ w_live w' = w_live w /\ w_errno w' = w_errno w /\ mem_ok w'.
Proof.
  intros Hm. pose proof (wp_ClientAddrOK inet_addr sa l blk w (fun a w' => a = allowed inet_addr (s_addr sa) l /\
    frame 0 w w' /\ w_errno w' = w_errno w) Hm Hblk) as H.
  apply wp_run in H as (a & w' & E & -> & (F1 & F2 & F3) & Er); [|by auto].
  exists w'. rewrite Z.add_0_r in F2. repeat (split; [done|]). by apply F3.
Qed.

Lemma loops_simulate calls : forall f1 f2 f3 socket sa wa wn,
  agrees wa wn -> n_calls (w_ext wn) = calls -> undisturbed calls -> n_shutdown (w_ext wn) = false ->
  os_next_fd (w_ext wa) = lowest_unused (n_fds (w_ext wn)) -> lowest_unused (n_fds (w_ext wn)) < FD_SETSIZE ->
  (length calls < f1)%nat -> (length calls < f2)%nat -> (S (length calls) < f3)%nat ->
  corresponds (accept_loop fail_on_intr (map (fun c => answer_of inet_addr l (snd c)) calls) wa)
    (rest_of_loops f1 f2 f3 socket sa wn).
Proof.
  induction calls as [|[sig r] calls IH];
    intros [|f1] f2 f3 socket sa [ala jka lva era [fda qa nxa sda cla]] [al jk lv er [fd cs sd cl]]
      [Efd Eq Esd Eer Elv Hm] Ec Hs Hsd Hnx Hlim L1 L2 L3; cbn in Efd, Eq, Esd, Eer, Elv, Ec, Hsd, Hnx, Hlim, L1, L2, L3; subst; try lia.
  { done. }
  inversion_clear Hs as [|? ? Hsig Hs']. cbn in Hsig. subst sig.
  destruct r as [e|c].
  - unfold rest_of_loops, bind. cbn. destruct (_ && negb fail_on_intr) eqn:Ei; cbn.
    + apply (IH f1 f2 f3); try done; lia.
    + unfold client_turn. cbn. unfold bind. cbn. destruct (is_reasonable_accept_errno e); cbn; [|done].
      destruct f2 as [|f2]; [lia|]. apply (IH f2 f2 f3); try done; lia.
  - unfold rest_of_loops, bind. cbn.
    pose proof (proj2 (Z.ltb_ge _ _) (lowest_unused_nonneg fd)) as Hneg. rewrite Hneg. cbn.
    unfold client_turn. rewrite Hneg. cbn.
    pose proof (lowest_unused_free fd) as Hfree. pose proof (lowest_unused_nonneg fd) as Hpos.
    destruct (Z.eqb_spec (sin_family (cl_sa c)) AF_INET) as [Ef|Nf]; cbn.
    + rewrite Ef. cbn. unfold bind.
      match goal with |- context [ClientAddrOK _ _ _ ?w] => destruct (ClientAddrOK_run (cl_sa c) w Hm) as
        ([al' jk' lv' er' x'] & -> & E1 & E2 & E3 & E4) end. cbn in E1, E2, E3. subst.
      destruct (allowed _ _ l); cbn.
      * rewrite Ef. cbn. split; [done|]. split; try done. cbn. by rewrite fmap_insert.
      * rewrite sys_close_new by done. destruct f2 as [|f2]; [lia|]. apply (IH f2 f2 f3); try done; lia.
    + destruct (Z.eqb_spec (sin_family (cl_sa c)) AF_UNIX) as [Eu|Nu]; cbn; rewrite ?Eu.
      * unfold bind. erewrite keeper_spec; [|apply lookup_insert_eq|lia].
        destruct (cl_sends c); cbn.
        -- split; [done|]. split; try done. cbn. by rewrite fmap_insert.
        -- rewrite sys_close_new by done. destruct f3 as [|[|f3]]; [lia..|]. apply (IH f3 f3 (S f3)); try done; lia.
      * split; [done|]. split; try done. cbn. by rewrite fmap_insert.
Qed.

(** ** A signal behind a refused client *)

(** The descriptor of a client that was closed. *)
Definition stale (socket : Z) (w : world net) : Prop :=
  n_shutdown (w_ext w) = true /\ n_fds (w_ext w) !! socket = None /\ 0 <= socket < FD_SETSIZE /\ mem_ok w.

Lemma sys_close_stale socket w : stale socket w -> exists w', sys_close socket w = Ret (-1, w') /\ stale socket w'.
Proof.
  intros (H1 & H2 & H3 & H4). unfold sys_close, bind, get_ext. rewrite H2. cbn.
  eexists. split; [reflexivity|]. exact (conj H1 (conj H2 (conj H3 H4))).
Qed.

Lemma retry_stale f socket sa w : stale socket w -> retry (S f) socket sa w = Ret ((socket, sa), w).
Proof. intros (H1 & _). cbn. unfold bind, get_ext. by rewrite H1. Qed.

(** The loop inside the lock does not end: the address is refused again and again. *)
Lemma client_loop_stale sa fuel : forall socket w, stale socket w -> sin_family sa = AF_INET ->
  allowed inet_addr (s_addr sa) l = false -> client_loop fuel socket (Some sa) w = Undef Diverges.
Proof.
  induction fuel as [|fuel IH]; intros socket w H Ef Na; [done|]. cbn [accept_client]. unfold bind.
  destruct fuel as [|fuel]; [done|]. rewrite retry_stale by done.
  pose proof H as (H1 & H2 & H3 & Hm). unfold client_turn.
  rewrite (proj2 (Z.ltb_ge _ _)) by lia. rewrite Ef. cbn [negb Z.eqb AF_INET Pos.eqb]. unfold bind.
  destruct (ClientAddrOK_run sa w Hm) as (w1 & -> & E1 & E2 & E3 & E4). rewrite Na.
  assert (S1 : stale socket w1) by (unfold stale; by rewrite E1).
  destruct (sys_close_stale _ _ S1) as (w2 & -> & S2). by apply IH.
Qed.

(** Nor does the outer loop: [select] does not find the closed file. *)
Lemma lock_loop_stale sa fuel : forall socket w, stale socket w -> sin_family sa = AF_UNIX ->
  lock_loop fuel socket (Some sa) w = Undef Diverges.
Proof.
  induction fuel as [|fuel IH]; intros socket w H Ef; [done|]. cbn. unfold bind.
  destruct fuel as [|[|fuel]]; [done..|]. cbn [accept_client]. unfold bind at 1. rewrite retry_stale by done.
  pose proof H as (H1 & H2 & H3 & Hm). unfold client_turn, lock_turn.
  rewrite (proj2 (Z.ltb_ge _ _)) by lia. rewrite Ef. cbn -[accept_lock]. unfold bind. rewrite Ef. cbn -[accept_lock].
  unfold is_af_unix_keeper, FD_SET, bind, get_ext, lift.
  rewrite (proj2 (Z.leb_le _ _)), (proj2 (Z.ltb_lt _ _)) by lia. cbn -[accept_lock]. rewrite H2. cbn -[accept_lock].
  match goal with |- context [sys_close _ ?w1] => assert (S1 : stale socket w1) by done end.
  destruct (sys_close_stale _ _ S1) as (w2 & -> & S2). by apply IH.
Qed.
End simulation.

(** ** Properties *)

(** The system as FcgiStream has it. *)
Definition as_os (inet_addr : list byte -> Z) (l : option (list byte)) (closed : list connection)
    (w : world net) : world os :=
  World (w_alloc w) (w_junk w) (w_live w) (w_errno w)
    (Os (cl_conn <$> n_fds (w_ext w)) (map (fun c => answer_of inet_addr l (snd c)) (n_calls (w_ext w)))
       (lowest_unused (n_fds (w_ext w))) (n_shutdown (w_ext w)) closed).

(** C24 (refinement): without signals, and with a turn for every answer and three more, the three
    loops accept the client the one loop of FcgiStream accepts, or fail as it does, or wait as it
    does; a client is passed over when its address is not in the list or it is a local one that
    sends nothing, and then its file is closed again; the allocated blocks are as many as before. *)
Theorem OS_Accept_refines inet_addr fail_on_intr l blk closed fuel w :
  addrs_block l blk -> mem_ok w -> undisturbed (n_calls (w_ext w)) ->
  lowest_unused (n_fds (w_ext w)) < FD_SETSIZE -> (length (n_calls (w_ext w)) + 3 <= fuel)%nat ->
  corresponds inet_addr l (FcgiStream.OS_Accept fail_on_intr (as_os inet_addr l closed w))
    (OS_Accept inet_addr fail_on_intr blk fuel w).
Proof.
  intros Hb Hm Hu Hlim Hf. destruct fuel as [|[|fuel]]; [lia..|].
  unfold OS_Accept. rewrite lock_loop_unfold.
  unfold FcgiStream.OS_Accept, bind at 1, get_ext at 1. cbn [os_queue w_ext as_os].
  destruct (n_shutdown (w_ext w)) eqn:Hs.
  - destruct fuel as [|fuel]; [lia|].
    assert (R : rest_of_loops inet_addr blk fail_on_intr (S fuel) (S fuel) (S (S fuel)) (-1) None w = Ret (-1, w)).
    { unfold rest_of_loops, bind. cbn [accept_retry]. unfold bind at 1, get_ext at 1. rewrite Hs.
      unfold client_turn. cbn. unfold bind, get_ext, get_errno. by rewrite Hs. }
    rewrite R. destruct (map _ _); cbn; unfold bind, get_ext, as_os; cbn; rewrite Hs; done.
  - apply (loops_simulate inet_addr l blk fail_on_intr Hb _ _ _ _ _ _ _ _ (Build_agrees _ _ (as_os inet_addr l closed w) w
      eq_refl eq_refl eq_refl eq_refl eq_refl Hm) eq_refl Hu Hs eq_refl Hlim); lia.
Qed.

(** C32 (safety): when the signal to end arrives while a client is accepted that is then refused,
    the loops run forever: the descriptor of the closed client is taken for a new one in every
    further turn, whatever number of turns they are given. *)
Theorem signal_after_refusal_hangs inet_addr fail_on_intr l blk c calls w fuel :
  addrs_block l blk -> mem_ok w -> n_calls (w_ext w) = (true, inr c) :: calls -> n_shutdown (w_ext w) = false ->
  lowest_unused (n_fds (w_ext w)) < FD_SETSIZE ->
  answer_of inet_addr l (inr c) = AcceptStranger \/ answer_of inet_addr l (inr c) = AcceptSilent ->
  OS_Accept inet_addr fail_on_intr blk fuel w = Undef Diverges.
Proof.
  intros Hb Hm Hc Hs Hlim Ha. destruct fuel as [|[|fuel]]; [done..|].
  unfold OS_Accept. rewrite lock_loop_unfold. destruct fuel as [|fuel]; [done|].
  generalize (S (S fuel)) as f3. intros f3. generalize (S fuel) at 2 as f2. intros f2.
  destruct w as [al jk lv er [fd cs sd cl]]. cbn in Hc, Hs, Hlim. subst.
  pose proof (lowest_unused_free fd) as Hfree. pose proof (lowest_unused_nonneg fd) as Hpos.
  unfold rest_of_loops, bind. cbn. pose proof (proj2 (Z.ltb_ge _ _) Hpos) as Hneg. rewrite Hneg. cbn.
  unfold client_turn. rewrite Hneg. cbn in Ha.
  destruct (Z.eqb_spec (sin_family (cl_sa c)) AF_INET) as [Ef|Nf]; cbn in Ha |- *.
  - unfold bind. match goal with |- context [ClientAddrOK _ _ _ ?w] =>
      destruct (ClientAddrOK_run inet_addr l blk Hb (cl_sa c) w Hm) as
        ([al' jk' lv' er' x'] & -> & E1 & E2 & E3 & E4) end. cbn in E1, E2, E3. subst.
    rewrite Ef in Ha. destruct (allowed _ _ l) eqn:Al; [cbn in Ha; naive_solver|].
    rewrite sys_close_new by done.
    match goal with |- context [accept_client _ _ _ _ ?k _ ?w] => assert (S1 : stale k w) by done end.
    by rewrite (client_loop_stale inet_addr l blk fail_on_intr Hb).
  - destruct (Z.eqb_spec (sin_family (cl_sa c)) AF_UNIX) as [Eu|Nu]; cbn in Ha |- *; [|naive_solver].
    unfold bind. rewrite (keeper_spec _ _ c); [|apply (lookup_insert_eq fd)|done].
    destruct (cl_sends c); cbn in Ha |- *; [naive_solver|].
    rewrite sys_close_new by done.
    match goal with |- context [accept_lock _ _ _ _ ?k _ ?w] => assert (S1 : stale k w) by done end.
    by apply (lock_loop_stale inet_addr blk fail_on_intr).
Qed.

(** *** Witnesses *)

Definition t_calls : list (bool * (Z + client)) :=
  [(false, inl EINTR); (false, inr (t_client AF_INET 5 true [])); (false, inr (t_client AF_UNIX 0 false []));
   (false, inr (t_client AF_INET 33554442 true (lit "x")))].

Lemma t_list_block : addrs_block (Some (lit "10.0.0.1,10.0.0.2")) t_list.
Proof. split; [vm_compute; set_solver|]. split; [vm_compute; discriminate|]. by exists []. Qed.

Lemma OS_Accept_refines_witness :
  corresponds t_inet_addr (Some (lit "10.0.0.1,10.0.0.2"))
    (FcgiStream.OS_Accept false (as_os t_inet_addr (Some (lit "10.0.0.1,10.0.0.2")) [] (world0 (t_net t_calls))))
    (OS_Accept t_inet_addr false t_list 10 (world0 (t_net t_calls))).
Proof.
  apply (OS_Accept_refines t_inet_addr false (Some (lit "10.0.0.1,10.0.0.2")) t_list [] 10).
  - exact t_list_block.
  - reflexivity.
  - repeat constructor.
  - vm_compute. reflexivity.
  - vm_compute. lia.
Defined.

Lemma signal_after_refusal_hangs_witness :
  OS_Accept t_inet_addr false t_list 50 (world0 (t_net [(true, inr (t_client AF_INET 5 true []))])) = Undef Diverges.
Proof.
  apply (signal_after_refusal_hangs t_inet_addr false (Some (lit "10.0.0.1,10.0.0.2")) t_list
    (t_client AF_INET 5 true []) []).
  - exact t_list_block.
  - reflexivity.
  - reflexivity.
  - reflexivity.
  - vm_compute. reflexivity.
  - left. vm_compute. reflexivity.
Defined.
