(* ===== verification/FcgiSockets.v ===== *)
(** * Listening, connecting and starting processes (loungeact_fastcgi/os_unix.c)

    The calls that make the socket of a server, connect to one, and start one.  The system
    answers every call as any function of the calls before it; what is kept is the sequence of
    calls with their results. *)

From S2P Require Import Prelude CFormat FcgiFormat FcgiStream AsyncIo FcgiAccept.
From Stdlib Require Import Init.Byte.

#[local] Open Scope c_scope.

(** ** Addresses *)

(** [sun_path] has its size on the system. *)
Record sockaddr_un := SockAddrUn {
  sun_len : Z;
  sun_family : Z;
  sun_path : list byte;
}.

(** What [bind] and [connect] are given: a local address with its length, or a host and a port. *)
Inductive sock_address :=
| UnixAddr (un : sockaddr_un) (servLen : Z)
| InetAddr (s_addr sin_port : Z).

(** Results are negative for failures, as the negated error. *)
Inductive syscall :=
| Socket (family : Z)
| ReuseAddr (fd : Z)
| Unlink (path : list byte)
| Bind (fd : Z) (a : sock_address)
| Listen (fd backlog : Z)
| Connect (fd : Z) (a : sock_address)
| CloseFd (fd : Z)
| GetPeerName (fd : Z)
| GetFlags (fd : Z)
| SetFlags (fd fl : Z).

Abbreviation history := (list (syscall * Z)).

Definition MAXPATHLEN : Z := 1024.
Definition INADDR_ANY : Z := 0.
Definition INADDR_NONE : Z := 4294967295.
Definition ENOTCONN : Z := 107.

(** [atoi]: blanks, a sign and digits; a number no [int] can hold is undefined. *)
Definition atoi (s : list byte) : outcome Z :=
  let n := match skip_space s with
           | "-"%byte :: s => - scan_digits s 0
           | "+"%byte :: s => scan_digits s 0
           | s => scan_digits s 0
           end in
  if (- 2 ^ 31 <=? n) && (n <=? INT_MAX) then Ret n else Undef SignedOverflow.

Section sockets.
(** The size of [sun_path]; the answers of the system and of the resolver: an address for a
    number in dots, or the type and the addresses of a name. *)
Variable sizeof_sun_path : Z.
Variable kernel : history -> syscall -> Z.
Variable inet_addr : list byte -> Z.
Variable gethostbyname : list byte -> option (Z * list Z).

Definition sys (c : syscall) : M history Z :=
  let* h := get_ext in
  let r := kernel h c in
  put_ext (h ++ [(c, r)]) ;;;
  if r <? 0 then set_errno (- r) ;;; ret (-1) else ret r.

(** The variant with [sun_len]: the path has a terminator behind it. *)
Definition OS_BuildSockAddrUn (bindPath : list byte) : option (sockaddr_un * Z) :=
  let bindPathLen := Z.of_nat (length bindPath) in
  if sizeof_sun_path <=? bindPathLen then None
  else
    let servAddrLen := 1 + 1 + bindPathLen + 1 in
    let rest := replicate (Z.to_nat sizeof_sun_path - length bindPath) NUL in
    Some (SockAddrUn (u8 servAddrLen) AF_UNIX (bindPath ++ rest), servAddrLen).

(** [strchr] for a colon. *)
Fixpoint cut_colon (s : list byte) : option (list byte * list byte) :=
  match s with
  | [] => None
  | b :: s =>
      if Byte.eqb b ":"%byte then Some ([], s)
      else match cut_colon s with Some (host, tp) => Some (b :: host, tp) | None => None end
  end.

(** [bindPath] is copied to [host]; with a port that is not zero it is cut at the colon. *)
Definition parse_bind_path (bindPath : list byte) : outcome (option (list byte * Z)) :=
  if MAXPATHLEN <? Z.of_nat (length bindPath) + 1 then Undef OutOfBounds
  else
    match cut_colon bindPath with
    | None => Ret None
    | Some (host, tp) =>
        let+ n := atoi tp in
        let port := s16 n in
        Ret (if port =? 0 then None else Some (host, port))
    end.

(** The address to listen on, or the end of the program. *)
Definition listen_address (host : list byte) : outcome Z :=
  if bool_decide (host = []) || bool_decide (host = lit "*") then Ret INADDR_ANY
  else
    let tcp_ia := inet_addr host in
    if negb (tcp_ia =? INADDR_NONE) then Ret tcp_ia
    else
      match gethostbyname host with
      | Some (h_addrtype, a :: rest) =>
          if negb (h_addrtype =? AF_INET) then Undef Exits
          else match rest with [] => Ret a | _ => Undef Exits end
      | _ => Undef Exits
      end.

(** [bind] and [listen], or the end of the program. *)
Definition bind_and_listen (listenSock : Z) (sa : sock_address) (backlog : Z) : M history Z :=
  let* rc := sys (Bind listenSock sa) in
  if rc <? 0 then undef Exits
  else
    let* rc := sys (Listen listenSock backlog) in
    if rc <? 0 then undef Exits else ret listenSock.

Definition OS_CreateLocalIpcFd (bindPath : list byte) (backlog : Z) : M history Z :=
  let* where_to := lift (parse_bind_path bindPath) in
  match where_to with
  | Some (host, port) =>
      let* tcp_ia := lift (listen_address host) in
      let* listenSock := sys (Socket AF_INET) in
      if listenSock <? 0 then ret (-1)
      else
        let* rc := sys (ReuseAddr listenSock) in
        if rc <? 0 then undef Exits
        else bind_and_listen listenSock (InetAddr tcp_ia (u16 port)) backlog
  | None =>
      let* listenSock := sys (Socket AF_UNIX) in
      if listenSock <? 0 then ret (-1)
      else
        let* _ := sys (Unlink bindPath) in
        match OS_BuildSockAddrUn bindPath with
        | None => undef Exits
        | Some (un, servLen) => bind_and_listen listenSock (UnixAddr un servLen) backlog
        end
  end.

Definition OS_FcgiConnect (bindPath : list byte) : M history Z :=
  let* where_to := lift (parse_bind_path bindPath) in
  let* '(sa, resultSock) :=
    match where_to with
    | Some (host, port) =>
        match gethostbyname (if bool_decide (host = []) then lit "localhost" else host) with
        | None => undef Exits
        | Some (_, []) => undef NullDeref
        | Some (_, a :: _) =>
            let* fd := sys (Socket AF_INET) in ret (InetAddr a (u16 port), fd)
        end
    | None =>
        match OS_BuildSockAddrUn bindPath with
        | None => undef Exits
        | Some (un, servLen) => let* fd := sys (Socket AF_UNIX) in ret (UnixAddr un servLen, fd)
        end
    end in
  lift (assert_that (0 <=? resultSock)) ;;;
  let* connectStatus := sys (Connect resultSock sa) in
  if 0 <=? connectStatus then ret resultSock
  else let* _ := sys (CloseFd resultSock) in ret (-1).

Definition OS_IsFcgi (sock : Z) : M history Z :=
  set_errno 0 ;;;
  let* rc := sys (GetPeerName sock) in
  let* errno := (fun w => Ret (w_errno w, w)) in
  ret (c_bool (negb (rc =? 0) && (errno =? ENOTCONN))).

Definition OS_SetFlags (fd fl : Z) : M history unit :=
  let* val := sys (GetFlags fd) in
  if val <? 0 then undef Exits
  else
    let* rc := sys (SetFlags fd (Z.lor val fl)) in
    if rc <? 0 then undef Exits else ret tt.
End sockets.

(** ** Starting a server *)

Definition STDIN_FILENO : Z := 0.
Definition STDOUT_FILENO : Z := 1.
Definition STDERR_FILENO : Z := 2.
Definition FCGI_LISTENSOCK_FILENO : Z := 0.

(** The files of a process, by descriptor. *)
Abbreviation files := (gmap Z Z).

Definition close_fd (fd : Z) (t : files) : files := delete fd t.

(** [dup2] of a descriptor that is not open fails. *)
Definition dup2 (fd fd2 : Z) (t : files) : files :=
  match t !! fd with Some f => <[fd2 := f]> t | None => t end.

(** What the child does to its files before it becomes the application. *)
Definition child_files (listenFd : Z) (t : files) : files :=
  let t := close_fd STDIN_FILENO t in
  let t := if negb (listenFd =? FCGI_LISTENSOCK_FILENO)
           then close_fd listenFd (dup2 listenFd FCGI_LISTENSOCK_FILENO t) else t in
  close_fd STDERR_FILENO (close_fd STDOUT_FILENO t).

(** What [fork] returns decides; [execl] returns only when it fails. *)
Definition OS_SpawnChild (forkResult : Z) (listenFd : Z) (t : files) : outcome (Z * files) :=
  if forkResult <? 0 then Undef Exits
  else if forkResult =? 0 then
    let t := child_files listenFd t in Undef Exits
  else Ret (0, t).

(** ** What addresses stand for *)

Lemma cut_colon_spec s : match cut_colon s with
  | Some (host, tp) => s = host ++ ":"%byte :: tp /\ ":"%byte ∉ host
  | None => ":"%byte ∉ s
  end.
Proof.
  induction s as [|b s IH]; cbn [cut_colon]; [set_solver|].
  destruct (byte_eqb_spec b ":"%byte) as [->|N]; [split; [done|set_solver]|].
  destruct (cut_colon s) as [[host tp]|]; [|set_solver]. destruct IH as [-> H]. split; [done|set_solver].
Qed.

Lemma u16_s16 n : u16 (s16 n) = u16 n.
Proof. unfold u16, s16. rewrite Zminus_mod, Z.mod_mod, <- Zminus_mod by lia. f_equal. lia. Qed.

Lemma s16_zero n : s16 n = 0 <-> u16 n = 0.
Proof.
  rewrite <- (u16_s16 n). pose proof (Z.mod_pos_bound (n + 2 ^ 15) (2 ^ 16)) as B.
  split; [by intros ->|]. unfold u16. intros H0.
  apply Z.div_exact in H0; [|done]. unfold s16 in *. lia.
Qed.

Lemma app_colon (a b c d : list byte) : ":"%byte ∉ a -> ":"%byte ∉ c ->
  a ++ ":"%byte :: b = c ++ ":"%byte :: d -> a = c /\ b = d.
Proof.
  revert c. induction a as [|x a IH]; intros [|y c] Ha Hc E; simplify_eq/=; [done|set_solver..|].
  destruct (IH c) as [-> ->]; set_solver.
Qed.

(** The port is kept in sixteen bits; a text whose port is zero is the name of a file. *)
Inductive names_port (s host : list byte) (port : Z) : Prop :=
| NamesPort tp n : s = host ++ ":"%byte :: tp -> ":"%byte ∉ host -> atoi tp = Ret n ->
    u16 n = port -> port <> 0 -> names_port s host port.

Lemma parse_bind_path_spec s : Z.of_nat (length s) < MAXPATHLEN ->
  match parse_bind_path s with
  | Ret (Some (host, port)) => names_port s host (u16 port)
  | Ret None => forall host port, ~ names_port s host port
  | Undef u => u = SignedOverflow /\ exists host tp, s = host ++ ":"%byte :: tp /\ atoi tp = Undef SignedOverflow
  end.
Proof.
  intros L. unfold parse_bind_path. rewrite (proj2 (Z.ltb_ge _ _)) by lia.
  pose proof (cut_colon_spec s) as C. destruct (cut_colon s) as [[host tp]|].
  - destruct C as [-> Hc]. destruct (atoi tp) as [n|u] eqn:A; cbn.
    + destruct (Z.eqb_spec (s16 n) 0) as [E|N].
      * intros h p [tp' n' E' Hc' A' <- N']. apply app_colon in E' as [<- <-]; [|done..].
        rewrite A in A'. injection A' as ->. by apply s16_zero in E.
      * eapply NamesPort; [done|done|exact A|by rewrite u16_s16|].
        rewrite u16_s16. by rewrite <- s16_zero.
    + assert (u = SignedOverflow) as ->
        by (clear -A; unfold atoi in A; destruct (_ && _); [done|]; by injection A as <-).
      split; [done|]. by exists host, tp.
  - intros h p [tp n -> _ _ _ _]. apply C. set_solver.
Qed.

Section addresses.
Variable sizeof_sun_path : Z.
Variable kernel : history -> syscall -> Z.
Variable inet_addr : list byte -> Z.
Variable gethostbyname : list byte -> option (Z * list Z).

(** The one address of a host. *)
Definition resolves (host : list byte) (a : Z) : Prop :=
  ((host = [] \/ host = lit "*") /\ a = INADDR_ANY) \/
  (inet_addr host = a /\ a <> INADDR_NONE) \/
  (inet_addr host = INADDR_NONE /\ gethostbyname host = Some (AF_INET, [a])).

Definition stands_for (s : list byte) (sa : sock_address) : Prop :=
  match sa with
  | InetAddr a port => exists host, names_port s host port /\ resolves host a
  | UnixAddr un servLen =>
      (forall host port, ~ names_port s host port) /\ sun_family un = AF_UNIX /\
      Z.of_nat (length (sun_path un)) = sizeof_sun_path /\ cstr (sun_path un) = Ret s /\
      servLen = 3 + Z.of_nat (length s) /\ sun_len un = u8 servLen
  end.

(** Without a resolved host the program ends. *)
Lemma listen_address_spec host : match listen_address inet_addr gethostbyname host with
  | Ret a => resolves host a
  | Undef u => u = Exits
  end.
Proof.
  unfold listen_address, resolves. repeat case_bool_decide; cbn; try (left; auto; fail).
  destruct (Z.eqb_spec (inet_addr host) INADDR_NONE) as [E|N]; cbn; [|auto].
  destruct (gethostbyname host) as [[ty [|a l]]|]; [done| |done].
  destruct (Z.eqb_spec ty AF_INET) as [->|]; cbn; [|done]. destruct l; [by auto|done].
Qed.

(** A call adds itself to the history. *)
Lemma sys_run c (w : world history) : exists w', sys kernel c w = Ret (Z.max (-1) (kernel (w_ext w) c), w') /\
  w_ext w' = w_ext w ++ [(c, kernel (w_ext w) c)] /\ w_live w' = w_live w.
Proof.
  unfold sys, bind, get_ext, put_ext. destruct (Z.ltb_spec (kernel (w_ext w) c) 0); eexists; cbn.
  - by rewrite Z.max_l by lia.
  - by rewrite Z.max_r by lia.
Qed.

(** Calls that succeeded, in order, and what the last ones returned. *)
Definition set_up (s : list byte) (backlog fd : Z) (calls : history) : Prop :=
  exists family prepare r sa b l,
    calls = [(Socket family, fd); (prepare, r); (Bind fd sa, b); (Listen fd backlog, l)] /\
    0 <= b /\ 0 <= l /\ stands_for s sa /\
    match sa with
    | InetAddr _ _ => family = AF_INET /\ prepare = ReuseAddr fd /\ 0 <= r
    | UnixAddr _ _ => family = AF_UNIX /\ prepare = Unlink s
    end.

(** A run of a function that may end the program. *)
Definition unless_exits {A} (o : outcome (A * world history)) (Q : A -> world history -> Prop) : Prop :=
  match o with Ret (a, w') => Q a w' | Undef u => u = Exits end.

Lemma unless_bind {A B} (m : M history A) (k : A -> M history B) w Q :
  unless_exits (m w) (fun a w' => unless_exits (k a w') Q) -> unless_exits (bind m k w) Q.
Proof. unfold unless_exits, bind. by destruct (m w) as [[a w']|u]. Qed.

Lemma unless_sys c w (Q : Z -> world history -> Prop) :
  (forall r w', w_ext w' = w_ext w ++ [(c, r)] -> w_live w' = w_live w -> Q (Z.max (-1) r) w') ->
  unless_exits (sys kernel c w) Q.
Proof. intros H. destruct (sys_run c w) as (w' & -> & E & L). by apply H. Qed.

Lemma bind_and_listen_spec fd sa backlog w (Q : Z -> world history -> Prop) :
  (forall b l w', 0 <= b -> 0 <= l -> w_live w' = w_live w ->
     w_ext w' = w_ext w ++ [(Bind fd sa, b); (Listen fd backlog, l)] -> Q fd w') ->
  unless_exits (bind_and_listen kernel fd sa backlog w) Q.
Proof.
  intros H. unfold bind_and_listen. apply unless_bind, unless_sys. intros b w1 E1 L1.
  destruct (Z.ltb_spec (Z.max (-1) b) 0); [done|].
  apply unless_bind, unless_sys. intros l w2 E2 L2. destruct (Z.ltb_spec (Z.max (-1) l) 0); [done|].
  apply (H b l); [lia|lia|congruence|]. by rewrite E2, E1, <- app_assoc.
Qed.

Lemma BuildSockAddrUn_spec s un n : cstring s -> OS_BuildSockAddrUn sizeof_sun_path s = Some (un, n) ->
  (forall host port, ~ names_port s host port) -> stands_for s (UnixAddr un n).
Proof.
  unfold OS_BuildSockAddrUn. intros Hs E Hn. destruct (Z.leb_spec sizeof_sun_path (Z.of_nat (length s))); [done|].
  simplify_eq. split; [done|]. cbn [sun_family sun_path sun_len]. split; [done|].
  split; [rewrite length_app, length_replicate; lia|]. split; [|by split; [lia|]].
  destruct (Z.to_nat sizeof_sun_path - length s)%nat eqn:K; [lia|]. by apply cstr_app.
Qed.
End addresses.

(** ** Properties *)

(** Whatever the system answers, the call returns a descriptor only when a
    socket was made, bound to the address the path stands for (a local file, or a host and a
    port modulo 65536) and listens; it returns -1 only when no socket could be made, and
    otherwise ends the program. *)
Theorem OS_CreateLocalIpcFd_listens sizeof_sun_path kernel inet_addr gethostbyname s backlog w :
  cstring s -> Z.of_nat (length s) < MAXPATHLEN ->
  (forall host tp, s = host ++ ":"%byte :: tp -> exists n, atoi tp = Ret n) ->
  unless_exits (OS_CreateLocalIpcFd sizeof_sun_path kernel inet_addr gethostbyname s backlog w) (fun fd w' =>
    exists calls, w_ext w' = w_ext w ++ calls /\ w_live w' = w_live w /\
      ((fd = -1 /\ exists family r, calls = [(Socket family, r)] /\ r < 0) \/
       (0 <= fd /\ set_up sizeof_sun_path inet_addr gethostbyname s backlog fd calls))).
Proof.
  intros Hs L Hp. unfold OS_CreateLocalIpcFd. apply unless_bind.
  pose proof (parse_bind_path_spec s L) as P.
  destruct (parse_bind_path s) as [[[host port]|]|u]; cbn [lift].
  3: { destruct P as (_ & host & tp & E & A). destruct (Hp host tp E) as [n A']. congruence. }
  - unfold unless_exits at 1. apply unless_bind. pose proof (listen_address_spec inet_addr gethostbyname host) as A.
    destruct (listen_address _ _ host) as [a|u]; [|done]. unfold lift, unless_exits at 1.
    apply unless_bind, unless_sys. intros fd w1 E1 L1. destruct (Z.ltb_spec (Z.max (-1) fd) 0).
    { cbn. exists [(Socket AF_INET, fd)]. split; [done|]. split; [done|]. left. split; [done|].
      exists AF_INET, fd. split; [done|lia]. }
    rewrite Z.max_r by lia.
    apply unless_bind, unless_sys. intros r w2 E2 L2. destruct (Z.ltb_spec (Z.max (-1) r) 0); [done|].
    apply bind_and_listen_spec. intros b l w3 Hb Hl L3 E3.
    eexists. split; [by rewrite E3, E2, E1, <- !app_assoc|]. split; [congruence|]. right. split; [lia|].
    exists AF_INET, (ReuseAddr fd), r, (InetAddr a (u16 port)), b, l. do 3 (split; [done|]).
    split; [by exists host|]. do 2 (split; [done|]). lia.
  - unfold unless_exits at 1. apply unless_bind, unless_sys. intros fd w1 E1 L1. destruct (Z.ltb_spec (Z.max (-1) fd) 0).
    { cbn. exists [(Socket AF_UNIX, fd)]. split; [done|]. split; [done|]. left. split; [done|].
      exists AF_UNIX, fd. split; [done|lia]. }
    rewrite Z.max_r by lia. apply unless_bind, unless_sys. intros r w2 E2 L2.
    destruct (OS_BuildSockAddrUn sizeof_sun_path s) as [[un n]|] eqn:B; [|done].
    apply bind_and_listen_spec. intros b l w3 Hb Hl L3 E3.
    eexists. split; [by rewrite E3, E2, E1, <- !app_assoc|]. split; [congruence|]. right. split; [lia|].
    exists AF_UNIX, (Unlink s), r, (UnixAddr un n), b, l. do 3 (split; [done|]).
    split; [by apply BuildSockAddrUn_spec|done].
Qed.

(** A path as long as the array it is copied to, or longer, is written past its end. *)
Lemma long_path_overruns sizeof_sun_path kernel inet_addr gethostbyname s backlog w :
  MAXPATHLEN <= Z.of_nat (length s) ->
  OS_CreateLocalIpcFd sizeof_sun_path kernel inet_addr gethostbyname s backlog w = Undef OutOfBounds /\
  OS_FcgiConnect sizeof_sun_path kernel gethostbyname s w = Undef OutOfBounds.
Proof.
  intros L. unfold OS_CreateLocalIpcFd, OS_FcgiConnect, parse_bind_path.
  rewrite (proj2 (Z.ltb_lt _ _)) by lia. done.
Qed.

(** A started server finds the listening socket under descriptor 0 and has no standard output
    or error; one that is already there is closed with the standard input. *)
Lemma child_files_spec listenFd f t : t !! listenFd = Some f ->
  child_files listenFd t !! FCGI_LISTENSOCK_FILENO =
    (if listenFd =? FCGI_LISTENSOCK_FILENO then None else Some f) /\
  child_files listenFd t !! STDOUT_FILENO = None /\ child_files listenFd t !! STDERR_FILENO = None.
Proof.
  intros H. unfold child_files, close_fd, dup2, FCGI_LISTENSOCK_FILENO, STDIN_FILENO, STDOUT_FILENO, STDERR_FILENO.
  destruct (Z.eqb_spec listenFd 0) as [->|N]; cbn [negb].
  - split_and!; by simplify_map_eq.
  - rewrite (lookup_delete_ne t 0 listenFd), H by done.
    split_and!; by simplify_map_eq.
Qed.

(** *** Witnesses *)

(** A system that opens descriptor 3 and lets every other call succeed. *)
Definition t_kernel (h : history) (c : syscall) : Z := match c with Socket _ => 3 | _ => 0 end.

Definition t_path : list byte := lit "10.0.0.1:9000".

Example listen_on_port :
  match OS_CreateLocalIpcFd 104 t_kernel t_inet_addr (fun _ => None) t_path 5 (world0 []) with
  | Ret (fd, w) => Some (fd, w_ext w)
  | Undef _ => None
  end = Some (3, [(Socket AF_INET, 3); (ReuseAddr 3, 0); (Bind 3 (InetAddr 16777226 9000), 0); (Listen 3 5, 0)]).
Proof. vm_compute. reflexivity. Qed.

(** A port of sixteen bits that are zero is taken for a part of a file name. *)
Example port_too_large :
  match OS_CreateLocalIpcFd 104 t_kernel t_inet_addr (fun _ => None) (lit "h:65536") 5 (world0 []) with
  | Ret (fd, w) => map fst (w_ext w) !! 1%nat
  | Undef _ => None
  end = Some (Unlink (lit "h:65536")).
Proof. vm_compute. reflexivity. Qed.

Lemma OS_CreateLocalIpcFd_listens_witness :
  unless_exits (OS_CreateLocalIpcFd 104 t_kernel t_inet_addr (fun _ => None) t_path 5 (world0 []))
    (fun fd w' => exists calls, w_ext w' = calls /\ w_live w' = 0 /\
      ((fd = -1 /\ exists family r, calls = [(Socket family, r)] /\ r < 0) \/
       (0 <= fd /\ set_up 104 t_inet_addr (fun _ => None) t_path 5 fd calls))).
Proof.
  apply (OS_CreateLocalIpcFd_listens 104 t_kernel t_inet_addr (fun _ => None) t_path 5 (world0 [])).
  - vm_compute. set_solver.
  - vm_compute. reflexivity.
  - intros host tp E. exists 9000. assert (Hh : ":"%byte ∉ host).
    { intros H. apply (f_equal (filter (fun b => b = ":"%byte))) in E. rewrite list.filter_app in E.
      apply (f_equal length) in E. rewrite length_app in E. cbn in E.
      destruct (filter (fun b => b = ":"%byte) host) eqn:F; [|simpl in E; lia].
      assert (":"%byte ∈ filter (fun b => b = ":"%byte) host) by by apply list_elem_of_filter.
      rewrite F in *. set_solver. }
    destruct (app_colon (lit "10.0.0.1") (lit "9000") host tp) as [_ <-];
      [vm_compute; set_solver|done|exact E|reflexivity].
Defined.
