(* ===== verification/FcgiProcess.v ===== *)
(** * The request of a process (loungeact_fastcgi/fcgiapp.c)

    The functions that keep one request for the whole process: the library is initialised on
    the first call, a request is accepted, answered and finished, and the next one is accepted
    with the same structure.  The state of the process has the state of the layers below in it;
    their functions run on their part of it.  A server that answers every request by a function
    of its environment and its input sends every client that answer and no other, and keeps
    nothing allocated but what initialising allocates. *)

From S2P Require Import Prelude FcgiFormat FcgiStream FcgiWriter FcgiReader FcgiRequest FcgiAnswer AsyncIo FcgiAccept FcgiSockets.
From Stdlib Require Import Init.Byte.

#[local] Open Scope c_scope.

(** ** Parts of a state *)

Section within.
Context {Y X : Type} (view : Y -> X) (update : X -> Y -> Y).

Definition view_world (w : world Y) : world X :=
  World (w_alloc w) (w_junk w) (w_live w) (w_errno w) (view (w_ext w)).

(** A function of a layer, on its part of the state. *)
Definition within {A} (m : M X A) : M Y A := fun w =>
  match m (view_world w) with
  | Ret (a, w') =>
      Ret (a, World (w_alloc w') (w_junk w') (w_live w') (w_errno w') (update (w_ext w') (w_ext w)))
  | Undef u => Undef u
  end.

(** The world after a run of a layer. *)
Definition restore (w : world Y) (w1 : world X) : world Y :=
  World (w_alloc w1) (w_junk w1) (w_live w1) (w_errno w1) (update (w_ext w1) (w_ext w)).

Lemma wp_within_restore {A} (m : M X A) w (Q : A -> world Y -> Prop) :
  wp m (view_world w) (fun a w1 => Q a (restore w w1)) -> wp (within m) w Q.
Proof. unfold wp, within. by destruct (m _) as [[a w1]|u]. Qed.

Lemma wp_within {A} (m : M X A) w (Q : A -> world Y -> Prop) :
  wp m (view_world w) (fun a w1 => forall w', w_ext w' = update (w_ext w1) (w_ext w) ->
    w_live w' = w_live w1 -> w_alloc w' = w_alloc w1 -> Q a w') ->
  wp (within m) w Q.
Proof. intros H. apply wp_within_restore. eapply wp_mono; [exact H|]. intros a w1 H1. by apply H1. Qed.
End within.

(** ** Signals *)

Definition SIGPIPE : Z := 13.
Definition SIGUSR1 : Z := 10.

(** What a signal does: the default, something of the program's own, or one of the handlers of
    the library. *)
Inductive disposition :=
| SIG_DFL
| OwnHandler (h : Z)
| OS_SigpipeHandler
| OS_Sigusr1Handler.

#[export] Instance disposition_eq_dec : EqDecision disposition.
Proof. solve_decision. Defined.

(** A signal that is not listed has its default. *)
Definition installSignalHandler (signo : Z) (act : disposition) (force : bool)
    (t : gmap Z disposition) : gmap Z disposition :=
  if force || bool_decide (default SIG_DFL (t !! signo) = SIG_DFL) then <[signo := act]> t else t.

Definition OS_InstallSignalHandlers (force : bool) (t : gmap Z disposition) : gmap Z disposition :=
  installSignalHandler SIGUSR1 OS_Sigusr1Handler force
    (installSignalHandler SIGPIPE OS_SigpipeHandler force t).

(** A handler of the program's own stays; a signal with its default gets the library's. *)
Lemma handlers_installed t :
  (forall signo h, t !! signo = Some (OwnHandler h) ->
     OS_InstallSignalHandlers false t !! signo = Some (OwnHandler h)) /\
  (default SIG_DFL (t !! SIGUSR1) = SIG_DFL ->
     OS_InstallSignalHandlers false t !! SIGUSR1 = Some OS_Sigusr1Handler).
Proof.
  assert (K : forall signo h act s t', t' !! s = Some (OwnHandler h) ->
    installSignalHandler signo act false t' !! s = Some (OwnHandler h)).
  { intros signo h act s t' E. unfold installSignalHandler. cbn [orb]. case_bool_decide as D; [|done].
    rewrite lookup_insert_ne; [done|]. intros ->. by rewrite E in D. }
  split; unfold OS_InstallSignalHandlers; [intros signo h E; by do 2 apply K|]. intros E.
  assert (default SIG_DFL (installSignalHandler SIGPIPE OS_SigpipeHandler false t !! SIGUSR1) = SIG_DFL) as E'.
  { unfold installSignalHandler. cbn [orb]. case_bool_decide; [|done]. by rewrite lookup_insert_ne. }
  unfold installSignalHandler at 1. cbn [orb]. rewrite bool_decide_eq_true_2 by done. by rewrite lookup_insert_eq.
Qed.

(** What the delivery of a signal does to the system: one handler asks the process to end, the
    other does nothing. *)
Definition OS_ShutdownPending (o : os) : os :=
  Os (os_fds o) (os_queue o) (os_next_fd o) true (os_closed o).

Definition deliver (d : disposition) (o : os) : os :=
  match d with OS_Sigusr1Handler => OS_ShutdownPending o | _ => o end.

(** ** State *)

(** The layers, what the signals do, the variable of the environment with the list of web servers, and the variables
    of the library. *)
Record process := Process {
  pr_os : os;
  pr_host : host;
  pr_calls : list (syscall * Z);
  pr_signals : gmap Z disposition;
  pr_addrs : option (list byte);
  libInitialized : bool;
  isFastCGI : Z;
  webServerAddressList : option (list byte);
  the_request : request;
}.

Definition with_os (o : os) (p : process) : process :=
  Process o (pr_host p) (pr_calls p) (pr_signals p) (pr_addrs p) (libInitialized p) (isFastCGI p)
    (webServerAddressList p) (the_request p).
Definition with_host (h : host) (p : process) : process :=
  Process (pr_os p) h (pr_calls p) (pr_signals p) (pr_addrs p) (libInitialized p) (isFastCGI p)
    (webServerAddressList p) (the_request p).
Definition with_calls (l : list (syscall * Z)) (p : process) : process :=
  Process (pr_os p) (pr_host p) l (pr_signals p) (pr_addrs p) (libInitialized p) (isFastCGI p)
    (webServerAddressList p) (the_request p).
Definition set_signals (t : gmap Z disposition) (p : process) : process :=
  Process (pr_os p) (pr_host p) (pr_calls p) t (pr_addrs p) (libInitialized p) (isFastCGI p)
    (webServerAddressList p) (the_request p).
Definition set_isFastCGI (b : Z) (p : process) : process :=
  Process (pr_os p) (pr_host p) (pr_calls p) (pr_signals p) (pr_addrs p) (libInitialized p) b
    (webServerAddressList p) (the_request p).
Definition set_the_request (q : request) (p : process) : process :=
  Process (pr_os p) (pr_host p) (pr_calls p) (pr_signals p) (pr_addrs p) (libInitialized p) (isFastCGI p)
    (webServerAddressList p) q.
Definition set_initialised (l : option (list byte)) (p : process) : process :=
  Process (pr_os p) (pr_host p) (pr_calls p) (pr_signals p) (pr_addrs p) true (isFastCGI p) l (the_request p).

Definition on_os {A} : M os A -> M process A := within pr_os with_os.
Definition on_host {A} : M host A -> M process A := within pr_host with_host.
Definition on_calls {A} : M (list (syscall * Z)) A -> M process A := within pr_calls with_calls.

(** The state of a process that has just begun. *)
Definition process_start (o : os) (addrs : option (list byte)) : process :=
  Process o (Host aio_start [] [] []) [] ∅ addrs false (-1) None (FCGX_InitRequest 0 0).

(** ** The functions *)

Definition get_errno : M process Z := fun w => Ret (w_errno w, w).

(** [OS_LibInit] with the handlers it installs at the end of its first run. *)
Definition lib_init : M process Z :=
  let* p := get_ext in
  let* rc := on_host OS_LibInit in
  (if AsyncIo.libInitialized (h_aio (pr_host p)) || (rc =? -1) then ret tt
   else let* p := get_ext in put_ext (set_signals (OS_InstallSignalHandlers false (pr_signals p)) p)) ;;;
  ret rc.

Definition FCGX_ShutdownPending : M process unit :=
  let* p := get_ext in put_ext (with_os (OS_ShutdownPending (pr_os p)) p).

(** [getenv] finds the variable [pr_addrs], whose value is copied. *)
Definition FCGX_Init : M process Z :=
  let* p := get_ext in
  if libInitialized p then ret 0
  else
    put_ext (set_the_request (FCGX_InitRequest FCGI_LISTENSOCK_FILENO 0) p) ;;;
    let* rc := lib_init in
    if rc =? -1 then let* e := get_errno in ret (if negb (e =? 0) then e else -9997)
    else
      let* list := (match pr_addrs p with
                    | Some s => let* c := on_os (StringCopy s) in ret (Some c)
                    | None => ret None
                    end) in
      let* p := get_ext in
      put_ext (set_initialised list p) ;;;
      ret 0.

Section process.
Variable kernel : list (syscall * Z) -> syscall -> Z.
Variable sizeof_sun_path : Z.
Variable inet_addr : list byte -> Z.
Variable gethostbyname : list byte -> option (Z * list Z).

(** [exit] when the library cannot be initialised. *)
Definition FCGX_IsCGI : M process Z :=
  let* p := get_ext in
  if negb (isFastCGI p =? -1) then ret (c_bool (isFastCGI p =? 0))
  else
    let* rc := if negb (libInitialized p) then FCGX_Init else ret 0 in
    if negb (rc =? 0) then undef Exits
    else
      let* b := on_calls (OS_IsFcgi kernel FCGI_LISTENSOCK_FILENO) in
      let* p := get_ext in
      put_ext (set_isFastCGI b p) ;;;
      ret (c_bool (b =? 0)).

Definition FCGX_OpenSocket (path : list byte) (backlog : Z) : M process Z :=
  let* rc := on_calls (OS_CreateLocalIpcFd sizeof_sun_path kernel inet_addr gethostbyname path backlog) in
  let* p := get_ext in
  (if (rc =? FCGI_LISTENSOCK_FILENO) && (isFastCGI p =? 0) then put_ext (set_isFastCGI 1 p) else ret tt) ;;;
  ret rc.
End process.

(** A request of the caller's own; the process's functions use theirs. *)
Definition Accept_r (turns fuel : nat) (q : request) : M process (Z * request) :=
  let* p := get_ext in
  if negb (libInitialized p) then ret (-9998, q) else on_os (FCGX_Accept_r turns fuel q).

(** The pointers [*in], [*out], [*err] and [*envp] are those of [the_request]; they are not
    assigned when the library could not be initialised. *)
Definition FCGX_Accept (turns fuel : nat) : M process (Z * bool) :=
  let* p := get_ext in
  let* rc := if negb (libInitialized p) then FCGX_Init else ret 0 in
  if negb (rc =? 0) then ret (rc, false)
  else
    let* p := get_ext in
    let* '(rc, q) := Accept_r turns fuel (the_request p) in
    let* p := get_ext in
    put_ext (set_the_request q p) ;;;
    ret (rc, true).

(** What the application does to the request through the pointers. *)
Definition with_request (f : request -> M os request) : M process unit :=
  let* p := get_ext in
  let* q := on_os (f (the_request p)) in
  let* p := get_ext in
  put_ext (set_the_request q p).

Definition FCGX_Finish : M process unit := with_request FCGX_Finish_r.

(** ** A server *)

(** What an application answers for an environment and an input, and the exit status it sets. *)
Definition handler : Type := list (list byte) -> list byte -> list output * option Z.

Definition set_status (status : option Z) (r : FCGX_Request) : FCGX_Request :=
  match status with Some z => FCGX_SetExitStatus z r | None => r end.

(** Reading at most [n] bytes of the input, answering. *)
Definition handle (fuel n : nat) (h : handler) (q : request) : M os request :=
  match req_in q with
  | None => undef NullDeref
  | Some s =>
      let* '(d, (s, r)) := FCGX_GetStr (FillBuffProc fuel []) fuel (Z.of_nat n) s (req q) in
      let '(ops, status) := h (envp q) d in
      run_outputs ops (Req (set_status status r) (Some s) (req_out q) (req_err q) (paramsPtr q))
  end.

(** The loop over requests, for [k] of them. *)
Fixpoint serve (turns fuel n : nat) (h : handler) (k : nat) : M process Z :=
  match k with
  | O => ret 0
  | S k =>
      let* '(rc, _) := FCGX_Accept turns fuel in
      if rc <? 0 then ret rc
      else with_request (handle fuel n h) ;;; FCGX_Finish ;;; serve turns fuel n h k
  end.

(** ** Initialising *)

Lemma wp_OS_LibInit w (Q : Z -> world host -> Prop) :
  h_aio (w_ext w) = aio_start -> mem_ok w -> (forall w', heap 1 w w' -> Q 0 w') -> wp OS_LibInit w Q.
Proof.
  intros E Hm HQ. unfold OS_LibInit, get_aio. do 3 wp_step. rewrite E.
  wp_step. change (AsyncIo.libInitialized aio_start) with false. cbv iota. wp_step.
  apply wp_malloc; [done| |intros w1 N; exfalso; apply N; split; [done|by vm_compute]].
  intros b w1 _ _ F1 _. wp_step. unfold put_aio. wp_step. wp_step. apply wp_put_os. intros w2 H2 _. wp_step.
  apply HQ. solve_heap.
Qed.

(** The value of the variable of the environment is no larger than memory. *)
Definition addrs_fit (addrs : option (list byte)) : Prop :=
  match addrs with Some s => Z.of_nat (length s) < PTRDIFF_MAX | None => True end.

(** The table of asynchronous calls, and the list of web servers. *)
Definition library_blocks (addrs : option (list byte)) : Z :=
  1 + match addrs with Some _ => 1 | None => 0 end.

(** A process between two requests: the connection of the last one was closed. *)
Record between (r : FCGX_Request) (o : os) (w : world process) : Prop := {
  bt_initialised : libInitialized (w_ext w) = true;
  bt_request : the_request (w_ext w) = idle_request r;
  bt_closed : ipcFd r = -1;
  bt_flags : flags r = 0;
  bt_os : pr_os (w_ext w) = o;
  bt_mem : mem_ok w;
}.

(** A process that has just begun. *)
Record fresh_process (w : world process) : Prop := {
  fp_library : libInitialized (w_ext w) = false;
  fp_aio : h_aio (pr_host (w_ext w)) = aio_start;
  fp_addrs : addrs_fit (pr_addrs (w_ext w));
  fp_mem : mem_ok w;
}.

Lemma heap_view {X Y} (view : Y -> X) d (w w' : world Y) w1 :
  heap d (view_world view w) w1 -> w_live w' = w_live w1 -> w_alloc w' = w_alloc w1 -> heap d w w'.
Proof. intros (H1 & H2) E1 E2. split; [by rewrite E1|]. unfold mem_ok in *. rewrite E2. exact H2. Qed.

Lemma wp_lib_init w (Q : Z -> world process -> Prop) :
  h_aio (pr_host (w_ext w)) = aio_start -> mem_ok w ->
  (forall w', heap 1 w w' ->
     (exists h t, w_ext w' = set_signals t (with_host h (w_ext w))) -> Q 0 w') ->
  wp lib_init w Q.
Proof.
  intros E Hm HQ. unfold lib_init. do 3 wp_step. apply wp_within, wp_OS_LibInit; [done|done|].
  intros v2 G2 w2 E2 L2 A2. pose proof (heap_view _ _ _ _ _ G2 L2 A2) as H2. wp_step. rewrite E.
  change (AsyncIo.libInitialized aio_start || (0 =? -1)) with false. cbv iota. do 2 wp_step.
  apply wp_put_os. intros w3 H3 E3. wp_step. apply HQ; [eapply heap_eq; [by eapply heap_trans|lia]|].
  eexists _, _. rewrite E3, E2. reflexivity.
Qed.

Lemma wp_Init w (Q : Z -> world process -> Prop) :
  fresh_process w ->
  (forall w', heap (library_blocks (pr_addrs (w_ext w))) w w' ->
     between (Request 0 0 (-1) false 0 0 0 0 0) (pr_os (w_ext w)) w' -> Q 0 w') ->
  wp FCGX_Init w Q.
Proof.
  intros [Hl Ha Hf Hm] HQ. unfold FCGX_Init. wp_step. wp_step. rewrite Hl. wp_step.
  apply wp_put_os. intros w1 H1 E1. assert (mem_ok w1) as Hm1 by by eapply heap_mem_ok.
  wp_step. apply wp_lib_init; [by rewrite E1|done|]. intros w2 H2 (h & t & E2).
  change (0 =? -1) with false. cbv iota.
  assert (mem_ok w2) as Hm2 by by eapply heap_mem_ok.
  assert (forall l w3 d, heap d w2 w3 -> w_ext w3 = w_ext w2 -> library_blocks (pr_addrs (w_ext w)) = 1 + d ->
    wp (let* p := get_ext in put_ext (set_initialised l p) ;;; ret 0) w3 Q) as End.
  { intros l w3 d H3 E3 Hd. wp_step. wp_step. wp_step. apply wp_put_os. intros w4 H4 E4. wp_step.
    apply HQ.
    - eapply heap_eq; [eapply heap_trans; [exact H1|]; eapply heap_trans; [exact H2|];
        eapply heap_trans; [exact H3|exact H4]|lia].
    - rewrite E3, E2, E1 in E4. split; try (by rewrite E4); try done.
      eapply heap_mem_ok; [exact H4|]. by eapply heap_mem_ok. }
  unfold library_blocks in End. wp_step. destruct (pr_addrs (w_ext w)) as [s|]; wp_step.
  - apply wp_within, wp_StringCopy; [exact Hf|done|]. intros v3 F3 w3 E3 L3 A3. wp_step.
    eapply (End _ w3 1); [eapply heap_view; [apply frame_heap, F3|done..]| |lia].
    rewrite E3. rewrite (frame_ext _ _ _ F3). by destruct w2 as [? ? ? ? []].
  - by apply (End _ w2 0); [apply heap_refl| |].
Qed.

(** ** One request *)

(** The connection after a request: what was sent, and closed. *)
Lemma connection_closed c rest o o2 o4 d :
  rcv (os_next_fd o) (connected c rest o) o2 -> delivered (os_next_fd o) d true o2 o4 ->
  exists c', c_out c' = c_out c ++ d /\
    o4 = Os (delete (os_next_fd o) (os_fds o)) rest (os_next_fd o + 1) (shutdownPending o) (c' :: os_closed o).
Proof.
  intros (c0 & c1 & H1 & -> & H2 & _) (c2 & c3 & K1 & K2 & _ & ->). cbn in *.
  rewrite lookup_insert_eq in H1, K1. injection H1 as <-. injection K1 as <-.
  exists c3. split; [congruence|]. by rewrite !delete_insert_eq.
Qed.

(** What the web server gets for a request: it depends on the request only by its identifier
    and the status. *)
Definition answered (id status : Z) (put : bool -> list byte) (rs : list frec) : Prop :=
  FcgiAnswer.answer_of (Request id 0 0 true 0 status 2 0 0) put rs.

Lemma answer_answered r put rs : FcgiAnswer.answer_of r put rs -> answered (requestId r) (appStatus r) put rs.
Proof. done. Qed.

Lemma set_status_members status r :
  requestId (set_status status r) = requestId r /\ keepConnection (set_status status r) = keepConnection r /\
  nWriters (set_status status r) = nWriters r /\ ipcFd (set_status status r) = ipcFd r /\
  flags (set_status status r) = flags r /\ appStatus (set_status status r) = default (appStatus r) status.
Proof. by destruct status. Qed.

Section server.
Context (turns fuel n : nat) (h : handler).

(** A request that arrives on a connection of its own and is to be closed. *)
Record arrival := Arrival {
  ar_noise : list accept_answer;
  ar_connection : connection;
  ar_id : Z;
  ar_body : list byte;
  ar_role : list byte;
  ar_params : list (list byte * list byte);
  ar_input : list byte;
}.

Record arrives (x : arrival) : Prop := {
  av_noise : Forall (passed_over false) (ar_noise x);
  av_takes : takes_all (ar_connection x);
  av_close : Z.land (b2z (nth 2 (ar_body x) x00)) FCGI_KEEP_CONN = 0;
  av_wire : exists ls tail, c_in (ar_connection x) = map inr ls /\ Forall (fun l => l <> []) ls /\
    on_wire (ar_id x) (ar_body x) (ar_role x) (ar_params x) (ar_input x) tail (concat ls) /\
    (S (length (concat ls)) < fuel)%nat;
}.

(** What the application answers. *)
Definition reply (x : arrival) : list output * option Z :=
  h (environment (ar_role x) (ar_params x)) (take n (ar_input x)).

Definition status_after (status : Z) (x : arrival) : Z := default status (snd (reply x)).

(** The connection of a request when it was answered. *)
Definition answers (status : Z) (x : arrival) (c' : connection) : Prop :=
  exists rs, c_out c' = c_out (ar_connection x) ++ encode_records rs /\
    answered (ar_id x) (status_after status x) (fun e => put_to e (fst (reply x))) rs.

Definition connects (x : arrival) (rest : list accept_answer) : list accept_answer :=
  ar_noise x ++ AcceptConn (ar_connection x) :: rest.

Lemma wp_handle_finish o0 r env input tail q w (Q : request -> world os -> Prop) :
  opened fuel o0 r env input tail q w -> requestId r <> 0 -> nWriters r = 2 -> ipcFd r <> -1 ->
  keepConnection r = 0 ->
  (let '(ops, status) := h env (take n input) in
   let r2 := set_status status r in
   forall rs w2 w', rcv (ipcFd r) o0 (w_ext w2) -> FcgiAnswer.answer_of r2 (fun e => put_to e ops) rs ->
     delivered (ipcFd r) (encode_records rs) true (w_ext w2) (w_ext w') ->
     heap (- (11 + Z.of_nat (length env))) w w' ->
     Q (idle_request (set_ipcFd (-1) (set_nWriters 0 r2))) w') ->
  wp (handle fuel n h q) w (fun q w => wp (FCGX_Finish_r q) w Q).
Proof.
  intros Ho Hid Hnw Hfd Hk HQ. pose proof Ho as [Hr He (p & Hp) (s & Es & _) _ _].
  unfold handle. rewrite Es, Hr, He. wp_step.
  eapply wp_read_input; [exact Ho|exact Es|exact Hid|]. intros s' w2 Herr Hrc Hready Hh2. cbv beta iota.
  destruct (h env (take n input)) as [ops status].
  destruct (set_status_members status r) as (_ & Kk & Kn & Kf & _).
  eapply (wp_outputs_finish fuel o0 r env input tail q w (set_status status r) s' p ops w2);
    [exact Ho|exact Hp|by rewrite Kf|done|congruence|congruence|].
  intros rs w' close Hh Hans Hd. unfold close in *. rewrite Kk, Hk in Hd |- *. rewrite Kf in Hd.
  apply (HQ rs w2); [done..|]. eapply heap_eq; [by eapply heap_trans|lia].
Qed.

Lemma opened_ext o0 r env input tail q (w1 w2 : world os) :
  w_ext w2 = w_ext w1 -> opened fuel o0 r env input tail q w1 -> opened fuel o0 r env input tail q w2.
Proof.
  intros E [H1 H2 H3 (s & Es & Hs) H5 H6]. constructor; try done. exists s. split; [done|].
  unfold reading in *. by rewrite E.
Qed.

(** Accepting with a library that is initialised. *)
Lemma wp_accept_initialised r o w x rest (Q : Z * bool -> world process -> Prop) :
  between r o w -> arrives x -> os_queue o = connects x rest -> shutdownPending o = false ->
  0 <= os_next_fd o ->
  (forall w1 tail, libInitialized (w_ext w1) = true ->
     opened fuel (connected (ar_connection x) rest o) (next_request r (ar_id x) (ar_body x) (os_next_fd o))
       (environment (ar_role x) (ar_params x)) (ar_input x) tail (the_request (w_ext w1))
       (view_world pr_os w1) ->
     0 < ar_id x -> heap (12 + Z.of_nat (length (ar_params x))) w w1 -> Q (0, true) w1) ->
  wp (let* p := get_ext in
      let* '(rc, q) := Accept_r (S turns) fuel (the_request p) in
      let* p := get_ext in
      put_ext (set_the_request q p) ;;; ret (rc, true)) w Q.
Proof.
  intros [Bi Bq Bc Bf Bo Bm] [An At Ac (ls & tail & Hin & Hne & Hw & Hfuel)] Hq Hs Hfd HQ.
  wp_step. wp_step. rewrite Bq. wp_step. unfold Accept_r. wp_step. wp_step. rewrite Bi. cbn [negb].
  apply wp_within. eapply (wp_Accept_idle turns fuel r); [done| |exact Hw|exact Hfuel|exact Bm|].
  { cbn. rewrite Bo, Bf. split; [by exists (ar_noise x)|done|done|by exists ls|done]. }
  cbn [w_ext view_world]. rewrite Bo. intros q w1 Ho Hh w2 E2 L2 A2. cbv beta iota. do 3 wp_step.
  apply wp_put_os. intros w3 Hh3 E3. wp_step.
  eapply (HQ w3 tail).
  - rewrite E3, E2. exact Bi.
  - rewrite E3. cbn [the_request set_the_request]. eapply opened_ext; [|exact Ho].
    cbn. by rewrite E3, E2.
  - destruct Hw. lia.
  - eapply heap_eq; [eapply heap_trans; [eapply heap_view; [exact Hh|done..]|exact Hh3]|lia].
Qed.

(** The system and the request after an answer. *)
Definition finished (r : FCGX_Request) (o : os) (x : arrival) (rest : list accept_answer) (v : world os)
    (q' : request) (v' : world os) : Prop :=
  exists r' c', q' = idle_request r' /\ ipcFd r' = -1 /\ flags r' = flags r /\
    appStatus r' = status_after (appStatus r) x /\ answers (appStatus r) x c' /\
    heap (- (12 + Z.of_nat (length (ar_params x)))) v v' /\
    w_ext v' = Os (delete (os_next_fd o) (os_fds o)) rest (os_next_fd o + 1) (shutdownPending o)
      (c' :: os_closed o).

Lemma wp_handle_request r o x rest tail q v :
  arrives x -> 0 < ar_id x -> 0 <= os_next_fd o ->
  opened fuel (connected (ar_connection x) rest o) (next_request r (ar_id x) (ar_body x) (os_next_fd o))
    (environment (ar_role x) (ar_params x)) (ar_input x) tail q v ->
  wp (handle fuel n h q) v (fun q w => wp (FCGX_Finish_r q) w (finished r o x rest v)).
Proof.
  intros [_ _ Ac _] Hid Hfd Ho.
  eapply wp_handle_finish; [exact Ho|cbn; lia|done|cbn; lia|exact Ac|].
  pose (st := reply x). fold (reply x). fold st. destruct st as [ops status] eqn:Er. cbv zeta.
  set (r1 := next_request _ _ _ _). set (r2 := set_status status r1).
  destruct (set_status_members status r1) as (Ki & _ & _ & _ & Kl & Ks).
  intros rs w2 w' Hrc Hans Hd Hh. destruct (connection_closed _ _ _ _ _ _ Hrc Hd) as (c' & Hout & E).
  eexists _, c'. split; [done|]. split; [done|]. split; [exact Kl|].
  assert (Es : appStatus r2 = status_after (appStatus r) x).
  { unfold r2, status_after. rewrite Ks. unfold st in Er. by rewrite Er. }
  split; [exact Es|]. split.
  - exists rs. split; [exact Hout|]. rewrite <- Es. unfold st in Er. rewrite Er. cbn [fst].
    apply answer_answered in Hans. unfold r2 in *. by rewrite Ki in Hans.
  - split; [|exact E]. eapply heap_eq; [exact Hh|]. unfold environment. cbn [length]. rewrite length_map. lia.
Qed.

(** Answering the request that was accepted, and finishing it. *)
Lemma wp_answer_finish r o w w1 x rest tail (Q : unit -> world process -> Prop) :
  between r o w -> arrives x ->
  libInitialized (w_ext w1) = true ->
  opened fuel (connected (ar_connection x) rest o) (next_request r (ar_id x) (ar_body x) (os_next_fd o))
    (environment (ar_role x) (ar_params x)) (ar_input x) tail (the_request (w_ext w1))
    (view_world pr_os w1) ->
  0 < ar_id x -> 0 <= os_next_fd o -> heap (12 + Z.of_nat (length (ar_params x))) w w1 ->
  (forall r' c' w', answers (appStatus r) x c' -> appStatus r' = status_after (appStatus r) x ->
     heap 0 w w' ->
     between r' (Os (delete (os_next_fd o) (os_fds o)) rest (os_next_fd o + 1) (shutdownPending o)
       (c' :: os_closed o)) w' -> Q tt w') ->
  wp (with_request (handle fuel n h)) w1 (fun _ w => wp FCGX_Finish w Q).
Proof.
  intros B Av Hl Ho Hid Hfd Hh HQ. pose proof B as [_ _ _ Bf _ Bm].
  unfold with_request. wp_step. wp_step. wp_step. apply wp_within_restore.
  eapply wp_mono; [by apply (wp_handle_request r o x rest tail)|].
  intros q [al jk lv er o2] Hfin. wp_step. wp_step.
  change (wp FCGX_Finish (World al jk lv er (set_the_request q (with_os o2 (w_ext w1)))) Q).
  unfold FCGX_Finish, with_request. wp_step. wp_step. wp_step. apply wp_within_restore.
  eapply wp_mono; [exact Hfin|].
  intros q3 [al3 jk3 lv3 er3 o3] (r' & c' & -> & Kf & Kl & Ks & Ka & Kh & Ke). wp_step. wp_step.
  cbn in Ke. subst o3.
  assert (H0 : heap 0 w (World al3 jk3 lv3 er3 (w_ext w))).
  { destruct Kh as [K1 K2], Hh as [J1 J2]. cbn in K1, K2. split; [cbn; lia|]. intros M. apply K2. by apply J2. }
  apply (HQ r' c'); [done..| |].
  - exact H0.
  - destruct H0 as [_ M]. split; try done; [by rewrite Kl|by apply M].
Qed.

(** The connections after the requests, in their order, with the status each leaves behind. *)
Fixpoint served (status : Z) (xs : list arrival) (cs : list connection) : Prop :=
  match xs, cs with
  | [], [] => True
  | x :: xs, c :: cs => answers status x c /\ served (status_after status x) xs cs
  | _, _ => False
  end.

(** What [accept] will answer for the requests. *)
Definition queue_of (xs : list arrival) (rest : list accept_answer) : list accept_answer :=
  foldr connects rest xs.

Lemma wp_serve_next k r o w x rest (Q : Z -> world process -> Prop) :
  between r o w -> arrives x -> os_queue o = connects x rest -> shutdownPending o = false ->
  0 <= os_next_fd o ->
  (forall r' c' w', answers (appStatus r) x c' -> appStatus r' = status_after (appStatus r) x ->
     heap 0 w w' ->
     between r' (Os (delete (os_next_fd o) (os_fds o)) rest (os_next_fd o + 1) false (c' :: os_closed o)) w' ->
     wp (serve (S turns) fuel n h k) w' Q) ->
  wp (let* p := get_ext in
      let* '(rc, q) := Accept_r (S turns) fuel (the_request p) in
      let* p := get_ext in
      put_ext (set_the_request q p) ;;; ret (rc, true)) w (fun a w1 => wp (let '(rc, _) := a in
      if rc <? 0 then ret rc
      else with_request (handle fuel n h) ;;; FCGX_Finish ;;; serve (S turns) fuel n h k) w1 Q).
Proof.
  intros B Av Hq Hs Hfd HQ.
  eapply wp_accept_initialised; [exact B|exact Av|exact Hq|exact Hs|exact Hfd|].
  intros w1 tail Hl Ho Hid Hh. change (0 <? 0) with false. cbv iota. wp_step.
  eapply wp_mono; [eapply (wp_answer_finish r o w w1 x rest tail (fun _ w' => wp (serve (S turns) fuel n h k) w' Q));
    [exact B|exact Av|exact Hl|exact Ho|exact Hid|exact Hfd|exact Hh|]|].
  - intros r' c' w' Ha Hst Hh' B'. rewrite Hs in B'. exact (HQ r' c' w' Ha Hst Hh' B').
  - intros [] w2 H2. wp_step. eapply wp_mono; [exact H2|]. by intros [] w3.
Qed.

Lemma wp_serve xs : forall r o w rest (Q : Z -> world process -> Prop),
  between r o w -> Forall arrives xs -> os_queue o = queue_of xs rest -> shutdownPending o = false ->
  0 <= os_next_fd o ->
  (forall r' o' cs w', served (appStatus r) xs cs -> heap 0 w w' -> between r' o' w' ->
     os_closed o' = rev cs ++ os_closed o -> os_queue o' = rest -> Q 0 w') ->
  wp (serve (S turns) fuel n h (length xs)) w Q.
Proof.
  induction xs as [|x xs IH]; intros r o w rest Q B Av Hq Hs Hfd HQ; cbn [length serve].
  - wp_step. apply (HQ r o []); [done|apply heap_refl|done..].
  - apply list.Forall_cons in Av as [Av Avs].
    unfold FCGX_Accept. do 3 wp_step. rewrite (bt_initialised _ _ _ B). cbn [negb]. do 2 wp_step.
    change (negb (0 =? 0)) with false. cbv iota.
    eapply wp_serve_next; [exact B|exact Av|exact Hq|done|done|].
    intros r' c' w' Ha Hst Hh B'. eapply IH; [exact B'|done|done|done|cbn; lia|].
    intros r2 o2 cs w2 Hsv Hh2 B2 Hc2 Hq2. rewrite Hst in Hsv.
    apply (HQ r2 o2 (c' :: cs)); [done|eapply heap_eq; [by eapply heap_trans|lia]|done| |done].
    cbn [rev]. by rewrite <- app_assoc.
Qed.
End server.

(** ** Properties *)

(** C12 (refinement): a process that has just begun and serves the requests that arrive, one
    after the other, each on its own connection, sends every client what the application answers
    to its environment and its input, in its own records, and closes the connection; the exit
    status of a request is the one that was set last, by it or an earlier one; nothing stays
    allocated but what initialising the library allocates. *)
Theorem requests_served turns fuel n h xs rest w :
  fresh_process w -> Forall (arrives fuel) xs ->
  os_queue (pr_os (w_ext w)) = queue_of xs rest -> shutdownPending (pr_os (w_ext w)) = false ->
  0 <= os_next_fd (pr_os (w_ext w)) -> xs <> [] ->
  wp (serve (S turns) fuel n h (length xs)) w (fun rc w' =>
    rc = 0 /\ w_live w' = w_live w + library_blocks (pr_addrs (w_ext w)) /\
    exists cs, served n h 0 xs cs /\
      os_closed (pr_os (w_ext w')) = rev cs ++ os_closed (pr_os (w_ext w)) /\
      os_queue (pr_os (w_ext w')) = rest).
Proof.
  intros Hf Av Hq Hs Hfd Hne. destruct xs as [|x xs]; [done|]. clear Hne. cbn [length serve].
  apply list.Forall_cons in Av as [Av Avs].
  unfold FCGX_Accept. do 3 wp_step. rewrite (fp_library _ Hf). cbn [negb]. wp_step.
  apply wp_Init; [done|]. intros w1 Hh1 B1. change (negb (0 =? 0)) with false. cbv iota.
  eapply wp_serve_next; [exact B1|exact Av|exact Hq|done|done|].
  intros r' c' w2 Ha Hst Hh2 B2. eapply wp_serve; [exact B2|done|done|done|cbn; lia|].
  intros r3 o3 cs w3 Hsv Hh3 B3 Hc3 Hq3. split; [done|].
  split; [destruct Hh1 as [L1 _], Hh2 as [L2 _], Hh3 as [L3 _]; lia|].
  exists (c' :: cs). rewrite Hst in Hsv. split; [by split|]. rewrite (bt_os _ _ _ B3), Hc3. cbn [rev].
  by rewrite <- app_assoc.
Qed.

(** *** Witnesses *)

(** A request that does not ask to keep the connection. *)
Definition t_begin : list byte := [x00; x01; x00; x00; x00; x00; x00; x00].

Definition t_arrival (noise : list accept_answer) (cut : nat) : arrival :=
  let wire := sample_wire_of t_begin in
  Arrival noise (Conn [inr (take cut wire); inr (drop cut wire)] [inr 7] []) 1 t_begin
    (lit "FCGI_ROLE=RESPONDER") sample_params (lit "hello world").

Definition t_arrivals : list arrival :=
  [t_arrival [AcceptFails ECONNABORTED; AcceptStranger] 21; t_arrival [] 3].

(** The input is put out again; an exit status is set when the environment has three entries. *)
Definition t_handler : handler := fun env d =>
  ([Put false d; Flush false; Put true (lit "done")], if (length env =? 3)%nat then Some 4 else None).

Lemma t_arrives noise cut : (0 < cut < 100)%nat -> Forall (passed_over false) noise ->
  arrives 500 (t_arrival noise cut).
Proof.
  intros Hc Hn. set (wire := sample_wire_of t_begin).
  assert (L : length wire = 115%nat) by by vm_compute.
  split; [exact Hn|by apply list.Forall_singleton; exists 7|by vm_compute|].
  exists [take cut wire; drop cut wire], []. split; [done|]. split.
  - repeat (apply list.Forall_cons; split); [..|by apply list.Forall_nil].
    + intros E. apply (f_equal length) in E. rewrite length_take, L in E. cbn [length] in E. lia.
    + intros E. apply (f_equal length) in E. rewrite length_drop, L in E. cbn [length] in E. lia.
  - cbn [concat]. rewrite app_nil_r, take_drop. split; [by apply sample_on_wire_of|rewrite L; lia].
Qed.

Definition t_process : world process :=
  world0 (process_start (Os ∅ (queue_of t_arrivals []) 7 false []) (Some (lit "10.0.0.1"))).

Lemma requests_served_witness :
  wp (serve 1 500 20 t_handler 2) t_process (fun rc w' =>
    rc = 0 /\ w_live w' = 2 /\
    exists cs, served 20 t_handler 0 t_arrivals cs /\
      os_closed (pr_os (w_ext w')) = rev cs ++ [] /\ os_queue (pr_os (w_ext w')) = []).
Proof.
  apply (requests_served 0 500 20 t_handler t_arrivals [] t_process).
  - by split.
  - repeat (apply list.Forall_cons; split); [apply t_arrives..|by apply list.Forall_nil]; [lia| |lia|by apply list.Forall_nil].
    repeat (apply list.Forall_cons; split); [by right|done|by apply list.Forall_nil].
  - reflexivity.
  - reflexivity.
  - vm_compute. discriminate.
  - discriminate.
Defined.
