(* ===== verification/Pull.v ===== *)
(** * Pulling from a CouchDB server (pull/pull.c, pull/pull.h)

    A puller reads the change feed of a remote database, fetches the documents whose
    revision it does not have, and stores them, keeps the local version or asks a conflict
    resolver.  libcurl is a parameter ([Curl]); the theorems say what a run does to the
    documents, for a server that answers each URL with a status and a body or not at all. *)

From S2P Require Import Prelude CFormat Compress Buffer StringUtils Revision ObjectStore DocStore BdbStore Codec CouchRevgen Api.
From Stdlib Require Import Init.Byte.

#[local] Open Scope c_scope.

(** ** libcurl *)

Inductive CURLoption := CURLOPT_URL | CURLOPT_USERNAME | CURLOPT_USERPWD.

Definition CURLE_OK : Z := 0.
Definition CURL_WRITEFUNC_PAUSE : Z := 268435457.

(** The easy interface over handles [C].  [curl_easy_perform] gives the pieces the write
    callback is called with, and the code the call returns, which depends on whether the
    callback took all of them. *)
Class Curl (X C : Type) := {
  curl_easy_init : M X (option C);
  curl_easy_setopt : C -> CURLoption -> list byte -> M X (Z * C);
  curl_easy_transfer : C -> M X (list (list byte) * (bool -> Z));
  curl_easy_getinfo : C -> M X (Z * Z);
  curl_easy_cleanup : C -> M X unit;
}.

(** ** Data *)

Definition LA_PULL_CONTINUOUS : Z := 1.
Definition LA_PULL_SECURE : Z := 2.

Inductive la_pull_resolve_result :=
| LA_PULL_RESOLVE_TAKE_MINE | LA_PULL_RESOLVE_TAKE_THEIRS | LA_PULL_RESOLVE_TAKE_MERGED.

Section pull.
Context {X E S I V J C : Type} `{Jansson V J} `{Curl X C}.
Context (md5 : list byte -> list byte) (fuel : nat) (urandom : option (list byte)).

(** A conflict resolver, from key, our value and theirs to a choice and a merged value. *)
Definition la_pull_conflict_resolver : Type :=
  list byte -> V -> V -> la_pull_resolve_result * option V.

Definition _resolve_mine : la_pull_conflict_resolver :=
  fun _ _ _ => (LA_PULL_RESOLVE_TAKE_MINE, None).
Definition _resolve_theirs : la_pull_conflict_resolver :=
  fun _ _ _ => (LA_PULL_RESOLVE_TAKE_THEIRS, None).
Definition la_pull_conflict_resolver_mine := _resolve_mine.
Definition la_pull_conflict_resolver_theirs := _resolve_theirs.

Record la_pull_params := PullParams {
  pp_host : list byte;
  pp_port : Z;
  pp_dbname : list byte;
  pp_user : option (list byte);
  pp_password : option (list byte);
  pp_filter : option (list byte);
  pp_options : Z;
  pp_resolver : option la_pull_conflict_resolver;
}.

(** Strings as the blocks that hold them, terminator included, where the code frees or
    reallocates them; [url] and [urlbase] are never NULL after creation. *)
Record la_pull := Puller {
  pl_db : la_db X E S I;
  pl_user : option (list byte);
  pl_password : option (list byte);
  pl_options : Z;
  pl_buffer : option la_buffer;
  pl_urlbase : list byte;
  pl_url : list byte;
  pl_sep : byte;
  pl_last_seq : option (list byte);
  pl_resolver : la_pull_conflict_resolver;
}.

Definition with_buffer (b : option la_buffer) (p : la_pull) : la_pull :=
  Puller (pl_db p) (pl_user p) (pl_password p) (pl_options p) b (pl_urlbase p) (pl_url p)
    (pl_sep p) (pl_last_seq p) (pl_resolver p).
Definition with_url (u : list byte) (p : la_pull) : la_pull :=
  Puller (pl_db p) (pl_user p) (pl_password p) (pl_options p) (pl_buffer p) (pl_urlbase p) u
    (pl_sep p) (pl_last_seq p) (pl_resolver p).
Definition with_last_seq (s : option (list byte)) (p : la_pull) : la_pull :=
  Puller (pl_db p) (pl_user p) (pl_password p) (pl_options p) (pl_buffer p) (pl_urlbase p)
    (pl_url p) (pl_sep p) s (pl_resolver p).

(** A pointer the code does not check. *)
Definition deref {A} (p : option A) : M X A :=
  match p with Some a => ret a | None => undef NullDeref end.

(** ** Requests *)

Definition pull_write_cb (buffer : option la_buffer) (ptr : list byte)
  : M X (Z * option la_buffer) :=
  let* b := deref buffer in
  let* '(rc, b) := la_buffer_append b ptr in
  ret (if negb (rc =? 0) then CURL_WRITEFUNC_PAUSE else Z.of_nat (length ptr), Some b).

(** The pieces go to the callback until it does not take one. *)
Fixpoint deliver (chunks : list (list byte)) (buffer : option la_buffer)
  : M X (bool * option la_buffer) :=
  match chunks with
  | [] => ret (true, buffer)
  | chunk :: chunks =>
      let* '(n, buffer) := pull_write_cb buffer chunk in
      if n =? Z.of_nat (length chunk) then deliver chunks buffer else ret (false, buffer)
  end.

Definition curl_easy_perform (curl : C) (buffer : option la_buffer)
  : M X (Z * option la_buffer) :=
  let* '(chunks, code) := curl_easy_transfer curl in
  let* '(taken, buffer) := deliver chunks buffer in
  ret (code taken, buffer).

(** [isalnum] of the C locale; bytes from 128 on are negative [char]s and no letters. *)
Definition isalnum (b : byte) : bool :=
  let c := b2z b in
  is_digit b || ((65 <=? c) && (c <=? 90)) || ((97 <=? c) && (c <=? 122)).

(** [%02x] of a [char] converted to [int]. *)
Definition print_char_02x (b : byte) : list byte :=
  if b2z b <? 128 then print_02x b else lit "ffffff" ++ print_02x b.

Definition url_encode_byte (b : byte) : list byte :=
  if b2z b =? 32 then lit "+"
  else if isalnum b || (b2z b =? 46) || (b2z b =? 45) || (b2z b =? 95) || (b2z b =? 126) then [b]
  else lit "%" ++ print_char_02x b.

(** The loop; the results of the buffer calls are ignored. *)
Fixpoint url_encode_loop (s : list byte) (buffer : la_buffer) : M X la_buffer :=
  match s with
  | [] => ret buffer
  | c :: s =>
      let* '(_, buffer) :=
        if b2z c =? 32 then la_buffer_append buffer (lit "+")
        else if isalnum c || (b2z c =? 46) || (b2z c =? 45) || (b2z c =? 95) || (b2z c =? 126)
             then la_buffer_append buffer [c]
             else la_buffer_appendf buffer (lit "%" ++ print_char_02x c) in
      url_encode_loop s buffer
  end.

(** The block of the encoded string. *)
Definition url_encode (s : list byte) : M X (list byte) :=
  let len := s32 (Z.of_nat (length s)) in
  let* buffer := la_buffer_new (u64 len) in
  let* buffer :=
    match s with [] => ret buffer | _ => let* b := deref buffer in
      let* b := url_encode_loop (take (Z.to_nat len) s) b in ret (Some b) end in
  let* b := deref buffer in
  let* r := la_buffer_string b in
  la_buffer_destroy b ;;; ret r.

(** Options of the request for user and password, whose failure gives up; [None] then. *)
Definition set_credentials (p : la_pull) (curl : C) : M X (option C) :=
  let* curl :=
    match pl_user p with
    | Some user =>
        let* '(code, curl) := curl_easy_setopt curl CURLOPT_USERNAME user in
        if negb (code =? CURLE_OK) then curl_easy_cleanup curl ;;; ret None
        else ret (Some curl)
    | None => ret (Some curl)
    end in
  match curl, pl_password p with
  | Some curl, Some password =>
      let* '(code, curl) := curl_easy_setopt curl CURLOPT_USERPWD password in
      if negb (code =? CURLE_OK) then curl_easy_cleanup curl ;;; ret None
      else ret (Some curl)
  | curl, _ => ret curl
  end.

(** The URL of the feed with the last sequence number appended to it. *)
Definition since_url (p : la_pull) : M X la_pull :=
  match pl_last_seq p with
  | None => ret p
  | Some last_seq =>
      let* url := lift (cstr (pl_url p)) in
      let* seq := lift (cstr last_seq) in
      let* b := la_buffer_new (u64 (Z.of_nat (length url) + Z.of_nat (length seq) + 7)) in
      let* b := deref b in
      let* '(_, b) := la_buffer_append b url in
      let* '(_, b) := la_buffer_appendf b ([pl_sep p] ++ lit "since=" ++ seq) in
      free ;;;
      let* url := la_buffer_string b in
      la_buffer_destroy b ;;;
      ret (with_url url p)
  end.

(** The return value, the puller and the handle. *)
Definition init_changes_feed (p : la_pull) : M X (Z * la_pull * option C) :=
  let* curl := curl_easy_init in
  match curl with
  | None => ret (-1, p, None)
  | Some curl =>
      let* p := since_url p in
      let* url := lift (cstr (pl_url p)) in
      let* '(code, curl) := curl_easy_setopt curl CURLOPT_URL url in
      if negb (code =? CURLE_OK) then curl_easy_cleanup curl ;;; ret (-1, p, None)
      else
        let* curl := set_credentials p curl in
        match curl with
        | None => ret (-1, p, None)
        | Some curl =>
            let* buffer := la_buffer_new 1024 in
            match buffer with
            | None => curl_easy_cleanup curl ;;; ret (-1, with_buffer None p, None)
            | Some b => ret (0, with_buffer (Some b) p, Some curl)
            end
        end
  end.

Definition scheme (options : Z) : list byte :=
  if negb (Z.land options LA_PULL_SECURE =? 0) then lit "https" else lit "http".

Definition free_opt (p : option (list byte)) : M X unit :=
  match p with Some _ => free | None => ret tt end.

(** [strdup] of an optional string: [None] when it fails. *)
Definition dup_opt (s : option (list byte)) : M X (option (option (list byte))) :=
  match s with
  | None => ret (Some None)
  | Some s =>
      let* p := strdup s in
      match p with None => ret None | Some s => ret (Some (Some s)) end
  end.

Definition la_pull_create (db : la_db X E S I) (params : la_pull_params) : M X (option la_pull) :=
  let* puller := malloc 104 in
  match puller with
  | None => ret None
  | Some _ =>
      let* buffer := la_buffer_new 128 in
      match buffer with
      | None => free ;;; ret None
      | Some b =>
          let* '(_, b) := la_buffer_appendf b
            (scheme (pp_options params) ++ lit "://" ++ pp_host params ++ lit ":" ++
             print_llu (u16 (pp_port params)) ++ lit "/" ++ pp_dbname params) in
          let* urlbase := la_buffer_string b in
          let* '(_, b) := la_buffer_append b (lit "/_changes") in
          let* '(b, sep) :=
            match pp_filter params with
            | Some filter =>
                let* '(_, b) := la_buffer_appendf b (lit "?filter=" ++ filter) in
                ret (b, z2b 38)
            | None => ret (b, z2b 63)
            end in
          let* url := la_buffer_string b in
          la_buffer_destroy b ;;;
          let* user := dup_opt (pp_user params) in
          match user with
          | None => free ;;; free ;;; ret None
          | Some user =>
              let* password := dup_opt (pp_password params) in
              match password with
              | None => free_opt user ;;; free ;;; free ;;; ret None
              | Some password =>
                  ret (Some (Puller db user password (pp_options params) None urlbase url sep None
                    (match pp_resolver params with
                     | Some r => r | None => la_pull_conflict_resolver_mine end)))
              end
          end
      end
  end.

(** ** One change *)

(** The member of an object under a name, if it has the type. *)
Definition member (obj : V) (name : list byte) (ok : V -> bool) : option V :=
  match json_object_get obj name with
  | Some v => if ok v then Some v else None
  | None => None
  end.

Definition has_type (t : json_type) (v : V) : bool := bool_decide (json_typeof v = t).

(** Key and revision of an entry of the feed; other entries are skipped. *)
Definition parse_change (change : option V) : option (V * V) :=
  match change with
  | None => None
  | Some change =>
      if negb (has_type JSON_OBJECT change) then None else
      match member change (lit "id") (has_type JSON_STRING) with
      | None => None
      | Some key =>
          match member change (lit "seq") (fun v => has_type JSON_INTEGER v || has_type JSON_STRING v) with
          | None => None
          | Some _ =>
              match member change (lit "changes")
                      (fun v => has_type JSON_ARRAY v && negb (json_array_size v =? 0)) with
              | None => None
              | Some changes_array =>
                  match json_array_get changes_array 0 with
                  | None => None
                  | Some change_obj =>
                      if negb (has_type JSON_OBJECT change_obj) then None else
                      match member change_obj (lit "rev") (has_type JSON_STRING) with
                      | None => None
                      | Some revobj => Some (key, revobj)
                      end
                  end
              end
          end
      end
  end.

Definition string_value (v : V) : M X (list byte) := deref (json_string_value v).

(** The URL of a revision of a document. *)
Definition document_url (p : la_pull) (key rev : list byte) : M X (list byte) :=
  let* urlbuf := la_buffer_new 256 in
  let* path := url_encode key in
  let* urlbase := lift (cstr (pl_urlbase p)) in
  let* path := lift (cstr path) in
  let* b := deref urlbuf in
  let* '(_, b) := la_buffer_appendf b (urlbase ++ lit "/" ++ path ++ lit "?revs=true&rev=" ++ rev) in
  let* url := la_buffer_string b in
  free ;;;
  la_buffer_destroy b ;;;
  ret url.

(** What is in the puller's buffer, parsed; the buffer is cleared. *)
Definition load_buffer (p : la_pull) : M X (option V * la_pull) :=
  let* b := deref (pl_buffer p) in
  let* data := lift (mem_read (la_buffer_data b) 0 (la_buffer_size b)) in
  let* v := la_codec_loadb data in
  let* b := la_buffer_clear b in
  ret (v, with_buffer (Some b) p).

(** Fetches a revision: the object, or [None] when the change is given up. *)
Definition fetch (p : la_pull) (key rev : list byte) : M X (option V * la_pull) :=
  let* url := document_url p key rev in
  let* fetch := curl_easy_init in
  match fetch with
  | None => free ;;; ret (None, p)
  | Some fetch =>
      let* url := lift (cstr url) in
      let* '(code, fetch) := curl_easy_setopt fetch CURLOPT_URL url in
      if negb (code =? CURLE_OK) then free ;;; curl_easy_cleanup fetch ;;; ret (None, p)
      else
        free ;;;
        let* fetch := set_credentials p fetch in
        match fetch with
        | None => ret (None, p)
        | Some fetch =>
            let* '(code, buffer) := curl_easy_perform fetch (pl_buffer p) in
            let p := with_buffer buffer p in
            curl_easy_cleanup fetch ;;;
            if negb (code =? CURLE_OK) then ret (None, p)
            else
              let* '(object, p) := load_buffer p in
              match object with
              | Some object => if has_type JSON_OBJECT object then ret (Some object, p) else ret (None, p)
              | None => ret (None, p)
              end
        end
  end.

(** The loop that scans the remote revisions [j], ..., [j + n - 1] into the block. *)
Fixpoint scan_revs (n : nat) (j : Z) (ids : V) (remote_revs : list byte) : M X (list byte) :=
  match n with
  | O => ret remote_revs
  | Datatypes.S n =>
      let* id := deref (json_array_get ids j) in
      let* s := string_value id in
      let* r := lift (mem_read remote_revs (REV_LEN * j) REV_LEN) in
      let* '(_, r) := lift (la_storage_scan_rev s r) in
      let* remote_revs := lift (mem_write remote_revs (REV_LEN * j) r) in
      scan_revs n (j + 1) ids remote_revs
  end.

(** The history of a fetched object: what is left of it, the revisions object, the block of
    revisions and their number. *)
Definition remote_history (object : V) : M X (option (V * V * list byte * Z)) :=
  match member object (lit "_revisions") (has_type JSON_OBJECT) with
  | None => la_codec_decref (Some object) ;;; ret None
  | Some revisions =>
      let* _ := la_codec_incref revisions in
      let object := json_object_del object (lit "_revisions") in
      let drop_both := la_codec_decref (Some revisions) ;;; la_codec_decref (Some object) ;;; ret None in
      match member revisions (lit "start") (has_type JSON_INTEGER) with
      | None => drop_both
      | Some _ =>
          match member revisions (lit "ids") (has_type JSON_ARRAY) with
          | None => drop_both
          | Some ids =>
              let revslen := s32 (json_array_size ids) in
              let* remote_revs := malloc (u64 (REV_LEN * revslen)) in
              match remote_revs with
              | None => drop_both
              | Some remote_revs =>
                  let* remote_revs := scan_revs (Z.to_nat revslen) 0 ids remote_revs in
                  ret (Some (object, revisions, remote_revs, revslen))
              end
          end
      end
  end.

(** The local history with the current revision in front; [None] when memory runs out. *)
Definition local_history (p : la_pull) (key : list byte) (cur : rev_t) (object revisions : V)
  : M X (option (list byte * Z)) :=
  let* '(count, res) := la_db_get_allrevs (pl_db p) key in
  let count := s32 count in
  match res with
  | Some (_, Some local_revs) =>
      if 0 <? count then
        let* r := realloc local_revs (u64 ((count + 1) * REV_LEN)) in
        match r with
        | None => la_codec_decref (Some revisions) ;;; la_codec_decref (Some object) ;;; free ;;; ret None
        | Some r =>
            let* r := lift (mem_move r REV_LEN 0 (REV_LEN * count)) in
            let* r := lift (mem_write r 0 cur) in
            ret (Some (r, count + 1))
        end
      else
        let* r := malloc REV_LEN in
        match r with
        | None => la_codec_decref (Some object) ;;; ret None
        | Some r => let* r := lift (mem_write r 0 cur) in ret (Some (r, 1))
        end
  | _ =>
      let* r := malloc REV_LEN in
      match r with
      | None => la_codec_decref (Some object) ;;; ret None
      | Some r => let* r := lift (mem_write r 0 cur) in ret (Some (r, 1))
      end
  end.

(** [la_rev_scan] into a fresh structure; the code does not look at the result, so the
    structure counts as set only when the scan succeeds. *)
Definition scan_rev (s : list byte) : option la_rev :=
  let '(rc, r) := la_rev_scan s (LaRev 0 (replicate 16 x00)) in
  if rc <? 0 then None else Some r.

Definition initialised {A} (a : option A) : M X A :=
  match a with Some a => ret a | None => undef Uninitialised end.

(** [la_db_replace] with all but the first of the remote revisions. *)
Definition replace_remote (p : la_pull) (key : list byte) (thatrev : option la_rev) (value : V)
  (remote_revs : list byte) (revslen : Z) : M X la_db_put_result :=
  let* thatrev := initialised thatrev in
  la_db_replace md5 fuel (pl_db p) (Some key) (Some thatrev) (Some value)
    (Some (drop (Z.to_nat REV_LEN) remote_revs)) (u64 (revslen - 1)).

(** The conflict between the document of the database and a fetched one. *)
Definition resolve_conflict (p : la_pull) (key : list byte) (rev : la_rev) (thatrev : option la_rev)
  (object revisions : V) (remote_revs : list byte) (revslen : Z) : M X unit :=
  let* '(res, myvalue, _) := la_db_get (pl_db p) key None true in
  match res with
  | LA_DB_GET_OK =>
      let* myvalue := initialised myvalue in
      let* _ := la_codec_from_json object in
      let '(choice, mergedvalue) := pl_resolver p key myvalue object in
      (match choice with
       | LA_PULL_RESOLVE_TAKE_MINE => ret tt
       | LA_PULL_RESOLVE_TAKE_THEIRS =>
           let* _ := replace_remote p key thatrev object remote_revs revslen in ret tt
       | LA_PULL_RESOLVE_TAKE_MERGED =>
           match mergedvalue with
           | Some v => let* _ := la_db_put md5 fuel urandom (pl_db p) (Some key) (Some rev) v in ret tt
           | None => ret tt
           end
       end) ;;;
      la_codec_decref (Some myvalue) ;;;
      la_codec_decref (Some object) ;;;
      la_codec_decref mergedvalue ;;;
      free
  | _ => undef Uninitialised
  end.

(** What is done with a fetched object.  [local] is the current revision when there is a
    local document. *)
Definition merge (p : la_pull) (key : list byte) (local : option la_rev) (thatrev : option la_rev)
  (object : V) : M X unit :=
  let* h := remote_history object in
  match h with
  | None => ret tt
  | Some (object, revisions, remote_revs, revslen) =>
      match local with
      | None =>
          let* _ := la_codec_from_json object in
          let* _ := replace_remote p key thatrev object remote_revs revslen in
          la_codec_decref (Some object) ;;;
          la_codec_decref (Some object) ;;;
          la_codec_decref (Some revisions)
      | Some rev =>
          let* l := local_history p key (rrev rev) object revisions in
          match l with
          | None => ret tt
          | Some (local_revs, myrevcount) =>
              let* behind := lift (la_storage_revs_overlap local_revs myrevcount remote_revs revslen) in
              if negb (behind =? 0) then
                free ;;;
                let* _ := la_codec_from_json object in
                let* _ := replace_remote p key thatrev object remote_revs revslen in
                la_codec_decref (Some object)
              else
                let* ahead := lift (la_storage_revs_overlap remote_revs revslen local_revs myrevcount) in
                if ahead =? 0 then
                  free ;;;
                  resolve_conflict p key rev thatrev object revisions remote_revs revslen
                else ret tt
          end
      end
  end.

(** The body of the loop of [la_pull_run]. *)
Definition pull_change (p : la_pull) (change : option V) : M X la_pull :=
  match parse_change change with
  | None => ret p
  | Some (keyv, revv) =>
      let* key := string_value keyv in
      let* revstr := string_value revv in
      let thatrev := scan_rev revstr in
      let* '(res, _, rev) := la_db_get (pl_db p) key None false in
      match res with
      | LA_DB_GET_ERROR => ret p
      | LA_DB_GET_NOT_FOUND =>
          let* '(object, p) := fetch p key revstr in
          match object with
          | None => ret p
          | Some object => merge p key None thatrev object ;;; ret p
          end
      | LA_DB_GET_OK =>
          let* rev := initialised rev in
          let* that := initialised thatrev in
          if bool_decide (rrev rev = rrev that) then ret p
          else
            let* '(object, p) := fetch p key revstr in
            match object with
            | None => ret p
            | Some object => merge p key (Some rev) thatrev object ;;; ret p
            end
      end
  end.

(** The loop, for the [n] changes from [i]. *)
Fixpoint pull_changes (n : nat) (i : Z) (results : V) (p : la_pull) : M X la_pull :=
  match n with
  | O => ret p
  | Datatypes.S n =>
      let* p := pull_change p (json_array_get results i) in
      pull_changes n (i + 1) results p
  end.

(** ** A run *)

(** The last sequence number of the feed as text, if it has one and the library prints it. *)
Definition store_last_seq (p : la_pull) (changes : V) : M X la_pull :=
  free_opt (pl_last_seq p) ;;;
  match json_object_get changes (lit "last_seq") with
  | None => ret (with_last_seq None p)
  | Some seq =>
      match json_dump seq with
      | None => ret (with_last_seq None p)
      | Some chunks => lib_alloc ;;; ret (with_last_seq (Some (concat chunks ++ [NUL])) p)
      end
  end.

Definition la_pull_run (p : la_pull) : M X (Z * la_pull) :=
  let* '(rc, p, curl) := init_changes_feed p in
  match curl with
  | None => ret (-1, p)
  | Some curl =>
      if negb (rc =? 0) then ret (-1, p) else
      let* '(code, buffer) := curl_easy_perform curl (pl_buffer p) in
      let p := with_buffer buffer p in
      if negb (code =? CURLE_OK) then ret (-1, p)
      else
        let* '(code, status) := curl_easy_getinfo curl in
        if negb (code =? CURLE_OK) then ret (-1, p)
        else
          curl_easy_cleanup curl ;;;
          if negb (status =? 200) then ret (-1, p)
          else
            let* '(changes, p) := load_buffer p in
            match changes with
            | None => ret (-1, p)
            | Some changes =>
                if negb (has_type JSON_OBJECT changes) then ret (-1, p)
                else
                  let* p := store_last_seq p changes in
                  match member changes (lit "results") (has_type JSON_ARRAY) with
                  | None => la_codec_decref (Some changes) ;;; ret (-1, p)
                  | Some results =>
                      let len := s32 (json_array_size results) in
                      let* p := pull_changes (Z.to_nat len) 0 results p in
                      la_codec_decref (Some changes) ;;;
                      if negb (Z.land (pl_options p) LA_PULL_CONTINUOUS =? 0) then
                        let* '(_, p, _) := init_changes_feed p in ret (0, p)
                      else ret (0, p)
                  end
            end
  end.

Definition la_pull_pause (p : la_pull) : M X Z := ret 0.
Definition la_pull_destroy (p : la_pull) : M X unit := ret tt.
End pull.

(** ** What the network answers *)

(** A step that leaves the database's state alone. *)
Definition quiet {X} (w w' : world X) : Prop :=
  w_ext w' = w_ext w /\ (mem_ok w -> mem_ok w').

Lemma frame_quiet {X} d (w w' : world X) : frame d w w' -> quiet w w'.
Proof. by intros (? & _ & ?). Qed.

Lemma quiet_refl {X} (w : world X) : quiet w w.
Proof. done. Qed.

(** A server reached without errors of the library: [serve] is the status and the body for
    an URL, or [None] when the transfer fails before anything arrives. *)
Class CurlServer {X C : Type} `{Curl X C} (serve : list byte -> option (Z * list byte)) := {
  url_of : C -> option (list byte);
  init_law (w : world X) Q :
    (forall h w', quiet w w' -> Q (Some h) w') -> wp curl_easy_init w Q;
  setopt_law h o s (w : world X) Q :
    (forall h' w', quiet w w' ->
       url_of h' = match o with CURLOPT_URL => Some s | _ => url_of h end -> Q (CURLE_OK, h') w') ->
    wp (curl_easy_setopt h o s) w Q;
  transfer_law h u (w : world X) Q :
    url_of h = Some u ->
    (forall chunks code w', quiet w w' ->
       match serve u with
       | Some (_, body) =>
           concat chunks = body /\ (length chunks <= S (length body))%nat /\ code true = CURLE_OK
       | None => chunks = [] /\ code true <> CURLE_OK
       end -> Q (chunks, code) w') ->
    wp (curl_easy_transfer h) w Q;
  getinfo_law h u (w : world X) Q :
    url_of h = Some u ->
    (forall status w', quiet w w' ->
       match serve u with Some (st, _) => status = st | None => True end ->
       Q (CURLE_OK, status) w') ->
    wp (curl_easy_getinfo h) w Q;
  cleanup_law h (w : world X) Q :
    (forall w', quiet w w' -> Q tt w') -> wp (curl_easy_cleanup h) w Q;
}.

(** The URL encoding of a string. *)
Definition url_encoded (s : list byte) : list byte := concat (map url_encode_byte s).

Lemma length_url_encode_byte b : (length (url_encode_byte b) <= 9)%nat.
Proof.
  unfold url_encode_byte, print_char_02x.
  destruct (b2z b =? 32); [simpl; lia|]. destruct (_ || _); [simpl; lia|].
  destruct (b2z b <? 128); simpl; lia.
Qed.

Lemma length_url_encoded s : (length (url_encoded s) <= 9 * length s)%nat.
Proof.
  induction s as [|b s IH]; [done|].
  change (url_encoded (b :: s)) with (url_encode_byte b ++ url_encoded s).
  rewrite length_app. pose proof (length_url_encode_byte b). cbn [length]. lia.
Qed.

Lemma url_encode_byte_cstring b : cstring (url_encode_byte b).
Proof.
  destruct b; apply (bool_decide_unpack _); vm_compute; reflexivity.
Qed.

Lemma url_encoded_cstring s : cstring (url_encoded s).
Proof.
  induction s as [|b s IH]; [by apply cstring_nil|].
  change (url_encoded (b :: s)) with (url_encode_byte b ++ url_encoded s).
  apply cstring_app. split; [apply url_encode_byte_cstring|done].
Qed.

Section good.
Context {X E S I : Type} (drv : la_object_store_driver X E S I) (st : S) `{!DocStore drv st}.
Implicit Types w : world X.

(** A world with the documents [m], next sequence number [n], and no failing calls. *)
Definition good w (m : gmap (list byte) doc) (n : Z) : Prop :=
  ds_repr w m n /\ ds_healthy w /\ mem_ok w.

Lemma good_quiet w w' m n : quiet w w' -> good w m n -> good w' m n.
Proof.
  intros [He Hm] (Hr & Hh & Ho). split; [by eapply ds_repr_frame|].
  split; [by eapply ds_healthy_frame|auto].
Qed.

Lemma good_frame d w w' m n : frame d w w' -> good w m n -> good w' m n.
Proof. intros Hf%frame_quiet. by apply good_quiet. Qed.

Context (m : gmap (list byte) doc) (n : Z).

Lemma g_new c w (Q : option la_buffer -> world X -> Prop) :
  0 <= c < 2 ^ 60 -> good w m n ->
  (forall b w', wf b -> ptr_owned b = true -> contents b = [] -> capacity b <= c + 1024 ->
     good w' m n -> Q (Some b) w') ->
  wp (la_buffer_new c) w Q.
Proof.
  intros Hc Hg HQ. apply la_buffer_new_spec; [lia| |].
  - intros b w1 Hwf Hct Hcap Ho _ Hf. apply HQ; try done; [|by eapply good_frame].
    rewrite Hcap, cap_spec. lia.
  - intros w1 Hno _. exfalso. apply Hno. split; [apply Hg|]. rewrite cap_spec. unfold PTRDIFF_MAX. lia.
Qed.

Lemma g_append b data w (Q : Z * la_buffer -> world X -> Prop) :
  wf b -> ptr_owned b = true -> capacity b + Z.of_nat (length data) < 2 ^ 60 -> good w m n ->
  (forall b' w', wf b' -> ptr_owned b' = true -> contents b' = contents b ++ data ->
     capacity b' <= capacity b + Z.of_nat (length data) + 1024 -> good w' m n -> Q (0, b') w') ->
  wp (la_buffer_append b data) w Q.
Proof.
  intros Hwf Ho Hcap Hg HQ. pose proof (wf_bounds b Hwf) as HB. unfold grown in *.
  apply la_buffer_append_spec; [done|unfold SIZE_MAX; lia| |].
  - intros b1 w1 (Hwf1 & Hc1 & Ho1) Hcap1 Hf1.
    apply HQ; [done|congruence|done| |by eapply good_frame].
    unfold grown in Hcap1. rewrite cap_spec in Hcap1. lia.
  - intros w1 Hno _. exfalso. apply Hno. right. split; [done|]. split; [apply Hg|].
    unfold grown. rewrite cap_spec. unfold PTRDIFF_MAX. lia.
Qed.

Lemma g_appendf b data w (Q : Z * la_buffer -> world X -> Prop) :
  wf b -> ptr_owned b = true -> Z.of_nat (length data) <= INT_MAX ->
  capacity b + Z.of_nat (length data) < 2 ^ 60 -> good w m n ->
  (forall b' w', wf b' -> ptr_owned b' = true -> contents b' = contents b ++ data ->
     capacity b' <= capacity b + Z.of_nat (length data) + 1024 -> good w' m n -> Q (0, b') w') ->
  wp (la_buffer_appendf b data) w Q.
Proof.
  intros Hwf Ho Hint Hcap Hg HQ. pose proof (wf_bounds b Hwf) as HB.
  apply la_buffer_appendf_spec; [done|done|unfold SIZE_MAX; lia| |].
  - intros b1 w1 (Hwf1 & Hc1 & Ho1) Hcap1 Hf1.
    apply HQ; [done|congruence|done| |by eapply good_frame].
    unfold grown in Hcap1. rewrite cap_spec in Hcap1. lia.
  - intros w1 Hno _. exfalso. apply Hno. right. split; [done|]. split; [apply Hg|].
    unfold grown. rewrite cap_spec. unfold PTRDIFF_MAX. lia.
Qed.

Lemma g_string b w (Q : list byte -> world X -> Prop) :
  wf b -> capacity b < 2 ^ 62 -> good w m n ->
  (forall w', good w' m n -> Q (contents b ++ [NUL]) w') -> wp (la_buffer_string b) w Q.
Proof.
  intros Hwf Hc Hg HQ. pose proof (wf_bounds b Hwf).
  apply la_buffer_string_spec; [done|apply Hg|unfold PTRDIFF_MAX; lia|].
  intros w1 Hf. apply HQ. by eapply good_frame.
Qed.

Lemma g_destroy b w (Q : unit -> world X -> Prop) :
  good w m n -> (forall w', good w' m n -> Q tt w') -> wp (la_buffer_destroy b) w Q.
Proof.
  intros Hg HQ. apply la_buffer_destroy_spec. intros w1 Hf. apply HQ. by eapply good_frame.
Qed.

Lemma g_clear b w (Q : la_buffer -> world X -> Prop) :
  wf b -> ptr_owned b = true -> good w m n ->
  (forall b' w', wf b' -> ptr_owned b' = true -> contents b' = [] -> capacity b' <= 1024 ->
     good w' m n -> Q b' w') ->
  wp (la_buffer_clear b) w Q.
Proof.
  intros Hwf Ho Hg HQ. unfold la_buffer_clear. wp_step.
  pose proof (wf_bounds b Hwf). apply la_buffer_truncate_spec; [done|done| |lia].
  intros b1 w1 _ (Hwf1 & Hc1 & Ho1) _ Hf1. rewrite take_0 in Hc1. wp_step.
  assert (good w1 m n) as Hg1 by (by eapply good_frame).
  apply la_buffer_compact_spec; [done| |intros w2 []; apply Hg1].
  intros b2 w2 (Hwf2 & Hc2 & Ho2) _ Hcap Hf2. wp_step.
  apply HQ; [done|congruence|congruence| |by eapply good_frame].
  rewrite Hcap by congruence. pose proof (contents_length b1 Hwf1) as HL. rewrite Hc1 in HL.
  pose proof (wf_bounds b1 Hwf1). simpl in HL. lia.
Qed.

Lemma g_free w (Q : unit -> world X -> Prop) :
  good w m n -> (forall w', good w' m n -> Q tt w') -> wp free w Q.
Proof. intros Hg HQ. apply wp_free. intros w1 Hf _. apply HQ. by eapply good_frame. Qed.

Lemma g_malloc k w (Q : option (list byte) -> world X -> Prop) :
  0 <= k <= PTRDIFF_MAX -> good w m n ->
  (forall blk w', length blk = Z.to_nat k -> good w' m n -> Q (Some blk) w') -> wp (malloc k) w Q.
Proof.
  intros Hk Hg HQ. apply wp_malloc; [lia| |].
  - intros blk w1 Hl _ Hf _. apply HQ; [done|]. by eapply good_frame.
  - intros w1 Hno _. exfalso. apply Hno. split; [apply Hg|lia].
Qed.

Lemma g_new_ref {V} (v : option V) w (Q : option V -> world X -> Prop) :
  good w m n -> (forall w', good w' m n -> Q v w') -> wp (new_ref v) w Q.
Proof. intros Hg HQ. apply wp_new_ref. intros w1 Hf. apply HQ. by eapply good_frame. Qed.

Lemma g_decref {V} (v : option V) w (Q : unit -> world X -> Prop) :
  good w m n -> (forall w', good w' m n -> Q tt w') -> wp (la_codec_decref v) w Q.
Proof. intros Hg HQ. apply wp_decref. intros w1 Hf. apply HQ. by eapply good_frame. Qed.
End good.

(** ** Fetching *)

(** A step of a run, through checked and unchecked pointers as well. *)
Ltac step :=
  lazymatch goal with
  | |- wp (deref (Some _)) _ _ => cbn [deref]; wp_step
  | |- wp (initialised (Some _)) _ _ => cbn [initialised]; wp_step
  | |- _ => wp_step
  end.

Definition serve_small (serve : list byte -> option (Z * list byte)) : Prop :=
  forall u st body, serve u = Some (st, body) -> Z.of_nat (length body) < 2 ^ 31.

(** The object a URL gives, if it gives one. *)
Definition fetched {V J} `{Jansson V J} (serve : list byte -> option (Z * list byte))
  (u : list byte) : option V :=
  match serve u with
  | Some (_, body) =>
      match json_loadb body with
      | Some v => if has_type JSON_OBJECT v then Some v else None
      | None => None
      end
  | None => None
  end.

Definition doc_url (base key rev : list byte) : list byte :=
  base ++ lit "/" ++ url_encoded key ++ lit "?revs=true&rev=" ++ rev.

(** The buffer between two requests. *)
Definition fresh (b : la_buffer) : Prop :=
  wf b /\ ptr_owned b = true /\ contents b = [] /\ capacity b <= 2 ^ 32.

Section fetch.
Context {X E S I V J C : Type} `{JanssonLaws V J}.
Context (serve : list byte -> option (Z * list byte)) `{!Curl X C} `{!CurlServer serve}.
Context (serve_ok : serve_small serve).
Context (drv : la_object_store_driver X E S I) (st : S) `{!DocStore drv st}.
Context (m : gmap (list byte) doc) (n : Z).
Implicit Types w : world X.
Abbreviation good w := (good drv st w m n).

Lemma g_url_encode_loop s : forall b w (Q : la_buffer -> world X -> Prop),
  wf b -> ptr_owned b = true -> capacity b + 1100 * Z.of_nat (length s) < 2 ^ 60 -> good w ->
  (forall b' w', wf b' -> contents b' = contents b ++ url_encoded s -> capacity b' < 2 ^ 60 ->
     good w' -> Q b' w') ->
  wp (url_encode_loop s b) w Q.
Proof.
  induction s as [|c s IH]; intros b w Q Hwf Ho Hcap Hg HQ; cbn [url_encode_loop].
  - step. apply HQ; [done|by rewrite app_nil_r|simpl in Hcap; lia|done].
  - cbn [length] in Hcap. pose proof (length_url_encode_byte c) as HL.
    assert (forall b1 w1, wf b1 -> ptr_owned b1 = true -> contents b1 = contents b ++ url_encode_byte c ->
      capacity b1 <= capacity b + Z.of_nat (length (url_encode_byte c)) + 1024 -> good w1 ->
      wp (url_encode_loop s b1) w1 Q) as HK.
    { intros b1 w1 Hwf1 Ho1 Hc1 Hcap1 Hg1. apply IH; [done|done|lia|done|].
      intros b2 w2 Hwf2 Hc2 Hcap2 Hg2. apply HQ; [done| |done|done].
      change (url_encoded (c :: s)) with (url_encode_byte c ++ url_encoded s).
      by rewrite Hc2, Hc1, <- app_assoc. }
    step. revert HL HK. unfold url_encode_byte. intros HL HK.
    destruct (b2z c =? 32).
    + eapply g_append; [done|done|lia|done|]. intros b1 w1 ?????. by apply HK.
    + destruct (_ || _); [eapply g_append|eapply g_appendf]; try done; try (unfold INT_MAX; lia);
        intros b1 w1 ?????; by apply HK.
Qed.

Lemma g_url_encode s w (Q : list byte -> world X -> Prop) :
  Z.of_nat (length s) < 2 ^ 31 -> good w ->
  (forall w', good w' -> Q (url_encoded s ++ [NUL]) w') -> wp (url_encode s) w Q.
Proof.
  intros Hs Hg HQ. unfold url_encode. cbv zeta.
  assert (s32 (Z.of_nat (length s)) = Z.of_nat (length s)) as ->
    by (unfold s32; rewrite Z.mod_small; lia).
  assert (u64 (Z.of_nat (length s)) = Z.of_nat (length s)) as ->
    by (unfold u64; rewrite Z.mod_small; lia).
  rewrite Nat2Z.id, take_ge by lia.
  step. eapply g_new; [lia|exact Hg|]. intros b w1 Hwf Ho Hct Hcap Hg1. step.
  assert (wp (match s with [] => ret (Some b) | _ :: _ => let* b := deref (Some b) in
     let* b := url_encode_loop s b in ret (Some b) end) w1 (fun r w2 =>
     exists b2, r = Some b2 /\ wf b2 /\ contents b2 = url_encoded s /\ capacity b2 < 2 ^ 60 /\ good w2))
    as HW.
  { destruct s as [|c s].
    - step. exists b. split_and!; try done. simpl in Hcap. lia.
    - step. step. step. eapply g_url_encode_loop; [done|done|lia|done|].
      intros b2 w2 Hwf2 Hc2 Hcap2 Hg2. step. exists b2. rewrite Hc2, Hct. done. }
  eapply wp_mono; [exact HW|]. intros r w2 (b2 & -> & Hwf2 & Hc2 & Hcap2 & Hg2).
  step. step. step. eapply g_string; [done|lia|done|]. intros w3 Hg3. rewrite Hc2.
  step. eapply g_destroy; [done|]. intros w4 Hg4. step. by apply HQ.
Qed.

Lemma g_deliver chunks : forall b w (Q : bool * option la_buffer -> world X -> Prop),
  wf b -> ptr_owned b = true ->
  capacity b + 1024 * Z.of_nat (length chunks) + Z.of_nat (length (concat chunks)) < 2 ^ 60 ->
  good w ->
  (forall b' w', wf b' -> ptr_owned b' = true -> contents b' = contents b ++ concat chunks ->
     good w' -> Q (true, Some b') w') ->
  wp (deliver chunks (Some b)) w Q.
Proof.
  induction chunks as [|ch chunks IH]; intros b w Q Hwf Ho Hcap Hg HQ; cbn [deliver].
  - step. apply HQ; [done|done|by rewrite app_nil_r|done].
  - cbn [concat length] in *. rewrite length_app in Hcap.
    step. unfold pull_write_cb. step. step. step.
    eapply g_append; [done|done|lia|exact Hg|]. intros b1 w1 Hwf1 Ho1 Hc1 Hcap1 Hg1. step.
    cbn [negb Z.eqb]. rewrite Z.eqb_refl. apply IH; [done|done|lia|done|].
    intros b2 w2 Hwf2 Ho2 Hc2 Hg2. apply HQ; [done|done| |done]. by rewrite Hc2, Hc1, <- app_assoc.
Qed.

(** A transfer into the buffer between two requests. *)
Lemma g_perform h u b w (Q : Z * option la_buffer -> world X -> Prop) :
  url_of h = Some u -> fresh b -> good w ->
  (forall code b' w', good w' -> wf b' -> ptr_owned b' = true ->
     match serve u with
     | Some (_, body) => code = CURLE_OK /\ contents b' = body
     | None => code <> CURLE_OK /\ fresh b'
     end -> Q (code, Some b') w') ->
  wp (curl_easy_perform h (Some b)) w Q.
Proof.
  intros Hu (Hwf & Ho & Hct & Hcap) Hg HQ. unfold curl_easy_perform. step.
  eapply transfer_law; [exact Hu|]. intros chunks code w1 Hq Hs. step.
  assert (good w1) as Hg1 by (by eapply good_quiet).
  specialize (serve_ok u). destruct (serve u) as [[status body]|].
  - destruct Hs as (Hc & Hn & Hcode). specialize (serve_ok status body eq_refl).
    apply g_deliver; [done|done|rewrite Hc; lia|done|].
    intros b1 w2 Hwf1 Ho1 Hct1 Hg2. step. apply HQ; [done|done|done|].
    by rewrite Hct1, Hct, Hc.
  - destruct Hs as [-> Hcode]. cbn [deliver]. step. step. by apply HQ.
Qed.

Context (env : option E) (name : list byte) (c : option la_compressor).
Abbreviation puller := (la_pull (X := X) (E := E) (S := S) (I := I) (V := V)).

Lemma g_load_buffer (p : puller) b w (Q : option V * puller -> world X -> Prop) :
  pl_buffer p = Some b -> wf b -> ptr_owned b = true -> good w ->
  (forall b' w', fresh b' -> good w' ->
     Q (json_loadb (contents b), with_buffer (Some b') p) w') ->
  wp (load_buffer p) w Q.
Proof.
  intros Hb Hwf Ho Hg HQ. unfold load_buffer. step. rewrite Hb. step. step.
  rewrite contents_read by done. step. step. eapply g_new_ref; [exact Hg|].
  intros w1 Hg1. step. eapply g_clear; [done|done|exact Hg1|]. intros b2 w2 Hwf2 Ho2 Hc2 Hcap2 Hg2.
  step. apply HQ; [|done]. split_and!; try done. lia.
Qed.

Lemma g_credentials (p : puller) h u w (Q : option C -> world X -> Prop) :
  url_of h = Some u -> good w ->
  (forall h' w', url_of h' = Some u -> good w' -> Q (Some h') w') ->
  wp (set_credentials p h) w Q.
Proof.
  intros Hu Hg HQ. unfold set_credentials.
  assert (wp (match pl_user p with
    | Some user =>
        let* '(code, curl) := curl_easy_setopt h CURLOPT_USERNAME user in
        if negb (code =? CURLE_OK) then curl_easy_cleanup curl ;;; ret None
        else ret (Some curl)
    | None => ret (Some h)
    end) w (fun r w' => exists h', r = Some h' /\ url_of h' = Some u /\ good w')) as HU.
  { destruct (pl_user p) as [user|]; [|step; by exists h].
    step. apply setopt_law. intros h1 w1 Hq Hh. cbn [negb CURLE_OK Z.eqb]. step.
    exists h1. split; [done|]. split; [congruence|]. by eapply good_quiet. }
  step. eapply wp_mono; [exact HU|]. intros r w1 (h1 & -> & Hu1 & Hg1).
  destruct (pl_password p) as [password|]; [|step; by apply HQ].
  step. apply setopt_law. intros h2 w2 Hq Hh. cbn [negb CURLE_OK Z.eqb]. step.
  apply HQ; [congruence|]. by eapply good_quiet.
Qed.

Definition short (s : list byte) : Prop := Z.of_nat (length s) < 2 ^ 27.

Lemma g_document_url (p : puller) base key rev w (Q : list byte -> world X -> Prop) :
  pl_urlbase p = base ++ [NUL] -> cstring base -> short base -> short key -> short rev -> good w ->
  (forall w', good w' -> Q (doc_url base key rev ++ [NUL]) w') ->
  wp (document_url p key rev) w Q.
Proof.
  unfold short. intros Hb Hcb Hlb Hlk Hlr Hg HQ. unfold document_url.
  step. eapply g_new; [lia|exact Hg|]. intros b w1 Hwf Ho Hct Hcap Hg1. step.
  apply g_url_encode; [lia|done|]. intros w2 Hg2. step. rewrite Hb, cstr_app by done.
  step. step. rewrite cstr_app by apply url_encoded_cstring. step. step. step. step.
  pose proof (length_url_encoded key).
  eapply g_appendf; [done|done| | |exact Hg2|].
  1,2: unfold INT_MAX; rewrite !length_app; simpl; lia.
  intros b1 w3 Hwf1 Ho1 Hc1 Hcap1 Hg3. step.
  rewrite !length_app in Hcap1. simpl in Hcap1.
  eapply g_string; [done|lia|done|]. intros w4 Hg4.
  step. eapply g_free; [done|]. intros w5 Hg5. step. eapply g_destroy; [done|].
  intros w6 Hg6. step. rewrite Hc1, Hct. by apply HQ.
Qed.

(** Fetching gives what the server has under the URL of the revision. *)
Lemma g_fetch (p : puller) b base key rev w (Q : option V * puller -> world X -> Prop) :
  pl_buffer p = Some b -> fresh b ->
  pl_urlbase p = base ++ [NUL] -> cstring base -> short base -> short key ->
  cstring rev -> short rev -> good w ->
  (forall b' w', fresh b' -> good w' ->
     Q (fetched serve (doc_url base key rev), with_buffer (Some b') p) w') ->
  wp (fetch p key rev) w Q.
Proof.
  intros Hpb Hfb Hb Hcb Hlb Hlk Hcr Hlr Hg HQ. unfold fetch. step.
  eapply g_document_url; [done..|]. intros w1 Hg1. step.
  apply init_law. intros h w2 Hq2. assert (good w2) as Hg2 by (by eapply good_quiet).
  step. set (u := doc_url base key rev) in *.
  assert (cstring u) as Hcu.
  { unfold u, doc_url. rewrite !cstring_app. split; [done|].
    split; [apply (bool_decide_unpack _); vm_compute; reflexivity|].
    split; [apply url_encoded_cstring|].
    split; [apply (bool_decide_unpack _); vm_compute; reflexivity|done]. }
  rewrite cstr_app by done. step. step.
  apply setopt_law. intros h1 w3 Hq3 Hh1. assert (good w3) as Hg3 by (by eapply good_quiet).
  cbn [negb CURLE_OK Z.eqb]. step. eapply g_free; [done|]. intros w4 Hg4.
  step. eapply g_credentials; [exact Hh1|done|]. intros h2 w5 Hh2 Hg5. step.
  rewrite Hpb. eapply g_perform; [exact Hh2|done|done|]. intros code b1 w6 Hg6 Hwf1 Ho1 Hs.
  step. apply cleanup_law. intros w7 Hq7. assert (good w7) as Hg7 by (by eapply good_quiet).
  unfold fetched in HQ. destruct (serve u) as [[status body]|].
  - destruct Hs as [-> Hct]. cbn [negb CURLE_OK Z.eqb]. step.
    eapply g_load_buffer; [reflexivity|done|done|done|]. intros b2 w8 Hf2 Hg8. rewrite Hct.
    specialize (HQ b2 w8 Hf2 Hg8). destruct (json_loadb body) as [v|]; [|by step].
    by destruct (has_type JSON_OBJECT v); step.
  - destruct Hs as [Hcode Hf1]. rewrite (proj2 (Z.eqb_neq code CURLE_OK) Hcode). cbn [negb].
    step. by apply HQ.
Qed.
End fetch.

(** ** What a change does to the documents *)

(** The current revision of the first history is part of the second. *)
Definition part_of (l1 l2 : list rev_t) : bool :=
  match l1 with [] => false | r :: _ => bool_decide (r ∈ l2) end.

(** The test of the code, the answer of [la_storage_revs_overlap]. *)
Definition overlaps (l1 l2 : list rev_t) : bool :=
  existsb (fun j => bool_decide (l1 `prefix_of` drop j l2) || bool_decide (drop j l2 `prefix_of` l1))
    (List.seq 0 (length l2 - 1)).

Lemma overlap_answer l1 l2 : revs_wf l1 -> revs_wf l2 ->
  la_storage_revs_overlap (concat l1) (Z.of_nat (length l1)) (concat l2) (Z.of_nat (length l2)) =
  Ret (c_bool (overlaps l1 l2)).
Proof.
  intros H1 H2. unfold la_storage_revs_overlap.
  destruct (overlap_loop_spec l1 l2 (length l2 - 1) 0) as (b & Hb & Hiff); [done..|lia|].
  replace (Z.to_nat (Z.of_nat (length l2) - 1)) with (length l2 - 1)%nat by lia.
  change (Z.of_nat 0) with 0 in Hb. rewrite Hb. do 2 f_equal. apply eq_true_iff_eq.
  rewrite Hiff. unfold overlaps.
  rewrite existsb_exists. setoid_rewrite in_seq. setoid_rewrite orb_true_iff.
  setoid_rewrite bool_decide_eq_true. unfold aligned. split; intros (j & Hj & Ha); exists j;
    (split; [lia|done]).
Qed.

(** Two histories of one document: a revision they share has the same known ancestors in
    both, and neither ends in the current revision of the other. *)
Record regular (l1 l2 : list rev_t) : Prop := {
  reg_ancestors : forall i j r, l1 !! i = Some r -> l2 !! j = Some r ->
    aligned (drop i l1) (drop j l2);
  reg_last1 : list.last l1 <> head l2;
  reg_last2 : list.last l2 <> head l1;
}.

Lemma regular_sym l1 l2 : regular l1 l2 -> regular l2 l1.
Proof.
  intros [Ha H1 H2]. split; [|done|done]. intros i j r Hi Hj. destruct (Ha j i r Hj Hi); [right|left]; done.
Qed.

(** On regular histories the code's test finds what it looks for. *)
Lemma overlaps_part_of r l1 l2 : regular (r :: l1) l2 -> overlaps (r :: l1) l2 = part_of (r :: l1) l2.
Proof.
  intros [Ha _ Hl]. apply eq_true_iff_eq. unfold overlaps, part_of.
  rewrite existsb_exists, bool_decide_eq_true. setoid_rewrite in_seq.
  setoid_rewrite orb_true_iff. setoid_rewrite bool_decide_eq_true. split.
  - intros (j & Hj & Hp). destruct (drop j l2) as [|r2 l] eqn:E.
    { apply (f_equal length) in E. rewrite length_drop in E. simpl in E. lia. }
    assert (r2 ∈ l2) by (apply (elem_of_submseteq (r2 :: l)); [left|rewrite <- E;
      apply sublist_submseteq, sublist_drop]).
    by destruct Hp as [[k [= -> _]]|[k [= -> _]]].
  - intros [j Hj]%list_elem_of_lookup. exists j. split; [|by apply (Ha 0%nat j r)].
    pose proof (lookup_lt_Some _ _ _ Hj). destruct (decide (S j = length l2)) as [E|]; [|lia].
    destruct Hl. rewrite last_lookup, <- E. done.
Qed.

(** A revision the server offers for a key: the text it comes under, what it scans to, the
    older revisions, the document without its history, and the bytes stored for it. *)
Record offer (V : Type) := Offer {
  of_key : list byte;
  of_text : list byte;
  of_rev : la_rev;
  of_old : list rev_t;
  of_object : V;
  of_data : list byte;
}.
Arguments Offer {V}.
Arguments of_key {V}.
Arguments of_text {V}.
Arguments of_rev {V}.
Arguments of_old {V}.
Arguments of_object {V}.
Arguments of_data {V}.

Definition history (d : doc) : list rev_t := d_rev d :: d_revs d.

Section spec.
Context {V J : Type} `{Jansson V J} (c : option la_compressor).
Context (resolver : list byte -> V -> V -> la_pull_resolve_result * option V).

Definition of_history (o : offer V) : list rev_t := rrev (of_rev o) :: of_old o.

Definition remote_doc (o : offer V) : doc :=
  replacement (of_rev o) (deleted_flag (of_object o)) (of_old o) (of_data o).

(** How the local document stands to the offer, by the three cases of the comment at
    pull.c:452: behind, when its current revision is part of the history of the offer; ahead,
    when its history has the offered revision; forked otherwise.  [part] is the test for a
    history being part of another. *)
Inductive standing := Same | Behind | Ahead | Forked.

Context (part : list rev_t -> list rev_t -> bool).

Definition standing_of (d : doc) (o : offer V) : standing :=
  if decide (d_rev d = rrev (of_rev o)) then Same
  else if part (history d) (of_history o) then Behind
  else if part (of_history o) (history d) then Ahead
  else Forked.

(** Whether the offer replaces the local document. *)
Definition takes (local : option doc) (o : offer V) : bool :=
  match get_result c true local, local with
  | (LA_DB_GET_ERROR, _, _), _ => false
  | (LA_DB_GET_NOT_FOUND, _, _), _ => true
  | (LA_DB_GET_OK, Some mine, _), Some d =>
      match standing_of d o with
      | Same | Ahead => false
      | Behind => true
      | Forked =>
          match resolver (of_key o) mine (of_object o) with
          | (LA_PULL_RESOLVE_TAKE_THEIRS, _) => true
          | _ => false
          end
      end
  | _, _ => false
  end.

(** Documents and next sequence number after a change: an offer, or nothing usable. *)
Definition pull_entry (s : gmap (list byte) doc * Z) (e : option (offer V))
  : gmap (list byte) doc * Z :=
  match e with
  | Some o =>
      if takes (s.1 !! of_key o) o
      then (<[of_key o := with_seq s.2 (remote_doc o)]> s.1, s.2 + 1)
      else s
  | None => s
  end.

Definition pull_entries (s : gmap (list byte) doc * Z) (es : list (option (offer V)))
  : gmap (list byte) doc * Z := foldl pull_entry s es.

(** Along the run every offer meets a local history that is regular with its own. *)
Fixpoint regular_run (s : gmap (list byte) doc * Z) (es : list (option (offer V))) : Prop :=
  match es with
  | [] => True
  | e :: es =>
      match e with
      | Some o => forall d, s.1 !! of_key o = Some d -> regular (history d) (of_history o)
      | None => True
      end /\ regular_run (pull_entry s e) es
  end.

Lemma pull_entry_seq s e : s.2 <= (pull_entry s e).2 <= s.2 + 1.
Proof. unfold pull_entry. destruct e; [|lia]. case_match; simpl; lia. Qed.

(** The object a server sends for a revision with its history. *)
Definition has_history (object obj : V) (l : list rev_t) : Prop :=
  exists revisions start ids,
    member object (lit "_revisions") (has_type JSON_OBJECT) = Some revisions /\
    obj = json_object_del object (lit "_revisions") /\
    member revisions (lit "start") (has_type JSON_INTEGER) = Some start /\
    member revisions (lit "ids") (has_type JSON_ARRAY) = Some ids /\
    json_array_size ids = Z.of_nat (length l) /\
    forall j r, l !! j = Some r -> exists v, json_array_get ids (Z.of_nat j) = Some v /\
      json_string_value v = Some (hex_string r).

(** Getting with and without the value answers the same. *)
Lemma get_result_value od value :
  (get_result c value od).1.1 = (get_result c true od).1.1 /\
  (get_result c value od).2 = (get_result c true od).2.
Proof. unfold get_result. repeat case_match; done. Qed.

Lemma get_result_ok od : (get_result c true od).1.1 = LA_DB_GET_OK ->
  exists d mine, od = Some d /\
    get_result c true od = (LA_DB_GET_OK, Some mine, Some (LaRev (d_doc_seq d) (d_rev d))).
Proof. unfold get_result. repeat case_match; try done. eauto. Qed.
End spec.

(** On a regular run the code's test and the history test lead to the same documents. *)
Lemma pull_entries_regular {V J} `{Jansson V J} c (resolver : list byte -> V -> V -> la_pull_resolve_result * option V) es :
  forall s, regular_run c resolver part_of s es ->
  pull_entries c resolver overlaps s es = pull_entries c resolver part_of s es.
Proof.
  induction es as [|e es IH]; intros s; [done|]. cbn [regular_run]. intros [He Hr].
  unfold pull_entries in *. cbn [foldl]. rewrite <- IH by done. f_equal.
  destruct e as [o|]; [|done]. cbn [pull_entry].
  assert (takes c resolver overlaps (s.1 !! of_key o) o = takes c resolver part_of (s.1 !! of_key o) o)
    as -> by (unfold takes, standing_of; destruct (s.1 !! of_key o) as [d|]; [|done];
      specialize (He d eq_refl); unfold history, of_history in *;
      rewrite !overlaps_part_of by eauto using regular_sym; done).
  done.
Qed.

Section merge.
Context {X E S I V J C : Type} `{JanssonLaws V J}.
Context (md5 : list byte -> list byte) (fuel : nat) (urandom : option (list byte)).
Context (drv : la_object_store_driver X E S I) (st : S) `{!DocStore drv st}.
Context (env : option E) (name : list byte) (c : option la_compressor).
Implicit Types w : world X.
Abbreviation good := (good drv st).
Abbreviation puller := (la_pull (X := X) (E := E) (S := S) (I := I) (V := V)).
Abbreviation db := (the_db drv st env name c).

(** The server's document can be stored: it has a text, the revision generator can take it,
    and the counters of the header have room. *)
Record storable (o : offer V) : Prop := {
  st_object : la_codec_is_object (Some (of_object o)) = true;
  st_text : exists v, replaced c (of_object o) v (of_data o) /\
    (fuel_for (tree_of v) <= fuel)%nat /\ sizes_ok (tree_of v) = true;
  st_seq : 1 <= rseq (of_rev o) < 2 ^ 63;
  st_rev : length (rrev (of_rev o)) = 16%nat;
  st_int : json_integer (rseq (of_rev o) - 1) <> None;
  st_key : cstring (of_key o) /\ short (of_key o);
  st_doc : doc_wf (remote_doc o);
}.

Lemma storable_history o : storable o -> revs_wf (of_history o).
Proof. intros Ho. constructor; [apply Ho|]. destruct (st_doc o Ho) as (_ & ? & _). done. Qed.

Lemma g_replace_remote (p : puller) o m n w (Q : la_db_put_result -> world X -> Prop) :
  pl_db p = db -> storable o -> good w m n -> 0 <= n < 2 ^ 64 ->
  (forall r w', good w' (<[of_key o := with_seq n (remote_doc o)]> m) (n + 1) -> Q r w') ->
  wp (replace_remote md5 fuel p (of_key o) (Some (of_rev o)) (of_object o)
        (concat (of_history o)) (Z.of_nat (length (of_history o)))) w Q.
Proof.
  intros Hdb Ho (Hr & Hh & Hm) Hn HQ. unfold replace_remote. step. step. rewrite Hdb.
  destruct (st_text o Ho) as (v & Hv & Hf & Hs). destruct (st_key o Ho) as [Hk1 Hk2].
  pose proof (st_doc o Ho) as Hd. pose proof Hd as (_ & _ & _ & Hlc).
  unfold of_history, REV_LEN. cbn [concat length].
  rewrite drop_app_exact by (rewrite (st_rev o Ho); lia).
  assert (u64 (Z.of_nat (Datatypes.S (length (of_old o))) - 1) = Z.of_nat (length (of_old o))) as ->.
  { unfold LA_OBJECT_MAX_REVISION_COUNT in Hlc. cbn [remote_doc replacement d_revs] in Hlc.
    unfold u64. rewrite Z.mod_small; lia. }
  eapply wp_mono.
  { apply (wp_replace md5 fuel drv st env name c (of_key o) (of_rev o) (of_object o)
             (of_old o) v (of_data o) m n w); try done; try apply Ho.
    unfold short, PTRDIFF_MAX in *. lia. }
  intros res w1 (Hhp & Hy & Hres). specialize (Hy Hh). apply HQ.
  destruct res; try (exfalso; tauto).
  destruct Hres as [?|[? _]]; [|done]. split_and!; try done. by eapply heap_mem_ok.
Qed.

Lemma scan_hex (r buf : rev_t) : length r = 16%nat -> length buf = 16%nat ->
  la_storage_scan_rev (hex_string r) buf = Ret (16, r).
Proof.
  intros Hr Hb. pose proof (unhex_loop_hex r [] buf 16) as HU.
  unfold la_storage_scan_rev, string_unhex, REV_LEN. change (unhex_loop (hex_string r) buf 16 0) with
    (unhex_loop (hex_string r) ([] ++ buf) 16 (Z.of_nat (@length byte []))).
  rewrite HU by (simpl; lia). rewrite Hr, drop_ge, app_nil_r by lia. done.
Qed.

Lemma g_scan_revs ids l : revs_wf l ->
  (forall j r, l !! j = Some r -> exists v, json_array_get ids (Z.of_nat j) = Some v /\
     json_string_value v = Some (hex_string r)) ->
  forall n j rest w (Q : list byte -> world X -> Prop),
  (j + n = length l)%nat -> length rest = (16 * n)%nat -> Q (concat l) w ->
  wp (scan_revs n (Z.of_nat j) ids (concat (take j l) ++ rest)) w Q.
Proof.
  intros Hl Hids. induction n as [|n IH]; intros j rest w Q Hj Hrest HQ; cbn [scan_revs].
  - destruct rest; [|done]. step. rewrite app_nil_r, take_ge by lia. done.
  - destruct (lookup_lt_is_Some_2 l j) as [r Hr]; [lia|].
    destruct (Hids j r Hr) as (v & -> & Hv). unfold string_value. step. step. step. rewrite Hv.
    step.
    assert (length r = 16%nat) as Hr16 by (eapply (Forall_lookup_1 _ _ _ _ Hl Hr)).
    assert (length (concat (take j l)) = 16 * j)%nat as HL.
    { rewrite length_concat_revs by auto using revs_wf_take. rewrite length_take. lia. }
    unfold REV_LEN. step.
    rewrite mem_read_ok by (rewrite ?length_app; lia). step.
    replace (Z.to_nat (16 * Z.of_nat j)) with (length (concat (take j l))) by lia.
    rewrite drop_app_length. step. rewrite scan_hex by (rewrite ?length_take; lia). step. step.
    rewrite mem_write_ok by (rewrite ?length_app; lia). step.
    replace (Z.of_nat j + 1) with (Z.of_nat (Datatypes.S j)) by lia.
    replace (Z.to_nat (16 * Z.of_nat j)) with (length (concat (take j l))) by lia.
    rewrite take_app_length, drop_app_ge by lia.
    rewrite (app_assoc (concat (take j l)) r).
    assert (concat (take j l) ++ r = concat (take (Datatypes.S j) l)) as ->.
    { rewrite (take_S_r l j r) by done. by rewrite concat_app, concat_cons, app_nil_r. }
    apply IH; [lia| |done]. rewrite length_drop. lia.
Qed.

Lemma g_remote_history object obj l m n w
    (Q : option (V * V * list byte * Z) -> world X -> Prop) :
  has_history object obj l -> revs_wf l -> Z.of_nat (length l) < 2 ^ 20 -> good w m n ->
  (forall revisions w', good w' m n ->
     Q (Some (obj, revisions, concat l, Z.of_nat (length l))) w') ->
  wp (remote_history object) w Q.
Proof.
  intros (revisions & start & ids & Hrv & -> & Hst & Hids & Hlen & Hall) Hl Hsm Hg HQ.
  unfold remote_history. rewrite Hrv. step. eapply g_new_ref; [exact Hg|]. intros w1 Hg1.
  cbv zeta. rewrite Hst, Hids, Hlen.
  assert (s32 (Z.of_nat (length l)) = Z.of_nat (length l)) as ->
    by (unfold s32; rewrite Z.mod_small; lia).
  assert (u64 (REV_LEN * Z.of_nat (length l)) = 16 * Z.of_nat (length l)) as ->
    by (unfold u64, REV_LEN; rewrite Z.mod_small; lia).
  step. eapply g_malloc; [unfold PTRDIFF_MAX; lia|exact Hg1|]. intros blk w2 Hblk Hg2.
  step. rewrite Nat2Z.id. eapply (g_scan_revs ids l Hl Hall (length l) 0 blk); [lia|lia|].
  step. by apply HQ.
Qed.

Lemma g_local_history (p : puller) key d obj revisions m n w
    (Q : option (list byte * Z) -> world X -> Prop) :
  pl_db p = db -> m !! key = Some d -> good w m n ->
  (forall w', good w' m n -> Q (Some (concat (history d), Z.of_nat (length (history d)))) w') ->
  wp (local_history p key (d_rev d) obj revisions) w Q.
Proof.
  intros Hdb Hd (Hr & Hh & Hm) HQ. unfold local_history. rewrite Hdb.
  pose proof (ds_repr_wf w m n Hr key d Hd) as ((_ & _ & _ & _ & Hr16) & Hl & _ & Hc).
  cbn [doc_header rev] in Hr16. unfold LA_OBJECT_MAX_REVISION_COUNT in Hc.
  step. unfold la_db_get_allrevs. step. cbn [the_db the_store db_store]. step.
  unfold la_storage_get_all_revs, with_store. cbn [st_store st_driver].
  eapply wp_mono; [by apply (ds_get_all_revs w m n key)|]. intros [count res] w1 (Hr1 & Hh1 & Hm1 & Hres).
  rewrite Hd in Hres. destruct Hres as [[-> ->]|(_ & _ & ?)]; [|done].
  assert (good w1 m n) as Hg1 by (split_and!; auto).
  assert (s32 (Z.of_nat (length (d_revs d))) = Z.of_nat (length (d_revs d))) as ->
    by (unfold s32; rewrite Z.mod_small; lia).
  pose proof (length_concat_revs _ Hl) as HL. unfold history in *. cbn [concat length] in *.
  destruct (Z.ltb_spec 0 (Z.of_nat (length (d_revs d)))).
  - assert (u64 ((Z.of_nat (length (d_revs d)) + 1) * REV_LEN) = 16 * (Z.of_nat (length (d_revs d)) + 1)) as ->
      by (unfold u64, REV_LEN; rewrite Z.mod_small; lia).
    step. apply wp_realloc; [lia| |intros w2 Hno; exfalso; apply Hno; split; [apply Hg1|unfold PTRDIFF_MAX; lia]].
    intros blk w2 Hblk Hpre _ Hf2 _. rewrite Nat.min_l in Hpre by lia.
    rewrite (take_ge (concat _)) in Hpre by lia. step. unfold mem_move, REV_LEN.
    rewrite mem_read_ok by lia. rewrite drop_0.
    replace (Z.to_nat (16 * Z.of_nat (length (d_revs d)))) with (length (concat (d_revs d))) by lia.
    rewrite Hpre. rewrite mem_write_ok by lia. step. step.
    rewrite mem_write_ok by (rewrite ?length_app, ?length_take, ?length_drop; lia). step. step.
    change (Z.to_nat 0) with 0%nat. rewrite take_0, app_nil_l.
    rewrite drop_app_ge by (rewrite length_take; lia).
    rewrite length_take, Hr16. replace (0 + 16 - Nat.min (Z.to_nat 16) (length blk))%nat with 0%nat by lia.
    rewrite drop_0, (drop_ge blk) by lia. rewrite app_nil_r.
    replace (Z.of_nat (length (d_revs d)) + 1) with (Z.of_nat (Datatypes.S (length (d_revs d)))) by lia.
    apply HQ. by eapply good_frame.
  - assert (d_revs d = []) as E0 by (apply length_zero_iff_nil; lia). rewrite E0 in *.
    step. eapply g_malloc; [unfold PTRDIFF_MAX, REV_LEN; lia|exact Hg1|]. intros blk w2 Hblk Hg2.
    unfold REV_LEN in Hblk. step. rewrite mem_write_ok by lia. step. step.
    change (Z.to_nat 0) with 0%nat. rewrite take_0, app_nil_l, drop_ge by lia. by apply HQ.
Qed.

(** The local document of a key the API finds: what it answers for it. *)
Lemma g_get (p : puller) key value m n w
    (Q : la_db_get_result * option V * option la_rev -> world X -> Prop) :
  pl_db p = db -> cstring key -> short key -> good w m n ->
  (forall w', good w' m n -> Q (get_result c value (m !! key)) w') ->
  wp (la_db_get (pl_db p) key None value) w Q.
Proof.
  intros -> Hk Hkl (Hr & Hh & Hm) HQ.
  eapply wp_mono; [apply (wp_la_db_get drv st env name c w m n key value); try done|].
  { unfold short, PTRDIFF_MAX in *. lia. }
  intros res w1 (Hr1 & Hh1 & Hhp & [->|[? _]]); [|done].
  apply HQ. split_and!; auto. by eapply heap_mem_ok.
Qed.

Lemma g_resolve_conflict (p : puller) o d mine revisions m n w (Q : unit -> world X -> Prop) :
  pl_db p = db -> storable o -> (forall k a b, (pl_resolver p k a b).1 <> LA_PULL_RESOLVE_TAKE_MERGED) ->
  m !! of_key o = Some d ->
  get_result c true (Some d) = (LA_DB_GET_OK, Some mine, Some (LaRev (d_doc_seq d) (d_rev d))) ->
  good w m n -> 0 <= n < 2 ^ 64 ->
  (forall w', (if match pl_resolver p (of_key o) mine (of_object o) with
                  | (LA_PULL_RESOLVE_TAKE_THEIRS, _) => true | _ => false end
               then good w' (<[of_key o := with_seq n (remote_doc o)]> m) (n + 1)
               else good w' m n) -> Q tt w') ->
  wp (resolve_conflict md5 fuel urandom p (of_key o) (LaRev (d_doc_seq d) (d_rev d)) (Some (of_rev o))
        (of_object o) revisions (concat (of_history o)) (Z.of_nat (length (of_history o)))) w Q.
Proof.
  intros Hdb Ho Hres Hd Hmine Hg Hn HQ. unfold resolve_conflict. destruct (st_key o Ho) as [Hk1 Hk2].
  step. eapply g_get; [done..|]. intros w1 Hg1. rewrite Hd, Hmine. step. step. step.
  eapply g_new_ref; [exact Hg1|]. intros w2 Hg2.
  specialize (Hres (of_key o) mine (of_object o)).
  destruct (pl_resolver p (of_key o) mine (of_object o)) as [choice merged]. cbn [fst] in Hres.
  assert (forall w3, (if match choice with LA_PULL_RESOLVE_TAKE_THEIRS => true | _ => false end
               then good w3 (<[of_key o := with_seq n (remote_doc o)]> m) (n + 1)
               else good w3 m n) ->
      wp (la_codec_decref (Some mine) ;;; la_codec_decref (Some (of_object o)) ;;;
          la_codec_decref merged ;;; free) w3 Q) as HK.
  { intros w3 Hg3. destruct choice; [| |done];
      (step; eapply g_decref; [exact Hg3|]; intros w4 Hg4; step; eapply g_decref; [exact Hg4|];
       intros w5 Hg5; step; eapply g_decref; [exact Hg5|]; intros w6 Hg6;
       eapply g_free; [exact Hg6|]; intros w7 Hg7; by apply HQ). }
  destruct choice; [| |done].
  - step. step. by apply HK.
  - step. step. eapply g_replace_remote; [done..|]. intros r w3 Hg3. step. by apply HK.
Qed.

(** Merging a fetched revision with what the database has. *)
Lemma g_merge (p : puller) object o m n w (Q : unit -> world X -> Prop) local :
  pl_db p = db -> storable o -> (forall k a b, (pl_resolver p k a b).1 <> LA_PULL_RESOLVE_TAKE_MERGED) ->
  has_history object (of_object o) (of_history o) ->
  match get_result c true (m !! of_key o) with
  | (LA_DB_GET_OK, _, r) => local = r /\ option_map d_rev (m !! of_key o) <> Some (rrev (of_rev o))
  | (LA_DB_GET_NOT_FOUND, _, _) => local = None
  | (LA_DB_GET_ERROR, _, _) => False
  end ->
  good w m n -> 0 <= n < 2 ^ 64 ->
  (forall w', good w' (pull_entry c (pl_resolver p) overlaps (m, n) (Some o)).1
                (pull_entry c (pl_resolver p) overlaps (m, n) (Some o)).2 -> Q tt w') ->
  wp (merge md5 fuel urandom p (of_key o) local (Some (of_rev o)) object) w Q.
Proof.
  intros Hdb Ho Hres Hh Hloc Hg Hn HQ. pose proof (storable_history o Ho) as Hwf.
  pose proof (st_doc o Ho) as (_ & _ & _ & Hlc). cbn [remote_doc replacement d_revs] in Hlc.
  unfold LA_OBJECT_MAX_REVISION_COUNT in Hlc.
  unfold merge. step. eapply g_remote_history; [exact Hh|done| |exact Hg|].
  { unfold of_history. cbn [length]. lia. }
  intros revisions w1 Hg1. unfold pull_entry, takes, standing_of in HQ. cbn [fst snd] in HQ.
  destruct (get_result c true (m !! of_key o)) as [[[] v] r] eqn:Eg.
  - destruct (get_result_ok c (m !! of_key o)) as (d & mine & Hd & Hgr); [by rewrite Eg|].
    rewrite Eg in Hgr. injection Hgr as -> ->. destruct Hloc as [-> Hne].
    rewrite Hd in *. cbn [option_map] in Hne.
    rewrite decide_False in HQ by congruence.
    step. cbn [rrev]. eapply g_local_history; [done|exact Hd|exact Hg1|]. intros w2 Hg2.
    assert (revs_wf (history d)) as Hwfd.
    { destruct Hg as (Hr & _). destruct (ds_repr_wf w m n Hr _ d Hd) as ((_ & _ & _ & _ & ?) & ? & _).
      by constructor. }
    step. rewrite overlap_answer by done. step.
    destruct (overlaps (history d) (of_history o)); cbn [c_bool Z.eqb negb].
    + step. eapply g_free; [exact Hg2|]. intros w3 Hg3. step. eapply g_new_ref; [exact Hg3|].
      intros w4 Hg4. step. eapply g_replace_remote; [done..|]. intros res w5 Hg5.
      eapply g_decref; [exact Hg5|]. intros w6 Hg6. by apply HQ.
    + step. rewrite overlap_answer by done. step.
      destruct (overlaps (of_history o) (history d)); cbn [c_bool Z.eqb negb].
      * step. by apply HQ.
      * step. eapply g_free; [exact Hg2|]. intros w3 Hg3.
        eapply g_resolve_conflict; [done..|exact Hd|by rewrite Eg|exact Hg3|done|].
        intros w4 Hg4. apply HQ. revert Hg4. by destruct (pl_resolver _ _ _ _) as [[] ?].
  - subst local. step. eapply g_new_ref; [exact Hg1|]. intros w2 Hg2. step.
    eapply g_replace_remote; [done..|]. intros res w3 Hg3. step.
    eapply g_decref; [exact Hg3|]. intros w4 Hg4. step. eapply g_decref; [exact Hg4|].
    intros w5 Hg5. eapply g_decref; [exact Hg5|]. intros w6 Hg6. by apply HQ.
  - done.
Qed.
End merge.

(** ** A run *)

Section run.
Context {X E S I V J C : Type} `{JanssonLaws V J}.
Context (md5 : list byte -> list byte) (fuel : nat) (urandom : option (list byte)).
Context (serve : list byte -> option (Z * list byte)) `{!Curl X C} `{!CurlServer serve}.
Context (serve_ok : serve_small serve).
Context (drv : la_object_store_driver X E S I) (st : S) `{!DocStore drv st}.
Context (env : option E) (name : list byte) (c : option la_compressor).
Context (base : list byte).
Implicit Types w : world X.
Abbreviation good := (good drv st).
Abbreviation puller := (la_pull (X := X) (E := E) (S := S) (I := I) (V := V)).
Abbreviation db := (the_db drv st env name c).

(** An entry of the feed that names a key and a revision. *)
Record names (change : option V) (key text : list byte) (that : la_rev) : Prop := {
  nm_parse : exists kv rv, parse_change change = Some (kv, rv) /\
    json_string_value kv = Some key /\ json_string_value rv = Some text;
  nm_scan : scan_rev text = Some that;
  nm_key : cstring key /\ short key;
  nm_text : cstring text /\ short text;
}.

(** Entries of the feed: an offer the server keeps, or nothing that can be fetched. *)
Definition entry_ok (change : option V) (e : option (offer V)) : Prop :=
  match e with
  | Some o =>
      names change (of_key o) (of_text o) (of_rev o) /\ storable fuel c o /\
      exists object, fetched serve (doc_url base (of_key o) (of_text o)) = Some object /\
        has_history object (of_object o) (of_history o)
  | None =>
      parse_change change = None \/
      exists key text that, names change key text that /\
        fetched serve (doc_url base key text) = None
  end.

(** A puller of the database, between two requests. *)
Record ready (p : puller) : Prop := {
  rd_db : pl_db p = db;
  rd_buffer : exists b, pl_buffer p = Some b /\ fresh b;
  rd_base : pl_urlbase p = base ++ [NUL] /\ cstring base /\ short base;
  rd_resolver : forall k a b, (pl_resolver p k a b).1 <> LA_PULL_RESOLVE_TAKE_MERGED;
}.

Lemma ready_with_buffer p b : ready p -> fresh b -> ready (with_buffer (Some b) p).
Proof. intros [? _ ? ?] Hb. split; [done|by exists b|done|done]. Qed.

(** What a run keeps of the puller. *)
Definition kept (p p' : puller) : Prop := exists b, p' = with_buffer b p.

Lemma kept_trans p1 p2 p3 : kept p1 p2 -> kept p2 p3 -> kept p1 p3.
Proof. intros [b ->] [b' ->]. by exists b'. Qed.

Lemma g_fetch_named (p : puller) change key text that m n w (Q : option V * puller -> world X -> Prop) :
  ready p -> names change key text that -> good w m n ->
  (forall p' w', ready p' -> kept p p' -> good w' m n ->
     Q (fetched serve (doc_url base key text), p') w') ->
  wp (fetch p key text) w Q.
Proof.
  intros Hp [_ _ [Hk1 Hk2] [Ht1 Ht2]] Hg HQ.
  destruct (rd_buffer p Hp) as (b & Hb & Hf). destruct (rd_base p Hp) as (Hub & Hcb & Hsb).
  eapply (g_fetch serve serve_ok drv st m n p b base); [done..|]. intros b' w' Hf' Hg'.
  apply HQ; [by apply ready_with_buffer|by eexists|done].
Qed.

Lemma g_pull_change (p : puller) change e m n w (Q : puller -> world X -> Prop) :
  ready p -> entry_ok change e -> good w m n -> 0 <= n < 2 ^ 64 ->
  (forall p' w', ready p' -> kept p p' ->
     good w' (pull_entry c (pl_resolver p) overlaps (m, n) e).1 (pull_entry c (pl_resolver p) overlaps (m, n) e).2 ->
     Q p' w') ->
  wp (pull_change md5 fuel urandom p change) w Q.
Proof.
  intros Hp He Hg Hn HQ.
  assert (kept p p) as Hkp by (exists (pl_buffer p); by destruct p).
  destruct (decide (parse_change change = None)) as [E0|E0].
  { unfold pull_change. rewrite E0. step. destruct e as [o|].
    - destruct He as ([(kv & rv & ? & _) _ _ _] & _). congruence.
    - by apply HQ. }
  assert (exists key text that, names change key text that /\
    match e with
    | Some o => key = of_key o /\ text = of_text o /\ that = of_rev o /\ storable fuel c o /\
        exists object, fetched serve (doc_url base key text) = Some object /\
          has_history object (of_object o) (of_history o)
    | None => fetched serve (doc_url base key text) = None
    end) as (key & text & that & Hnm & He').
  { destruct e as [o|]; [exists (of_key o), (of_text o), (of_rev o); naive_solver|].
    destruct He as [?|?]; [done|naive_solver]. }
  pose proof Hnm as [(kv & rv & Hpc & Hkv & Hrv) Hsc [Hk1 Hk2] _].
  unfold pull_change, string_value. rewrite Hpc. step. rewrite Hkv. step. step. rewrite Hrv. step.
  cbv zeta. rewrite Hsc.
  step. eapply g_get; [apply Hp|done|done|exact Hg|]. intros w1 Hg1.
  pose proof (get_result_value c (m !! key) false) as [Hv1 Hv2].
  destruct (get_result c false (m !! key)) as [[res v0] rev0]. cbn [fst snd] in Hv1, Hv2.
  assert (forall local, match get_result c true (m !! key) with
      | (LA_DB_GET_OK, _, r) => local = r /\ option_map d_rev (m !! key) <> Some (rrev that)
      | (LA_DB_GET_NOT_FOUND, _, _) => local = None
      | (LA_DB_GET_ERROR, _, _) => False
      end -> forall w2, good w2 m n ->
      wp (let* '(object, p) := fetch p key text in
          match object with
          | None => ret p
          | Some object => merge md5 fuel urandom p key local (Some that) object ;;; ret p
          end) w2 Q) as HK.
  { intros local Hloc w2 Hg2. step. eapply g_fetch_named; [done|exact Hnm|exact Hg2|].
    intros p' w3 Hp' Hkp' Hg3. destruct e as [o|].
    - destruct He' as (-> & -> & -> & Hst & object & -> & Hh). step.
      eapply g_merge; [apply Hp'|done|apply Hp'|done|exact Hloc|exact Hg3|done|].
      intros w4 Hg4. step. apply HQ; [done|done|].
      destruct Hkp' as [b' ->]. exact Hg4.
    - rewrite He'. step. by apply HQ. }
  destruct (get_result c true (m !! key)) as [[res' v1] rev1] eqn:Eg. cbn [fst snd] in Hv1, Hv2.
  subst res' rev1. destruct res.
  - destruct (get_result_ok c (m !! key)) as (d & mine & Hd & Hgr); [by rewrite Eg|].
    rewrite Eg in Hgr. injection Hgr as _ ->. do 4 step. case_bool_decide as Hrev.
    + step. apply HQ; [done|done|]. destruct e as [o|]; [|done].
      destruct He' as (-> & _ & -> & _). unfold pull_entry, takes, standing_of. cbn [fst snd].
      rewrite Eg, Hd. cbn [rrev] in Hrev. destruct v1; [|done]. by rewrite decide_True by done.
    + apply HK; [|done]. split; [done|]. rewrite Hd. cbn [option_map rrev] in *. congruence.
  - by apply HK.
  - step. apply HQ; [done|done|]. destruct e as [o|]; [|done].
    destruct He' as (-> & _). unfold pull_entry, takes. cbn [fst snd]. by rewrite Eg.
Qed.

Lemma g_pull_changes results es : forall i m n (p : puller) w (Q : puller -> world X -> Prop),
  ready p -> good w m n -> 0 <= n -> n + Z.of_nat (length es) < 2 ^ 64 ->
  (forall j e, es !! j = Some e -> entry_ok (json_array_get results (Z.of_nat (i + j))) e) ->
  (forall p' w', ready p' -> kept p p' ->
     good w' (pull_entries c (pl_resolver p) overlaps (m, n) es).1
             (pull_entries c (pl_resolver p) overlaps (m, n) es).2 -> Q p' w') ->
  wp (pull_changes md5 fuel urandom (length es) (Z.of_nat i) results p) w Q.
Proof.
  induction es as [|e es IH]; intros i m n p w Q Hp Hg Hn Hlen Hes HQ;
    cbn [length pull_changes] in *.
  - step. apply HQ; [done| |done]. exists (pl_buffer p). by destruct p.
  - step. eapply g_pull_change; [exact Hp| |exact Hg|lia|].
    { specialize (Hes 0%nat e eq_refl). by rewrite Nat.add_0_r in Hes. }
    intros p1 w1 Hp1 Hk1 Hg1. replace (Z.of_nat i + 1) with (Z.of_nat (Datatypes.S i)) by lia.
    pose proof (pull_entry_seq c (pl_resolver p) overlaps (m, n) e) as Hsq. cbn [snd] in Hsq.
    assert (pl_resolver p1 = pl_resolver p) as Hrs by (by destruct Hk1 as [b ->]).
    eapply IH; [exact Hp1|exact Hg1|lia|lia| |].
    + intros j e' Hj. specialize (Hes (Datatypes.S j) e' Hj).
      by replace (Datatypes.S i + j)%nat with (i + Datatypes.S j)%nat by lia.
    + intros p2 w2 Hp2 Hk2 Hg2. apply HQ; [done|by eapply kept_trans|]. rewrite Hrs in Hg2.
      unfold pull_entries in *. cbn [foldl]. by destruct (pull_entry c (pl_resolver p) overlaps (m, n) e).
Qed.

(** The feed's URL, with the last sequence number of the run before. *)
Definition feed_url (url : list byte) (sep : byte) (last_seq : option (list byte)) : list byte :=
  match last_seq with
  | None => url
  | Some seq => url ++ [sep] ++ lit "since=" ++ seq
  end.

Definition seq_ok (last_seq : option (list byte)) : Prop :=
  match last_seq with None => True | Some seq => cstring seq /\ short seq end.

Definition block (s : list byte) : list byte := s ++ [NUL].

Lemma g_init_feed (p : puller) url seq m n w (Q : Z * puller * option C -> world X -> Prop) :
  pl_url p = block url -> cstring url -> short url -> pl_sep p <> NUL ->
  pl_last_seq p = option_map block seq -> seq_ok seq -> good w m n ->
  (forall b h w', fresh b -> url_of h = Some (feed_url url (pl_sep p) seq) -> good w' m n ->
     Q (0, with_buffer (Some b) (with_url (block (feed_url url (pl_sep p) seq)) p), Some h) w') ->
  wp (init_changes_feed p) w Q.
Proof.
  intros Hu Hcu Hsu Hsep Hseq Hok Hg HQ. unfold init_changes_feed. step. apply init_law.
  intros h w1 Hq1. assert (good w1 m n) as Hg1 by (by eapply good_quiet).
  assert (wp (since_url p) w1 (fun p' w' =>
    p' = with_url (block (feed_url url (pl_sep p) seq)) p /\ good w' m n)) as HU.
  { unfold since_url. rewrite Hseq. destruct seq as [seq|]; cbn [option_map feed_url].
    - destruct Hok as [Hcs Hss]. unfold short, block in *. rewrite Hu.
      step. rewrite cstr_app by done. step. step. rewrite cstr_app by done. step.
      step. eapply g_new; [|exact Hg1|].
      { unfold u64. pose proof (Z.mod_pos_bound (Z.of_nat (length url) + Z.of_nat (length seq) + 7) (2 ^ 64)).
        rewrite Z.mod_small by lia. lia. }
      intros b w2 Hwf Ho Hct Hcap Hg2.
      unfold u64 in Hcap. rewrite Z.mod_small in Hcap by lia.
      step. step. step. eapply g_append; [done|done|lia|exact Hg2|]. intros b1 w3 Hwf1 Ho1 Hct1 Hcap1 Hg3.
      step. eapply g_appendf; [done|done| | |exact Hg3|].
      1,2: unfold INT_MAX; rewrite !length_app; simpl; lia.
      intros b2 w4 Hwf2 Ho2 Hct2 Hcap2 Hg4. rewrite !length_app in Hcap2. simpl in Hcap2.
      step. eapply g_free; [exact Hg4|]. intros w5 Hg5.
      step. eapply g_string; [done|lia|exact Hg5|]. intros w6 Hg6.
      step. eapply g_destroy; [exact Hg6|]. intros w7 Hg7. step. split; [|done].
      rewrite Hct2, Hct1, Hct, app_nil_l, <- app_assoc. done.
    - step. split; [|done]. destruct p; cbn in *. by rewrite Hu. }
  step. eapply wp_mono; [exact HU|]. intros p' w2 [-> Hg2].
  assert (cstring (feed_url url (pl_sep p) seq)) as Hcf.
  { destruct seq as [seq|]; [|done]. cbn [feed_url]. rewrite !cstring_app. split; [done|].
    split; [by unfold cstring; intros ?%list_elem_of_singleton|].
    split; [apply (bool_decide_unpack _); vm_compute; reflexivity|apply Hok]. }
  step. cbn [with_url pl_url]. unfold block at 1. rewrite cstr_app by done. step.
  step. apply setopt_law. intros h1 w3 Hq3 Hh1. assert (good w3 m n) as Hg3 by (by eapply good_quiet).
  cbn [negb CURLE_OK Z.eqb]. step. eapply g_credentials; [exact Hh1|exact Hg3|].
  intros h2 w4 Hh2 Hg4. step. eapply g_new; [lia|exact Hg4|]. intros b w5 Hwf Ho Hct Hcap Hg5.
  step. apply HQ; [|done|done]. split_and!; try done. lia.
Qed.

(** The object a feed's URL gives with status 200. *)
Definition feed (u : list byte) : option V :=
  match serve u with
  | Some (status, _) => if status =? 200 then fetched serve u else None
  | None => None
  end.

(** The last sequence number of a feed, as the library prints it. *)
Definition last_seq (changes : V) : option (list byte) :=
  match json_object_get changes (lit "last_seq") with
  | Some v => option_map (@concat byte) (json_dump v)
  | None => None
  end.

(** A puller of the database, as [la_pull_create] and [la_pull_run] leave it. *)
Record startable (p : puller) (url : list byte) (seq : option (list byte)) : Prop := {
  sa_db : pl_db p = db;
  sa_base : pl_urlbase p = block base /\ cstring base /\ short base;
  sa_resolver : forall k a b, (pl_resolver p k a b).1 <> LA_PULL_RESOLVE_TAKE_MERGED;
  sa_url : pl_url p = block url /\ cstring url;
  sa_short : short url /\ short (feed_url url (pl_sep p) seq);
  sa_sep : pl_sep p <> NUL;
  sa_seq : pl_last_seq p = option_map block seq /\ seq_ok seq;
}.

Lemma feed_url_cstring url sep seq :
  cstring url -> sep <> NUL -> seq_ok seq -> cstring (feed_url url sep seq).
Proof.
  intros Hu Hs Hq. destruct seq as [seq|]; [|done]. cbn [feed_url]. rewrite !cstring_app.
  split; [done|]. split; [by unfold cstring; intros ?%list_elem_of_singleton|].
  split; [apply (bool_decide_unpack _); vm_compute; reflexivity|apply Hq].
Qed.

(** A run up to the object of the feed. *)
Lemma g_run_feed (p : puller) url seq m n w (Q : Z * puller -> world X -> Prop) :
  startable p url seq -> good w m n ->
  (let p1 := with_url (block (feed_url url (pl_sep p) seq)) p in
   match feed (feed_url url (pl_sep p) seq) with
   | None => forall b w', good w' m n -> Q (-1, with_buffer b p1) w'
   | Some changes => forall b w', fresh b -> good w' m n ->
       wp (let* p := store_last_seq (with_buffer (Some b) p1) changes in
           match member changes (lit "results") (has_type JSON_ARRAY) with
           | None => la_codec_decref (Some changes) ;;; ret (-1, p)
           | Some results =>
               let len := s32 (json_array_size results) in
               let* p := pull_changes md5 fuel urandom (Z.to_nat len) 0 results p in
               la_codec_decref (Some changes) ;;;
               if negb (Z.land (pl_options p) LA_PULL_CONTINUOUS =? 0) then
                 let* '(_, p, _) := init_changes_feed p in ret (0, p)
               else ret (0, p)
           end) w' Q
   end) ->
  wp (la_pull_run md5 fuel urandom p) w Q.
Proof.
  intros Hp Hg HQ. cbv zeta in HQ. unfold la_pull_run. step.
  destruct (sa_url _ _ _ Hp) as [Hu1 Hu2]. destruct (sa_seq _ _ _ Hp) as [Hs1 Hs2].
  eapply (g_init_feed p url seq); [done|done|apply Hp|apply Hp|done|done|exact Hg|].
  intros b h w1 Hb Hh Hg1. cbn [negb Z.eqb]. step. cbn [with_buffer pl_buffer].
  set (p1 := with_url _ p) in *. set (u := feed_url url (pl_sep p) seq) in *.
  eapply (g_perform serve serve_ok drv st m n h u); [done|done|exact Hg1|].
  intros code b1 w2 Hg2 Hwf1 Ho1 Hs. cbv zeta. unfold feed, fetched in HQ.
  destruct (serve u) as [[status body]|] eqn:Eu.
  2: { destruct Hs as [Hc _]. rewrite (proj2 (Z.eqb_neq code CURLE_OK) Hc). cbn [negb].
       step. by apply HQ. }
  destruct Hs as [-> Hct]. cbn [negb CURLE_OK Z.eqb]. step.
  eapply getinfo_law; [exact Hh|]. intros st' w3 Hq3 Hst. rewrite Eu in Hst. subst st'.
  assert (good w3 m n) as Hg3 by (by eapply good_quiet). cbn [negb CURLE_OK Z.eqb].
  step. apply cleanup_law. intros w4 Hq4. assert (good w4 m n) as Hg4 by (by eapply good_quiet).
  destruct (status =? 200); cbn [negb]; [|step; by apply HQ].
  step. eapply (g_load_buffer drv st m n); [reflexivity|done|done|exact Hg4|].
  intros b2 w5 Hf2 Hg5. rewrite Hct. destruct (json_loadb body) as [changes|]; [|step; by apply HQ].
  destruct (has_type JSON_OBJECT changes); cbn [negb]; [by apply HQ|step; by apply HQ].
Qed.

Lemma g_store_last_seq (p : puller) changes m n w (Q : puller -> world X -> Prop) :
  good w m n ->
  (forall w', good w' m n -> Q (with_last_seq (option_map block (last_seq changes)) p) w') ->
  wp (store_last_seq p changes) w Q.
Proof.
  intros Hg HQ. unfold store_last_seq.
  assert (forall w', good w' m n -> wp
    match json_object_get changes (lit "last_seq") with
    | None => ret (with_last_seq None p)
    | Some seq =>
        match json_dump seq with
        | None => ret (with_last_seq None p)
        | Some chunks => lib_alloc ;;; ret (with_last_seq (Some (concat chunks ++ [NUL])) p)
        end
    end w' Q) as HK.
  { intros w1 Hg1. unfold last_seq in HQ. destruct (json_object_get changes _) as [v|]; [|by step; apply HQ].
    destruct (json_dump v) as [chunks|]; [|by step; apply HQ].
    step. apply wp_lib_alloc. intros w2 Hf2. step. apply HQ. by eapply good_frame. }
  destruct (pl_last_seq p); cbn [free_opt]; step; [|step; by apply HK].
  eapply g_free; [exact Hg|]. intros w1 Hg1. by apply HK.
Qed.

(** ** Properties *)

(** C6 (refinement): a run over a feed the server answers takes every entry in turn, the
    entries being offers that can be stored ([storable]: a text, a revision generator that
    takes the document, counters that fit) or entries of which nothing can be fetched.  With
    memory that lasts, a store that does not fail, and a resolver that merges nothing, an
    offer replaces the local document, by its revision and history, when there is none, when
    the local document is behind it, or when the two are forked and the resolver takes
    theirs; every other entry leaves the documents alone.  Whether a document is behind or
    ahead is what [la_storage_revs_overlap] says; on a run whose histories are [regular] it
    is what the comment at pull.c:452 says: that the current revision of one is part of the
    history of the other ([part_of]).  The run returns 0 and remembers the feed's last
    sequence number. *)
Theorem la_pull_run_correct (p : puller) url seq changes results es m n w
  (Hp : startable p url seq) (Hg : good w m n)
  (Hfeed : feed (feed_url url (pl_sep p) seq) = Some changes)
  (Hseq : seq_ok (last_seq changes))
  (Hresults : member changes (lit "results") (has_type JSON_ARRAY) = Some results)
  (Hsize : json_array_size results = Z.of_nat (length es))
  (Hlen : Z.of_nat (length es) < 2 ^ 31)
  (Hes : forall j e, es !! j = Some e -> entry_ok (json_array_get results (Z.of_nat j)) e)
  (Hn : 0 <= n) (Hroom : n + Z.of_nat (length es) < 2 ^ 64) :
  exists p' w' s', la_pull_run md5 fuel urandom p w = Ret ((0, p'), w') /\
    good w' s'.1 s'.2 /\ s' = pull_entries c (pl_resolver p) overlaps (m, n) es /\
    (regular_run c (pl_resolver p) part_of (m, n) es ->
     s' = pull_entries c (pl_resolver p) part_of (m, n) es) /\
    pl_last_seq p' = option_map block (last_seq changes).
Proof.
  assert (wp (la_pull_run md5 fuel urandom p) w (fun r w' => exists p', r = (0, p') /\
    good w' (pull_entries c (pl_resolver p) overlaps (m, n) es).1
            (pull_entries c (pl_resolver p) overlaps (m, n) es).2 /\
    pl_last_seq p' = option_map block (last_seq changes))) as HW.
  { eapply (g_run_feed p url seq m n); [done|exact Hg|]. cbv zeta. rewrite Hfeed.
    intros b w1 Hb Hg1. step. eapply (g_store_last_seq _ changes m n); [exact Hg1|]. intros w2 Hg2.
    rewrite Hresults, Hsize.
    assert (s32 (Z.of_nat (length es)) = Z.of_nat (length es)) as ->
      by (unfold s32; rewrite Z.mod_small; lia).
    rewrite Nat2Z.id. step. set (p1 := with_last_seq _ _).
    assert (ready p1) as Hp1.
    { split; [apply Hp|by exists b|apply Hp|apply Hp]. }
    eapply (g_pull_changes results es 0 m n p1); [exact Hp1|exact Hg2|done|done|exact Hes|].
    intros p2 w3 Hp2 [b2 ->] Hg3. step. eapply g_decref; [exact Hg3|]. intros w4 Hg4.
    destruct (negb _).
    - step. destruct (sa_url _ _ _ Hp) as [_ Hu2]. destruct (sa_seq _ _ _ Hp) as [_ Hs2].
      eapply (g_init_feed _ (feed_url url (pl_sep p) seq) (last_seq changes));
        [done| |apply Hp|apply Hp|done|done|exact Hg4|].
      { apply feed_url_cstring; [done|apply Hp|done]. }
      intros b3 h w5 Hb3 Hh Hg5. step. eexists. split; [done|]. by split.
    - step. eexists. split; [done|]. by split. }
  apply wp_run in HW as (r & w' & Hrun & p' & -> & Hg' & Hl).
  exists p', w', (pull_entries c (pl_resolver p) overlaps (m, n) es). split_and!; try done.
  apply pull_entries_regular.
Qed.

(** C40 (error): a feed that cannot be fetched, has another status than 200 or is no object
    makes the run fail with -1, and the documents stay as they were. *)
Theorem la_pull_run_refused (p : puller) url seq m n w
  (Hp : startable p url seq) (Hg : good w m n)
  (Hfeed : feed (feed_url url (pl_sep p) seq) = None) :
  exists p' w', la_pull_run md5 fuel urandom p w = Ret ((-1, p'), w') /\ good w' m n /\
    pl_last_seq p' = pl_last_seq p.
Proof.
  assert (wp (la_pull_run md5 fuel urandom p) w (fun r w' => exists p', r = (-1, p') /\
    good w' m n /\ pl_last_seq p' = pl_last_seq p)) as HW.
  { eapply (g_run_feed p url seq m n); [done|exact Hg|]. cbv zeta. rewrite Hfeed.
    intros b w1 Hg1. eexists. done. }
  apply wp_run in HW as (r & w' & Hrun & p' & -> & Hg' & Hl). by exists p', w'.
Qed.

(** C31 (safety): with the default resolver the first update of a document is never pulled:
    when the local document has one revision and the server one revision more on top of it,
    the change is taken for a conflict and the local document stays. *)
Theorem pull_first_update_kept (p : puller) change o d mine m n w
  (Hp : ready p) (He : entry_ok change (Some o)) (Hg : good w m n) (Hn : 0 <= n < 2 ^ 64)
  (Hres : pl_resolver p = la_pull_conflict_resolver_mine)
  (Hd : m !! of_key o = Some d) (Hone : d_revs d = []) (Hold : of_old o = [d_rev d])
  (Hnew : rrev (of_rev o) <> d_rev d)
  (Hget : get_result c true (Some d) = (LA_DB_GET_OK, Some mine, Some (LaRev (d_doc_seq d) (d_rev d)))) :
  exists p' w', pull_change md5 fuel urandom p change w = Ret (p', w') /\ good w' m n.
Proof.
  assert (wp (pull_change md5 fuel urandom p change) w (fun _ w' => good w' m n)) as HW.
  { eapply g_pull_change; [exact Hp|exact He|exact Hg|done|]. intros p' w' _ _ Hg'.
    assert (pull_entry c (pl_resolver p) overlaps (m, n) (Some o) = (m, n)) as E0; [|by rewrite E0 in Hg'].
    unfold pull_entry, takes, standing_of. cbn [fst snd]. rewrite Hd, Hget, Hres.
    destruct (decide (d_rev d = rrev (of_rev o))); [done|].
    destruct (st_doc _ _ _ (proj1 (proj2 He))) as ((_ & _ & _ & _ & Hr) & Hl & _).
    cbn [remote_doc replacement doc_header rev d_rev d_revs] in Hr, Hl.
    rewrite Hold in Hl. apply Forall_cons_1 in Hl as [Hl _].
    unfold overlaps, of_history, history. rewrite Hold, Hone. cbn [length Nat.sub List.seq existsb drop].
    rewrite !bool_decide_false; [done| |].
    - intros [k Hk]. by injection Hk as ? ?.
    - intros [k Hk]. by injection Hk as ? ?. }
  apply wp_run in HW as (p' & w' & ? & ?). by exists p', w'.
Qed.

(** Pulling the same change a second time does nothing more, when the
    offered document is one the API finds. *)
Theorem pull_change_twice (p : puller) change o m n w
  (Hp : ready p) (He : entry_ok change (Some o)) (Hg : good w m n) (Hn : 0 <= n < 2 ^ 64 - 1)
  (Hfound : (get_result c true (Some (with_seq n (remote_doc o)))).1.1 <> LA_DB_GET_NOT_FOUND) :
  exists p1 w1 p2 w2 m' n', pull_change md5 fuel urandom p change w = Ret (p1, w1) /\
    good w1 m' n' /\ pull_change md5 fuel urandom p1 change w1 = Ret (p2, w2) /\ good w2 m' n'.
Proof.
  set (s := pull_entry c (pl_resolver p) overlaps (m, n) (Some o)).
  pose proof (pull_entry_seq c (pl_resolver p) overlaps (m, n) (Some o)) as Hsq. fold s in Hsq. cbn [snd] in Hsq.
  assert (pull_entry c (pl_resolver p) overlaps s (Some o) = s) as Es.
  { unfold pull_entry at 1. destruct (takes c (pl_resolver p) overlaps (s.1 !! of_key o) o) eqn:Et; [|done].
    exfalso. unfold s, pull_entry in Et. cbn [fst snd] in Et.
    destruct (takes c (pl_resolver p) overlaps (m !! of_key o) o) eqn:E1; cbn [fst snd] in Et; [|congruence].
    rewrite lookup_insert_eq in Et. unfold takes, standing_of in Et.
    destruct (get_result c true (Some (with_seq n (remote_doc o)))) as [[[] [v|]] r];
      cbn [fst] in Hfound; try done.
    cbn [with_seq remote_doc replacement d_rev] in Et. by rewrite decide_True in Et. }
  assert (wp (pull_change md5 fuel urandom p change) w (fun p1 w1 =>
    ready p1 /\ kept p p1 /\ good w1 s.1 s.2)) as HW1
    by (eapply g_pull_change; [exact Hp|exact He|exact Hg|lia|done]).
  apply wp_run in HW1 as (p1 & w1 & Hrun1 & Hp1 & Hk1 & Hg1).
  assert (pl_resolver p1 = pl_resolver p) as Hrs by (by destruct Hk1 as [b ->]).
  assert (wp (pull_change md5 fuel urandom p1 change) w1 (fun p2 w2 => good w2 s.1 s.2)) as HW2.
  { eapply g_pull_change; [exact Hp1|exact He|exact Hg1|lia|].
    intros p2 w2 _ _ Hg2. rewrite Hrs in Hg2. rewrite <- surjective_pairing, Es in Hg2. done. }
  apply wp_run in HW2 as (p2 & w2 & Hrun2 & Hg2). by exists p1, w1, p2, w2, s.1, s.2.
Qed.
End run.

(** ** Creating a puller *)

(** What the URL encoding stands for: [+] is a space, [%] and two digits a byte. *)
Definition hex_digit (b : byte) : Z :=
  if b2z b <? 58 then b2z b - 48 else b2z b - 87.

Fixpoint url_decode (s : list byte) : list byte :=
  match s with
  | [] => []
  | b :: s =>
      if b2z b =? 43 then z2b 32 :: url_decode s
      else if b2z b =? 37 then
        match s with
        | h1 :: h2 :: s => z2b (16 * hex_digit h1 + hex_digit h2) :: url_decode s
        | _ => []
        end
      else b :: url_decode s
  end.

Lemma url_decode_byte b r : b2z b < 128 -> url_decode (url_encode_byte b ++ r) = b :: url_decode r.
Proof. destruct b; intros Hb; first [reflexivity | vm_compute in Hb; discriminate]. Qed.

Lemma url_decode_encoded s : Forall (fun b => b2z b < 128) s -> url_decode (url_encoded s) = s.
Proof.
  induction 1 as [|b s Hb _ IH]; [done|].
  change (url_encoded (b :: s)) with (url_encode_byte b ++ url_encoded s).
  by rewrite url_decode_byte, IH.
Qed.

(** A key with a byte from 128 on is not encoded as a byte: the sign is extended. *)
Example url_encode_negative : url_encoded (map z2b [195; 169]) = lit "%ffffffc3%ffffffa9".
Proof. vm_compute. reflexivity. Qed.

Section create.
Context {X E S I V J : Type} `{JanssonLaws V J}.
Context (drv : la_object_store_driver X E S I) (st : S) `{!DocStore drv st}.
Context (env : option E) (name : list byte) (c : option la_compressor).
Context (m : gmap (list byte) doc) (n : Z).
Implicit Types w : world X.
Abbreviation good := (good drv st).
Abbreviation db := (the_db drv st env name c).

Definition base_url (params : la_pull_params (V := V)) : list byte :=
  scheme (pp_options params) ++ lit "://" ++ pp_host params ++ lit ":" ++
  print_llu (u16 (pp_port params)) ++ lit "/" ++ pp_dbname params.

Definition changes_url (params : la_pull_params (V := V)) : list byte :=
  base_url params ++ lit "/_changes" ++
  match pp_filter params with Some f => lit "?filter=" ++ f | None => [] end.

Definition opt_ok (s : option (list byte)) : Prop :=
  match s with Some s => cstring s /\ short s | None => True end.

Lemma g_dup_opt s w (Q : option (option (list byte)) -> world X -> Prop) :
  opt_ok s -> good w m n -> (forall w', good w' m n -> Q (Some s) w') -> wp (dup_opt s) w Q.
Proof.
  intros Hs Hg HQ. destruct s as [s|]; cbn [dup_opt]; [|step; by apply HQ].
  destruct Hs as [Hc Hl]. unfold short in Hl. step.
  apply wp_strdup; [done|unfold PTRDIFF_MAX; lia| |].
  - intros w1 Hf. step. apply HQ. by eapply good_frame.
  - intros w1 Hno _. exfalso. apply Hno. apply Hg.
Qed.

(** [la_pull_create] gives a puller ready to run, with the URL of the
    database, of its change feed and of the filter, and the resolver asked for, or the one
    that keeps the local version. *)
Theorem la_pull_create_correct (params : la_pull_params (V := V)) w
  (Hg : good w m n) (Hbase : cstring (base_url params)) (Hurl : cstring (changes_url params))
  (Hshort : short (changes_url params))
  (Huser : opt_ok (pp_user params)) (Hpass : opt_ok (pp_password params))
  (Hres : forall r, pp_resolver params = Some r ->
     forall k a b, (r k a b).1 <> LA_PULL_RESOLVE_TAKE_MERGED) :
  exists p w', la_pull_create db params w = Ret (Some p, w') /\ good w' m n /\
    startable drv st env name c (base_url params) p (changes_url params) None /\
    pl_user p = pp_user params /\ pl_password p = pp_password params /\
    pl_resolver p = match pp_resolver params with
                    | Some r => r | None => la_pull_conflict_resolver_mine end.
Proof.
  assert (wp (la_pull_create db params) w (fun r w' => exists p, r = Some p /\ good w' m n /\
    startable drv st env name c (base_url params) p (changes_url params) None /\
    pl_user p = pp_user params /\ pl_password p = pp_password params /\
    pl_resolver p = match pp_resolver params with
                    | Some r => r | None => la_pull_conflict_resolver_mine end)) as HW.
  { unfold la_pull_create. step. eapply g_malloc; [unfold PTRDIFF_MAX; lia|exact Hg|].
    intros _ w1 _ Hg1. step. eapply g_new; [lia|exact Hg1|]. intros b w2 Hwf Ho Hct Hcap Hg2.
    unfold short, changes_url in Hshort. rewrite !length_app in Hshort. fold (base_url params).
    step. eapply g_appendf; [done|done|unfold INT_MAX; lia|lia|exact Hg2|]. intros b1 w3 Hwf1 Ho1 Hct1 Hcap1 Hg3.
    rewrite Hct, app_nil_l in Hct1.
    step. eapply g_string; [done|lia|exact Hg3|]. intros w4 Hg4. rewrite Hct1.
    step. eapply g_append; [done|done|simpl; lia|exact Hg4|]. intros b2 w5 Hwf2 Ho2 Hct2 Hcap2 Hg5.
    simpl in Hcap2.
    set (sep := match pp_filter params with Some _ => z2b 38 | None => z2b 63 end).
    assert (wp (match pp_filter params with
            | Some filter =>
                let* '(_, b) := la_buffer_appendf b2 (lit "?filter=" ++ filter) in
                ret (b, z2b 38)
            | None => ret (b2, z2b 63)
            end) w5 (fun r w' => exists b3, r = (b3, sep) /\ wf b3 /\
              contents b3 = changes_url params /\ capacity b3 < 2 ^ 62 /\ good w' m n)) as HF.
    { unfold changes_url, sep. destruct (pp_filter params) as [f|].
      - step. eapply g_appendf; [done|done| | |exact Hg5|];
          [unfold INT_MAX; rewrite length_app in *; simpl in *; lia|rewrite length_app in *; simpl in *; lia|].
        intros b3 w6 Hwf3 Ho3 Hct3 Hcap3 Hg6. step. exists b3. split; [done|]. split; [done|].
        split; [by rewrite Hct3, Hct2, Hct1, <- app_assoc|]. split; [|done].
        rewrite length_app in *. simpl in *. lia.
      - step. exists b2. split; [done|]. split; [done|].
        split; [by rewrite Hct2, Hct1, app_nil_r|]. split; [lia|done]. }
    step. eapply wp_mono; [exact HF|]. intros r w6 (b3 & -> & Hwf3 & Hct3 & Hcap3 & Hg6).
    step. eapply g_string; [done|lia|exact Hg6|]. intros w7 Hg7. rewrite Hct3.
    step. eapply g_destroy; [exact Hg7|]. intros w8 Hg8.
    step. eapply g_dup_opt; [done|exact Hg8|]. intros w9 Hg9.
    step. eapply g_dup_opt; [done|exact Hg9|]. intros w10 Hg10. step.
    eexists. split; [done|]. split; [done|]. split; [|done].
    split; cbn [pl_db pl_urlbase pl_url pl_sep pl_last_seq pl_resolver feed_url option_map seq_ok].
    - done.
    - split; [done|]. split; [done|]. unfold short. lia.
    - destruct (pp_resolver params) as [r|]; [by apply Hres|done].
    - done.
    - unfold short, changes_url. rewrite !length_app. lia.
    - unfold sep. by destruct (pp_filter params).
    - done. }
  apply wp_run in HW as (r & w' & Hrun & p & -> & Hrest). exists p, w'. tauto.
Qed.

(** [url_encode] gives a terminated text that stands for the string it was
    given, for strings of seven bit characters. *)
Theorem url_encode_decode (s : list byte) w
  (Hs : short s) (Hascii : Forall (fun b => b2z b < 128) s) (Hg : good w m n) :
  exists blk text w', url_encode s w = Ret (blk, w') /\ cstr blk = Ret text /\
    url_decode text = s /\ good w' m n.
Proof.
  assert (wp (url_encode s) w (fun blk w' => blk = url_encoded s ++ [NUL] /\ good w' m n)) as HW
    by (eapply g_url_encode; [unfold short in *; lia|exact Hg|done]).
  apply wp_run in HW as (blk & w' & Hrun & -> & Hg'). exists (url_encoded s ++ [NUL]), (url_encoded s), w'.
  split; [done|]. split; [apply cstr_app, url_encoded_cstring|]. split; [by apply url_decode_encoded|done].
Qed.
End create.

(** ** Concrete runs *)

(** A network with the answers of a list, over any state. *)
#[export] Instance table_curl {X} (serve : list byte -> option (Z * list byte))
  : Curl X (option (list byte)) := {|
  curl_easy_init := ret (Some None);
  curl_easy_setopt h o s := ret (CURLE_OK, match o with CURLOPT_URL => Some s | _ => h end);
  curl_easy_transfer h :=
    match option_map serve h with
    | Some (Some (_, body)) => ret ([body], fun ok : bool => if ok then CURLE_OK else 23)
    | _ => ret ([], fun _ => 6)
    end;
  curl_easy_getinfo h :=
    match option_map serve h with
    | Some (Some (status, _)) => ret (CURLE_OK, status)
    | _ => ret (CURLE_OK, 0)
    end;
  curl_easy_cleanup _ := ret tt;
|}.

#[export] Instance table_server {X} serve
  : CurlServer (X := X) (H := table_curl serve) serve.
Proof.
  refine {| url_of h := h |}; intros; cbn [curl_easy_init curl_easy_setopt curl_easy_transfer
    curl_easy_getinfo curl_easy_cleanup table_curl].
  - apply wp_ret. auto using quiet_refl.
  - apply wp_ret. auto using quiet_refl.
  - subst h. cbn [option_map]. destruct (serve u) as [[status body]|] eqn:E; apply wp_ret;
      match goal with HQ : forall _ _ _, quiet _ _ -> _ |- _ =>
        apply HQ; [apply quiet_refl|] end.
    + cbn [concat length]. rewrite app_nil_r. split; [done|]. split; [lia|done].
    + done.
  - subst h. cbn [option_map]. destruct (serve u) as [[status body]|] eqn:E; apply wp_ret;
      match goal with HQ : forall _ _, quiet _ _ -> _ |- _ =>
        apply HQ; [apply quiet_refl|done] end.
  - apply wp_ret. match goal with HQ : forall _, quiet _ _ -> _ |- _ =>
        apply HQ; apply quiet_refl end.
Defined.

Definition t_base : list byte := lit "http://h:1/db".
Definition t_text : list byte := lit "2-07070707070707070707070707070707".
Definition t_change : tree :=
  TObject [(lit "seq", TInteger 1); (lit "id", TString (lit "a"));
           (lit "changes", TArray [TObject [(lit "rev", TString t_text)]])].
Definition t_feed : tree := TObject [(lit "results", TArray [t_change])].
Definition t_old : rev_t := rv 1.
Definition t_doc (old : list rev_t) : tree :=
  TObject [(lit "n", TInteger 7);
           (lit "_revisions", TObject [(lit "start", TInteger 2);
              (lit "ids", TArray (map (fun r => TString (hex_string r)) (rv 7 :: old)))])].

(** The server: the feed and the document, with the history it is asked for. *)
Definition t_serve (old : list rev_t) (u : list byte) : option (Z * list byte) :=
  if decide (u = t_base ++ lit "/_changes") then Some (200, tree_text t_feed)
  else if decide (u = doc_url t_base (lit "a") t_text) then Some (200, tree_text (t_doc old))
  else if decide (u = lit "http://gone/_changes") then Some (404, [])
  else None.

Lemma t_serve_small old : Z.of_nat (length (tree_text (t_doc old))) < 2 ^ 31 ->
  serve_small (t_serve old).
Proof.
  intros Ho u status body. unfold t_serve.
  repeat case_decide; intros [= <- <-] || intros [=]; [|done|done].
  vm_compute. reflexivity.
Qed.

Definition t_object : tree := TObject [(lit "n", TInteger 7)].
Definition t_offer (old : list rev_t) : offer tree :=
  Offer (lit "a") t_text (LaRev 2 (rv 7)) old t_object (tree_text t_object).

(** The database before: a document "a" with one revision. *)
Definition t_local : doc := Doc 1 1 0 (rv 1) [] (tree_text t_object).
Definition t_docs : gmap (list byte) doc := {[ lit "a" := t_local ]}.

Definition t_puller (url : list byte) (resolver : la_pull_conflict_resolver)
  : la_pull (X := mapdb) (V := tree) :=
  Puller md_db None None 0 None (t_base ++ [NUL]) (url ++ [NUL]) (z2b 63) None resolver.

Definition t_ready_puller (resolver : la_pull_conflict_resolver) : la_pull (X := mapdb) (V := tree) :=
  with_buffer (Some (LaBuffer (replicate 1024 x00) 0 1024 true)) (t_puller t_base resolver).

Abbreviation t_good := (good md_driver md_store).

Lemma t_good_docs : t_good (md_world t_docs 3 []) t_docs 3.
Proof.
  split; [|split; [reflexivity|done]]. apply md_world_repr. apply (bool_decide_unpack _).
  vm_compute. reflexivity.
Qed.

Lemma t_storable old :
  bool_decide (doc_wf (remote_doc (t_offer old))) = true -> storable 5 None (t_offer old).
Proof.
  intros Hd%bool_decide_eq_true. split; try done.
  - exists t_object. split; [|split; [apply (bool_decide_unpack _); vm_compute; reflexivity|done]].
    exists t_object, [tree_text t_object]. repeat split; vm_compute; reflexivity.
  - split; [apply (bool_decide_unpack _); vm_compute; reflexivity|reflexivity].
Qed.

Lemma t_entry_ok old :
  bool_decide (doc_wf (remote_doc (t_offer old))) = true ->
  fetched (t_serve old) (doc_url t_base (lit "a") t_text) = Some (t_doc old) ->
  entry_ok 5 (t_serve old) None t_base (Some (tree_of t_change)) (Some (t_offer old)).
Proof.
  intros Hd Hf. split; [|split; [by apply t_storable|]].
  - split; [| |split; [apply (bool_decide_unpack _); vm_compute; reflexivity|reflexivity]..].
    + exists (TString (lit "a")), (TString t_text). repeat split; vm_compute; reflexivity.
    + vm_compute. reflexivity.
  - exists (t_doc old). split; [exact Hf|].
    exists (TObject [(lit "start", TInteger 2);
              (lit "ids", TArray (map (fun r => TString (hex_string r)) (rv 7 :: old)))]),
           (TInteger 2), (TArray (map (fun r => TString (hex_string r)) (rv 7 :: old))).
    repeat split.
    + cbn -[hex_string rv]. by rewrite !length_map.
    + intros j r Hj. exists (TString (hex_string r)). split; [|done].
      change (json_array_get (TArray ?l) (Z.of_nat j)) with
        (if 0 <=? Z.of_nat j then l !! Z.to_nat (Z.of_nat j) else None).
      rewrite (proj2 (Z.leb_le 0 _)) by lia. rewrite Nat2Z.id, list_lookup_fmap.
      change (of_history (t_offer old)) with (rv 7 :: old) in Hj. by rewrite Hj.
Qed.

Abbreviation theirs := la_pull_conflict_resolver_theirs.
Abbreviation mine_ := la_pull_conflict_resolver_mine.

Lemma t_ready resolver : (forall k a b, (resolver k a b).1 <> LA_PULL_RESOLVE_TAKE_MERGED) ->
  ready md_driver md_store (Some (Env [])) (lit "BDB") None t_base (t_ready_puller resolver).
Proof.
  intros Hr. split; [reflexivity| | |exact Hr].
  - eexists. split; [reflexivity|]. repeat split; simpl; unfold PTRDIFF_MAX; lia.
  - split; [reflexivity|]. split; [apply (bool_decide_unpack _); vm_compute; reflexivity|reflexivity].
Qed.

Lemma t_startable url resolver : (forall k a b, (resolver k a b).1 <> LA_PULL_RESOLVE_TAKE_MERGED) ->
  cstring url -> short url ->
  startable md_driver md_store (Some (Env [])) (lit "BDB") None t_base (t_puller url resolver) url None.
Proof.
  intros Hr Hc Hs. split; [reflexivity| |exact Hr|by split|by split|done|by split].
  split; [reflexivity|]. split; [apply (bool_decide_unpack _); vm_compute; reflexivity|reflexivity].
Qed.

Lemma la_pull_run_correct_witness :
  exists p' w' s',
    la_pull_run digest16 5 None (H0 := table_curl (t_serve [t_old; rv 2]))
      (t_puller (t_base ++ lit "/_changes") mine_) (md_world t_docs 3 []) = Ret ((0, p'), w') /\
    t_good w' s'.1 s'.2 /\
    s' = pull_entries None mine_ overlaps (t_docs, 3) [Some (t_offer [t_old; rv 2])] /\
    (regular_run None mine_ part_of (t_docs, 3) [Some (t_offer [t_old; rv 2])] ->
     s' = pull_entries None mine_ part_of (t_docs, 3) [Some (t_offer [t_old; rv 2])]) /\
    pl_last_seq p' = option_map block (last_seq (tree_of t_feed)).
Proof.
  apply (la_pull_run_correct (Curl0 := table_curl (t_serve [t_old; rv 2])) digest16 5 None (t_serve [t_old; rv 2])
           (t_serve_small [t_old; rv 2] ltac:(vm_compute; reflexivity)) md_driver md_store
           (Some (Env [])) (lit "BDB") None t_base (t_puller (t_base ++ lit "/_changes") mine_)
           (t_base ++ lit "/_changes") None (tree_of t_feed) (tree_of (TArray [t_change]))
           [Some (t_offer [t_old; rv 2])] t_docs 3 (md_world t_docs 3 [])).
  - apply t_startable; [done|apply (bool_decide_unpack _); vm_compute; reflexivity|reflexivity].
  - apply t_good_docs.
  - vm_compute. reflexivity.
  - vm_compute. exact I.
  - vm_compute. reflexivity.
  - reflexivity.
  - reflexivity.
  - intros [|j] e Hj; [|done]. injection Hj as <-.
    apply t_entry_ok; vm_compute; reflexivity.
  - lia.
  - reflexivity.
Defined.

(** The run of the witness is regular, and stores the server's document over the older one. *)
Example t_run_regular : regular_run None mine_ part_of (t_docs, 3) [Some (t_offer [t_old; rv 2])].
Proof.
  split; [|done]. intros d Hd. assert (d = t_local) as -> by (by injection Hd). split.
  - intros [|i] j r Hi Hj; [|destruct i; done]. injection Hi as <-.
    destruct j as [|[|[|j]]]; try done. left. exists [rv 2]. done.
  - vm_compute. discriminate.
  - vm_compute. discriminate.
Qed.

Example t_run_stores :
  (pull_entries None mine_ part_of (t_docs, 3) [Some (t_offer [t_old; rv 2])]).2 = 4.
Proof. vm_compute. reflexivity. Qed.

Lemma la_pull_run_refused_witness :
  exists p' w',
    la_pull_run digest16 5 None (H0 := table_curl (t_serve []))
      (t_puller (lit "http://gone/_changes") mine_) (md_world t_docs 3 []) = Ret ((-1, p'), w') /\
    t_good w' t_docs 3 /\ pl_last_seq p' = None.
Proof.
  apply (la_pull_run_refused (Curl0 := table_curl (t_serve [])) digest16 5 None (t_serve [])
           (t_serve_small [] ltac:(vm_compute; reflexivity)) md_driver md_store
           (Some (Env [])) (lit "BDB") None t_base (t_puller (lit "http://gone/_changes") mine_)
           (lit "http://gone/_changes") None t_docs 3 (md_world t_docs 3 [])).
  - apply t_startable; [done|apply (bool_decide_unpack _); vm_compute; reflexivity|reflexivity].
  - apply t_good_docs.
  - vm_compute. reflexivity.
Defined.

Lemma pull_first_update_kept_witness :
  exists p' w',
    pull_change digest16 5 None (H0 := table_curl (t_serve [t_old])) (t_ready_puller mine_)
      (Some (tree_of t_change)) (md_world t_docs 3 []) = Ret (p', w') /\ t_good w' t_docs 3.
Proof.
  apply (pull_first_update_kept (Curl0 := table_curl (t_serve [t_old])) digest16 5 None (t_serve [t_old])
           (t_serve_small [t_old] ltac:(vm_compute; reflexivity)) md_driver md_store
           (Some (Env [])) (lit "BDB") None t_base (t_ready_puller mine_) (Some (tree_of t_change))
           (t_offer [t_old]) t_local t_object t_docs 3 (md_world t_docs 3 [])).
  - by apply t_ready.
  - apply t_entry_ok; vm_compute; reflexivity.
  - apply t_good_docs.
  - lia.
  - reflexivity.
  - vm_compute. reflexivity.
  - reflexivity.
  - reflexivity.
  - vm_compute. discriminate.
  - vm_compute. reflexivity.
Defined.

Lemma pull_change_twice_witness :
  exists p1 w1 p2 w2 m' n',
    pull_change digest16 5 None (H0 := table_curl (t_serve [t_old])) (t_ready_puller theirs)
      (Some (tree_of t_change)) (md_world t_docs 3 []) = Ret (p1, w1) /\ t_good w1 m' n' /\
    pull_change digest16 5 None (H0 := table_curl (t_serve [t_old])) p1
      (Some (tree_of t_change)) w1 = Ret (p2, w2) /\ t_good w2 m' n'.
Proof.
  apply (pull_change_twice (Curl0 := table_curl (t_serve [t_old])) digest16 5 None (t_serve [t_old])
           (t_serve_small [t_old] ltac:(vm_compute; reflexivity)) md_driver md_store
           (Some (Env [])) (lit "BDB") None t_base (t_ready_puller theirs) (Some (tree_of t_change))
           (t_offer [t_old]) t_docs 3 (md_world t_docs 3 [])).
  - by apply t_ready.
  - apply t_entry_ok; vm_compute; reflexivity.
  - apply t_good_docs.
  - lia.
  - vm_compute. discriminate.
Defined.

Definition t_params : la_pull_params (V := tree) :=
  PullParams (lit "h") 5984 (lit "db") (Some (lit "me")) None (Some (lit "app/mine")) LA_PULL_SECURE
    None.

Lemma la_pull_create_correct_witness :
  exists p w', la_pull_create md_db t_params (md_world t_docs 3 []) = Ret (Some p, w') /\
    t_good w' t_docs 3 /\
    startable md_driver md_store (Some (Env [])) (lit "BDB") None (base_url t_params) p
      (changes_url t_params) None /\
    pl_user p = pp_user t_params /\ pl_password p = pp_password t_params /\
    pl_resolver p = match pp_resolver t_params with
                    | Some r => r | None => la_pull_conflict_resolver_mine end.
Proof.
  apply (la_pull_create_correct md_driver md_store (Some (Env [])) (lit "BDB") None t_docs 3
           t_params (md_world t_docs 3 [])).
  - apply t_good_docs.
  - apply (bool_decide_unpack _). vm_compute. reflexivity.
  - apply (bool_decide_unpack _). vm_compute. reflexivity.
  - vm_compute. reflexivity.
  - split; [apply (bool_decide_unpack _); vm_compute; reflexivity|reflexivity].
  - exact I.
  - discriminate.
Defined.

Example t_changes_url : changes_url t_params = lit "https://h:5984/db/_changes?filter=app/mine".
Proof. vm_compute. reflexivity. Qed.

Lemma url_encode_decode_witness :
  exists blk text w', url_encode (lit "a b/c") (md_world t_docs 3 []) = Ret (blk, w') /\
    cstr blk = Ret text /\ url_decode text = lit "a b/c" /\ t_good w' t_docs 3.
Proof.
  apply (url_encode_decode md_driver md_store t_docs 3 (lit "a b/c") (md_world t_docs 3 [])).
  - vm_compute. reflexivity.
  - apply (bool_decide_unpack _). vm_compute. reflexivity.
  - apply t_good_docs.
Defined.

(** Two runs: the second appends the sequence number to the URL of the first. *)
Example since_twice :
  match since_url (with_last_seq (Some (lit "[9]" ++ [NUL]))
      (with_url (feed_url (lit "u") (z2b 63) (Some (lit "[5]")) ++ [NUL]) (t_puller [] mine_)))
      (md_world t_docs 3 []) with
  | Ret (p', _) => cstr (pl_url p')
  | Undef u => Undef u
  end = Ret (lit "u?since=[5]?since=[9]").
Proof. vm_compute. reflexivity. Qed.
